(* ===== verification/_CoqProject ===== *)
-Q . S2P
Prelude.v
Ints.v
TsuHw.v
Double.v
PtpTime.v
TsuTime.v
Timesync.v
TtcTimer.v
PtpWire.v
PtpSync.v
Lwip.v
Lift.v
Ptp.v
BdRing.v
EmacPs.v
Dma.v
DmaTx.v
Xemacpsif.v
MacFilter.v
NicTheorems.v
DmaRx.v
DmaInit.v
BdSpace.v
Interleave.v
Fifo.v
Link.v
NetifInit.v
Crc.v
Gptp.v
Ethernet.v
Reception.v
System.v
Exchange.v
ServoLoop.v
ServoBound.v
ServoDrift.v
Types.v
Program.v
