(* ===== verification/Prelude.v ===== *)
(** * A verification library for the bare-metal PTP/gPTP slave

    The repository is firmware for one core of a Zynq UltraScale+ without an
    operating system: a slave clock for IEEE 1588 that keeps the time-stamping
    unit (TSU) of the GEM Ethernet controller in step with a master.  Messages
    come in through the network interface driver, over UDP or as raw Ethernet
    frames, reach the interpreter for PTP messages, which computes the
    difference of the clocks and reports it to a servo; the servo writes the
    correction register of the TSU and tells the synchronisation state machine.

    ** The parts, and where they are

    Every file of the library models a source file under [src/IEEE1588/], one
    definition per function, composed as the functions call each other.
    Faults of C code (a null pointer followed, an access outside an array,
    signed overflow, a failed assertion, a value that was never set, a loop
    that does not end) are results of their own, so a theorem that a function
    returns [Ok] also says that none of them happens.

    - [Prelude], [Ints], [Double]: outcomes, the state and fault monad, lenses,
      the relation [keeps]; machine integers and arrays of bytes; binary64.
    - [PtpTime], [PtpWire], [PtpSync]: [ptp_sync.c].  Timestamps and their
      arithmetic, the packed messages, the static variables, the three
      callbacks and [ptp_sync_interpreter].
    - [TsuHw], [TsuTime]: [ttc_tsu/tsu_time.c] over the registers of the TSU.
    - [TtcTimer]: [ttc_tsu/ttc_timer.c].
    - [Timesync]: [timesync.c], the handlers and the abstract machine they
      refine.
    - [Ptp]: [ptp.c], the servo, delay requests over UDP, the UDP receivers.
    - [Crc], [Gptp]: [gptp.c], the hash filter and delay requests as frames.
    - [Lwip], [Lift]: what the sources use of the TCP/IP stack, and the same
      over a larger state.
    - [BdRing], [EmacPs]: what the sources use of the driver of the controller.
    - [Dma]: [netif/xemacpsif_dma.c]; its theorems are in [DmaTx]
      (transmission), [DmaRx] (reception), [DmaInit] (initialisation and
      recovery) and [BdSpace] (the memory for descriptors).
    - [Xemacpsif], [NetifInit]: [netif/xemacpsif.c]; theorems also in
      [MacFilter] (multicast filters) and [NicTheorems] (input, the memory for
      descriptors).
    - [Interleave]: the driver of the interface as a whole, with its events in
      any order, and each event as a step of two queues of buffers; [Fifo]: runs
      of the driver as runs of these queues.
    - [Link]: the driver as the stack under the protocols: what a client
      asks of [Lwip] is asked of the stack inside the driver, and what it
      sends goes to [low_level_output].
    - [Ethernet]: [netif/ethernet.c] and [gptp_hook.c]; [Reception]: the way of
      a frame from the queue of the driver to the interpreter and of the
      answer back.
    - [System]: [init_param], [start_timesync] and [timesync_init] of
      [timesync.c], and the program as a whole.
    - [Exchange]: a whole exchange of messages, from the frames to the timer.
    - [ServoLoop], [ServoBound]: the servo in closed loop with the timer;
      [ServoDrift]: the same between clocks that drift apart.
      [Types]: the C types of all variables, kept by every entry of the
      program.  [Program]: all activities of the program in any order.

    The state is layered as the program is.  [program] is the [world] of the
    interpreter: the variables of [ptp_sync.c] and those of its client [ptp],
    the transports.  The transports have two parts: their own client
    [timesync], with the TSU driver [tsu] inside, and the interface [nic],
    with the stack, the controller, and the variables of the driver.  A
    function that works on one of them is lifted along a lens.

    ** What is outside

    lwIP, the board support package, the driver of the controller and of the
    timer counter, and the generated headers are not in the repository.  They
    are type classes of operations ([Lwip], [Xil], [EmacPs], [Ttc], [Board],
    [InitEnv], [GemOptions], [EthConfig]; the class [Link] is what the
    protocols call of the driver, and the driver implements it), with documented behaviour as classes
    of laws over an abstract view ([LwipLaws], [TsuHwLaws], [EmacPsLaws],
    [RingsCreated], [ArrivalsLaws], [TtcLaws]).  Each has a concrete instance ([net],
    [sim], [gemsim], [board], ...) for which the laws are proved and on which
    the witnesses compute: the laws are consistent, and every hypothesis of a
    theorem can hold.

    ** What the theorems show

    - Messages ([PtpSync], [PtpTime]).  A whole exchange runs and reports the
      receive time at the master minus the system time ([ptp_exchange],
      [delay_resp_calc_is_t4]), so that the path delay cancels and the
      latency of the delay response stays as an error ([delay_resp_bias]).
      Timestamps survive the wire; short or malformed messages are read out of
      bounds or overflow.
    - The timer ([TsuTime]).  Readings are not torn; settings and corrections
      have the stated effect; the increments are those of the clock, and are
      what set-up writes ([init_tsu_programs_timer]).  The tick of the other
      timer ([TtcTimer]) is enabled exactly if its set-up succeeds
      ([tick_setup]).
    - The synchronisation ([Timesync]).  Every handler is a step of an abstract
      machine, with its invariant; the periods of resynchronisation; pulses.
    - The servo ([System]).  Its correction in one report, and what follows over
      many: the last correction is repeated within the dead band
      ([stale_correction_repeats]), the integral is unbounded
      ([integral_overflows]), fine synchronisation is never left
      ([fine_is_final]).  In closed loop ([ServoLoop], [ServoBound]), with
      clocks that run alike and responses that take a constant time, an offset
      below a second is brought into the dead band of 500 ns around that
      latency within 231 reports, and stays within 135 us of it, also when
      the responses are then disturbed by up to 50 ns ([servo_catches_up]);
      but it never rests ([servo_never_settles]).  Between clocks that drift
      apart by more than 600 ns a report it does: the integral takes the drift
      up, and after 400 reports the timer is at the latency, up to the
      disturbances ([ServoDrift], [servo_locks_under_drift]).
    - The types ([Types]).  A check of the model: every static variable keeps a
      value of its C type ([variables_keep_types]).
    - The exchange ([Exchange]).  Three frames in the queue of the driver, and
      what they do to the registers of the TSU: the timer then shows the
      receive time of the delay response, to within a nanosecond and four
      accesses, plus a twentieth of the integral
      ([exchange_disciplines_timer]).
    - Frames ([Ethernet], [Reception], [NicTheorems], [Ptp], [Gptp]).  A received
      frame is passed to one layer and released exactly once, from the queue
      of the driver to the interpreter, also when the interpreter sends
      meanwhile ([received_frame_released_once]); frames sent are as the
      protocol says, and the delay request that answers a follow-up reaches the
      queue of transmission ([gptp_delay_request_frame], [follow_up_answered]).
    - The controller ([DmaTx], [DmaRx], [DmaInit], [MacFilter],
      [NicTheorems], [Interleave]).  Rings and arrays of buffers agree:
      transmission hands over whole chains and releases each buffer once;
      reception owns each buffer once, in the ring or in the queue;
      initialisation establishes and recovery restores both invariants, except
      after a shortage of memory
      ([recovery_frees_queued]) and at most fifteen times, or seven
      ([BdSpace], [recoveries_bounded]).  For any order of all these operations
      in which recoveries happen only where they restore the driver (all receive
      descriptors armed, 256 KiB left for descriptors) and the filter changes
      only at rest ([allowed]), no event
      faults, and the references of the program to its buffers are its own
      affair ([driver_conserves_buffers]): no leak and no theft.  To its
      client the driver is two bounded queues: chains are sent and frames given
      out in the order in which they came, each once
      ([Fifo], [driver_refines_queues]).
    - The program ([Program]).  From the initialisation on, in any order of
      received frames, messages over UDP, interrupts, service
      calls and progress of the hardware, with recoveries and changes of the
      filter where they are allowed, the invariants of both rings hold
      and no reference to a buffer is lost or made
      ([program_conserves_buffers]).

    ** Configuration, bounds and fuel

    Modelled is the standalone configuration ([NO_SYS]) for ARMv8, without
    jumbo frames, padding word and blocking transmission, with IPv4 and ARP,
    without PPPoE; IPv6 and VLAN support are parameters.

    Loops over an index are structural ([for_range]).  Fuel appears three
    times.  [process_sent_loop] starts with one more than the descriptors of
    the hardware, of which every round takes at least one
    ([sent_descriptors_released]).  [pbuf_chain] starts with [max_chain], the
    most buffers that fit into memory; longer chains are excluded where they
    are sent.  [receive_loop] takes its fuel from outside, because the hardware
    may fill descriptors while the handler runs: one more than the frames that
    arrive is enough ([receive_keeps_ownership]).  Running out of fuel is the
    fault [Hang].

    ** Not modelled, and why

    The address of a block of [bd_space] past its end is a fault where it is
    taken ([take_bd_space]); the code only writes there later.  Lengths of
    messages to be sent are converted to [u16_t]; the only caller passes 44
    bytes, where the conversion changes nothing.  Setting the timer leaves the
    upper seconds register of the TSU out, as the sources do.

    Caches, barriers and the memory attributes of buffers have no counterpart in
    a sequential model.  Interrupts run between operations and, where the
    sources wait for one, inside them (the argument [isr] of [wait_tx]); the
    sources protect the operations of the main loop on the driver with
    [SYS_ARCH_PROTECT].  The UDP receivers are not chained to [ip4_input],
    because the dispatch between them is the stack's; for the same reason a
    datagram that is sent stays a request to the stack ([udp_sendto]), while
    what gPTP sends goes through the driver.  Code that the
    configuration leaves out ([vTimerCallback], the blocking transmission, the
    MIB counters, the PPPoE branches) and code between [#if 0] is left out.
    [lwipopts_extern.h] only names a header.

    ** What is left

    The servo under drifts smaller than its dead band, and disturbed reports
    while it catches up without a drift; the dispatch of datagrams inside the
    stack, which would tie the UDP receivers to the frames.
*)

From Stdlib Require Export ZArith Lia.
From stdpp Require Export base list numbers strings option.

#[global] Open Scope Z_scope.

(** [lia] knows [/], [mod], [÷] and [rem]. *)
Ltac Zify.zify_post_hook ::= Z.to_euclidean_division_equations.

(** ** Outcomes of C code

    A C function returns a value or its execution is cut short.  The faults
    are the ones the sources can run into. *)

Inductive fault :=
  | AssertFailed (msg : string)
  | NullDeref (what : string)
  | SignedOverflow
  | OutOfBounds (index : Z)
  | Hang (what : string)
  | Indeterminate (what : string).

Inductive outcome (A : Type) :=
  | Ok (a : A)
  | Fault (f : fault).
Arguments Ok {A} _.
Arguments Fault {A} _.

#[global] Instance fault_eq_dec : EqDecision fault.
Proof. solve_decision. Defined.

#[global] Instance outcome_eq_dec `{EqDecision A} : EqDecision (outcome A).
Proof. solve_decision. Defined.

#[global] Instance outcome_ret : MRet outcome := λ A a, Ok a.

#[global] Instance outcome_bind : MBind outcome := λ A B f m,
  match m with
  | Ok a => f a
  | Fault e => Fault e
  end.

Definition is_Ok {A} (o : outcome A) : bool :=
  match o with
  | Ok _ => true
  | Fault _ => false
  end.

(** ** Code that reads and writes memory: state and fault *)

Definition M (S A : Type) : Type := S → outcome (A * S).

#[global] Instance M_ret S : MRet (M S) := λ A a s, Ok (a, s).

#[global] Instance M_bind S : MBind (M S) := λ A B f m s,
  match m s with
  | Ok (a, s') => f a s'
  | Fault e => Fault e
  end.

Definition fail {S A} (f : fault) : M S A := λ _, Fault f.
Definition gets {S A} (f : S → A) : M S A := λ s, Ok (f s, s).
Definition modify {S} (f : S → S) : M S unit := λ s, Ok (tt, f s).
Definition lift {S A} (o : outcome A) : M S A := λ s,
  match o with
  | Ok a => Ok (a, s)
  | Fault e => Fault e
  end.

(** [assert(b && "msg")] *)
Definition c_assert {S} (msg : string) (b : bool) : M S unit :=
  if b then mret tt else fail (AssertFailed msg).

(** [if (b) m;] *)
Definition when {S} (b : bool) (m : M S unit) : M S unit :=
  if b then m else mret tt.

(** A component of the state, and a computation of the component run on the
    whole state. *)
Record lens (S T : Type) := Lens {
  lget : S → T;
  lput : T → S → S
}.
Arguments Lens {S T} _ _.
Arguments lget {S T} _ _.
Arguments lput {S T} _ _ _.

Class LensLaws {S T} (l : lens S T) : Prop := {
  lget_lput : ∀ t s, lget l (lput l t s) = t;
  lput_lget : ∀ s, lput l (lget l s) s = s;
  lput_lput : ∀ t t' s, lput l t (lput l t' s) = lput l t s
}.

Definition zoom {S T A} (l : lens S T) (m : M T A) : M S A := λ s,
  match m (lget l s) with
  | Ok (a, t) => Ok (a, lput l t s)
  | Fault e => Fault e
  end.

(** [for (i = from; i < from + n; i++) body(i);] *)
Fixpoint for_range {S} (from : nat) (n : nat) (body : nat → M S unit) : M S unit :=
  match n with
  | O => mret tt
  | Datatypes.S n' => body from ;; for_range (Datatypes.S from) n' body
  end.

(** Equations that run a computation, collected in the rewrite base [mrun]. *)

Section Run.
Context {S A B : Type}.
Implicit Types s : S.

Lemma run_ret (a : A) s : (mret a : M S A) s = Ok (a, s).
Proof. done. Qed.

Lemma run_bind (m : M S A) (k : A → M S B) s :
  (m ≫= k) s = '(a, s') ← m s; k a s'.
Proof. unfold mbind, M_bind, outcome_bind. by destruct (m s) as [[]|]. Qed.

Lemma run_gets (f : S → A) s : gets f s = Ok (f s, s).
Proof. done. Qed.

Lemma run_modify (f : S → S) s : modify f s = Ok (tt, f s).
Proof. done. Qed.

Lemma run_fail e s : (fail e : M S A) s = Fault e.
Proof. done. Qed.

Lemma run_lift_Ok (a : A) s : lift (Ok a) s = Ok (a, s).
Proof. done. Qed.

Lemma bind_Ok_l (a : A) (k : A → outcome B) : (Ok a ≫= k) = k a.
Proof. done. Qed.

Lemma bind_Fault_l e (k : A → outcome B) : (Fault e ≫= k) = Fault e.
Proof. done. Qed.

Lemma bind_Ok (m : outcome A) (k : A → outcome B) b :
  (m ≫= k) = Ok b ↔ ∃ a, m = Ok a ∧ k a = Ok b.
Proof. destruct m; naive_solver. Qed.

Lemma run_bind_Ok (m : M S A) (k : A → M S B) s b s' :
  (m ≫= k) s = Ok (b, s') ↔ ∃ a s1, m s = Ok (a, s1) ∧ k a s1 = Ok (b, s').
Proof.
  unfold mbind, M_bind. destruct (m s) as [[a s1]|e].
  - split; [by eauto|]. intros (?&?&[= <- <-]&?). done.
  - split; [done|]. intros (?&?&?&?). done.
Qed.

Lemma run_lift_inv (o : outcome A) s a s' :
  lift o s = Ok (a, s') ↔ o = Ok a ∧ s' = s.
Proof. unfold lift. destruct o; naive_solver. Qed.
End Run.

Lemma run_zoom {S T A} (l : lens S T) (m : M T A) s :
  zoom l m s = '(a, t) ← m (lget l s); Ok (a, lput l t s).
Proof. unfold zoom. by destruct (m (lget l s)) as [[]|]. Qed.

Lemma zoom_Ok {S T A} (l : lens S T) (m : M T A) s a s' :
  zoom l m s = Ok (a, s') ↔ ∃ t, m (lget l s) = Ok (a, t) ∧ s' = lput l t s.
Proof.
  unfold zoom. destruct (m (lget l s)) as [[? ?]|]; naive_solver.
Qed.

Create Rewrite HintDb mrun.
#[export] Hint Rewrite @run_ret @run_bind @run_gets @run_modify @run_fail
  @run_lift_Ok @bind_Ok_l @bind_Fault_l @run_zoom : mrun.

(** Execute a computation as far as its equations go. *)
Ltac mrun := repeat (autorewrite with mrun; cbn).

(** Unfold the monad and execute, for states whose fields are known. *)
Ltac mexec :=
  cbv beta iota delta [mbind M_bind outcome_bind mret M_ret outcome_ret gets modify
    lift zoom when c_assert fail lget lput]; cbn.

(** Take apart hypotheses that say a computation returned. *)
Ltac minv_step :=
  match goal with
  | H : Ok _ = Ok _ |- _ => injection H as H
  | H : Fault _ = Ok _ |- _ => discriminate H
  | H : Ok _ = Fault _ |- _ => discriminate H
  | H : (_ ≫= _) ?s = Ok (_, _) |- _ =>
      apply run_bind_Ok in H; destruct H as (?&?&?&H)
  | H : (_ ≫= _) = Ok _ |- _ => apply bind_Ok in H; destruct H as (?&?&H)
  | H : lift _ _ = Ok (_, _) |- _ => apply run_lift_inv in H; destruct H as [??]
  | H : (mret _) _ = Ok _ |- _ => rewrite run_ret in H
  | H : gets _ _ = Ok _ |- _ => rewrite run_gets in H
  | H : modify _ _ = Ok _ |- _ => rewrite run_modify in H
  | H : fail _ _ = Ok _ |- _ => discriminate H
  | H : zoom _ _ _ = Ok (_, _) |- _ => apply zoom_Ok in H; destruct H as (?&?&H)
  | H : (let '(_, _) := ?x in _) _ = Ok _ |- _ => is_var x; destruct x
  | H : (let '(_, _) := ?x in _) = Ok _ |- _ => is_var x; destruct x
  | H : (_, _) = (_, _) |- _ => injection H as H
  end.
Ltac minv := repeat (minv_step; simplify_eq/=).

Lemma for_range_app {S} (body : nat → M S unit) n m from s :
  for_range from (n + m) body s =
  (for_range from n body ;; for_range (from + n) m body) s.
Proof.
  revert from s. induction n as [|n IH]; intros from s; cbn.
  - by rewrite Nat.add_0_r.
  - rewrite !run_bind. destruct (body from s) as [[[] s1]|]; cbn; [|done].
    rewrite IH, run_bind. by replace (Datatypes.S from + n)%nat
      with (from + Datatypes.S n)%nat by lia.
Qed.

Lemma for_range_ext {S} (f g : nat → M S unit) from n s :
  (∀ i t, (from ≤ i < from + n)%nat → f i t = g i t) →
  for_range from n f s = for_range from n g s.
Proof.
  revert from s. induction n as [|n IH]; intros from s Hfg; cbn; [done|].
  rewrite !run_bind, Hfg by lia.
  destruct (g from s) as [[[] s1]|]; cbn; [|done].
  apply IH. intros. apply Hfg. lia.
Qed.

(** A property every iteration keeps is kept by the loop. *)
Lemma for_range_inv {S} (P : nat → S → Prop) body from n s s' :
  (∀ i t t', (from ≤ i < from + n)%nat → P i t → body i t = Ok (tt, t') → P (Datatypes.S i) t') →
  P from s → for_range from n body s = Ok (tt, s') → P (from + n)%nat s'.
Proof.
  revert from s. induction n as [|n IH]; intros from s Hstep HP; cbn.
  - intros H; minv. by rewrite Nat.add_0_r.
  - intros H; minv.
    match goal with H : body _ _ = Ok (?u, _) |- _ => destruct u end.
    replace (from + Datatypes.S n)%nat with (Datatypes.S from + n)%nat by lia.
    eapply IH; [|by eapply Hstep; eauto; lia|done].
    intros i t t' Hi. apply Hstep. lia.
Qed.

(** ** What a computation does to the state, as a relation *)

Definition keeps {S A} (Q : relation S) (m : M S A) : Prop :=
  ∀ s a s', m s = Ok (a, s') → Q s s'.

Create HintDb keeps.

Section Keeps.
Context {S : Type} (Q : relation S) `{!PreOrder Q}.

Lemma keeps_ret {A} (a : A) : keeps Q (mret a).
Proof. by intros s ? s' [= _ <-]. Qed.

Lemma keeps_gets {A} (f : S → A) : keeps Q (gets f).
Proof. by intros s ? s' [= _ <-]. Qed.

Lemma keeps_fail {A} e : keeps Q (fail e : M S A).
Proof. by intros s ? s'. Qed.

Lemma keeps_lift {A} (o : outcome A) : keeps Q (lift o).
Proof. by intros s ? s' [_ ->]%run_lift_inv. Qed.

Lemma keeps_modify f : (∀ s, Q s (f s)) → keeps Q (modify f).
Proof. by intros H s ? s' [= _ <-]. Qed.

Lemma keeps_bind {A B} (m : M S A) (k : A → M S B) :
  keeps Q m → (∀ a, keeps Q (k a)) → keeps Q (m ≫= k).
Proof. intros Hm Hk s b s' (a & s1 & H1 & H2)%run_bind_Ok. etrans; [by eapply Hm|by eapply Hk]. Qed.

Lemma keeps_when b m : keeps Q m → keeps Q (when b m).
Proof. destruct b; [done|]. intros _. apply keeps_ret. Qed.
End Keeps.

Lemma keeps_zoom {S T A} (Q : relation S) (R : relation T) (l : lens S T) (m : M T A) :
  (∀ s t, R (lget l s) t → Q s (lput l t s)) → keeps R m → keeps Q (zoom l m).
Proof. intros HQ Hm s a s' (t & Ht & ->)%zoom_Ok. apply HQ. by eapply Hm. Qed.

(** Walk through a computation; [keeps] holds the lemmas of its calls. *)
Ltac keeps_step :=
  first [ solve [auto with keeps] | apply keeps_bind; [apply _| |intros] | apply keeps_ret; apply _
    | apply keeps_gets; apply _ | apply keeps_fail; apply _ | apply keeps_lift; apply _
    | apply keeps_when; [apply _|]
    | apply keeps_modify; solve [intros; repeat split]
    | match goal with
      | |- keeps _ (match ?x with _ => _ end) => destruct x
      end ].
Ltac keeps_tac := repeat keeps_step.

(** ** Triples

    What a computation that returns leaves behind. *)

Definition triple {S A} (P : S → Prop) (m : M S A) (Q : A → S → Prop) : Prop :=
  ∀ s a s', P s → m s = Ok (a, s') → Q a s'.

(** A computation that keeps a property. *)
Definition stable {S A} (P : S → Prop) (m : M S A) : Prop := triple P m (λ _, P).

Create HintDb stable.

Section Triple.
Context {S : Type}.

Lemma triple_bind {A B} (P : S → Prop) (m : M S A) (k : A → M S B) R Q :
  triple P m R → (∀ a, triple (R a) (k a) Q) → triple P (m ≫= k) Q.
Proof. intros Hm Hk s b s' Hs (a & s1 & E1 & E2)%run_bind_Ok. eapply Hk; [|done]. by eapply Hm. Qed.

Lemma stable_bind {A B} (P : S → Prop) (m : M S A) (k : A → M S B) :
  stable P m → (∀ a, stable P (k a)) → stable P (m ≫= k).
Proof. apply triple_bind. Qed.

Lemma stable_ret {A} (P : S → Prop) (a : A) : stable P (mret a).
Proof. by intros s ? s' Hs [= <- <-]. Qed.

Lemma stable_gets {A} (P : S → Prop) (f : S → A) : stable P (gets f).
Proof. by intros s ? s' Hs [= <- <-]. Qed.

Lemma stable_fail {A} (P : S → Prop) e : stable P (fail e : M S A).
Proof. by intros s ? s' Hs. Qed.

Lemma stable_lift {A} (P : S → Prop) (o : outcome A) : stable P (lift o).
Proof. by intros s ? s' Hs [_ ->]%run_lift_inv. Qed.

Lemma stable_modify (P : S → Prop) f : (∀ s, P s → P (f s)) → stable P (modify f).
Proof. intros Hf s a s' Hs [= <- <-]. by apply Hf. Qed.

Lemma stable_when (P : S → Prop) b m : stable P m → stable P (when b m).
Proof. destruct b; [done|]. intros _. apply stable_ret. Qed.

(** A value that is read satisfies what is known of the state, and one that is
    computed what is known of the computation. *)
Lemma stable_gets_bind {A B} (P : S → Prop) (f : S → A) (R : A → Prop) (k : A → M S B) :
  (∀ s, P s → R (f s)) → (∀ a, R a → stable P (k a)) → stable P (gets f ≫= k).
Proof.
  intros Hf Hk. apply (triple_bind _ _ _ (λ a s, R a ∧ P s)).
  - intros s a s' Hs [= <- <-]. auto.
  - intros a s b s' [Ha Hs] E. by eapply Hk.
Qed.

Lemma stable_lift_bind {A B} (P : S → Prop) (o : outcome A) (R : A → Prop) (k : A → M S B) :
  (∀ a, o = Ok a → R a) → (∀ a, R a → stable P (k a)) → stable P (lift o ≫= k).
Proof.
  intros Ho Hk. apply (triple_bind _ _ _ (λ a s, R a ∧ P s)).
  - intros s a s' Hs [E ->]%run_lift_inv. auto.
  - intros a s b s' [Ha Hs] E. by eapply Hk.
Qed.
End Triple.

Lemma stable_zoom {S T A} (P : S → Prop) (R : T → Prop) (l : lens S T) (m : M T A) :
  (∀ s, P s → R (lget l s)) → (∀ s t, P s → R t → P (lput l t s)) → stable R m → stable P (zoom l m).
Proof. intros Hget Hput Hm s a s' Hs (t & Ht & ->)%zoom_Ok. apply Hput; [done|]. eapply Hm; eauto. Qed.

Ltac stable_step :=
  first [ solve [auto with stable] | apply stable_bind; [|intros] | apply stable_ret | apply stable_gets
    | apply stable_fail | apply stable_lift | apply stable_when
    | match goal with |- stable _ (match ?x with _ => _ end) => destruct x end ].
Ltac stable_tac := repeat stable_step.

(** Prove a closed decidable proposition by evaluating it. *)
Ltac by_computation := apply (bool_decide_unpack _); vm_compute; exact I.
