(* ===== verification/Ints.v ===== *)
(** * Fixed-width integers, bytes and arrays of bytes

    Integers are [Z] with the wrap-around of their C type written out.
    Conversions to an unsigned type reduce modulo [2^w]; conversions to a
    signed type take the two's complement representative, as the compilers of
    the target do.  Signed arithmetic ([+], [-], unary minus, [abs]) that
    leaves the type is undefined in C: it is the fault [SignedOverflow].
    A [uint8_t *] is a list of bytes; access outside it is the fault
    [OutOfBounds]. *)

From S2P Require Export Prelude.

(** ** Conversions *)

Definition to_u8 (z : Z) : Z := z mod 2 ^ 8.
Definition to_u16 (z : Z) : Z := z mod 2 ^ 16.
Definition to_u32 (z : Z) : Z := z mod 2 ^ 32.
Definition to_u64 (z : Z) : Z := z mod 2 ^ 64.
Definition to_i32 (z : Z) : Z := (z + 2 ^ 31) mod 2 ^ 32 - 2 ^ 31.
Definition to_i64 (z : Z) : Z := (z + 2 ^ 63) mod 2 ^ 64 - 2 ^ 63.

Definition in_i32 (z : Z) : Prop := - 2 ^ 31 ≤ z < 2 ^ 31.
Definition in_i64 (z : Z) : Prop := - 2 ^ 63 ≤ z < 2 ^ 63.
Definition in_u32 (z : Z) : Prop := 0 ≤ z < 2 ^ 32.

#[global] Instance in_i32_dec z : Decision (in_i32 z).
Proof. unfold in_i32. apply _. Defined.
#[global] Instance in_i64_dec z : Decision (in_i64 z).
Proof. unfold in_i64. apply _. Defined.
#[global] Instance in_u32_dec z : Decision (in_u32 z).
Proof. unfold in_u32. apply _. Defined.

(** The value of a signed expression, when its type holds it. *)
Definition i32 (z : Z) : outcome Z :=
  if decide (in_i32 z) then Ok z else Fault SignedOverflow.
Definition i64 (z : Z) : outcome Z :=
  if decide (in_i64 z) then Ok z else Fault SignedOverflow.

Lemma i32_Ok z : in_i32 z → i32 z = Ok z.
Proof. intros H. unfold i32. by rewrite decide_True. Qed.

Lemma i64_Ok z : in_i64 z → i64 z = Ok z.
Proof. intros H. unfold i64. by rewrite decide_True. Qed.

Lemma i32_overflow z : ¬ in_i32 z → i32 z = Fault SignedOverflow.
Proof. intros H. unfold i32. by rewrite decide_False. Qed.

Lemma i32_inv z r : i32 z = Ok r ↔ r = z ∧ in_i32 z.
Proof. unfold i32. case_decide; naive_solver. Qed.

Lemma i64_inv z r : i64 z = Ok r ↔ r = z ∧ in_i64 z.
Proof. unfold i64. case_decide; naive_solver. Qed.

Lemma to_u8_range z : 0 ≤ to_u8 z < 256.
Proof. unfold to_u8. lia. Qed.
Lemma to_u32_range z : in_u32 (to_u32 z).
Proof. unfold to_u32, in_u32. lia. Qed.
Lemma to_i32_range z : in_i32 (to_i32 z).
Proof. unfold to_i32, in_i32. lia. Qed.
Lemma to_i64_range z : in_i64 (to_i64 z).
Proof. unfold to_i64, in_i64. lia. Qed.
Lemma to_u32_small z : in_u32 z → to_u32 z = z.
Proof. unfold to_u32, in_u32. lia. Qed.
Lemma to_i32_small z : in_i32 z → to_i32 z = z.
Proof. unfold to_i32, in_i32. lia. Qed.
Lemma to_i64_small z : in_i64 z → to_i64 z = z.
Proof. unfold to_i64, in_i64. lia. Qed.
Lemma to_u64_small z : 0 ≤ z < 2 ^ 64 → to_u64 z = z.
Proof. unfold to_u64. lia. Qed.
Lemma to_i32_to_u32 z : in_i32 z → to_i32 (to_u32 z) = z.
Proof. unfold to_i32, to_u32, in_i32. lia. Qed.
Lemma to_u32_to_i32 z : in_u32 z → to_u32 (to_i32 z) = z.
Proof. unfold to_i32, to_u32, in_u32. lia. Qed.

(** Splits of C integers into ranges, for [lia]. *)
Ltac unfold_ints :=
  unfold in_i32, in_i64, in_u32, to_u8, to_u16, to_u32, to_u64, to_i32, to_i64 in *.
Ltac int_lia := unfold_ints; lia.

Create HintDb ints.
#[export] Hint Resolve to_u8_range to_u32_range to_i32_range : ints.

(** ** Bits and bytes *)

Definition is_byte (b : Z) : Prop := 0 ≤ b < 256.
#[global] Instance is_byte_dec b : Decision (is_byte b).
Proof. unfold is_byte. apply _. Defined.

Lemma land_255 z : Z.land z 255 = z mod 256.
Proof. change 255 with (Z.ones 8). by rewrite Z.land_ones by lia. Qed.

Lemma shiftr_8 z i : 0 ≤ i → Z.shiftr z (8 * i) = z / 256 ^ i.
Proof.
  intros. rewrite Z.shiftr_div_pow2 by lia.
  by rewrite Z.pow_mul_r by lia.
Qed.

Lemma land_255_byte z : is_byte (Z.land z 255).
Proof. rewrite land_255. unfold is_byte. lia. Qed.
#[export] Hint Resolve land_255_byte : ints.

(** [htons] and [lwip_htons] on the little-endian target, and
    [__builtin_bswap16]. *)
Definition bswap16 (z : Z) : Z :=
  Z.lor (Z.shiftl (Z.land z 255) 8) (Z.land (Z.shiftr z 8) 255).

Lemma lor_disjoint_add a b : Z.land a b = 0 → Z.lor a b = a + b.
Proof. intros H. by rewrite Z.add_nocarry_lxor, Z.lxor_lor. Qed.

(** A number below [2^k] and a multiple of [2^k] have no common bits. *)
Lemma land_shiftl_small a b k : 0 ≤ k → 0 ≤ b < 2 ^ k → Z.land (Z.shiftl a k) b = 0.
Proof.
  intros Hk Hb. apply Z.bits_inj'. intros n Hn.
  rewrite Z.land_spec, Z.shiftl_spec, Z.bits_0 by done.
  destruct (decide (n < k)).
  - by rewrite Z.testbit_neg_r by lia.
  - rewrite <-(Z.mod_small b (2 ^ k)) by done.
    rewrite Z.mod_pow2_bits_high by lia. apply andb_false_r.
Qed.

Lemma lor_shiftl_add a b k : 0 ≤ k → 0 ≤ b < 2 ^ k →
  Z.lor (Z.shiftl a k) b = a * 2 ^ k + b.
Proof.
  intros. rewrite lor_disjoint_add by by apply land_shiftl_small.
  by rewrite Z.shiftl_mul_pow2.
Qed.

Lemma bswap16_arith z : bswap16 z = z mod 256 * 256 + (z / 256) mod 256.
Proof.
  unfold bswap16. rewrite !land_255, Z.shiftr_div_pow2 by lia.
  rewrite lor_shiftl_add by lia. done.
Qed.

Lemma bswap16_involutive z : 0 ≤ z < 2 ^ 16 → bswap16 (bswap16 z) = z.
Proof. intros. rewrite !bswap16_arith. lia. Qed.

(** Big-endian numbers. *)
Fixpoint be_bytes (n : nat) (z : Z) : list Z :=
  match n with
  | O => []
  | S n' => (z / 256 ^ Z.of_nat n') mod 256 :: be_bytes n' z
  end.

Definition be_step (acc b : Z) : Z := acc * 256 + b.
Definition be_value (l : list Z) : Z := foldl be_step 0 l.

Lemma be_bytes_length n z : length (be_bytes n z) = n.
Proof. induction n; simpl; auto. Qed.

Lemma be_bytes_ok n z : Forall is_byte (be_bytes n z).
Proof. induction n; constructor; [unfold is_byte; lia|done]. Qed.

Lemma be_value_acc l a : foldl be_step a l = a * 256 ^ Z.of_nat (length l) + be_value l.
Proof.
  unfold be_value. revert a. induction l as [|b l IH]; intros a; [cbn; lia|].
  cbn [foldl length]. rewrite (IH (be_step a b)), (IH (be_step 0 b)). unfold be_step.
  rewrite Nat2Z.inj_succ, Z.pow_succ_r by lia. lia.
Qed.

Lemma be_value_cons b l : be_value (b :: l) = b * 256 ^ Z.of_nat (length l) + be_value l.
Proof. unfold be_value at 1. cbn. rewrite be_value_acc. unfold be_step. lia. Qed.

Lemma be_value_app l k :
  be_value (l ++ k) = be_value l * 256 ^ Z.of_nat (length k) + be_value k.
Proof. unfold be_value at 1. rewrite foldl_app. apply be_value_acc. Qed.

Lemma be_value_range l : Forall is_byte l → 0 ≤ be_value l < 256 ^ Z.of_nat (length l).
Proof.
  induction 1 as [|b l Hb Hl IH]; [done|].
  rewrite be_value_cons. cbn [length]. rewrite Nat2Z.inj_succ, Z.pow_succ_r by lia.
  unfold is_byte in Hb. nia.
Qed.

Lemma be_value_be_bytes n z : be_value (be_bytes n z) = z mod 256 ^ Z.of_nat n.
Proof.
  induction n as [|n IH]; [by rewrite Z.mod_1_r|].
  cbn [be_bytes]. rewrite be_value_cons, be_bytes_length, IH.
  rewrite Nat2Z.inj_succ, Z.pow_succ_r by lia.
  rewrite (Z.mul_comm 256), Z.rem_mul_r by lia. lia.
Qed.

Lemma be_bytes_cong n z z' : z mod 256 ^ Z.of_nat n = z' mod 256 ^ Z.of_nat n →
  be_bytes n z = be_bytes n z'.
Proof.
  induction n as [|n IH]; [done|].
  rewrite Nat2Z.inj_succ, Z.pow_succ_r, (Z.mul_comm 256), !Z.rem_mul_r by lia.
  intros H. assert (0 < 256 ^ Z.of_nat n) by lia.
  pose proof (Z.mod_pos_bound z (256 ^ Z.of_nat n) ltac:(done)).
  pose proof (Z.mod_pos_bound z' (256 ^ Z.of_nat n) ltac:(done)).
  assert (z / 256 ^ Z.of_nat n mod 256 = z' / 256 ^ Z.of_nat n mod 256) as Hhd by nia.
  rewrite Hhd in H. cbn [be_bytes]. f_equal; [done|]. apply IH. lia.
Qed.

Lemma be_bytes_be_value l : Forall is_byte l → be_bytes (length l) (be_value l) = l.
Proof.
  induction 1 as [|b l Hb Hl IH]; [done|].
  pose proof (be_value_range _ Hl). rewrite be_value_cons. cbn [length be_bytes].
  unfold is_byte in Hb. f_equal.
  - rewrite Z.div_add_l, (Z.div_small (be_value l)) by lia. rewrite Z.mod_small; lia.
  - etrans; [|exact IH]. apply be_bytes_cong.
    by rewrite Z.add_comm, Z.mod_add by lia.
Qed.

(** ** Arrays of bytes *)

Definition rd8 (m : list Z) (i : nat) : outcome Z :=
  match m !! i with
  | Some b => Ok b
  | None => Fault (OutOfBounds (Z.of_nat i))
  end.

Definition wr8 (m : list Z) (i : nat) (b : Z) : outcome (list Z) :=
  if decide (i < length m)%nat then Ok (<[i := to_u8 b]> m)
  else Fault (OutOfBounds (Z.of_nat i)).

(** The [n] bytes from [off] on. *)
Definition bytes_at (m : list Z) (off n : nat) : list Z := take n (drop off m).

(** [memcpy(m + off, src, length src)] *)
Definition memcpy_at (m : list Z) (off : nat) (src : list Z) : outcome (list Z) :=
  if decide (off + length src ≤ length m)%nat
  then Ok (take off m ++ src ++ drop (off + length src) m)
  else Fault (OutOfBounds (Z.of_nat (off + length src))).

Lemma rd8_Ok m i b : m !! i = Some b → rd8 m i = Ok b.
Proof. intros H. unfold rd8. by rewrite H. Qed.

Lemma rd8_inv m i b : rd8 m i = Ok b ↔ m !! i = Some b.
Proof. unfold rd8. destruct (m !! i); naive_solver. Qed.

Lemma wr8_length m i b m' : wr8 m i b = Ok m' → length m' = length m.
Proof. unfold wr8. case_decide; intros [= <-]. by rewrite length_insert. Qed.

Lemma memcpy_at_length m off src m' :
  memcpy_at m off src = Ok m' → length m' = length m.
Proof.
  unfold memcpy_at. case_decide; intros [= <-].
  rewrite !length_app, length_take, length_drop. lia.
Qed.
