(* ===== verification/TsuHw.v ===== *)
(** * The board support package and the time-stamping unit

    What the sources call and do not contain: the register access functions
    and the console of the board support package, as a class of operations on
    a device state [D], and the documented behaviour of the time-stamping unit
    (TSU) of the GEM Ethernet controller behind its registers, as laws. *)

From S2P Require Export Ints.

(** ** Operations of the board support package *)

Class Xil (D : Type) := {
  Xil_In32 : Z → D → Z * D;
  Xil_Out32 : Z → Z → D → D;
  xil_printf : string → list Z → D → D
}.

Section Access.
Context {D : Type} `{Xil D}.

Definition in32 (a : Z) : M D Z := λ d, Ok ((Xil_In32 a d).1, (Xil_In32 a d).2).
Definition out32 (a v : Z) : M D unit := modify (Xil_Out32 a v).
Definition printf (fmt : string) (args : list Z) : M D unit := modify (xil_printf fmt args).
End Access.

(** ** The register map ([src/IEEE1588/ttc_tsu/tsu_time.c]) *)

Definition GEM_TSU_INC_CTRL : Z := 0xff0b01c4.
Definition TSU_TIMER_INCR_GEM0 : Z := 0xff0b01dc.
Definition TSU_TIMER_INCR_SUB_NS_GEM0 : Z := 0xff0b01bc.
Definition TSU_TIMER_SEC_GEM0 : Z := 0xff0b01d0.
Definition TSU_TIMER_NS_GEM0 : Z := 0xff0b01d4.
Definition TSU_TIMER_ADJUST : Z := 0xff0b01d8.
Definition GEM_TSU_REF_CTRL : Z := 0xff5e0100.

Definition TSU_NS_IN_SEC : Z := 1000000000.

(** The amount by which a word written to the adjust register moves the
    timer: 30 bits of nanoseconds, bit 31 set to subtract. *)
Definition adjust_amount (w : Z) : Z :=
  if Z.testbit w 31 then - (w mod 2 ^ 30) else w mod 2 ^ 30.

(** ** The contract of the timer

    [tsu_clock d] is the timer's value in nanoseconds.  An access takes at
    most [access_ns] of the timer's time; it acts on the timer at some instant
    of its duration.  The seconds register shows the low 32 bits.
    [last_write a d] is the word that was last written to the register at [a],
    if any. *)

Class TsuHw (D : Type) `{Xil D} := {
  tsu_clock : D → Z;
  access_ns : Z;
  last_write : Z → D → option Z
}.

Definition takes {D} `{TsuHw D} (from : Z) (d : D) : Prop :=
  from ≤ tsu_clock d ≤ from + access_ns.

Class TsuHwLaws (D : Type) `{TsuHw D} : Prop := {
  access_ns_nonneg : 0 ≤ access_ns;
  in32_range a d : in_u32 (Xil_In32 a d).1;
  in32_time a d : takes (tsu_clock d) (Xil_In32 a d).2;
  in32_sec d : ∃ c, tsu_clock d ≤ c ≤ tsu_clock (Xil_In32 TSU_TIMER_SEC_GEM0 d).2 ∧
    (Xil_In32 TSU_TIMER_SEC_GEM0 d).1 = to_u32 (c / TSU_NS_IN_SEC);
  in32_ns d : ∃ c, tsu_clock d ≤ c ≤ tsu_clock (Xil_In32 TSU_TIMER_NS_GEM0 d).2 ∧
    (Xil_In32 TSU_TIMER_NS_GEM0 d).1 = c mod TSU_NS_IN_SEC;
  out32_sec v d : in_u32 v → ∃ c, tsu_clock d ≤ c ≤ tsu_clock d + access_ns ∧
    takes (v * TSU_NS_IN_SEC + c mod TSU_NS_IN_SEC) (Xil_Out32 TSU_TIMER_SEC_GEM0 v d);
  out32_ns v d : 0 ≤ v < TSU_NS_IN_SEC → ∃ c, tsu_clock d ≤ c ≤ tsu_clock d + access_ns ∧
    takes (c / TSU_NS_IN_SEC * TSU_NS_IN_SEC + v) (Xil_Out32 TSU_TIMER_NS_GEM0 v d);
  out32_adjust w d : in_u32 w →
    takes (tsu_clock d + adjust_amount w) (Xil_Out32 TSU_TIMER_ADJUST w d);
  printf_time f args d : tsu_clock d ≤ tsu_clock (xil_printf f args d);
  out32_written a v d b :
    last_write b (Xil_Out32 a v d) = if decide (a = b) then Some v else last_write b d;
  in32_written a d b : last_write b (Xil_In32 a d).2 = last_write b d;
  printf_written f args d b : last_write b (xil_printf f args d) = last_write b d
}.

(** ** A timer for concrete runs

    Every access takes [sim_step] nanoseconds; writes and console output are
    recorded, newest first; other registers read as zero. *)

Inductive sim_event :=
  | EvWrite (a v : Z)
  | EvPrint (fmt : string) (args : list Z).

#[global] Instance sim_event_eq_dec : EqDecision sim_event.
Proof. solve_decision. Defined.

Definition sim_step : Z := 8.

Record sim := Sim { sim_clock : Z; sim_log : list sim_event }.

#[global] Instance sim_eq_dec : EqDecision sim.
Proof. solve_decision. Defined.

Definition sim_read (a c : Z) : Z :=
  if a =? TSU_TIMER_SEC_GEM0 then to_u32 (c / TSU_NS_IN_SEC)
  else if a =? TSU_TIMER_NS_GEM0 then c mod TSU_NS_IN_SEC
  else 0.

Definition sim_write (a v c : Z) : Z :=
  if a =? TSU_TIMER_SEC_GEM0 then v * TSU_NS_IN_SEC + c mod TSU_NS_IN_SEC
  else if a =? TSU_TIMER_NS_GEM0 then c / TSU_NS_IN_SEC * TSU_NS_IN_SEC + v
  else if a =? TSU_TIMER_ADJUST then c + adjust_amount v
  else c.

#[global] Instance sim_xil : Xil sim := {
  Xil_In32 a d := (sim_read a (sim_clock d), Sim (sim_clock d + sim_step) (sim_log d));
  Xil_Out32 a v d :=
    Sim (sim_write a v (sim_clock d) + sim_step) (EvWrite a v :: sim_log d);
  xil_printf f args d := Sim (sim_clock d) (EvPrint f args :: sim_log d)
}.

(** The newest write to a register. *)
Fixpoint sim_written (a : Z) (l : list sim_event) : option Z :=
  match l with
  | EvWrite b v :: l' => if decide (b = a) then Some v else sim_written a l'
  | EvPrint _ _ :: l' => sim_written a l'
  | [] => None
  end.

#[global] Instance sim_tsu : TsuHw sim := {
  tsu_clock := sim_clock;
  access_ns := sim_step;
  last_write a d := sim_written a (sim_log d)
}.

#[global] Instance sim_laws : TsuHwLaws sim.
Proof.
  split; unfold takes; cbn; unfold sim_step, sim_read, sim_write.
  - lia.
  - intros. repeat case_match; unfold in_u32, to_u32, TSU_NS_IN_SEC; lia.
  - lia.
  - intros d. exists (sim_clock d). cbn. lia.
  - intros d. exists (sim_clock d). cbn. lia.
  - intros v d Hv. exists (sim_clock d). cbn. lia.
  - intros v d Hv. exists (sim_clock d). cbn. lia.
  - intros w d Hw. cbn. lia.
  - lia.
  - done.
  - done.
  - done.
Qed.
