(* ===== verification/Double.v ===== *)
(** * The C type [double]

    IEEE-754 binary64 numbers as the Standard Library's [spec_float] with
    53 bits of precision and maximal exponent 1024, rounding to nearest, ties
    to even, which is the mode the target starts in.  Everything computes. *)

From Stdlib Require Import SpecFloat.
From S2P Require Export Ints.

Definition double := spec_float.

(** [(double)z] for an integer [z] of any C type. *)
Definition d_of_Z (z : Z) : double := binary_normalize 53 1024 z 0 false.

Definition d_add : double → double → double := SFadd 53 1024.
Definition d_sub : double → double → double := SFsub 53 1024.
Definition d_mul : double → double → double := SFmul 53 1024.
Definition d_div : double → double → double := SFdiv 53 1024.

#[global] Instance double_eq_dec : EqDecision spec_float.
Proof. solve_decision. Defined.

(** The integer part of a double, rounded toward zero; [None] for an
    infinity and a NaN. *)
Definition d_trunc (x : double) : option Z :=
  match x with
  | S754_zero _ => Some 0
  | S754_finite s m e =>
      let z := Z.shiftl (Z.pos m) e in
      Some (if s then - z else z)
  | _ => None
  end.

(** [(u32)x]: undefined when the integer part is outside the type. *)
Definition d_to_u32 (x : double) : outcome Z :=
  match d_trunc x with
  | Some z => if decide (in_u32 z) then Ok z else Fault SignedOverflow
  | None => Fault SignedOverflow
  end.

Lemma d_to_u32_range x z : d_to_u32 x = Ok z → in_u32 z.
Proof. unfold d_to_u32. destruct (d_trunc x); [case_decide|]; naive_solver. Qed.

Example d_of_Z_exact : d_trunc (d_of_Z 1000000000) = Some 1000000000.
Proof. reflexivity. Qed.
