(* ===== verification/PtpTime.v ===== *)
(** * Timestamps and their arithmetic ([src/IEEE1588/ptp_sync.c], TIME CALCULATION)

    [ptp_timestamp_t] and the functions that add, subtract, halve, serialise
    and read timestamps.  A timestamp stands for the number of nanoseconds
    [total]; the functions do not normalise the nanosecond field. *)

From S2P Require Export Double.

Definition NS_SEC_PERIOD : Z := 1000000000.

(** [dts] is [None] while the field is not initialised. *)
Record ptp_timestamp_t := Ts {
  seconds : Z;          (* int64_t *)
  nanosec : Z;          (* int32_t *)
  dts : option double
}.

#[global] Instance ptp_timestamp_eq_dec : EqDecision ptp_timestamp_t.
Proof. solve_decision. Defined.

(** The initial value of a [static ptp_timestamp_t]. *)
Definition ts_zero : ptp_timestamp_t := Ts 0 0 (Some (d_of_Z 0)).

(** The fields are values of their C types. *)
Definition ts_wf (t : ptp_timestamp_t) : Prop :=
  in_i64 (seconds t) ∧ in_i32 (nanosec t).

(** The instant or the duration a timestamp stands for, in nanoseconds. *)
Definition total (t : ptp_timestamp_t) : Z := seconds t * NS_SEC_PERIOD + nanosec t.

(** [(double)sec + (double)ns / NS_SEC_PERIOD] *)
Definition ts_dts (sec ns : Z) : double :=
  d_add (d_of_Z sec) (d_div (d_of_Z ns) (d_of_Z NS_SEC_PERIOD)).

Definition ptp_time_add (pt1 pt2 : ptp_timestamp_t) : outcome ptp_timestamp_t :=
  sec_result ← i64 (seconds pt1 + seconds pt2);
  ns_result ← i32 (nanosec pt1 + nanosec pt2);
  Ok (Ts sec_result ns_result (Some (ts_dts sec_result ns_result))).

Definition ptp_time_sub (pt1 pt2 : ptp_timestamp_t) : outcome ptp_timestamp_t :=
  sec ← i64 (- seconds pt2);
  ns ← i32 (- nanosec pt2);
  ptp_time_add pt1 (Ts sec ns None).

(** The body of the two [if(diff.seconds % 2 == 0) ... else ...]:
    [/] and [%] of C truncate toward zero. *)
Definition halve (sec ns : Z) : outcome (Z * Z) :=
  if Z.rem sec 2 =? 0 then Ok (sec ÷ 2, ns ÷ 2)
  else
    sec1 ← i64 (sec - 1);
    ns1 ← i32 (ns ÷ 2 + NS_SEC_PERIOD ÷ 2);
    Ok (sec1 ÷ 2, ns1).

Definition ptp_calc_prop_delay (pt1 pt2 : ptp_timestamp_t) : outcome ptp_timestamp_t :=
  diff ← ptp_time_sub pt2 pt1;
  '(sec, ns) ← halve (seconds diff) (nanosec diff);
  Ok (Ts sec ns (Some (ts_dts sec ns))).

(** In place: [dts] keeps its value. *)
Definition ptp_time_except_2 (pt1 : ptp_timestamp_t) : outcome ptp_timestamp_t :=
  '(sec, ns) ← halve (seconds pt1) (nanosec pt1);
  Ok (Ts sec ns (dts pt1)).

Definition ptp_clock_offset (t3 t4 delay : ptp_timestamp_t) : outcome Z :=
  d ← i32 (nanosec t3 - nanosec t4);
  i32 (d + nanosec delay).

(** ** Timestamps on the wire *)

(** [*p = v] for a pointer [p] to element [i] of the array. *)
Definition poke (i : nat) (v : Z) : M (list Z) unit := λ m,
  m' ← wr8 m i v; Ok (tt, m').

(** [out] is the array [m] from offset [off] on; [p] starts at [out[5]], then
    at [out[9]], and moves down. *)
Definition ptp_prepare_timestamp (in_ : ptp_timestamp_t) (off : nat) : M (list Z) unit :=
  for_range 0 6 (λ i,
    poke (off + 5 - i) (Z.land (Z.shiftr (seconds in_) (Z.of_nat (i * 8))) 255)) ;;
  for_range 0 4 (λ i,
    poke (off + 9 - i) (Z.land (Z.shiftr (nanosec in_) (Z.of_nat (i * 8))) 255)).

(** [acc <<= 8; acc += timestamp[i];] in the unsigned type with conversion [cv]. *)
Definition shift_in (cv : Z → Z) (m : list Z) (i : nat) : M Z unit := λ acc,
  b ← rd8 m i; Ok (tt, cv (cv (Z.shiftl acc 8) + b)).

(** [timestamp] is the array [m] from offset [off] on. *)
Definition ptp_store_timestamp (m : list Z) (off : nat) (out : ptp_timestamp_t) :
    outcome ptp_timestamp_t :=
  '(_, sec) ← for_range 0 6 (λ i, shift_in to_u64 m (off + i)) 0;
  '(_, ns) ← for_range 6 4 (λ i, shift_in to_u32 m (off + i)) 0;
  Ok (Ts (to_i64 sec) (to_i32 ns) (dts out)).

(** ** Results and faults of the arithmetic *)

Lemma ptp_time_add_inv a b c : ptp_time_add a b = Ok c ↔
  in_i64 (seconds a + seconds b) ∧ in_i32 (nanosec a + nanosec b) ∧
  c = Ts (seconds a + seconds b) (nanosec a + nanosec b)
         (Some (ts_dts (seconds a + seconds b) (nanosec a + nanosec b))).
Proof.
  unfold ptp_time_add. split.
  - intros H. minv.
    repeat match goal with
    | H : i64 _ = Ok _ |- _ => apply i64_inv in H as [-> ?]
    | H : i32 _ = Ok _ |- _ => apply i32_inv in H as [-> ?]
    end. done.
  - intros (Hs & Hn & ->). by rewrite i64_Ok, bind_Ok_l, i32_Ok.
Qed.

Lemma ptp_time_sub_inv a b c : ptp_time_sub a b = Ok c ↔
  in_i64 (- seconds b) ∧ in_i32 (- nanosec b) ∧
  ptp_time_add a (Ts (- seconds b) (- nanosec b) None) = Ok c.
Proof.
  unfold ptp_time_sub. split.
  - intros H. minv.
    repeat match goal with
    | H : i64 _ = Ok _ |- _ => apply i64_inv in H as [-> ?]
    | H : i32 _ = Ok _ |- _ => apply i32_inv in H as [-> ?]
    end. done.
  - intros (Hs & Hn & H). by rewrite i64_Ok, bind_Ok_l, i32_Ok.
Qed.

Lemma ptp_time_add_fields a b c : ptp_time_add a b = Ok c →
  ts_wf c ∧ seconds c = seconds a + seconds b ∧ nanosec c = nanosec a + nanosec b.
Proof. intros (?&?&->)%ptp_time_add_inv. done. Qed.

Lemma ptp_time_sub_fields a b c : ptp_time_sub a b = Ok c →
  ts_wf c ∧ seconds c = seconds a - seconds b ∧ nanosec c = nanosec a - nanosec b.
Proof.
  intros (?&?&(?&?&?)%ptp_time_add_fields)%ptp_time_sub_inv.
  cbn in *. split_and!; [done|lia|lia].
Qed.

Lemma ptp_time_add_total a b c : ptp_time_add a b = Ok c → total c = total a + total b.
Proof. intros (?&?&?)%ptp_time_add_fields. unfold total. nia. Qed.

Lemma ptp_time_sub_total a b c : ptp_time_sub a b = Ok c → total c = total a - total b.
Proof. intros (?&?&?)%ptp_time_sub_fields. unfold total. nia. Qed.

Lemma ptp_time_add_run a b :
  in_i64 (seconds a + seconds b) → in_i32 (nanosec a + nanosec b) →
  ∃ c, ptp_time_add a b = Ok c.
Proof. intros. eexists. by apply ptp_time_add_inv. Qed.

Lemma ptp_time_sub_run a b :
  in_i64 (- seconds b) → in_i32 (- nanosec b) →
  in_i64 (seconds a - seconds b) → in_i32 (nanosec a - nanosec b) →
  ∃ c, ptp_time_sub a b = Ok c.
Proof.
  intros. eexists. apply ptp_time_sub_inv. split_and!; [done..|].
  by apply ptp_time_add_inv.
Qed.

Lemma halve_inv sec ns s n : halve sec ns = Ok (s, n) →
  2 * (s * NS_SEC_PERIOD + n) = sec * NS_SEC_PERIOD + ns - Z.rem ns 2.
Proof.
  unfold halve, NS_SEC_PERIOD. case_match eqn:E.
  - intros [= <- <-]. lia.
  - intros H. minv.
    repeat match goal with
    | H : i64 _ = Ok _ |- _ => apply i64_inv in H as [-> ?]
    | H : i32 _ = Ok _ |- _ => apply i32_inv in H as [-> ?]
    end. lia.
Qed.

(** Halving a value of the types never overflows. *)
Lemma halve_run sec ns : in_i64 sec → in_i32 ns →
  ∃ s n, halve sec ns = Ok (s, n) ∧ in_i64 s ∧ in_i32 n.
Proof.
  intros Hs Hn. unfold halve, NS_SEC_PERIOD. case_match eqn:E.
  - eexists _, _. split; [done|]. int_lia.
  - rewrite i64_Ok by int_lia. rewrite bind_Ok_l, i32_Ok by int_lia.
    eexists _, _. split; [done|]. int_lia.
Qed.

Lemma except_2_inv t r : ptp_time_except_2 t = Ok r ↔
  halve (seconds t) (nanosec t) = Ok (seconds r, nanosec r) ∧ dts r = dts t.
Proof.
  unfold ptp_time_except_2. destruct (halve _ _) as [[s n]|]; cbn; destruct r; naive_solver.
Qed.

Lemma except_2_total t r : ptp_time_except_2 t = Ok r →
  2 * total r = total t - Z.rem (nanosec t) 2.
Proof. intros [H _]%except_2_inv. by apply halve_inv in H. Qed.

Lemma except_2_run t : ts_wf t → ∃ r, ptp_time_except_2 t = Ok r ∧ ts_wf r.
Proof.
  intros [Hs Hn]. destruct (halve_run _ _ Hs Hn) as (s & n & H & ?).
  exists (Ts s n (dts t)). rewrite except_2_inv. done.
Qed.

(** ** Timestamps as ten big-endian bytes *)

Lemma shiftr_land_be z i :
  to_u8 (Z.land (Z.shiftr z (Z.of_nat (i * 8))) 255) = (z / 256 ^ Z.of_nat i) mod 256.
Proof.
  rewrite land_255. replace (Z.of_nat (i * 8)) with (8 * Z.of_nat i) by lia.
  rewrite shiftr_8 by lia. unfold to_u8. lia.
Qed.

Lemma poke_app p i v m :
  (i < length m)%nat → poke (length p + i) v (p ++ m) = Ok (tt, p ++ <[i := to_u8 v]> m).
Proof.
  intros. unfold poke, wr8. rewrite decide_True by (rewrite length_app; lia).
  cbn. by rewrite insert_app_r.
Qed.

Lemma split_window (m : list Z) (off n : nat) : (off + n ≤ length m)%nat →
  ∃ p w q, m = p ++ w ++ q ∧ length p = off ∧ length w = n.
Proof.
  intros. exists (take off m), (take n (drop off m)), (drop n (drop off m)).
  rewrite !take_drop, !length_take, length_drop. split_and!; [done|lia|lia].
Qed.

(** Serialising writes exactly ten bytes: the low 48 bits of the seconds and
    the 32 bits of the nanoseconds, most significant byte first. *)
Lemma ptp_prepare_timestamp_run t off m : (off + 10 ≤ length m)%nat →
  ptp_prepare_timestamp t off m =
  Ok (tt, take off m ++ be_bytes 6 (seconds t) ++ be_bytes 4 (nanosec t) ++ drop (off + 10) m).
Proof.
  intros (p & w & q & -> & <- & Hw)%split_window.
  do 10 (destruct w as [|? w]; [done|]). destruct w; [|done].
  rewrite take_app_length, drop_app_add, drop_app_ge by (cbn; lia).
  unfold ptp_prepare_timestamp. cbn [for_range].
  rewrite ?Nat.sub_0_r.
  repeat (rewrite ?run_bind, ?run_ret;
    match goal with |- context [poke (length p + ?a - ?b)] =>
      replace (length p + a - b)%nat with (length p + (a - b))%nat by lia end || idtac;
    rewrite ?poke_app by (rewrite ?length_insert; cbn; lia); cbn [Nat.sub];
    rewrite ?bind_Ok_l).
  rewrite !shiftr_land_be. reflexivity.
Qed.

Section ShiftIn.
Context (cv : Z → Z) (w : Z).
Hypothesis cv_mod : ∀ z, cv z = z mod 2 ^ w.

Lemma shift_in_run m i b acc : m !! i = Some b → is_byte b → 0 ≤ acc →
  0 ≤ w → be_step acc b < 2 ^ w →
  shift_in cv m i acc = Ok (tt, be_step acc b).
Proof.
  unfold is_byte, be_step. intros Hi Hb Hacc Hw Hlt. unfold shift_in.
  rewrite (rd8_Ok _ _ _ Hi), bind_Ok_l, Z.shiftl_mul_pow2 by lia.
  change (2 ^ 8) with 256. rewrite !cv_mod.
  by rewrite (Z.mod_small (acc * 256)), Z.mod_small by lia.
Qed.

(** Reading [length l] bytes shifts them into the accumulator, as long as the
    number fits the unsigned type. *)
Lemma shift_in_loop p l q base acc from :
  (base + from = length p)%nat → Forall is_byte l → 0 ≤ w →
  0 ≤ acc → foldl be_step acc l < 2 ^ w →
  for_range from (length l) (λ i, shift_in cv (p ++ l ++ q) (base + i)) acc =
  Ok (tt, foldl be_step acc l).
Proof.
  intros Hp Hl Hw. revert p acc from Hp.
  induction Hl as [|b l Hb Hl IH]; intros p acc from Hp Hacc Hlt; [done|].
  cbn [foldl length for_range] in *.
  pose proof (be_value_range l Hl) as Hr.
  assert (0 ≤ be_step acc b ≤ foldl be_step (be_step acc b) l) as Hle.
  { rewrite be_value_acc. unfold be_step, is_byte in *. nia. }
  rewrite run_bind, shift_in_run with (b := b); [|by rewrite Hp, lookup_app_r, Nat.sub_diag by lia|done|lia..].
  rewrite bind_Ok_l.
  replace (p ++ (b :: l) ++ q) with ((p ++ [b]) ++ l ++ q) by by rewrite <-app_assoc.
  apply IH; [rewrite length_app; cbn; lia|lia|done].
Qed.
End ShiftIn.

(** The timestamp that ten bytes denote, read into a variable whose [dts]
    the read leaves alone. *)
Definition wire_timestamp (b : list Z) (d : option double) : ptp_timestamp_t :=
  Ts (be_value (take 6 b)) (to_i32 (be_value (take 4 (drop 6 b)))) d.

Lemma ptp_store_timestamp_run m off out :
  (off + 10 ≤ length m)%nat → Forall is_byte m →
  ptp_store_timestamp m off out = Ok (wire_timestamp (bytes_at m off 10) (dts out)).
Proof.
  intros (p & w & q & -> & <- & Hw)%split_window Hm.
  apply Forall_app in Hm as [_ Hm]. apply Forall_app in Hm as [Hm _].
  unfold bytes_at. rewrite drop_app_length, take_app_length' by done.
  rewrite <-(take_drop 6 w) in Hm |- *. apply Forall_app in Hm as [Hs Hn].
  set (sl := take 6 w) in *. set (nl := drop 6 w) in *.
  assert (length sl = 6%nat) as Hsl by (unfold sl; rewrite length_take; lia).
  assert (length nl = 4%nat) as Hnl by (unfold nl; rewrite length_drop; lia).
  pose proof (be_value_range _ Hs). pose proof (be_value_range _ Hn).
  rewrite Hsl in *. rewrite Hnl in *.
  unfold ptp_store_timestamp, wire_timestamp.
  rewrite take_app_length', drop_app_length', (take_ge nl) by lia.
  rewrite <-(app_assoc sl).
  pose proof (shift_in_loop to_u64 64 (λ _, eq_refl) p sl (nl ++ q) (length p) 0 0) as Rs.
  pose proof (shift_in_loop to_u32 32 (λ _, eq_refl) (p ++ sl) nl q (length p) 0 6) as Rn.
  rewrite Hsl in Rs. rewrite Hnl, <-app_assoc, length_app, Hsl in Rn.
  rewrite Rs, bind_Ok_l, Rn, bind_Ok_l; fold (be_value sl) (be_value nl); try done; try lia.
  by rewrite to_i64_small by int_lia.
Qed.

Lemma wire_timestamp_wf b d : length b = 10%nat → Forall is_byte b →
  0 ≤ seconds (wire_timestamp b d) < 2 ^ 48 ∧ in_i32 (nanosec (wire_timestamp b d)).
Proof.
  intros Hl Hb. cbn. split; [|by apply to_i32_range].
  pose proof (be_value_range (take 6 b)) as H. rewrite length_take, Hl in H.
  apply H. by apply Forall_take.
Qed.

(** A read that leaves the message is a fault. *)
Lemma shift_in_short cv m i acc : (length m ≤ i)%nat →
  shift_in cv m i acc = Fault (OutOfBounds (Z.of_nat i)).
Proof. intros H. unfold shift_in, rd8. by rewrite lookup_ge_None_2. Qed.

Lemma shift_in_inside cv m i acc : (i < length m)%nat → ∃ acc', shift_in cv m i acc = Ok (tt, acc').
Proof.
  intros [b Hb]%lookup_lt_is_Some_2. unfold shift_in. rewrite (rd8_Ok _ _ _ Hb). by eexists.
Qed.

Lemma shift_in_loop_inside cv m off from n acc : (off + from + n ≤ length m)%nat →
  ∃ acc', for_range from n (λ i, shift_in cv m (off + i)) acc = Ok (tt, acc').
Proof.
  revert from acc. induction n as [|n IH]; intros from acc Hm; [by eexists|].
  cbn [for_range]. rewrite run_bind.
  destruct (shift_in_inside cv m (off + from) acc) as [acc1 ->]; [lia|]. apply IH. lia.
Qed.

(** The first byte outside the array ends the loop. *)
Lemma shift_in_loop_short cv m off from n acc : (0 < n)%nat → (length m < off + from + n)%nat →
  for_range from n (λ i, shift_in cv m (off + i)) acc =
    Fault (OutOfBounds (Z.of_nat (Nat.max (off + from) (length m)))).
Proof.
  revert from acc. induction n as [|n IH]; intros from acc Hn Hm; [lia|].
  cbn [for_range]. rewrite run_bind.
  destruct (decide (length m ≤ off + from)%nat) as [Hs|Hs].
  - rewrite shift_in_short by done. rewrite bind_Fault_l. do 3 f_equal. lia.
  - destruct (shift_in_inside cv m (off + from) acc) as [acc1 ->]; [lia|].
    rewrite bind_Ok_l, IH by lia. do 3 f_equal. lia.
Qed.

Lemma shift_in_loop_in_bounds cv m off from n acc acc' :
  for_range from n (λ i, shift_in cv m (off + i)) acc = Ok (tt, acc') →
  n = O ∨ (off + from + n ≤ length m)%nat.
Proof.
  revert from acc. induction n as [|n IH]; intros from acc H; [by left|right].
  cbn in H. minv. unfold shift_in in *. minv.
  match goal with H : rd8 _ _ = Ok _ |- _ => apply rd8_inv, lookup_lt_Some in H end.
  match goal with H : for_range _ _ _ _ = Ok _ |- _ => apply IH in H end. lia.
Qed.

Lemma ptp_store_timestamp_short m off out : (length m < off + 10)%nat →
  ptp_store_timestamp m off out = Fault (OutOfBounds (Z.of_nat (Nat.max off (length m)))).
Proof.
  intros Hm. unfold ptp_store_timestamp.
  destruct (decide (length m < off + 6)%nat) as [Hs|Hs].
  - rewrite (shift_in_loop_short _ _ _ 0 6), bind_Fault_l by lia. do 3 f_equal. lia.
  - destruct (shift_in_loop_inside to_u64 m off 0 6 0) as [sec ->]; [lia|].
    rewrite bind_Ok_l, shift_in_loop_short, bind_Fault_l by lia. do 3 f_equal. lia.
Qed.

Lemma ptp_store_timestamp_in_bounds m off out r :
  ptp_store_timestamp m off out = Ok r → (off + 10 ≤ length m)%nat.
Proof.
  unfold ptp_store_timestamp. destruct (for_range 0 6 _ _) as [[[] s]|]; [|done].
  rewrite bind_Ok_l. destruct (for_range 6 4 _ _) as [[[] n]|] eqn:E; [|done].
  intros _. apply shift_in_loop_in_bounds in E. lia.
Qed.

(** ** Theorems *)

(** Both fields leave room for a sum and a negation.  Timestamps read from a
    message whose nanosecond field is below one second satisfy it, with 48-bit
    seconds, and so do sums of two of them. *)
Definition ts_small (t : ptp_timestamp_t) : Prop :=
  - 2 ^ 62 < seconds t < 2 ^ 62 ∧ - 2 ^ 30 < nanosec t < 2 ^ 30.

#[global] Instance ts_small_dec t : Decision (ts_small t).
Proof. unfold ts_small. apply _. Defined.

(** C37. Sums, differences and halves of timestamps are exact in nanoseconds:
    on operands with room for a sum no operation overflows, addition and
    subtraction add and subtract the instants, and halving in place and the
    propagation delay are off by at most half a nanosecond, for even and odd
    seconds of either sign. *)
Theorem time_arithmetic_exact a b : ts_small a → ts_small b →
  ∃ s d h p,
    ptp_time_add a b = Ok s ∧ ptp_time_sub a b = Ok d ∧
    ptp_time_except_2 s = Ok h ∧ ptp_calc_prop_delay b a = Ok p ∧
    total s = total a + total b ∧ total d = total a - total b ∧
    - 1 ≤ 2 * total h - total s ≤ 1 ∧ - 1 ≤ 2 * total p - total d ≤ 1.
Proof.
  intros [Ha Ha'] [Hb Hb'].
  destruct (ptp_time_add_run a b) as [s Es]; [int_lia..|].
  destruct (ptp_time_sub_run a b) as [d Ed]; [int_lia..|].
  pose proof (ptp_time_add_fields _ _ _ Es) as [Ws _].
  pose proof (ptp_time_sub_fields _ _ _ Ed) as [[Wd Wd'] _].
  destruct (except_2_run s Ws) as (h & Eh & _).
  destruct (halve_run _ _ Wd Wd') as (ps & pn & Ep & _).
  exists s, d, h. unfold ptp_calc_prop_delay. rewrite Ed, bind_Ok_l, Ep, bind_Ok_l.
  eexists. split_and!; try reflexivity; try done.
  - by apply ptp_time_add_total.
  - by apply ptp_time_sub_total.
  - apply except_2_total in Eh. lia.
  - apply except_2_total in Eh. lia.
  - apply halve_inv in Ep. unfold total at 1 2. cbn. unfold total. lia.
  - apply halve_inv in Ep. unfold total at 1 2. cbn. unfold total. lia.
Qed.

Lemma time_arithmetic_exact_witness :
  let a := Ts 100 5 None in let b := Ts 101 999999990 None in
  ts_small a ∧ ts_small b ∧ ∃ s d h p,
    ptp_time_add a b = Ok s ∧ ptp_time_sub a b = Ok d ∧
    ptp_time_except_2 s = Ok h ∧ ptp_calc_prop_delay b a = Ok p ∧
    total s = total a + total b ∧ total d = total a - total b ∧
    - 1 ≤ 2 * total h - total s ≤ 1 ∧ - 1 ≤ 2 * total p - total d ≤ 1.
Proof.
  intros a b. assert (ts_small a) as Ha by by_computation.
  assert (ts_small b) as Hb by by_computation.
  split; [exact Ha|]. split; [exact Hb|]. exact (time_arithmetic_exact a b Ha Hb).
Defined.

(** C35. A timestamp written into a message and read back is unchanged as long
    as its seconds fit 48 bits, and the rest of the message is not touched. *)
Theorem timestamp_write_read t off m out :
  0 ≤ seconds t < 2 ^ 48 → in_i32 (nanosec t) →
  (off + 10 ≤ length m)%nat → Forall is_byte m →
  ∃ m', ptp_prepare_timestamp t off m = Ok (tt, m') ∧
    ptp_store_timestamp m' off out = Ok (Ts (seconds t) (nanosec t) (dts out)) ∧
    length m' = length m ∧
    ∀ i, (i < off ∨ off + 10 ≤ i)%nat → m' !! i = m !! i.
Proof.
  intros Hs Hn Hm Hb. rewrite ptp_prepare_timestamp_run by done.
  eexists. split; [done|].
  assert (∀ p a b q : list Z, length a = 6%nat → length b = 4%nat →
    bytes_at (p ++ a ++ b ++ q) (length p) 10 = a ++ b) as Hat.
  { intros p a b q Hla Hlb. unfold bytes_at. rewrite drop_app_length, (app_assoc a).
    apply take_app_length'. rewrite length_app. lia. }
  assert (length (take off m) = off) as Hoff by (rewrite length_take; lia).
  rewrite ptp_store_timestamp_run.
  2:{ rewrite !length_app, !be_bytes_length, length_drop. lia. }
  2:{ rewrite !Forall_app. auto using be_bytes_ok, Forall_take, Forall_drop. }
  rewrite <-Hoff at 3. rewrite Hat by apply be_bytes_length.
  unfold wire_timestamp. rewrite take_app_length', drop_app_length', take_ge
    by (rewrite be_bytes_length; lia).
  rewrite !be_value_be_bytes. split_and!.
  - f_equal. f_equal; [int_lia|]. etrans; [|by apply to_i32_to_u32]. done.
  - rewrite !length_app, !be_bytes_length, length_drop. lia.
  - intros i Hi. destruct (decide (i < off)%nat).
    + rewrite lookup_app_l by lia. by apply lookup_take_lt.
    + rewrite !lookup_app_r by (rewrite ?be_bytes_length, ?Hoff; cbn; lia).
      rewrite lookup_drop, !be_bytes_length, Hoff. f_equal. lia.
Qed.

Lemma timestamp_write_read_witness :
  let t := Ts 1700000000 123456789 None in let m := replicate 44 7 in
  ∃ m', ptp_prepare_timestamp t 34 m = Ok (tt, m') ∧
    ptp_store_timestamp m' 34 ts_zero = Ok (Ts 1700000000 123456789 (dts ts_zero)) ∧
    length m' = length m ∧
    ∀ i, (i < 34 ∨ 34 + 10 ≤ i)%nat → m' !! i = m !! i.
Proof.
  intros t m. apply (timestamp_write_read t 34 m ts_zero); by_computation.
Defined.

(** Conversely, reading the ten bytes of any message and writing the
    timestamp back gives the same message; a message too short for the
    timestamp makes the read leave it. *)
Lemma timestamp_read_write m off out : Forall is_byte m →
  if decide (off + 10 ≤ length m)%nat
  then ∃ t, ptp_store_timestamp m off out = Ok t ∧
    ptp_prepare_timestamp t off m = Ok (tt, m)
  else is_Ok (ptp_store_timestamp m off out) = false.
Proof.
  intros Hb. case_decide as Hm.
  - rewrite ptp_store_timestamp_run by done. eexists. split; [done|].
    rewrite ptp_prepare_timestamp_run by done. f_equal. f_equal.
    destruct (split_window m off 10 Hm) as (p & w & q & -> & <- & Hw).
    unfold bytes_at. rewrite drop_app_length, (take_app_length' w), take_app_length by done.
    rewrite drop_app_add, (drop_app_length' w) by done.
    apply Forall_app in Hb as [_ Hb]. apply Forall_app in Hb as [Hb _].
    cbn [wire_timestamp seconds nanosec].
    rewrite (app_assoc (be_bytes 6 _)). f_equal. f_equal.
    rewrite <-(take_drop 6 w) at 3.
    rewrite <-(be_bytes_be_value (take 6 w)) at 2 by by apply Forall_take.
    rewrite <-(be_bytes_be_value (drop 6 w)) at 2 by by apply Forall_drop.
    rewrite length_take, length_drop, Hw. f_equal.
    rewrite take_ge by (rewrite length_drop; lia). apply be_bytes_cong.
    change (256 ^ Z.of_nat (10 - 6)) with (2 ^ 32). int_lia.
  - destruct (ptp_store_timestamp m off out) eqn:E; [|done].
    by apply ptp_store_timestamp_in_bounds in E.
Qed.

Lemma timestamp_read_write_witness :
  let m := replicate 34 0 ++ [0;0;101;83;241;0;7;91;205;21] in
  Forall is_byte m ∧ ∃ t, ptp_store_timestamp m 34 ts_zero = Ok t ∧
    ptp_prepare_timestamp t 34 m = Ok (tt, m).
Proof.
  intros m. assert (Forall is_byte m) as Hm by by_computation.
  split; [exact Hm|]. exact (timestamp_read_write m 34 ts_zero Hm).
Defined.
