(* ===== verification/TsuTime.v ===== *)
(** * The time-stamping unit driver ([src/IEEE1588/ttc_tsu/tsu_time.c])

    Reading and setting the hardware timer, the correction register image that
    is applied on every tick, and the set-up of the timer's increments. *)

From S2P Require Export TsuHw Double.

Definition ADJUST_ADD : Z := 0.
Definition ADJUST_SUBTRACT : Z := 1.

Record tsu_timestamp_t := TsuTs {
  t_seconds : Z;        (* u64 *)
  t_nanosec : Z         (* u32 *)
}.

#[global] Instance tsu_timestamp_eq_dec : EqDecision tsu_timestamp_t.
Proof. solve_decision. Defined.

(** ** The union [tsu_adjustment]

    A 32-bit word whose bit fields are, from the least significant bit,
    [nanosec : 30], [reserved : 1] and [direction : 1]. *)

Definition adj_nanosec (w : Z) : Z := Z.land w (Z.ones 30).
Definition adj_direction (w : Z) : Z := Z.shiftr w 31.

Definition adj_set_nanosec (v w : Z) : Z :=
  Z.lor (Z.ldiff w (Z.ones 30)) (Z.land v (Z.ones 30)).
Definition adj_set_direction (v w : Z) : Z :=
  Z.lor (Z.shiftl (Z.land v 1) 31) (Z.land w (Z.ones 31)).

(** ** The static variables, and the device they drive *)

Record tsu (D : Type) := Tsu {
  dev : D;
  fine_tune_register : Z;       (* tsu_adjustment *)
  sUptime_mS : Z;               (* uint32_t *)
  tsu_sec : Z;
  tsu_ns : Z;
  is_read : Z                   (* uint8_t *)
}.
Arguments Tsu {D} _ _ _ _ _ _.
Arguments dev {D} _.
Arguments fine_tune_register {D} _.
Arguments sUptime_mS {D} _.
Arguments tsu_sec {D} _.
Arguments tsu_ns {D} _.
Arguments is_read {D} _.

#[global] Instance tsu_eq_dec `{EqDecision D} : EqDecision (tsu D).
Proof. solve_decision. Defined.

Definition tsu_boot {D} (d : D) : tsu D := Tsu d 0 0 0 0 0.

Section Driver.
Context {D : Type} `{Xil D}.

Definition with_dev d (s : tsu D) : tsu D :=
  Tsu d (fine_tune_register s) (sUptime_mS s) (tsu_sec s) (tsu_ns s) (is_read s).
Definition with_register r (s : tsu D) : tsu D :=
  Tsu (dev s) r (sUptime_mS s) (tsu_sec s) (tsu_ns s) (is_read s).
Definition with_uptime u (s : tsu D) : tsu D :=
  Tsu (dev s) (fine_tune_register s) u (tsu_sec s) (tsu_ns s) (is_read s).
Definition with_local sec ns r (s : tsu D) : tsu D :=
  Tsu (dev s) (fine_tune_register s) (sUptime_mS s) sec ns r.

Definition dev_l : lens (tsu D) D := Lens dev with_dev.

Definition tsu_clock_fine_tune (error_ns sync_diff_integrated_ns boundary : Z) : M (tsu D) unit :=
  freq_adj ← lift (i32 (error_ns + sync_diff_integrated_ns ÷ 20));
  error_ns_abs ← lift (i32 (Z.abs freq_adj));
  if (error_ns_abs <? boundary) && (- boundary <? error_ns) then mret tt
  else
    modify (λ s, with_register
      (adj_set_direction (if 0 <? freq_adj then ADJUST_ADD else ADJUST_SUBTRACT)
         (fine_tune_register s)) s) ;;
    modify (λ s, with_register (adj_set_nanosec error_ns_abs (fine_tune_register s)) s).

Definition tsu_get_uptime_ms : M (tsu D) Z := gets sUptime_mS.
Definition tsu_get_tick_cnt : M (tsu D) Z := gets sUptime_mS.

Definition tsu_driver_adjust_time (adjust : Z) : M (tsu D) unit :=
  zoom dev_l (out32 TSU_TIMER_ADJUST adjust).

Definition tsu_systick_cb : M (tsu D) unit :=
  modify (λ s, with_uptime (to_u32 (sUptime_mS s + 1)) s) ;;
  r ← gets fine_tune_register;
  tsu_driver_adjust_time r.

Definition print_tsu_local_time : M (tsu D) unit :=
  sec ← zoom dev_l (in32 TSU_TIMER_SEC_GEM0);
  ns ← zoom dev_l (in32 TSU_TIMER_NS_GEM0);
  modify (with_local sec ns 1).

Definition read_tsu_local_time : M (tsu D) unit :=
  s ← gets id;
  zoom dev_l (printf "print_tsu_local_time :: %us  %uns \r\n" [tsu_sec s; tsu_ns s]) ;;
  modify (λ s, with_local (tsu_sec s) (tsu_ns s) 0 s).

Definition is_readable : M (tsu D) Z := gets is_read.

(** The increments per clock cycle: whole nanoseconds, and the fraction with
    24 binary digits. *)
Definition tsu_increments (TSU_CLK_FREQ : Z) : outcome (Z * Z) :=
  let ns_per_cycle := d_div (d_of_Z 1000000000) (d_of_Z TSU_CLK_FREQ) in
  ns_int ← d_to_u32 ns_per_cycle;
  sub_ns ← d_to_u32 (d_mul (d_sub ns_per_cycle (d_of_Z ns_int)) (d_of_Z (Z.shiftl 1 24)));
  Ok (ns_int, sub_ns).

(** [TSU_CLK_FREQ] comes from the generated [xparameters.h].  The handler
    argument is not used. *)
Definition init_tsu (TSU_CLK_FREQ : Z) : M (tsu D) unit :=
  zoom dev_l (out32 GEM_TSU_REF_CTRL 0x00010601) ;;
  zoom dev_l (out32 GEM_TSU_REF_CTRL (Z.lor 0x00010601 0x01000000)) ;;
  '(ns_int, sub_ns) ← lift (tsu_increments TSU_CLK_FREQ);
  zoom dev_l (printf "write TSU_TIMER_INCR_GEM0 :: 0x%2.2x\r\nTSU_TIMER_INCR_SUB_NS_GEM0 :: 0x%2.2x\r\n"
    [ns_int; sub_ns]) ;;
  zoom dev_l (out32 TSU_TIMER_INCR_GEM0 ns_int) ;;
  zoom dev_l (out32 TSU_TIMER_INCR_SUB_NS_GEM0 sub_ns) ;;
  zoom dev_l (out32 TSU_TIMER_NS_GEM0 0) ;;
  zoom dev_l (out32 TSU_TIMER_SEC_GEM0 0) ;;
  ns ← zoom dev_l (in32 TSU_TIMER_NS_GEM0);
  sec ← zoom dev_l (in32 TSU_TIMER_SEC_GEM0);
  zoom dev_l (printf "clear tsu time :: %u.%u\r\n" [ns; sec]).

Definition tsu_get_time : M (tsu D) tsu_timestamp_t :=
  first_sec ← zoom dev_l (in32 TSU_TIMER_SEC_GEM0);
  nsec ← zoom dev_l (in32 TSU_TIMER_NS_GEM0);
  second_sec ← zoom dev_l (in32 TSU_TIMER_SEC_GEM0);
  mret (TsuTs second_sec (if first_sec =? second_sec then nsec else 0)).

Definition tsu_set_time (ts : tsu_timestamp_t) : M (tsu D) unit :=
  zoom dev_l (out32 TSU_TIMER_NS_GEM0 (t_nanosec ts)) ;;
  zoom dev_l (out32 TSU_TIMER_SEC_GEM0 (to_u32 (t_seconds ts))).
End Driver.

(** ** The correction word *)

Lemma adj_nanosec_mod w : adj_nanosec w = w mod 2 ^ 30.
Proof. apply Z.land_ones. lia. Qed.

Lemma adj_set_nanosec_arith v w :
  adj_set_nanosec v w = w / 2 ^ 30 * 2 ^ 30 + v mod 2 ^ 30.
Proof.
  unfold adj_set_nanosec. rewrite Z.ldiff_ones_r, Z.land_ones by lia.
  rewrite lor_shiftl_add by lia. by rewrite Z.shiftr_div_pow2.
Qed.

Lemma adj_set_direction_arith v w :
  adj_set_direction v w = v mod 2 * 2 ^ 31 + w mod 2 ^ 31.
Proof.
  unfold adj_set_direction. change (Z.land v 1) with (Z.land v (Z.ones 1)).
  rewrite !Z.land_ones, lor_shiftl_add by lia. done.
Qed.

Lemma adjust_amount_arith w : in_u32 w →
  adjust_amount w = if 2 ^ 31 <=? w then - (w mod 2 ^ 30) else w mod 2 ^ 30.
Proof.
  intros Hw. unfold adjust_amount.
  enough (Z.testbit w 31 = (2 ^ 31 <=? w)) as -> by done.
  rewrite Z.testbit_eqb by lia. unfold in_u32 in Hw.
  destruct (Z.leb_spec (2 ^ 31) w); lia.
Qed.

(** The correction word for a signed frequency adjustment. *)
Definition correction (freq_adj w : Z) : Z :=
  adj_set_nanosec (Z.abs freq_adj)
    (adj_set_direction (if 0 <? freq_adj then ADJUST_ADD else ADJUST_SUBTRACT) w).

Lemma correction_range f w : in_u32 w → in_u32 (correction f w).
Proof.
  unfold correction, in_u32. intros Hw. rewrite adj_set_nanosec_arith, adj_set_direction_arith.
  unfold ADJUST_ADD, ADJUST_SUBTRACT. case_match; lia.
Qed.

(** The word makes the timer move by the adjustment, as long as its magnitude
    fits the 30-bit field; a larger magnitude loses its high bits. *)
Lemma correction_amount f w : in_u32 w →
  adjust_amount (correction f w) = Z.sgn f * (Z.abs f mod 2 ^ 30).
Proof.
  intros Hw. rewrite adjust_amount_arith by by apply correction_range.
  unfold correction. rewrite adj_set_nanosec_arith, adj_set_direction_arith.
  unfold in_u32, ADJUST_ADD, ADJUST_SUBTRACT in *.
  assert (∀ n k, (k * 2 ^ 31 + n) / 2 ^ 30 * 2 ^ 30 = k * 2 ^ 31 + n / 2 ^ 30 * 2 ^ 30) as -> by lia.
  destruct (Z.ltb_spec 0 f).
  - rewrite (proj2 (Z.leb_gt _ _)) by lia. rewrite Z.sgn_pos by lia. lia.
  - rewrite (proj2 (Z.leb_le _ _)) by lia. destruct (decide (f = 0)) as [->|]; [cbn [Z.sgn Z.abs]; lia|].
    rewrite Z.sgn_neg by lia. lia.
Qed.

(** ** What each operation does *)

Section Operations.
Context {D : Type} `{TsuHw D}.

Lemma tsu_get_time_run (s : tsu D) :
  let r1 := Xil_In32 TSU_TIMER_SEC_GEM0 (dev s) in
  let r2 := Xil_In32 TSU_TIMER_NS_GEM0 r1.2 in
  let r3 := Xil_In32 TSU_TIMER_SEC_GEM0 r2.2 in
  tsu_get_time s = Ok (TsuTs r3.1 (if r1.1 =? r3.1 then r2.1 else 0), with_dev r3.2 s).
Proof. done. Qed.

Lemma tsu_set_time_run ts (s : tsu D) :
  tsu_set_time ts s = Ok (tt, with_dev
    (Xil_Out32 TSU_TIMER_SEC_GEM0 (to_u32 (t_seconds ts))
      (Xil_Out32 TSU_TIMER_NS_GEM0 (t_nanosec ts) (dev s))) s).
Proof. done. Qed.

Lemma tsu_systick_cb_run (s : tsu D) :
  tsu_systick_cb s = Ok (tt, with_dev (Xil_Out32 TSU_TIMER_ADJUST (fine_tune_register s) (dev s))
    (with_uptime (to_u32 (sUptime_mS s + 1)) s)).
Proof. done. Qed.

(** The dead band of the fine tuning, as the code tests it. *)
Definition in_dead_band (freq_adj error_ns boundary : Z) : Prop :=
  Z.abs freq_adj < boundary ∧ - boundary < error_ns.

#[global] Instance in_dead_band_dec f e b : Decision (in_dead_band f e b).
Proof. unfold in_dead_band. apply _. Defined.

Lemma tsu_clock_fine_tune_run e i b (s : tsu D) :
  let f := e + i ÷ 20 in - 2 ^ 31 < f < 2 ^ 31 →
  tsu_clock_fine_tune e i b s = Ok (tt,
    if decide (in_dead_band f e b) then s
    else with_register (correction f (fine_tune_register s)) s).
Proof.
  intros f Hf. unfold tsu_clock_fine_tune. fold f.
  rewrite run_bind, i32_Ok, run_lift_Ok by (unfold in_i32; lia).
  rewrite bind_Ok_l, run_bind, i32_Ok, run_lift_Ok by (unfold in_i32; lia).
  rewrite bind_Ok_l. unfold in_dead_band.
  destruct (Z.ltb_spec (Z.abs f) b), (Z.ltb_spec (- b) e); cbn [andb];
    first [rewrite decide_True by done | rewrite decide_False by lia]; done.
Qed.

Lemma tsu_clock_fine_tune_overflow e i b (s : tsu D) :
  ¬ (- 2 ^ 31 < e + i ÷ 20 < 2 ^ 31) →
  tsu_clock_fine_tune e i b s = Fault SignedOverflow.
Proof.
  intros Hf. unfold tsu_clock_fine_tune. rewrite run_bind.
  destruct (i32 _) as [f|] eqn:E.
  - apply i32_inv in E as [-> E]. unfold in_i32 in E.
    rewrite run_lift_Ok, bind_Ok_l, run_bind, i32_overflow; [done|].
    unfold in_i32. lia.
  - cbn. revert E. unfold i32. case_decide; [done|]. intros [= <-]. done.
Qed.
End Operations.

(** ** The driver against the contract of the timer *)

Section Contract.
Context {D : Type} `{TsuHwLaws D}.
Implicit Types d : D.

Definition tsu_total (ts : tsu_timestamp_t) : Z := t_seconds ts * TSU_NS_IN_SEC + t_nanosec ts.

(** The 32-bit seconds register does not wrap during three accesses. *)
Definition in_era (d : D) : Prop :=
  0 ≤ tsu_clock d ∧ tsu_clock d + 3 * access_ns < 2 ^ 32 * TSU_NS_IN_SEC.

#[global] Instance in_era_dec d : Decision (in_era d).
Proof. unfold in_era. apply _. Defined.

(** What the three reads of [tsu_get_time] give on a timer within the era. *)
Lemma three_reads d : in_era d →
  let r1 := Xil_In32 TSU_TIMER_SEC_GEM0 d in
  let r2 := Xil_In32 TSU_TIMER_NS_GEM0 r1.2 in
  let r3 := Xil_In32 TSU_TIMER_SEC_GEM0 r2.2 in
  let t := r3.1 * TSU_NS_IN_SEC + (if r1.1 =? r3.1 then r2.1 else 0) in
  tsu_clock d ≤ t ≤ tsu_clock r3.2 ∧
  tsu_clock r3.2 ≤ tsu_clock d + 3 * access_ns ∧
  in_u32 r3.1 ∧ 0 ≤ (if r1.1 =? r3.1 then r2.1 else 0) < TSU_NS_IN_SEC.
Proof.
  intros [Hlo Hhi] r1 r2 r3.
  destruct (in32_sec d) as (c1 & Hc1 & E1).
  destruct (in32_ns r1.2) as (c2 & Hc2 & E2).
  destruct (in32_sec r2.2) as (c3 & Hc3 & E3).
  pose proof (in32_time TSU_TIMER_SEC_GEM0 d) as [_ T1].
  pose proof (in32_time TSU_TIMER_NS_GEM0 r1.2) as [_ T2].
  pose proof (in32_time TSU_TIMER_SEC_GEM0 r2.2) as [_ T3].
  fold r1 in Hc1, E1, T1. fold r2 in Hc2, E2, T2. fold r3 in Hc3, E3, T3.
  rewrite E1, E2, E3. unfold TSU_NS_IN_SEC in *.
  rewrite !to_u32_small by (unfold in_u32; lia).
  unfold in_u32. destruct (Z.eqb_spec (c1 / 1000000000) (c3 / 1000000000)); lia.
Qed.

(** Writing nanoseconds, then seconds: the result lies in a window of three
    accesses unless the timer rolls over into the next second in between, in
    which case the carry is overwritten. *)
Lemma two_writes d sec ns : in_u32 sec → 0 ≤ ns < TSU_NS_IN_SEC →
  let d' := Xil_Out32 TSU_TIMER_SEC_GEM0 sec (Xil_Out32 TSU_TIMER_NS_GEM0 ns d) in
  let t := sec * TSU_NS_IN_SEC + ns in
  t ≤ tsu_clock d' ≤ t + 3 * access_ns ∨
  (TSU_NS_IN_SEC ≤ ns + 2 * access_ns ∧ sec * TSU_NS_IN_SEC ≤ tsu_clock d').
Proof.
  intros Hs Hn d' t. pose proof access_ns_nonneg.
  destruct (out32_ns ns d Hn) as (c1 & Hc1 & [L1 U1]).
  destruct (out32_sec sec (Xil_Out32 TSU_TIMER_NS_GEM0 ns d) Hs) as (c2 & Hc2 & [L2 U2]).
  fold d' in L2, U2. unfold t. unfold TSU_NS_IN_SEC in *. lia.
Qed.
End Contract.

(** ** Theorems *)

Section Theorems.
Context {D : Type} `{TsuHwLaws D}.

(** C24. Reading the timer in three accesses never gives a torn value: whatever
    second boundary the running timer crosses between the accesses, the time
    returned lies between the timer's values before the first and after the
    last access, its nanoseconds are below one second, and nothing but the
    device is touched. *)
Theorem tsu_get_time_not_torn (s : tsu D) : in_era (dev s) →
  ∃ ts d', tsu_get_time s = Ok (ts, with_dev d' s) ∧
    tsu_clock (dev s) ≤ tsu_total ts ≤ tsu_clock d' ∧
    tsu_clock d' ≤ tsu_clock (dev s) + 3 * access_ns ∧
    0 ≤ t_nanosec ts < TSU_NS_IN_SEC.
Proof.
  intros Hera. destruct (three_reads _ Hera) as (?&?&?&?).
  eexists _, _. split; [apply tsu_get_time_run|]. unfold tsu_total. cbn. split_and!; lia.
Qed.

(** Setting the timer writes the nanoseconds first and the low 32 bits of
    the seconds second.  Unless the nanoseconds are so close to a full second
    that the timer rolls over between the writes, the timer then runs from the
    given time, at most three accesses ahead of it; the rest of the driver
    state is unchanged. *)
Lemma tsu_set_time_sets (s : tsu D) ts :
  0 ≤ t_nanosec ts → t_nanosec ts + 2 * access_ns < TSU_NS_IN_SEC →
  ∃ d', tsu_set_time ts s = Ok (tt, with_dev d' s) ∧
    let t := to_u32 (t_seconds ts) * TSU_NS_IN_SEC + t_nanosec ts in
    t ≤ tsu_clock d' ≤ t + 3 * access_ns.
Proof.
  intros Hlo Hhi. eexists. split; [apply tsu_set_time_run|]. cbn zeta.
  pose proof access_ns_nonneg.
  destruct (two_writes (dev s) (to_u32 (t_seconds ts)) (t_nanosec ts)) as [?|?]; try lia.
  apply to_u32_range.
Qed.

(** The fine tuning on every branch.  It faults exactly when the sum of
    the error and a twentieth of the integrated error leaves the range of a
    signed 32-bit magnitude.  Within the dead band nothing changes, the
    correction register included.  Otherwise the register encodes a
    correction in the direction of the frequency adjustment whose magnitude is
    the adjustment's, modulo the 30 bits of the field. *)
Lemma tsu_clock_fine_tune_correct e i b (s : tsu D) : in_u32 (fine_tune_register s) →
  let f := e + i ÷ 20 in
  match tsu_clock_fine_tune e i b s with
  | Fault err => err = SignedOverflow ∧ ¬ (- 2 ^ 31 < f < 2 ^ 31)
  | Ok (_, s') =>
      - 2 ^ 31 < f < 2 ^ 31 ∧
      s' = with_register (fine_tune_register s') s ∧
      in_u32 (fine_tune_register s') ∧
      if decide (in_dead_band f e b) then s' = s
      else adjust_amount (fine_tune_register s') = Z.sgn f * (Z.abs f mod 2 ^ 30)
  end.
Proof.
  intros Hr f. destruct (decide (- 2 ^ 31 < f < 2 ^ 31)) as [Hf|Hf].
  - rewrite tsu_clock_fine_tune_run by done. fold f. case_decide.
    + by destruct s.
    + cbn. auto using correction_range, correction_amount.
  - by rewrite tsu_clock_fine_tune_overflow.
Qed.

(** A tick counts up modulo 2^32 and moves the hardware timer by the signed
    amount the correction register holds, within one access.  After a fine
    tuning outside the dead band that amount is the new adjustment; inside
    the dead band the tick applies the correction of an earlier call again. *)
Lemma fine_tune_then_tick e i b (s : tsu D) :
  in_u32 (fine_tune_register s) → - 2 ^ 30 < e + i ÷ 20 < 2 ^ 30 →
  let f := e + i ÷ 20 in
  ∃ s', (tsu_clock_fine_tune e i b ;; tsu_systick_cb) s = Ok (tt, s') ∧
    sUptime_mS s' = to_u32 (sUptime_mS s + 1) ∧
    takes (tsu_clock (dev s) +
      if decide (in_dead_band f e b) then adjust_amount (fine_tune_register s) else f) (dev s').
Proof.
  intros Hr Hf f. rewrite run_bind, tsu_clock_fine_tune_run by lia. fold f. rewrite bind_Ok_l.
  eexists. split; [apply tsu_systick_cb_run|]. case_decide; cbn; split; try done.
  - by apply out32_adjust.
  - replace f with (adjust_amount (correction f (fine_tune_register s))) at 1.
    + by apply out32_adjust, correction_range.
    + rewrite correction_amount by done. unfold f in *. lia.
Qed.
End Theorems.

(** ** Concrete runs *)

(** Eight nanoseconds per access, five before a second boundary: the two reads
    of the seconds differ, and the driver returns the start of second 2. *)
Definition sim_at (c : Z) : tsu sim := tsu_boot (Sim c []).

Lemma tsu_get_time_not_torn_witness :
  let s := sim_at 1999999995 in
  (tsu_get_time s = Ok (TsuTs 2 0, with_dev (Sim 2000000019 []) s)) ∧
  ∃ ts d', tsu_get_time s = Ok (ts, with_dev d' s) ∧
    tsu_clock (dev s) ≤ tsu_total ts ≤ tsu_clock d' ∧
    tsu_clock d' ≤ tsu_clock (dev s) + 3 * access_ns ∧
    0 ≤ t_nanosec ts < TSU_NS_IN_SEC.
Proof.
  intros s. split; [reflexivity|]. apply (tsu_get_time_not_torn s).
  by_computation.
Defined.

Lemma tsu_set_time_sets_witness :
  let s := sim_at 77 in let ts := TsuTs 1700000000 5000 in
  ∃ d', tsu_set_time ts s = Ok (tt, with_dev d' s) ∧
    let t := to_u32 (t_seconds ts) * TSU_NS_IN_SEC + t_nanosec ts in
    t ≤ tsu_clock d' ≤ t + 3 * access_ns.
Proof.
  intros s ts. apply (tsu_set_time_sets s ts); by_computation.
Defined.

(** A write in the last nanosecond of a second: the timer rolls over before the
    seconds are written and ends up almost one second behind the time set. *)
Example set_time_loses_a_second :
  match tsu_set_time (TsuTs 100 999999999) (sim_at 0) with
  | Ok (_, s') => tsu_clock (dev s') = 100 * TSU_NS_IN_SEC + 15
  | Fault _ => False
  end.
Proof. vm_compute. reflexivity. Qed.

Lemma tsu_clock_fine_tune_correct_witness :
  let s := sim_at 0 in
  in_u32 (fine_tune_register s) ∧
  let f := - 1000 + 40 ÷ 20 in
  match tsu_clock_fine_tune (- 1000) 40 500 s with
  | Fault err => err = SignedOverflow ∧ ¬ (- 2 ^ 31 < f < 2 ^ 31)
  | Ok (_, s') =>
      - 2 ^ 31 < f < 2 ^ 31 ∧
      s' = with_register (fine_tune_register s') s ∧
      in_u32 (fine_tune_register s') ∧
      if decide (in_dead_band f (- 1000) 500) then s' = s
      else adjust_amount (fine_tune_register s') = Z.sgn f * (Z.abs f mod 2 ^ 30)
  end.
Proof.
  intros s. assert (in_u32 (fine_tune_register s)) as Hr by by_computation.
  split; [exact Hr|]. exact (tsu_clock_fine_tune_correct (- 1000) 40 500 s Hr).
Defined.


(** ** The increments of the timer *)

(** Both registers together hold [ns * 2^24 + sub], the truncation of the period
    of the clock in units of [2^-24] nanoseconds. *)
Definition increments_exact (mhz : Z) : bool :=
  match tsu_increments (mhz * 1000000) with
  | Ok (ns, sub) =>
      (0 <=? sub) && (sub <? 2 ^ 24) && (ns =? 1000 / mhz) &&
      (ns * 2 ^ 24 + sub =? 1000 * 2 ^ 24 / mhz)
  | Fault _ => false
  end.

Lemma increments_exact_all : forallb increments_exact (seqZ 1 1000) = true.
Proof. vm_compute. reflexivity. Qed.

Lemma tsu_increments_run mhz : 1 ≤ mhz ≤ 1000 →
  ∃ ns sub, tsu_increments (mhz * 1000000) = Ok (ns, sub) ∧
    0 ≤ sub < 2 ^ 24 ∧ ns = 1000 / mhz ∧ ns * 2 ^ 24 + sub = 1000 * 2 ^ 24 / mhz.
Proof.
  intros Hmhz. pose proof increments_exact_all as Hall.
  rewrite forallb_forall in Hall. specialize (Hall mhz).
  rewrite <-list_elem_of_In, elem_of_seqZ in Hall. specialize (Hall ltac:(lia)).
  unfold increments_exact in Hall. destruct (tsu_increments _) as [[ns sub]|]; [|done].
  rewrite !andb_true_iff, Z.leb_le, Z.ltb_lt, !Z.eqb_eq in Hall. naive_solver.
Qed.

Lemma init_tsu_run {D} `{Xil D} freq ns sub (s : tsu D) :
  tsu_increments freq = Ok (ns, sub) →
  let d1 := Xil_Out32 TSU_TIMER_SEC_GEM0 0 (Xil_Out32 TSU_TIMER_NS_GEM0 0
    (Xil_Out32 TSU_TIMER_INCR_SUB_NS_GEM0 sub (Xil_Out32 TSU_TIMER_INCR_GEM0 ns
    (xil_printf "write TSU_TIMER_INCR_GEM0 :: 0x%2.2x\r\nTSU_TIMER_INCR_SUB_NS_GEM0 :: 0x%2.2x\r\n"
      [ns; sub] (Xil_Out32 GEM_TSU_REF_CTRL 0x01010601
      (Xil_Out32 GEM_TSU_REF_CTRL 0x00010601 (dev s))))))) in
  let r1 := Xil_In32 TSU_TIMER_NS_GEM0 d1 in
  let r2 := Xil_In32 TSU_TIMER_SEC_GEM0 r1.2 in
  init_tsu freq s = Ok (tt, with_dev (xil_printf "clear tsu time :: %u.%u\r\n" [r1.1; r2.1] r2.2) s).
Proof.
  intros E. unfold init_tsu. rewrite !run_bind. cbn.
  rewrite run_bind. cbn. rewrite run_bind, E. cbn. done.
Qed.


