(* ===== verification/Timesync.v ===== *)
(** * The synchronisation state machine ([src/IEEE1588/timesync.c])

    The state of the synchronisation ([TS_NEVER], [TS_COARSE], [TS_FINE],
    [TS_LOST]) and the handlers that the time services call.  The handlers use
    the timer driver, whose state is a component of the state of this file. *)

From S2P Require Export TsuTime.

Inductive clock_type :=
  | CLOCK_TYPE_NONE
  | CLOCK_TYPE_GENERAL_NMEA_GPS
  | CLOCK_TYPE_PTP
  | CLOCK_TYPE_GPTP.

Inductive timesync_state_e :=
  | TS_NEVER
  | TS_COARSE
  | TS_FINE
  | TS_LOST.

#[global] Instance clock_type_eq_dec : EqDecision clock_type.
Proof. solve_decision. Defined.
#[global] Instance timesync_state_eq_dec : EqDecision timesync_state_e.
Proof. solve_decision. Defined.

Definition RESYNC_COARSE_TIME : Z := 60.
Definition PPS_PERIOD_HIGH : Z := 1050.
Definition PPS_PERIOD_LOW : Z := 950.
Definition PPS_LATENCY_CORRECTION_NS : Z := 1200.
Definition COARSE_TIME_AGE_MAX : Z := 1000.
Definition SYNC_DIFF_BOUNDARY_NS : Z := 10000.
Definition PPS_CORRECTION_BOUNDARY : Z := 50.
Definition TSU_NS_IN_MS : Z := 1000000.

(** ** The static variables *)

Record timesync (D : Type) := Timesync {
  tsu_of : tsu D;
  isInitialized : bool;
  status : timesync_state_e;
  coarse_service_ok : bool;
  last_coarse_time_value : Z;               (* time_t *)
  last_coarse_time_stamp : Z;               (* uint32_t *)
  last_pps_time_stamp : Z;                  (* uint32_t *)
  sMonitor : bool;
  sync_diff_ns : Z;                         (* int *)
  sync_diff_integrated_ns : Z;              (* int *)
  clock_source : clock_type;
  receive_counter : Z;                      (* static int of coarse_time_received *)
  status_prev : timesync_state_e;           (* static of housekeeping *)
  cleanup_registered : bool                 (* init_param.cleanup_function != NULL *)
}.
Arguments Timesync {D} _ _ _ _ _ _ _ _ _ _ _ _ _ _.
Arguments tsu_of {D} _.
Arguments isInitialized {D} _.
Arguments status {D} _.
Arguments coarse_service_ok {D} _.
Arguments last_coarse_time_value {D} _.
Arguments last_coarse_time_stamp {D} _.
Arguments last_pps_time_stamp {D} _.
Arguments sMonitor {D} _.
Arguments sync_diff_ns {D} _.
Arguments sync_diff_integrated_ns {D} _.
Arguments clock_source {D} _.
Arguments receive_counter {D} _.
Arguments status_prev {D} _.
Arguments cleanup_registered {D} _.

#[global] Instance timesync_eq_dec `{EqDecision D} : EqDecision (timesync D).
Proof. solve_decision. Defined.

(** The state at power-up. *)
Definition timesync_boot {D} (d : D) : timesync D :=
  Timesync (tsu_boot d) false TS_NEVER false 0 0 0 false 0 0 CLOCK_TYPE_NONE 0 TS_NEVER false.

Section Fields.
Context {D : Type}.

Definition with_tsu (v : tsu D) (s : timesync D) : timesync D :=
    Timesync v (isInitialized s) (status s) (coarse_service_ok s) (last_coarse_time_value s)
    (last_coarse_time_stamp s) (last_pps_time_stamp s) (sMonitor s) (sync_diff_ns s)
    (sync_diff_integrated_ns s) (clock_source s) (receive_counter s) (status_prev s)
    (cleanup_registered s).
Definition with_initialized (v : bool) (s : timesync D) : timesync D :=
    Timesync (tsu_of s) v (status s) (coarse_service_ok s) (last_coarse_time_value s)
    (last_coarse_time_stamp s) (last_pps_time_stamp s) (sMonitor s) (sync_diff_ns s)
    (sync_diff_integrated_ns s) (clock_source s) (receive_counter s) (status_prev s)
    (cleanup_registered s).
Definition with_status (v : timesync_state_e) (s : timesync D) : timesync D :=
    Timesync (tsu_of s) (isInitialized s) v (coarse_service_ok s) (last_coarse_time_value s)
    (last_coarse_time_stamp s) (last_pps_time_stamp s) (sMonitor s) (sync_diff_ns s)
    (sync_diff_integrated_ns s) (clock_source s) (receive_counter s) (status_prev s)
    (cleanup_registered s).
Definition with_service_ok (v : bool) (s : timesync D) : timesync D :=
    Timesync (tsu_of s) (isInitialized s) (status s) v (last_coarse_time_value s)
    (last_coarse_time_stamp s) (last_pps_time_stamp s) (sMonitor s) (sync_diff_ns s)
    (sync_diff_integrated_ns s) (clock_source s) (receive_counter s) (status_prev s)
    (cleanup_registered s).
Definition with_coarse_value (v : Z) (s : timesync D) : timesync D :=
    Timesync (tsu_of s) (isInitialized s) (status s) (coarse_service_ok s) v
    (last_coarse_time_stamp s) (last_pps_time_stamp s) (sMonitor s) (sync_diff_ns s)
    (sync_diff_integrated_ns s) (clock_source s) (receive_counter s) (status_prev s)
    (cleanup_registered s).
Definition with_coarse_stamp (v : Z) (s : timesync D) : timesync D :=
    Timesync (tsu_of s) (isInitialized s) (status s) (coarse_service_ok s)
    (last_coarse_time_value s) v (last_pps_time_stamp s) (sMonitor s) (sync_diff_ns s)
    (sync_diff_integrated_ns s) (clock_source s) (receive_counter s) (status_prev s)
    (cleanup_registered s).
Definition with_pps_stamp (v : Z) (s : timesync D) : timesync D :=
    Timesync (tsu_of s) (isInitialized s) (status s) (coarse_service_ok s)
    (last_coarse_time_value s) (last_coarse_time_stamp s) v (sMonitor s) (sync_diff_ns s)
    (sync_diff_integrated_ns s) (clock_source s) (receive_counter s) (status_prev s)
    (cleanup_registered s).
Definition with_diff (v : Z) (s : timesync D) : timesync D :=
    Timesync (tsu_of s) (isInitialized s) (status s) (coarse_service_ok s)
    (last_coarse_time_value s) (last_coarse_time_stamp s) (last_pps_time_stamp s) (sMonitor
    s) v (sync_diff_integrated_ns s) (clock_source s) (receive_counter s) (status_prev s)
    (cleanup_registered s).
Definition with_integrated (v : Z) (s : timesync D) : timesync D :=
    Timesync (tsu_of s) (isInitialized s) (status s) (coarse_service_ok s)
    (last_coarse_time_value s) (last_coarse_time_stamp s) (last_pps_time_stamp s) (sMonitor
    s) (sync_diff_ns s) v (clock_source s) (receive_counter s) (status_prev s)
    (cleanup_registered s).
Definition with_source (v : clock_type) (s : timesync D) : timesync D :=
    Timesync (tsu_of s) (isInitialized s) (status s) (coarse_service_ok s)
    (last_coarse_time_value s) (last_coarse_time_stamp s) (last_pps_time_stamp s) (sMonitor
    s) (sync_diff_ns s) (sync_diff_integrated_ns s) v (receive_counter s) (status_prev s)
    (cleanup_registered s).
Definition with_counter (v : Z) (s : timesync D) : timesync D :=
    Timesync (tsu_of s) (isInitialized s) (status s) (coarse_service_ok s)
    (last_coarse_time_value s) (last_coarse_time_stamp s) (last_pps_time_stamp s) (sMonitor
    s) (sync_diff_ns s) (sync_diff_integrated_ns s) (clock_source s) v (status_prev s)
    (cleanup_registered s).
Definition with_prev (v : timesync_state_e) (s : timesync D) : timesync D :=
    Timesync (tsu_of s) (isInitialized s) (status s) (coarse_service_ok s)
    (last_coarse_time_value s) (last_coarse_time_stamp s) (last_pps_time_stamp s) (sMonitor
    s) (sync_diff_ns s) (sync_diff_integrated_ns s) (clock_source s) (receive_counter s) v
    (cleanup_registered s).
Definition with_cleanup (v : bool) (s : timesync D) : timesync D :=
    Timesync (tsu_of s) (isInitialized s) (status s) (coarse_service_ok s)
    (last_coarse_time_value s) (last_coarse_time_stamp s) (last_pps_time_stamp s) (sMonitor
    s) (sync_diff_ns s) (sync_diff_integrated_ns s) (clock_source s) (receive_counter s)
    (status_prev s) v.

Definition tsu_l : lens (timesync D) (tsu D) := Lens tsu_of with_tsu.

#[global] Instance tsu_l_laws : LensLaws tsu_l.
Proof. by split; intros; destruct s || idtac. Qed.
End Fields.

(** ** The handlers *)

Section Handlers.
Context {D : Type} `{Xil D}.

(** [status == TS_NEVER || status == TS_LOST ||
    (status == TS_COARSE && ++receive_counter > RESYNC_COARSE_TIME)] *)
Definition resync_due : M (timesync D) bool :=
  st ← gets status;
  match st with
  | TS_NEVER | TS_LOST => mret true
  | TS_COARSE =>
      c ← gets receive_counter;
      c' ← lift (i32 (c + 1));
      modify (with_counter c') ;;
      mret (RESYNC_COARSE_TIME <? c')
  | TS_FINE => mret false
  end.

(** [if(timestamp > 0) ...]: with no nanoseconds given, those of the timer are
    kept. *)
Definition set_coarse_time (timestamp nanoseconds : Z) : M (timesync D) unit :=
  when (0 <? timestamp) (
    ns ← (if 0 <? nanoseconds then mret nanoseconds
          else t ← zoom tsu_l tsu_get_time; mret (t_nanosec t));
    zoom tsu_l (tsu_set_time (TsuTs (to_u64 timestamp) ns))).

Definition coarse_time_received (timestamp nanoseconds : Z) : M (timesync D) unit :=
  modify (with_service_ok true) ;;
  modify (with_coarse_value timestamp) ;;
  stamp ← zoom tsu_l tsu_get_uptime_ms;
  modify (with_coarse_stamp stamp) ;;
  due ← resync_due;
  when due (
    set_coarse_time timestamp nanoseconds ;;
    modify (with_counter 0) ;;
    st ← gets status;
    when (negb (bool_decide (st = TS_FINE))) (modify (with_status TS_COARSE))).

Definition fine_time_received (timestamp nanoseconds : Z) : M (timesync D) unit :=
  when (0 <? timestamp) (
    zoom tsu_l (tsu_set_time (TsuTs (to_u64 timestamp) nanoseconds))) ;;
  modify (with_status TS_FINE).

(** The difference of a pulse to the full second, in (-500 ms, 500 ms]: the
    subtraction of the latency is one of [u32], stored in an [int]. *)
Definition pps_diff (t : tsu_timestamp_t) : outcome Z :=
  let d := to_i32 (to_u32 (t_nanosec t - PPS_LATENCY_CORRECTION_NS)) in
  if 500 * TSU_NS_IN_MS <? d then i32 (d - 1000 * TSU_NS_IN_MS) else Ok d.

(** Out of the boundaries: set the timer from a coarse time that is fresh.  The
    result is [false] where the handler returns. *)
Definition pps_hard_set (current_stamp : Z) : M (timesync D) bool :=
  s ← gets id;
  let coarse_stamp_age := to_i32 (to_u32 (current_stamp - last_coarse_time_stamp s)) in
  if COARSE_TIME_AGE_MAX <=? coarse_stamp_age then mret false
  else
    sec ← lift (i64 (last_coarse_time_value s + 1));
    zoom tsu_l (tsu_set_time (TsuTs (to_u32 sec) PPS_LATENCY_CORRECTION_NS)) ;;
    modify (with_integrated 0) ;;
    mret true.

(** Within the boundaries: low-pass filter the difference and tune the clock. *)
Definition pps_fine_tune : M (timesync D) unit :=
  s ← gets id;
  d ← lift (i32 (sync_diff_integrated_ns s - sync_diff_ns s));
  let corr := d ÷ 10 in
  integrated ← lift (i32 (sync_diff_integrated_ns s - corr));
  modify (with_integrated integrated) ;;
  zoom tsu_l (tsu_clock_fine_tune integrated 0 PPS_CORRECTION_BOUNDARY).

(** The branch [if(status == TS_FINE)]; [false] where the handler returns. *)
Definition pps_in_fine (current_stamp : Z) : M (timesync D) bool :=
  t ← zoom tsu_l tsu_get_time;
  d ← lift (pps_diff t);
  modify (with_diff d) ;;
  if (d <? - SYNC_DIFF_BOUNDARY_NS) || (SYNC_DIFF_BOUNDARY_NS <? d)
  then pps_hard_set current_stamp
  else pps_fine_tune ;; mret true.

Definition pps_received : M (timesync D) unit :=
  current_stamp ← zoom tsu_l tsu_get_uptime_ms;
  last ← gets last_pps_time_stamp;
  let prev_pps_age := to_i32 (to_u32 (current_stamp - last)) in
  modify (with_pps_stamp current_stamp) ;;
  if (prev_pps_age <? PPS_PERIOD_LOW) || (PPS_PERIOD_HIGH <? prev_pps_age) then mret tt
  else
    st ← gets status;
    goon ← (if bool_decide (st = TS_FINE) then pps_in_fine current_stamp else mret true);
    when goon (
      st ← gets status;
      when (bool_decide (st = TS_COARSE)) (modify (with_status TS_FINE))).

Definition coarse_timeout : M (timesync D) unit :=
  st ← gets status;
  when (bool_decide (st = TS_COARSE)) (modify (with_status TS_LOST)) ;;
  modify (with_service_ok false).

Definition fine_timeout : M (timesync D) unit :=
  st ← gets status;
  when (bool_decide (st = TS_FINE)) (
    ok ← gets coarse_service_ok;
    if (ok : bool) then modify (with_status TS_COARSE) else modify (with_status TS_LOST)).

Definition state_txt (st : timesync_state_e) : string :=
  match st with
  | TS_NEVER => "never synced"
  | TS_COARSE => "coarse sync"
  | TS_FINE => "fine sync"
  | TS_LOST => "sync lost"
  end.

Definition log_state : M (timesync D) unit :=
  st ← gets status;
  zoom tsu_l (zoom dev_l (printf ("Timesync state: " +:+ state_txt st +:+ "\r\n") [])).

Definition housekeeping : M (timesync D) unit :=
  s ← gets id;
  when (negb (bool_decide (status s = status_prev s))) (
    modify (with_prev (status s)) ;;
    log_state) ;;
  when (sMonitor s && negb (sync_diff_ns s =? 0)) (
    zoom tsu_l (zoom dev_l (printf "Diff:%d, avg:%d\r\n"
      [sync_diff_ns s; sync_diff_integrated_ns s])) ;;
    modify (with_diff 0)).

Definition update_error (error_ns avg_error_ns : Z) : M (timesync D) unit :=
  modify (with_diff error_ns) ;;
  modify (with_integrated avg_error_ns).
End Handlers.

(** ** What the handlers compute, as functions *)

Section Results.
Context {D : Type} `{Xil D}.
Implicit Types s : timesync D.

(** The timer after [tsu_set_time]. *)
Definition timer_written (ts : tsu_timestamp_t) (t : tsu D) : tsu D :=
  with_dev (Xil_Out32 TSU_TIMER_SEC_GEM0 (to_u32 (t_seconds ts))
    (Xil_Out32 TSU_TIMER_NS_GEM0 (t_nanosec ts) (dev t))) t.

(** The timer after [tsu_get_time], and the value read. *)
Definition timer_read (t : tsu D) : tsu_timestamp_t * tsu D :=
  let r1 := Xil_In32 TSU_TIMER_SEC_GEM0 (dev t) in
  let r2 := Xil_In32 TSU_TIMER_NS_GEM0 r1.2 in
  let r3 := Xil_In32 TSU_TIMER_SEC_GEM0 r2.2 in
  (TsuTs r3.1 (if r1.1 =? r3.1 then r2.1 else 0), with_dev r3.2 t).

Definition coarse_timer (timestamp nanoseconds : Z) (t : tsu D) : tsu D :=
  if 0 <? timestamp then
    if 0 <? nanoseconds then timer_written (TsuTs (to_u64 timestamp) nanoseconds) t
    else let r := timer_read t in timer_written (TsuTs (to_u64 timestamp) (t_nanosec r.1)) r.2
  else t.

Lemma set_coarse_time_run timestamp nanoseconds s :
  set_coarse_time timestamp nanoseconds s =
  Ok (tt, with_tsu (coarse_timer timestamp nanoseconds (tsu_of s)) s).
Proof.
  unfold set_coarse_time, coarse_timer, when. case_match; [|by destruct s].
  case_match; done.
Qed.

(** What a coarse time changes apart from the resynchronisation. *)
Definition coarse_noted (timestamp : Z) s : timesync D :=
  with_coarse_stamp (sUptime_mS (tsu_of s)) (with_coarse_value timestamp (with_service_ok true s)).

Definition coarse_resynced (timestamp nanoseconds : Z) s : timesync D :=
  with_status TS_COARSE (with_counter 0
    (with_tsu (coarse_timer timestamp nanoseconds (tsu_of s)) s)).

Definition coarse_result (timestamp nanoseconds : Z) s : timesync D :=
  let s1 := coarse_noted timestamp s in
  match status s with
  | TS_NEVER | TS_LOST => coarse_resynced timestamp nanoseconds s1
  | TS_COARSE =>
      if RESYNC_COARSE_TIME <? receive_counter s + 1
      then coarse_resynced timestamp nanoseconds s1
      else with_counter (receive_counter s + 1) s1
  | TS_FINE => s1
  end.

Lemma coarse_time_received_run timestamp nanoseconds s :
  (status s = TS_COARSE → in_i32 (receive_counter s + 1)) →
  coarse_time_received timestamp nanoseconds s =
  Ok (tt, coarse_result timestamp nanoseconds s).
Proof.
  intros Hc. unfold coarse_time_received, resync_due.
  pose proof (λ s, set_coarse_time_run timestamp nanoseconds s) as Hset.
  mexec. destruct s as [t init st]; cbn in *. destruct st; cbn; [by rewrite Hset| |done|by rewrite Hset].
  rewrite i32_Ok by auto. cbn. unfold coarse_result; cbn.
  destruct (RESYNC_COARSE_TIME <? _); cbn; [by rewrite Hset|done].
Qed.

Lemma fine_time_received_run timestamp nanoseconds s :
  fine_time_received timestamp nanoseconds s =
  Ok (tt, with_status TS_FINE (if 0 <? timestamp
    then with_tsu (timer_written (TsuTs (to_u64 timestamp) nanoseconds) (tsu_of s)) s else s)).
Proof. unfold fine_time_received. mexec. by destruct (0 <? timestamp). Qed.

Lemma coarse_timeout_run s :
  coarse_timeout s = Ok (tt, with_service_ok false
    (if bool_decide (status s = TS_COARSE) then with_status TS_LOST s else s)).
Proof. unfold coarse_timeout. mexec. by case_bool_decide. Qed.

Lemma fine_timeout_run s :
  fine_timeout s = Ok (tt, if bool_decide (status s = TS_FINE)
    then with_status (if coarse_service_ok s then TS_COARSE else TS_LOST) s else s).
Proof.
  unfold fine_timeout. mexec. case_bool_decide; [|done]. by destruct (coarse_service_ok s).
Qed.
End Results.

(** ** The abstract machine

    What the handlers promise to a user of the synchronisation: the status,
    whether a coarse service is alive, and how many coarse times were skipped
    since the last resynchronisation. *)

Inductive event :=
  | Coarse (timestamp nanoseconds : Z)
  | Fine (timestamp nanoseconds : Z)
  | Pps
  | CoarseTimeout
  | FineTimeout
  | Housekeeping
  | UpdateError (error_ns avg_error_ns : Z).

Record view := View { v_status : timesync_state_e; v_service : bool; v_count : Z }.

(** [Pps] may be ignored (a period out of its bounds); otherwise it promotes
    coarse synchronisation to fine. *)
Inductive spec_step : event → view → view → Prop :=
  | spec_coarse_first ts ns st sv c :
      st = TS_NEVER ∨ st = TS_LOST →
      spec_step (Coarse ts ns) (View st sv c) (View TS_COARSE true 0)
  | spec_coarse_skip ts ns sv c :
      c < RESYNC_COARSE_TIME →
      spec_step (Coarse ts ns) (View TS_COARSE sv c) (View TS_COARSE true (c + 1))
  | spec_coarse_resync ts ns sv c :
      RESYNC_COARSE_TIME ≤ c →
      spec_step (Coarse ts ns) (View TS_COARSE sv c) (View TS_COARSE true 0)
  | spec_coarse_fine ts ns sv c :
      spec_step (Coarse ts ns) (View TS_FINE sv c) (View TS_FINE true c)
  | spec_fine ts ns v :
      spec_step (Fine ts ns) v (View TS_FINE (v_service v) (v_count v))
  | spec_pps_none v : spec_step Pps v v
  | spec_pps_promote sv c :
      spec_step Pps (View TS_COARSE sv c) (View TS_FINE sv c)
  | spec_coarse_timeout st sv c :
      spec_step CoarseTimeout (View st sv c)
        (View (if decide (st = TS_COARSE) then TS_LOST else st) false c)
  | spec_fine_timeout st sv c :
      spec_step FineTimeout (View st sv c)
        (View (if decide (st = TS_FINE) then if sv then TS_COARSE else TS_LOST else st) sv c)
  | spec_housekeeping v : spec_step Housekeeping v v
  | spec_update_error e a v : spec_step (UpdateError e a) v v.

Section Refinement.
Context {D : Type} `{Xil D}.
Implicit Types s : timesync D.

Definition handle (e : event) : M (timesync D) unit :=
  match e with
  | Coarse ts ns => coarse_time_received ts ns
  | Fine ts ns => fine_time_received ts ns
  | Pps => pps_received
  | CoarseTimeout => coarse_timeout
  | FineTimeout => fine_timeout
  | Housekeeping => housekeeping
  | UpdateError e a => update_error e a
  end.

Definition view_of s : view := View (status s) (coarse_service_ok s) (receive_counter s).

Lemma pps_hard_set_view stamp s b s' :
  pps_hard_set stamp s = Ok (b, s') → view_of s' = view_of s.
Proof.
  unfold pps_hard_set. intros Hr. minv. case_match; minv; [done|].
  done.
Qed.

Lemma pps_fine_tune_view s u s' :
  pps_fine_tune s = Ok (u, s') → view_of s' = view_of s.
Proof. unfold pps_fine_tune. intros Hr. minv. done. Qed.

Lemma pps_in_fine_view stamp s b s' :
  pps_in_fine stamp s = Ok (b, s') → view_of s' = view_of s.
Proof.
  unfold pps_in_fine. intros Hr. minv. case_match; minv.
  - match goal with H : pps_hard_set _ _ = _ |- _ => apply pps_hard_set_view in H; rewrite H end. done.
  - match goal with H : pps_fine_tune _ = _ |- _ => apply pps_fine_tune_view in H; rewrite H end. done.
Qed.

Lemma pps_received_view s u s' :
  pps_received s = Ok (u, s') → spec_step Pps (view_of s) (view_of s').
Proof.
  unfold pps_received. intros Hr. minv. case_match; minv.
  { apply spec_pps_none. }
  match goal with H : (if bool_decide _ then _ else _) _ = Ok (?go, ?t) |- _ =>
    assert (view_of t = view_of s) as Ht;
    [ case_bool_decide; [apply pps_in_fine_view in H; rewrite H|minv]; done
    | clear H; destruct go ] end.
  - unfold when in *. revert Ht. minv.
    case_bool_decide as Hc; minv; intros Ht; [|rewrite Ht; constructor].
    rewrite <-Ht. unfold view_of; cbn. rewrite Hc. constructor.
  - unfold when in *. revert Ht. minv. intros ->. constructor.
Qed.

(** The invariant of the abstract machine: a coarse synchronisation has a live
    coarse service, no synchronisation at all means that none was ever seen,
    a lost one that the coarse service is gone, and at most
    [RESYNC_COARSE_TIME] coarse times are skipped. *)
Definition sync_inv (v : view) : Prop :=
  0 ≤ v_count v ≤ RESYNC_COARSE_TIME ∧
  match v_status v with
  | TS_NEVER => v_service v = false ∧ v_count v = 0
  | TS_COARSE => v_service v = true
  | TS_FINE => True
  | TS_LOST => v_service v = false
  end.

Lemma spec_step_inv e v v' : spec_step e v v' → sync_inv v → sync_inv v'.
Proof.
  unfold sync_inv, RESYNC_COARSE_TIME.
  destruct 1 as [ts ns st sv c|ts ns sv c|ts ns sv c|ts ns sv c|ts ns v|v|sv c|st sv c|st sv c|v|e a v];
    cbn; try destruct v as [st sv c]; try destruct st; try destruct sv; cbn;
    repeat case_decide; simplify_eq; cbn; unfold RESYNC_COARSE_TIME in *; intuition (congruence || lia).
Qed.

Lemma coarse_result_view ts ns s :
  spec_step (Coarse ts ns) (view_of s) (view_of (coarse_result ts ns s)).
Proof.
  unfold coarse_result, view_of. destruct (status s) eqn:E; cbn.
  - constructor. auto.
  - destruct (Z.ltb_spec RESYNC_COARSE_TIME (receive_counter s + 1)).
    + cbn. apply spec_coarse_resync. lia.
    + cbn. rewrite E. apply spec_coarse_skip. lia.
  - rewrite E. constructor.
  - constructor. auto.
Qed.

Lemma housekeeping_view s u s' : housekeeping s = Ok (u, s') → view_of s' = view_of s.
Proof.
  unfold housekeeping, log_state. mexec. destruct s; cbn.
  repeat (case_match; cbn); naive_solver.
Qed.

Lemma handle_spec e s s' : 0 ≤ receive_counter s ≤ RESYNC_COARSE_TIME →
  handle e s = Ok (tt, s') → spec_step e (view_of s) (view_of s').
Proof.
  intros Hc. destruct e; cbn [handle].
  - rewrite coarse_time_received_run by (unfold in_i32, RESYNC_COARSE_TIME in *; lia).
    intros [= <-]. apply coarse_result_view.
  - rewrite fine_time_received_run. intros [= <-].
    destruct (0 <? timestamp); apply (spec_fine timestamp nanoseconds (view_of s)).
  - apply pps_received_view.
  - rewrite coarse_timeout_run. intros [= <-].
    pose proof (spec_coarse_timeout (status s) (coarse_service_ok s) (receive_counter s)) as Hs.
    case_bool_decide; case_decide; done.
  - rewrite fine_timeout_run. intros [= <-].
    pose proof (spec_fine_timeout (status s) (coarse_service_ok s) (receive_counter s)) as Hs.
    case_bool_decide; case_decide; done.
  - intros ->%housekeeping_view. constructor.
  - intros [= <-]. constructor.
Qed.

Lemma handle_inv e s s' : sync_inv (view_of s) → handle e s = Ok (tt, s') →
  spec_step e (view_of s) (view_of s') ∧ sync_inv (view_of s').
Proof.
  intros Hi Hh. assert (spec_step e (view_of s) (view_of s')) as Hs.
  { apply handle_spec; [apply Hi|done]. }
  eauto using spec_step_inv.
Qed.

(** ** Reachable states *)

Inductive reachable : timesync D → Prop :=
  | reach_boot d : reachable (timesync_boot d)
  | reach_step s e s' : reachable s → handle e s = Ok (tt, s') → reachable s'.

Lemma reachable_inv s : reachable s → sync_inv (view_of s).
Proof.
  induction 1 as [d|s e s' Hr IH Hh]; [by repeat split|]. by eapply handle_inv.
Qed.

(** ** The handlers return *)

Lemma pps_diff_run t : ∃ d, pps_diff t = Ok d ∧ in_i32 d.
Proof.
  unfold pps_diff. set (d := to_i32 _).
  assert (in_i32 d) as Hd by apply to_i32_range. clearbody d. unfold TSU_NS_IN_MS.
  destruct (Z.ltb_spec (500 * 1000000) d); [|by eauto].
  rewrite i32_Ok by int_lia. eexists. split; [done|]. int_lia.
Qed.

(** Room for one step of the low-pass filter. *)
Definition filter_room (s : timesync D) : Prop :=
  Z.abs (sync_diff_integrated_ns s) < 2 ^ 31 - SYNC_DIFF_BOUNDARY_NS ∧
  in_i64 (last_coarse_time_value s + 1).

(** The driver of the timer after the clock was tuned by the average. *)
Definition tuned (avg : Z) (u : tsu D) : tsu D :=
  if decide (Z.abs avg < PPS_CORRECTION_BOUNDARY) then u
  else with_register (correction avg (fine_tune_register u)) u.

Lemma tuned_dead_band avg (u : tsu D) :
  tuned avg u = if decide (in_dead_band avg avg PPS_CORRECTION_BOUNDARY) then u
    else with_register (correction avg (fine_tune_register u)) u.
Proof.
  unfold tuned. apply decide_ext. unfold in_dead_band, PPS_CORRECTION_BOUNDARY. lia.
Qed.

Lemma tuned_amount avg (u : tsu D) : in_u32 (fine_tune_register u) →
  PPS_CORRECTION_BOUNDARY ≤ Z.abs avg < 2 ^ 30 →
  adjust_amount (fine_tune_register (tuned avg u)) = avg.
Proof.
  intros Hw Ha. unfold tuned. rewrite decide_False by lia. cbn [fine_tune_register with_register].
  rewrite correction_amount by done. lia.
Qed.

Lemma pps_fine_tune_run s : filter_room s → Z.abs (sync_diff_ns s) ≤ SYNC_DIFF_BOUNDARY_NS →
  let i := sync_diff_integrated_ns s - (sync_diff_integrated_ns s - sync_diff_ns s) ÷ 10 in
  pps_fine_tune s = Ok (tt, with_tsu (tuned i (tsu_of s)) (with_integrated i s)).
Proof.
  intros [Hi _] Hd i. unfold SYNC_DIFF_BOUNDARY_NS in *.
  unfold pps_fine_tune. mexec. rewrite i32_Ok by int_lia. cbn.
  rewrite i32_Ok by int_lia. cbn. fold i.
  rewrite tsu_clock_fine_tune_run by (cbn; lia).
  replace (i + 0 ÷ 20) with i by (cbn; lia). by rewrite <-tuned_dead_band.
Qed.

Lemma pps_hard_set_run stamp s : in_i64 (last_coarse_time_value s + 1) →
  pps_hard_set stamp s =
  if COARSE_TIME_AGE_MAX <=? to_i32 (to_u32 (stamp - last_coarse_time_stamp s)) then Ok (false, s)
  else Ok (true, with_integrated 0 (with_tsu
    (timer_written (TsuTs (to_u32 (last_coarse_time_value s + 1)) PPS_LATENCY_CORRECTION_NS)
      (tsu_of s)) s)).
Proof.
  intros Hv. unfold pps_hard_set. mexec. case_match; [done|]. by rewrite i64_Ok.
Qed.

(** The state after the timer was read and the difference noted. *)
Definition pps_measured (d : Z) s : timesync D :=
  with_diff d (with_tsu (timer_read (tsu_of s)).2 s).

Lemma pps_in_fine_run stamp s d :
  pps_diff (timer_read (tsu_of s)).1 = Ok d →
  pps_in_fine stamp s =
  if (d <? - SYNC_DIFF_BOUNDARY_NS) || (SYNC_DIFF_BOUNDARY_NS <? d)
  then pps_hard_set stamp (pps_measured d s)
  else (pps_fine_tune ;; mret true) (pps_measured d s).
Proof.
  intros Hd. unfold pps_in_fine. rewrite run_bind.
  change (zoom tsu_l tsu_get_time s) with
    (Ok ((timer_read (tsu_of s)).1, with_tsu (timer_read (tsu_of s)).2 s)).
  rewrite bind_Ok_l, run_bind, Hd, run_lift_Ok, bind_Ok_l, run_bind, run_modify, bind_Ok_l.
  by case_match.
Qed.

Lemma pps_in_fine_returns stamp s : filter_room s →
  ∃ b s', pps_in_fine stamp s = Ok (b, s').
Proof.
  intros [Hi Hv]. destruct (pps_diff_run (timer_read (tsu_of s)).1) as (d & Hd & _).
  rewrite (pps_in_fine_run _ _ d) by done.
  destruct (Z.ltb_spec d (- SYNC_DIFF_BOUNDARY_NS)); cbn [orb];
    [|destruct (Z.ltb_spec SYNC_DIFF_BOUNDARY_NS d)].
  1,2: rewrite pps_hard_set_run by done; case_match; eauto.
  rewrite run_bind, pps_fine_tune_run; [by eauto|done|]. cbn. lia.
Qed.

Lemma pps_received_run s :
  let now := sUptime_mS (tsu_of s) in
  let age := to_i32 (to_u32 (now - last_pps_time_stamp s)) in
  pps_received s =
  if (age <? PPS_PERIOD_LOW) || (PPS_PERIOD_HIGH <? age) then Ok (tt, with_pps_stamp now s)
  else
    '(goon, s1) ← (if bool_decide (status s = TS_FINE)
      then pps_in_fine now (with_pps_stamp now s) else Ok (true, with_pps_stamp now s));
    if (goon : bool) then
      Ok (tt, if bool_decide (status s1 = TS_COARSE) then with_status TS_FINE s1 else s1)
    else Ok (tt, s1).
Proof.
  intros now age. unfold pps_received.
  rewrite run_bind. change (zoom tsu_l tsu_get_uptime_ms s) with (Ok (now, with_tsu (tsu_of s) s)).
  replace (with_tsu (tsu_of s) s) with s by by destruct s.
  rewrite bind_Ok_l, run_bind, run_gets, bind_Ok_l, run_bind, run_modify, bind_Ok_l.
  fold age. destruct ((age <? _) || _); [done|].
  rewrite run_bind, run_gets, bind_Ok_l, run_bind. cbn [status with_pps_stamp].
  assert (∀ b s1, (when b (st ← gets status;
      when (bool_decide (st = TS_COARSE)) (modify (with_status TS_FINE)))) s1 =
    if (b : bool) then Ok (tt, if bool_decide (status s1 = TS_COARSE)
      then with_status TS_FINE s1 else s1) else Ok (tt, s1)) as Htail.
  { intros b s1. mexec. destruct b; [|done]. by case_bool_decide. }
  case_bool_decide; [|apply Htail].
  destruct (pps_in_fine _ _) as [[b s1]|]; cbn; [apply Htail|done].
Qed.

Lemma handle_returns_housekeeping s : ∃ s', housekeeping s = Ok (tt, s').
Proof. unfold housekeeping, log_state. mexec. repeat (case_match; cbn); eauto. Qed.

Lemma handle_returns e s : sync_inv (view_of s) → filter_room s → ∃ s', handle e s = Ok (tt, s').
Proof.
  intros [Hc _] Hroom. destruct e; cbn [handle].
  - rewrite coarse_time_received_run; [by eauto|]. cbn in Hc.
    unfold in_i32, RESYNC_COARSE_TIME in *. lia.
  - rewrite fine_time_received_run. eauto.
  - unfold pps_received. rewrite run_bind. cbn [zoom]. unfold zoom at 1. cbn.
    rewrite !run_bind, run_gets, bind_Ok_l, run_bind, run_modify, bind_Ok_l.
    case_match; [by eauto|]. rewrite run_bind, run_gets, bind_Ok_l, run_bind.
    set (s1 := with_pps_stamp _ _).
    destruct (pps_in_fine_returns (sUptime_mS (tsu_of s)) s1) as (b & s2 & E); [done|].
    case_bool_decide; [rewrite E|]; mexec; [destruct b|]; cbn; try case_bool_decide; eauto.
  - rewrite coarse_timeout_run. eauto.
  - rewrite fine_timeout_run. eauto.
  - apply handle_returns_housekeeping.
  - unfold update_error. mexec. eauto.
Qed.

(** ** Sequences of events *)

Fixpoint handle_all (es : list event) : M (timesync D) unit :=
  match es with
  | [] => mret tt
  | e :: es' => handle e ;; handle_all es'
  end.

Lemma handle_all_app es es' s :
  handle_all (es ++ es') s = (handle_all es ;; handle_all es') s.
Proof.
  revert s. induction es as [|e es IH]; intros s; [done|].
  cbn. rewrite !run_bind. destruct (handle e s) as [[[] s1]|]; cbn; [|done].
  by rewrite IH, run_bind.
Qed.

Definition coarse_events (l : list (Z * Z)) : list event := map (λ '(ts, ns), Coarse ts ns) l.

(** While fewer than [RESYNC_COARSE_TIME] coarse times were skipped, further
    ones do not touch the timer. *)
Lemma coarse_skipped l s : status s = TS_COARSE → 0 ≤ receive_counter s →
  receive_counter s + Z.of_nat (length l) ≤ RESYNC_COARSE_TIME →
  ∃ s', handle_all (coarse_events l) s = Ok (tt, s') ∧ tsu_of s' = tsu_of s ∧
    status s' = TS_COARSE ∧ receive_counter s' = receive_counter s + Z.of_nat (length l).
Proof.
  revert s. induction l as [|[ts ns] l IH]; intros s Hst Hc Hlen.
  - exists s. cbn. split_and!; [done..|lia].
  - cbn [length] in *. cbn [coarse_events map handle_all handle].
    rewrite run_bind, coarse_time_received_run
      by (unfold in_i32, RESYNC_COARSE_TIME in *; lia).
    unfold coarse_result at 1. rewrite Hst.
    rewrite (proj2 (Z.ltb_ge _ _)) by lia. rewrite bind_Ok_l.
    set (s1 := with_counter _ _).
    destruct (IH s1) as (s' & E & Ht & Hs & Hn); cbn; [done|lia|lia|].
    exists s'. cbn in *. split_and!; [done..|lia].
Qed.
End Refinement.

(** ** Theorems *)

Section Theorems.
Context {D : Type} `{Xil D}.
Implicit Types s : timesync D.

Lemma spec_step_not_never e v v' : spec_step e v v' →
  v_status v ≠ TS_NEVER → v_status v' ≠ TS_NEVER.
Proof.
  destruct 1 as [ts ns st sv c|ts ns sv c|ts ns sv c|ts ns sv c|ts ns v|v|sv c|st sv c|st sv c|v|e a v];
    cbn; repeat case_decide; try destruct sv; congruence.
Qed.

(** C7. Refinement.  In every reachable state whose filter has room, every
    handler returns, makes a step of the abstract machine, keeps its invariant
    (a coarse status has a live coarse service, a lost one has none, at most
    60 coarse times are skipped), and never goes back to "never
    synchronised". *)
Theorem handlers_refine_machine e s : reachable s → filter_room s →
  ∃ s', handle e s = Ok (tt, s') ∧
    spec_step e (view_of s) (view_of s') ∧ sync_inv (view_of s') ∧
    (status s ≠ TS_NEVER → status s' ≠ TS_NEVER).
Proof.
  intros Hr Hroom. apply reachable_inv in Hr as Hi.
  destruct (handle_returns e s Hi Hroom) as [s' E]. exists s'.
  destruct (handle_inv _ _ _ Hi E) as [Hs Hi'].
  do 3 (split; [done|]). intros Hn. exact (spec_step_not_never _ _ _ Hs Hn).
Qed.

(** Resynchronisation.  In coarse synchronisation with no coarse time
    skipped, the next [RESYNC_COARSE_TIME] coarse times leave the timer alone;
    the one after them sets it, to the time it carries, and starts a new round. *)
Lemma coarse_resync_period s l ts ns :
  status s = TS_COARSE → receive_counter s = 0 →
  Z.of_nat (length l) = RESYNC_COARSE_TIME →
  ∃ s1 s2, handle_all (coarse_events l) s = Ok (tt, s1) ∧ tsu_of s1 = tsu_of s ∧
    handle (Coarse ts ns) s1 = Ok (tt, s2) ∧
    tsu_of s2 = coarse_timer ts ns (tsu_of s) ∧
    status s2 = TS_COARSE ∧ receive_counter s2 = 0.
Proof.
  intros Hst Hc Hl.
  destruct (coarse_skipped l s) as (s1 & E & Ht & Hst1 & Hc1); [done|lia|lia|].
  assert ((RESYNC_COARSE_TIME <? receive_counter s1 + 1) = true) as Hdue.
  { apply Z.ltb_lt. lia. }
  exists s1, (coarse_result ts ns s1). split_and!; [done|done|..].
  { apply coarse_time_received_run. unfold in_i32, RESYNC_COARSE_TIME in *. lia. }
  all: unfold coarse_result; rewrite Hst1, Hdue; cbn; congruence.
Qed.

(** In fine synchronisation coarse times never reach the timer: whatever
    their number and however far they are from the timer's time, the timer,
    the correction register and the status stay as they are. *)
Lemma fine_ignores_coarse l s : status s = TS_FINE →
  ∃ s', handle_all (coarse_events l) s = Ok (tt, s') ∧
    tsu_of s' = tsu_of s ∧ status s' = TS_FINE.
Proof.
  revert s. induction l as [|[ts ns] l IH]; intros s Hst; [by exists s|].
  cbn [coarse_events map handle_all handle].
  rewrite run_bind, coarse_time_received_run by congruence.
  unfold coarse_result. rewrite Hst, bind_Ok_l. by apply (IH (coarse_noted ts s)).
Qed.

(** C32. The low-pass filter of the pulses.  A pulse in time, in fine
    synchronisation, measures the distance of the timer from the full second,
    in (-500 ms, 500 ms].  Beyond 10 us the timer is set to the second after
    the last coarse time if that is younger than a second, and nothing else
    happens if it is older; within 10 us the average moves by a tenth of its
    distance to the measurement, never past it, and the correction register is
    set to the new average, in size and direction, unless that is less than
    50 ns, when the register is left alone. *)
Theorem pps_in_fine_sync s : status s = TS_FINE → filter_room s →
  let now := sUptime_mS (tsu_of s) in
  PPS_PERIOD_LOW ≤ to_i32 (to_u32 (now - last_pps_time_stamp s)) ≤ PPS_PERIOD_HIGH →
  0 ≤ t_nanosec (timer_read (tsu_of s)).1 < TSU_NS_IN_SEC →
  ∃ d s', pps_received s = Ok (tt, s') ∧ status s' = TS_FINE ∧ sync_diff_ns s' = d ∧
    - 500000000 < d ≤ 500000000 ∧
    (d - (t_nanosec (timer_read (tsu_of s)).1 - PPS_LATENCY_CORRECTION_NS)) mod TSU_NS_IN_SEC = 0 ∧
    let read := (timer_read (tsu_of s)).2 in
    let avg := sync_diff_integrated_ns s in
    let avg' := sync_diff_integrated_ns s' in
    if decide (Z.abs d ≤ SYNC_DIFF_BOUNDARY_NS) then
      10 * Z.abs (avg' - d) ≤ 9 * Z.abs (avg - d) + 9 ∧
      Z.min avg d ≤ avg' ≤ Z.max avg d ∧
      tsu_of s' = tuned avg' read ∧
      (in_u32 (fine_tune_register read) → PPS_CORRECTION_BOUNDARY ≤ Z.abs avg' < 2 ^ 30 →
        adjust_amount (fine_tune_register (tsu_of s')) = avg')
    else if decide (COARSE_TIME_AGE_MAX ≤ to_i32 (to_u32 (now - last_coarse_time_stamp s))) then
      tsu_of s' = read ∧ avg' = avg
    else
      tsu_of s' = timer_written
        (TsuTs (to_u32 (last_coarse_time_value s + 1)) PPS_LATENCY_CORRECTION_NS) read ∧
      avg' = 0.
Proof.
  intros Hst Hroom now Hage Hns. unfold TSU_NS_IN_SEC in *.
  destruct (pps_diff_run (timer_read (tsu_of s)).1) as (d & Hd & _).
  assert (- 500000000 < d ≤ 500000000 ∧
    (d - (t_nanosec (timer_read (tsu_of s)).1 - PPS_LATENCY_CORRECTION_NS)) mod 1000000000 = 0)
    as [Hrange Hmod].
  { revert Hd Hns. unfold pps_diff, TSU_NS_IN_MS, PPS_LATENCY_CORRECTION_NS.
    generalize (t_nanosec (timer_read (tsu_of s)).1) as n. intros n Hd Hns. revert Hd.
    rewrite to_i32_to_u32 by int_lia.
    case_match; [intros [-> ?]%i32_inv|intros [= <-]]; lia. }
  rewrite pps_received_run. fold now.
  rewrite (proj2 (Z.ltb_ge _ _)), (proj2 (Z.ltb_ge PPS_PERIOD_HIGH _)) by lia. cbn [orb].
  rewrite bool_decide_true by done.
  set (s1 := with_pps_stamp now s). assert (filter_room s1) as Hroom1 by done.
  rewrite (pps_in_fine_run now s1 d) by done.
  exists d. unfold SYNC_DIFF_BOUNDARY_NS in *. case_decide as Hb.
  - rewrite (proj2 (Z.ltb_ge d _)), (proj2 (Z.ltb_ge _ d)) by lia. cbn [orb].
    rewrite run_bind, pps_fine_tune_run by (done || cbn; unfold SYNC_DIFF_BOUNDARY_NS; lia).
    cbn [sync_diff_ns sync_diff_integrated_ns pps_measured with_diff with_tsu s1 with_pps_stamp].
    set (i := _ - _ ÷ 10).
    rewrite bind_Ok_l.
    eexists. split; [reflexivity|]. cbn. rewrite Hst, bool_decide_false by done. cbn.
    assert (10 * Z.abs (i - d) ≤ 9 * Z.abs (sync_diff_integrated_ns s - d) + 9 ∧
      Z.min (sync_diff_integrated_ns s) d ≤ i ≤ Z.max (sync_diff_integrated_ns s) d) as [? ?] by (unfold i; lia).
    split_and!; try done; try lia. intros ? ?. by apply tuned_amount.
  - destruct ((d <? _) || _) eqn:E; [clear E|exfalso; apply orb_false_iff in E; lia].
    rewrite pps_hard_set_run by apply Hroom.
    cbn [last_coarse_time_stamp last_coarse_time_value pps_measured with_diff with_tsu s1 with_pps_stamp].
    case_decide as Hage'.
    + rewrite (proj2 (Z.leb_le _ _)) by done. rewrite bind_Ok_l. eexists. split; [done|]. done.
    + rewrite (proj2 (Z.leb_gt _ _)) by lia. rewrite bind_Ok_l.
      eexists. split; [done|]. cbn. rewrite Hst, bool_decide_false by done. done.
Qed.
End Theorems.

(** The first coarse time, and the one after a loss of synchronisation, set
    the timer: it then runs from the given second with the given nanoseconds,
    or with those it showed when none are given, at most three accesses ahead,
    unless it rolls over between the two writes. *)
Lemma coarse_sets_timer {D} `{TsuHwLaws D} ts ns (s : timesync D) :
  status s = TS_NEVER ∨ status s = TS_LOST → 0 < ts < 2 ^ 32 →
  let kept := if 0 <? ns then ns else t_nanosec (timer_read (tsu_of s)).1 in
  0 ≤ kept → kept + 2 * access_ns < TSU_NS_IN_SEC →
  ∃ s', coarse_time_received ts ns s = Ok (tt, s') ∧
    status s' = TS_COARSE ∧ coarse_service_ok s' = true ∧ last_coarse_time_value s' = ts ∧
    let t := ts * TSU_NS_IN_SEC + kept in
    t ≤ tsu_clock (dev (tsu_of s')) ≤ t + 3 * access_ns.
Proof.
  intros Hst Hts kept Hlo Hhi.
  exists (coarse_result ts ns s).
  split; [apply coarse_time_received_run; naive_solver congruence|].
  assert (coarse_result ts ns s = coarse_resynced ts ns (coarse_noted ts s)) as ->.
  { unfold coarse_result. by destruct Hst as [-> | ->]. }
  do 3 (split; [done|]). cbn -[tsu_clock].
  unfold coarse_timer. rewrite (proj2 (Z.ltb_lt 0 ts)) by lia.
  assert (to_u32 (to_u64 ts) = ts) as Hconv by int_lia.
  pose proof access_ns_nonneg.
  assert (∀ t : tsu D, let c := tsu_clock (dev (timer_written (TsuTs (to_u64 ts) kept) t)) in
    ts * TSU_NS_IN_SEC + kept ≤ c ≤ ts * TSU_NS_IN_SEC + kept + 3 * access_ns) as Hw.
  { intros t. cbn -[tsu_clock]. rewrite Hconv.
    destruct (two_writes (dev t) ts kept) as [?|?]; unfold in_u32; lia. }
  revert Hw. unfold kept. case_match; intros Hw; apply Hw.
Qed.

(** ** Concrete runs *)

Definition sync_at (c : Z) (st : timesync_state_e) (sv : bool) : timesync sim :=
  Timesync (sim_at c) true st sv 0 0 0 false 0 0 CLOCK_TYPE_PTP 0 TS_NEVER false.

Lemma handlers_refine_machine_witness :
  let s := timesync_boot (Sim 0 []) in
  reachable s ∧ filter_room s ∧ ∃ s', handle (Coarse 1700000000 5) s = Ok (tt, s') ∧
    spec_step (Coarse 1700000000 5) (view_of s) (view_of s') ∧ sync_inv (view_of s') ∧
    (status s ≠ TS_NEVER → status s' ≠ TS_NEVER).
Proof.
  intros s. assert (reachable s) as Hr by apply reach_boot.
  assert (filter_room s) as Hroom by by_computation.
  split; [exact Hr|]. split; [exact Hroom|].
  exact (handlers_refine_machine (Coarse 1700000000 5) s Hr Hroom).
Defined.

Lemma coarse_resync_period_witness :
  let s := sync_at 5000000000 TS_COARSE true in
  let l := replicate 60 (1700000000, 7) in
  ∃ s1 s2, handle_all (coarse_events l) s = Ok (tt, s1) ∧ tsu_of s1 = tsu_of s ∧
    handle (Coarse 1700000060 7) s1 = Ok (tt, s2) ∧
    tsu_of s2 = coarse_timer 1700000060 7 (tsu_of s) ∧
    status s2 = TS_COARSE ∧ receive_counter s2 = 0.
Proof. intros s l. apply (coarse_resync_period s l); reflexivity. Defined.


Lemma coarse_sets_timer_witness :
  let s := sync_at 77000000123 TS_LOST false in
  let kept := t_nanosec (timer_read (tsu_of s)).1 in
  kept = 131 ∧
  ∃ s', coarse_time_received 1700000000 0 s = Ok (tt, s') ∧
    status s' = TS_COARSE ∧ coarse_service_ok s' = true ∧ last_coarse_time_value s' = 1700000000 ∧
    let t := 1700000000 * TSU_NS_IN_SEC + kept in
    t ≤ tsu_clock (dev (tsu_of s')) ≤ t + 3 * access_ns.
Proof.
  intros s kept. split; [reflexivity|].
  apply (coarse_sets_timer 1700000000 0 s); [by right|by_computation..].
Defined.

(** A pulse one second after the last one, the timer 3 us past the second. *)
Definition pulse_state : timesync sim :=
  with_pps_stamp 1000 (with_tsu (with_uptime 2000 (sim_at 7000003000)) (sync_at 0 TS_FINE true)).

Example pulse_measures :
  match pps_received pulse_state with
  | Ok (_, s') => (sync_diff_ns s', sync_diff_integrated_ns s') = (1808, 180)
  | Fault _ => False
  end.
Proof. vm_compute. reflexivity. Qed.

Lemma pps_in_fine_sync_witness :
  filter_room pulse_state ∧
  ∃ s', pps_received pulse_state = Ok (tt, s') ∧ status s' = TS_FINE ∧ sync_diff_ns s' = 1808 ∧
    sync_diff_integrated_ns s' = 180 ∧
    tsu_of s' = tuned 180 (timer_read (tsu_of pulse_state)).2 ∧
    adjust_amount (fine_tune_register (tsu_of s')) = 180.
Proof.
  assert (filter_room pulse_state) as Hroom by by_computation. split; [exact Hroom|].
  destruct (pps_in_fine_sync pulse_state eq_refl Hroom) as (d & s' & Hrun & Hst & Hd & Hr & _ & Hif);
    [by_computation..|].
  pose proof pulse_measures as Hm. rewrite Hrun in Hm. injection Hm as Hm Ha.
  rewrite Hm in Hd. subst d. rewrite decide_True, Ha in Hif by done. destruct Hif as (_ & _ & Ht & Hamount).
  exists s'. split_and!; [done..|]. apply Hamount; by_computation.
Defined.
