(* ===== verification/TtcTimer.v ===== *)
(** * The triple timer counter ([src/IEEE1588/ttc_tsu/ttc_timer.c])

    The set-up of the periodic tick and its interrupt handler.  The driver of
    the timer is part of the board support package: a class of operations. *)

From S2P Require Export Prelude.

#[local] Open Scope Z_scope.

Definition TICK_TIMER_FREQ_HZ : Z := 1000.

(** Operations without a result that the sources look at. *)
Inductive ttc_operation :=
  | SetOptions (o : Z)
  | SetInterval (i : Z)
  | SetPrescaler (p : Z)
  | EnableInterrupts (mask : Z)
  | ClearInterruptStatus (status : Z)
  | TtcStart
  | TtcStop
  | TtcPrint (fmt : string).

#[global] Instance ttc_operation_eq_dec : EqDecision ttc_operation.
Proof. solve_decision. Defined.

Class Ttc (G : Type) := {
  XTtcPs_LookupConfig : Z → option Z;       (* the base address *)
  XTtcPs_CfgInitialize : Z → G → Z * G;
  XTtcPs_CalcIntervalFromFreq : Z → Z * Z;  (* interval, prescaler *)
  InterruptConnect : Z → G → Z * G;
  XTtcPs_GetInterruptStatus : G → Z * G;
  ttc_op : ttc_operation → G → G;
  TTC_TICK_DEVICE_ID : Z;
  TTC_TICK_INTR_ID : Z;
  XTTCPS_OPTION_INTERVAL_MODE : Z;
  XTTCPS_OPTION_WAVE_DISABLE : Z;
  XTTCPS_IXR_INTERVAL_MASK : Z
}.

Definition TTC_SUCCESS : Z := 0.
Definition TTC_FAILURE : Z := 1.

(** [TmrCntrSetup] *)
Record TmrCntrSetup := Setup {
  OutputHz : Z;
  Interval : Z;
  Prescaler : Z;
  Options : Z
}.

(** The static variables; the tick callback acts on the state [T] of the file
    that registers it. *)
Record ttc (T G : Type) := TtcState {
  ttc_client : T;
  ttc_dev : G;
  ttcps_tick : bool;                        (* sXttc_handler.ttcps_tick != NULL *)
  SettingsTable : TmrCntrSetup;
  TickCallback : option (M T unit)
}.
Arguments TtcState {T G} _ _ _ _ _.
Arguments ttc_client {T G} _.
Arguments ttc_dev {T G} _.
Arguments ttcps_tick {T G} _.
Arguments SettingsTable {T G} _.
Arguments TickCallback {T G} _.

Section Ttc.
Context {T G : Type} `{Ttc G}.
Implicit Types s : ttc T G.

Definition ttc_boot (t : T) (g : G) : ttc T G :=
  TtcState t g false (Setup TICK_TIMER_FREQ_HZ 0 0 0) None.

Definition set_dev (g : G) s : ttc T G :=
  TtcState (ttc_client s) g (ttcps_tick s) (SettingsTable s) (TickCallback s).
Definition set_settings (x : TmrCntrSetup) s : ttc T G :=
  TtcState (ttc_client s) (ttc_dev s) (ttcps_tick s) x (TickCallback s).
Definition set_tick (b : bool) s : ttc T G :=
  TtcState (ttc_client s) (ttc_dev s) b (SettingsTable s) (TickCallback s).
Definition set_callback (f : option (M T unit)) s : ttc T G :=
  TtcState (ttc_client s) (ttc_dev s) (ttcps_tick s) (SettingsTable s) f.

Definition ttc_dev_l : lens (ttc T G) G := Lens ttc_dev set_dev.
Definition ttc_client_l : lens (ttc T G) T := Lens ttc_client (λ t s,
  TtcState t (ttc_dev s) (ttcps_tick s) (SettingsTable s) (TickCallback s)).

Definition dev_call {A} (f : G → A * G) : M (ttc T G) A :=
  zoom ttc_dev_l (λ g, Ok ((f g).1, (f g).2)).
Definition dev_do (o : ttc_operation) : M (ttc T G) unit := zoom ttc_dev_l (modify (ttc_op o)).

(** A pointer to the instance is followed by the driver. *)
Definition instance (valid : bool) : M (ttc T G) unit :=
  if valid then mret tt else fail (NullDeref "XTtcPs").

Definition setup_timer (DeviceID : Z) : M (ttc T G) Z :=
  match XTtcPs_LookupConfig DeviceID with
  | None => mret TTC_FAILURE
  | Some config =>
      status ← dev_call (XTtcPs_CfgInitialize config);
      if negb (status =? TTC_SUCCESS) then mret TTC_FAILURE
      else
        x ← gets SettingsTable;
        dev_do (SetOptions (Options x)) ;;
        let r := XTtcPs_CalcIntervalFromFreq (OutputHz x) in
        modify (set_settings (Setup (OutputHz x) r.1 r.2 (Options x))) ;;
        dev_do (SetInterval r.1) ;;
        dev_do (SetPrescaler r.2) ;;
        mret TTC_SUCCESS
  end.

Definition setup_ticker : M (ttc T G) Z :=
  tick ← gets ttcps_tick;
  modify (λ s, let x := SettingsTable s in
    set_settings (Setup (OutputHz x) (Interval x) (Prescaler x)
      (Z.lor (Options x) (Z.lor XTTCPS_OPTION_INTERVAL_MODE XTTCPS_OPTION_WAVE_DISABLE))) s) ;;
  status ← setup_timer TTC_TICK_DEVICE_ID;
  if negb (status =? TTC_SUCCESS) then mret status
  else
    status ← dev_call (InterruptConnect TTC_TICK_INTR_ID);
    if negb (status =? TTC_SUCCESS) then mret TTC_FAILURE
    else
      instance tick ;;
      dev_do (EnableInterrupts XTTCPS_IXR_INTERVAL_MASK) ;;
      mret status.

(** [CallBackRef] is the pointer given to [InterruptConnect]. *)
Definition tick_handler (CallBackRef : bool) : M (ttc T G) unit :=
  instance CallBackRef ;;
  StatusEvent ← dev_call XTtcPs_GetInterruptStatus;
  dev_do (ClearInterruptStatus StatusEvent) ;;
  cb ← gets TickCallback;
  match cb with
  | Some f => zoom ttc_client_l f
  | None => fail (NullDeref "TickCallback")
  end.

Definition init_ttc_timer : M (ttc T G) Z :=
  modify (set_tick true) ;;
  setup_ticker.

Definition ttcps_start : M (ttc T G) unit :=
  dev_do TtcStart ;; dev_do (TtcPrint "======== ttc start \r\n").
Definition ttcps_stop : M (ttc T G) unit := dev_do TtcStop.
Definition register_ttc_handler (cal : option (M T unit)) : M (ttc T G) unit :=
  modify (set_callback cal).

(** A tick is acknowledged, bit for bit, and runs the callback once. *)
Lemma tick_runs s f : TickCallback s = Some f →
  let r := XTtcPs_GetInterruptStatus (ttc_dev s) in
  tick_handler true s = zoom ttc_client_l f (set_dev (ttc_op (ClearInterruptStatus r.1) r.2) s).
Proof.
  destruct s as [t g b x cb]. cbn [TickCallback]. intros ->.
  unfold tick_handler, instance, dev_call, dev_do. by mexec.
Qed.

(** Before a callback is registered it calls a null pointer. *)
Lemma tick_without_callback s : TickCallback s = None →
  tick_handler true s = Fault (NullDeref "TickCallback").
Proof.
  destruct s as [t g b x cb]. cbn [TickCallback]. intros ->.
  unfold tick_handler, instance, dev_call, dev_do. by mexec.
Qed.
End Ttc.

(** ** The contract of the driver

    What is programmed into the timer: a successful initialisation of the
    device disables its interrupts, a failed one leaves it alone, and
    connecting the interrupt does not touch the timer. *)

Record ttc_regs := TtcRegs {
  t_options : Z;
  t_interval : Z;
  t_prescaler : Z;
  t_enabled : Z                             (* the mask of enabled interrupts *)
}.

Definition op_done (o : ttc_operation) (v : ttc_regs) : ttc_regs :=
  match o with
  | SetOptions x => TtcRegs x (t_interval v) (t_prescaler v) (t_enabled v)
  | SetInterval x => TtcRegs (t_options v) x (t_prescaler v) (t_enabled v)
  | SetPrescaler x => TtcRegs (t_options v) (t_interval v) x (t_enabled v)
  | EnableInterrupts m => TtcRegs (t_options v) (t_interval v) (t_prescaler v) (Z.lor (t_enabled v) m)
  | _ => v
  end.

Class TtcView (G : Type) := ttc_view : G → ttc_regs.

Class TtcLaws (G : Type) `{Ttc G, TtcView G} : Prop := {
  cfg_law base g st g' : XTtcPs_CfgInitialize base g = (st, g') →
    if decide (st = TTC_SUCCESS) then t_enabled (ttc_view g') = 0 else ttc_view g' = ttc_view g;
  connect_law id g : ttc_view (InterruptConnect id g).2 = ttc_view g;
  ttc_op_law o g : ttc_view (ttc_op o g) = op_done o (ttc_view g)
}.

(** ** Theorem *)

Section Setup.
Context {T G : Type} `{TtcLaws G}.
Implicit Types s : ttc T G.

Definition tick_options s : Z :=
  Z.lor (Options (SettingsTable s)) (Z.lor XTTCPS_OPTION_INTERVAL_MODE XTTCPS_OPTION_WAVE_DISABLE).

(** The device [g] with the frequency and the options of the tick. *)
Definition programmed s (g : G) : G :=
  let r := XTtcPs_CalcIntervalFromFreq (OutputHz (SettingsTable s)) in
  ttc_op (SetPrescaler r.2) (ttc_op (SetInterval r.1) (ttc_op (SetOptions (tick_options s)) g)).

Lemma programmed_view s g : let r := XTtcPs_CalcIntervalFromFreq (OutputHz (SettingsTable s)) in
  ttc_view (programmed s g) = TtcRegs (tick_options s) r.1 r.2 (t_enabled (ttc_view g)).
Proof. unfold programmed. by rewrite !ttc_op_law. Qed.

(** C39. Set-up of the tick.  From a timer whose interrupts are disabled,
    [init_ttc_timer] returns on every board.  It succeeds exactly if the
    configuration is found, the device initialises and the interrupt can be
    connected.  If it succeeds, the timer has the options, and the interval and
    prescaler of the tick frequency, and of its interrupts exactly that of the
    interval is enabled; if it fails, wherever it does, no interrupt is
    enabled.  It never installs or calls a callback. *)
Theorem tick_setup s : t_enabled (ttc_view (ttc_dev s)) = 0 →
  ∃ st s', init_ttc_timer s = Ok (st, s') ∧ TickCallback s' = TickCallback s ∧
    ttc_client s' = ttc_client s ∧
    (st = TTC_SUCCESS ↔ ∃ config g1, XTtcPs_LookupConfig TTC_TICK_DEVICE_ID = Some config ∧
      XTtcPs_CfgInitialize config (ttc_dev s) = (TTC_SUCCESS, g1) ∧
      (InterruptConnect TTC_TICK_INTR_ID (programmed s g1)).1 = TTC_SUCCESS) ∧
    let r := XTtcPs_CalcIntervalFromFreq (OutputHz (SettingsTable s)) in
    if decide (st = TTC_SUCCESS)
    then ttc_view (ttc_dev s') = TtcRegs (tick_options s) r.1 r.2 XTTCPS_IXR_INTERVAL_MASK
    else t_enabled (ttc_view (ttc_dev s')) = 0.
Proof.
  intros Hoff. unfold init_ttc_timer, setup_ticker, setup_timer, instance, dev_call, dev_do. mexec.
  destruct (XTtcPs_LookupConfig _) as [config|]; cbn.
  2:{ do 2 eexists. split; [reflexivity|]. split_and!; [done..| |done].
      split; [done|]. by intros (?&?&?&_). }
  destruct (XTtcPs_CfgInitialize config (ttc_dev s)) as [st1 g1] eqn:E1; cbn.
  apply cfg_law in E1 as Hg1. destruct (Z.eqb_spec st1 TTC_SUCCESS) as [->|Hst1]; cbn.
  2:{ do 2 eexists. split; [reflexivity|]. rewrite decide_False in Hg1 by done.
      split_and!; [done..| |cbn; by rewrite Hg1].
      split; [done|]. intros (c&g&[= <-]&Hc&_). congruence. }
  rewrite decide_True in Hg1 by done. pose proof (programmed_view s g1) as Hv. rewrite Hg1 in Hv.
  unfold programmed, tick_options in Hv |- *. cbn zeta in Hv |- *.
  match goal with |- context [InterruptConnect ?i ?g] =>
    pose proof (connect_law i g) as Hc; destruct (InterruptConnect i g) as [st2 g2] eqn:E2 end; cbn in Hc |- *.
  rewrite Hv in Hc.
  destruct (Z.eqb_spec st2 TTC_SUCCESS) as [->|Hst2]; cbn;
    (do 2 eexists; split; [reflexivity|]; split_and!; [done..| |]).
  - split; [|done]. intros _. exists config, g1. by rewrite E2.
  - cbn. by rewrite ttc_op_law, Hc.
  - split; [done|]. intros (c&g&[= <-]&Hi&Hi'). assert (g = g1) as -> by congruence.
    by rewrite E2 in Hi'.
  - cbn. by rewrite Hc.
Qed.
End Setup.

(** ** A board *)

(** The timer of a board on which the interrupt can be connected or not. *)
Record ttcsim := TtcSim { sim_regs : ttc_regs; sim_connects : bool }.

#[global] Instance ttcsim_ttc : Ttc ttcsim := {
  XTtcPs_LookupConfig id := if id =? 3 then Some 0xFF120000 else None;
  XTtcPs_CfgInitialize base g := (TTC_SUCCESS, TtcSim (TtcRegs 0 0 0 0) (sim_connects g));
  XTtcPs_CalcIntervalFromFreq f := (100000000 / f / 2, 0);
  InterruptConnect id g := (if sim_connects g then TTC_SUCCESS else TTC_FAILURE, g);
  XTtcPs_GetInterruptStatus g := (1, g);
  ttc_op o g := TtcSim (op_done o (sim_regs g)) (sim_connects g);
  TTC_TICK_DEVICE_ID := 3;
  TTC_TICK_INTR_ID := 71;
  XTTCPS_OPTION_INTERVAL_MODE := 2;
  XTTCPS_OPTION_WAVE_DISABLE := 32;
  XTTCPS_IXR_INTERVAL_MASK := 1
}.

#[global] Instance ttcsim_view : TtcView ttcsim := sim_regs.

#[global] Instance ttcsim_laws : TtcLaws ttcsim.
Proof. split; try done. intros base g st g' [= <- <-]. done. Qed.

(** Where the interrupt can be connected the tick is enabled; elsewhere the timer
    is programmed, but silent. *)
Lemma tick_setup_witness :
  let boot b : ttc unit ttcsim := ttc_boot tt (TtcSim (TtcRegs 0 0 0 0) b) in
  (∃ s', init_ttc_timer (boot true) = Ok (TTC_SUCCESS, s') ∧
    ttc_view (ttc_dev s') = TtcRegs 34 50000 0 1) ∧
  (∃ s', init_ttc_timer (boot false) = Ok (TTC_FAILURE, s') ∧ t_enabled (ttc_view (ttc_dev s')) = 0).
Proof.
  intros boot. split.
  - destruct (@tick_setup unit ttcsim ttcsim_ttc ttcsim_view ttcsim_laws (boot true) eq_refl)
      as (st & s' & E & _ & _ & _ & Hv).
    assert (st = TTC_SUCCESS) as -> by (vm_compute in E; by injection E as <-).
    rewrite decide_True in Hv by done. exists s'. split; [exact E|exact Hv].
  - destruct (@tick_setup unit ttcsim ttcsim_ttc ttcsim_view ttcsim_laws (boot false) eq_refl)
      as (st & s' & E & _ & _ & _ & Hv).
    assert (st = TTC_FAILURE) as -> by (vm_compute in E; by injection E as <-).
    rewrite decide_False in Hv by done. exists s'. split; [exact E|exact Hv].
Defined.
