(* ===== verification/PtpWire.v ===== *)
(** * PTP messages ([src/IEEE1588/ptp_sync.h], message formats of [ptp_sync.c])

    The packed structures, as lists of fields with their sizes in bytes, and
    access to the fields in an array of bytes; the delay request message. *)

From S2P Require Export PtpTime.

(** ** Message types *)

Definition SyncMsg_e : Z := 0x00.
Definition DelayRequest_e : Z := 0x01.
Definition PDelayRequest_e : Z := 0x02.
Definition PDelayResponse_e : Z := 0x03.
Definition FollowUpMsg_e : Z := 0x08.
Definition DelayResponse_e : Z := 0x09.
Definition PDelayResponseFollowUp_e : Z := 0x0A.
Definition Announce_e : Z := 0x0B.
Definition Signaling_e : Z := 0x0C.
Definition Management_e : Z := 0x0D.

Definition PTP_MSG_OK : Z := 0.
Definition PTP_MSG_ERR : Z := - 1.

(** ** Packed structures

    Two 4-bit fields share a byte, the first one in the low half. *)

Definition layout := list (string * nat).

Definition sizeof (l : layout) : nat := sum_list (snd <$> l).

Fixpoint offset_of (f : string) (l : layout) : nat :=
  match l with
  | [] => 0
  | (g, n) :: l' => if String.eqb f g then 0 else n + offset_of f l'
  end.

Definition ptp_msg_header_t : layout :=
  [("messageType:majorSdoId", 1%nat); ("versionPTP:minorVerPtp", 1%nat); ("messageLen", 2%nat);
   ("domainNumber", 1%nat); ("_RESERVED_1", 1%nat); ("flags", 2%nat); ("correctionField", 8%nat);
   ("_RESERVED_2", 4%nat); ("srcPortId", 10%nat); ("seqId", 2%nat); ("controlField", 1%nat);
   ("logMsgInterval", 1%nat)]%string.

Definition msg_time_t : layout := [("seconds", 6%nat); ("nanoseconds", 4%nat)]%string.

Definition ptp_delay_req_msg_fmt_t : layout :=
  [("header", sizeof ptp_msg_header_t); ("origin_ts", sizeof msg_time_t)]%string.

Definition ptp_announce_msg_fmt_t : layout :=
  [("header", sizeof ptp_msg_header_t); ("origin_ts", sizeof msg_time_t); ("originUtcOffset", 2%nat);
   ("_RESERVED_1", 1%nat); ("gmPriority1", 1%nat); ("gmClockQuality", 4%nat); ("gmPriority2", 1%nat);
   ("gmId", 8%nat); ("stepsRemoved", 2%nat); ("timeSource", 1%nat)]%string.

Definition ptp_sync_msg_fmt_t : layout :=
  [("header", sizeof ptp_msg_header_t); ("origin_ts", sizeof msg_time_t)]%string.

Definition ptp_follow_up_msg_fmt_t : layout :=
  [("header", sizeof ptp_msg_header_t); ("precise_origin_ts", sizeof msg_time_t)]%string.

Definition ptp_delay_resp_msg_fmt_t : layout :=
  [("header", sizeof ptp_msg_header_t); ("recv_ts", sizeof msg_time_t); ("req_port_id", 10%nat)]%string.

Definition ptp_pdelay_req_msg_fmt_t : layout :=
  [("header", sizeof ptp_msg_header_t); ("origin_ts", sizeof msg_time_t); ("reserved", 10%nat)]%string.

Definition ptp_pdelay_resp_msg_fmt_t : layout :=
  [("header", sizeof ptp_msg_header_t); ("recv_receipt_ts", sizeof msg_time_t);
   ("req_port_id", 10%nat)]%string.

Definition ptp_pdelay_resp_follow_up_msg_fmt_t : layout :=
  [("header", sizeof ptp_msg_header_t); ("resp_origin_ts", sizeof msg_time_t);
   ("req_port_id", 10%nat)]%string.

(** The lengths that IEEE 1588 gives for the messages. *)
Example messages_have_their_lengths :
  sizeof <$> [ptp_announce_msg_fmt_t; ptp_sync_msg_fmt_t; ptp_follow_up_msg_fmt_t;
    ptp_pdelay_req_msg_fmt_t; ptp_pdelay_resp_msg_fmt_t; ptp_pdelay_resp_follow_up_msg_fmt_t] =
  [64; 44; 44; 54; 54; 54]%nat.
Proof. reflexivity. Qed.

Example header_is_34_bytes :
  (sizeof ptp_msg_header_t, sizeof ptp_delay_req_msg_fmt_t, sizeof ptp_delay_resp_msg_fmt_t)
  = (34, 44, 54)%nat.
Proof. reflexivity. Qed.

(** A field of the header of a message. *)
Definition hdr_at (f : string) : nat := offset_of f ptp_msg_header_t.

(** [hdr->messageType] *)
Definition messageType (m : list Z) : outcome Z :=
  b ← rd8 m (hdr_at "messageType:majorSdoId");
  Ok (Z.land b 15).

(** [*p = v] for an unsigned little-endian field of [n] bytes at offset [off]. *)
Definition poke_le (off n : nat) (v : Z) : M (list Z) unit :=
  for_range 0 n (λ i, poke (off + i) (Z.land (Z.shiftr v (Z.of_nat (i * 8))) 255)).

(** [msg.header.messageType = v]: the other half of the byte is kept. *)
Definition poke_messageType (v : Z) : M (list Z) unit := λ m,
  b ← rd8 m (hdr_at "messageType:majorSdoId");
  poke (hdr_at "messageType:majorSdoId") (Z.lor (Z.land b 240) (Z.land v 15)) m.

(** [memcpy(&msg.header, hdr, n)] *)
Definition copy_header (hdr : list Z) (n : nat) : M (list Z) unit := λ m,
  if decide (n ≤ length hdr)%nat
  then m' ← memcpy_at m 0 (take n hdr); Ok (tt, m')
  else Fault (OutOfBounds (Z.of_nat (length hdr))).

(** The static [msg] of [ptp_sync_send_delay_req_event], zero at first. *)
Definition delay_req_init : list Z := replicate (sizeof ptp_delay_req_msg_fmt_t) 0.

(** [ptp_sync_send_delay_req_event] up to the call of the send function. *)
Definition fill_delay_req (hdr : list Z) (ts : ptp_timestamp_t) : M (list Z) unit :=
  copy_header hdr 4 ;;
  ptp_prepare_timestamp ts (offset_of "origin_ts" ptp_delay_req_msg_fmt_t) ;;
  poke_messageType DelayRequest_e ;;
  poke_le (hdr_at "messageLen") 2 (bswap16 (Z.of_nat (sizeof ptp_delay_req_msg_fmt_t))) ;;
  poke_le (hdr_at "controlField") 1 5 ;;
  poke_le (hdr_at "domainNumber") 1 0 ;;
  poke_le (hdr_at "_RESERVED_1") 1 0x00 ;;
  poke_le (hdr_at "flags") 2 0x0000 ;;
  poke_le (hdr_at "correctionField") 8 0x00.

(** ** The delay request on the wire *)

(** The 44 bytes: message type 1 in the low half of the first byte, the
    version byte of the message answered, the length 44, control field 5, the
    timestamp, and zeros everywhere else. *)
Definition delay_req_bytes (b0 b1 : Z) (ts : ptp_timestamp_t) : list Z :=
  [to_u8 (Z.lor (Z.land b0 240) 1); b1; 0; 44; 0; 0; 0; 0] ++
  replicate 8 0 ++ replicate 4 0 ++ replicate 10 0 ++ [0; 0; 5; 0] ++
  be_bytes 6 (seconds ts) ++ be_bytes 4 (nanosec ts).

(** What every message left in the static buffer looks like: the fields that
    [fill_delay_req] does not write are zero. *)
Definition delay_req_buf (m : list Z) : Prop :=
  length m = 44%nat ∧ Forall (λ i, m !! i = Some 0) (seq 16 16 ++ [33%nat]).

#[global] Instance delay_req_buf_dec m : Decision (delay_req_buf m).
Proof. unfold delay_req_buf. apply _. Defined.

Lemma delay_req_init_buf : delay_req_buf delay_req_init.
Proof. by_computation. Qed.

Lemma messageType_range m t : messageType m = Ok t → 0 ≤ t < 16.
Proof.
  unfold messageType. intros H. minv. change 15 with (Z.ones 4).
  rewrite Z.land_ones by lia. lia.
Qed.

(** ** The run of [fill_delay_req] *)

Lemma copy_header_run b0 b1 b2 b3 h m : (4 ≤ length m)%nat →
  copy_header (b0 :: b1 :: b2 :: b3 :: h) 4 m = Ok (tt, b0 :: b1 :: b2 :: b3 :: drop 4 m).
Proof.
  intros Hm. unfold copy_header. rewrite decide_True by (cbn; lia).
  change (take 4 (b0 :: b1 :: b2 :: b3 :: h)) with [b0; b1; b2; b3].
  unfold memcpy_at. rewrite decide_True by (cbn; lia). done.
Qed.

Lemma poke_prefix i v w tail : (i < length w)%nat →
  poke i v (w ++ tail) = Ok (tt, <[i := to_u8 v]> w ++ tail).
Proof.
  intros Hi. unfold poke, wr8. rewrite decide_True by (rewrite length_app; lia).
  cbn. by rewrite insert_app_l.
Qed.

(** A buffer with its unwritten fields exposed. *)
Lemma delay_req_buf_inv m : delay_req_buf m → ∃ h x ts,
  length h = 16%nat ∧ length ts = 10%nat ∧ m = h ++ replicate 16 0 ++ [x; 0] ++ ts.
Proof.
  intros [Hl Hz]. do 44 (destruct m as [|? m]; [done|]). destruct m; [|done].
  cbn in Hz.
  repeat (apply Forall_cons_iff in Hz as [H Hz]; cbn in H; injection H as H; subst).
  eexists [_;_;_;_;_;_;_;_;_;_;_;_;_;_;_;_], _, [_;_;_;_;_;_;_;_;_;_].
  split; [|split; [|reflexivity]]; reflexivity.
Qed.

Lemma fill_delay_req_run b0 b1 b2 b3 hdr ts m : delay_req_buf m →
  fill_delay_req (b0 :: b1 :: b2 :: b3 :: hdr) ts m = Ok (tt, delay_req_bytes b0 b1 ts).
Proof.
  intros (h & x & t & Hh & Ht & ->)%delay_req_buf_inv.
  do 16 (destruct h as [|? h]; [done|]). destruct h; [|done].
  unfold fill_delay_req. rewrite run_bind, copy_header_run, bind_Ok_l by (cbn; lia).
  change (offset_of "origin_ts" ptp_delay_req_msg_fmt_t) with 34%nat.
  rewrite run_bind, ptp_prepare_timestamp_run, bind_Ok_l by (cbn; lia).
  rewrite (drop_ge _ (34 + 10)), app_nil_r by (cbn; lia).
  unfold delay_req_bytes.
  set (tail := be_bytes 6 (seconds ts) ++ be_bytes 4 (nanosec ts)). clearbody tail.
  match goal with |- context [take 34 ?l] => remember (take 34 l) as pre eqn:Hpre; cbn in Hpre end.
  rewrite run_bind. unfold poke_messageType at 1. rewrite rd8_Ok with (b := b0) by by subst.
  rewrite bind_Ok_l. unfold poke_le. cbn [for_range].
  assert (length pre = 34%nat) as Hlen by by subst.
  repeat (rewrite ?run_bind, ?run_ret; rewrite ?poke_prefix by (rewrite ?length_insert, Hlen; cbn; lia);
    rewrite ?bind_Ok_l).
  subst pre. reflexivity.
Qed.

Lemma delay_req_bytes_buf b0 b1 ts : delay_req_buf (delay_req_bytes b0 b1 ts).
Proof. split; [done|]. repeat constructor. Qed.

(** A header shorter than four bytes makes the copy leave the message. *)
Lemma fill_delay_req_short hdr ts m : (length hdr < 4)%nat →
  fill_delay_req hdr ts m = Fault (OutOfBounds (Z.of_nat (length hdr))).
Proof.
  intros Hl. unfold fill_delay_req. rewrite run_bind. unfold copy_header.
  by rewrite decide_False by lia.
Qed.
