(* ===== verification/PtpSync.v ===== *)
(** * The PTP message interpreter ([src/IEEE1588/ptp_sync.c])

    The static variables of the file, the registration of the three callbacks,
    and [ptp_sync_interpreter].  The callbacks are computations on the state
    [W] of the client that registers them; they do not reach the variables of
    this file. *)

From S2P Require Export PtpWire.

(** A message in memory: the address of its first byte and the bytes that are
    there. *)
Record message := Msg {
  m_addr : Z;
  m_bytes : list Z
}.

(** The saved message pointers are addresses, 0 for [NULL]. *)
Record ptp_sync (W : Type) := PtpSync {
  sSyscTimeCb : option (M W ptp_timestamp_t);
  sReportDiffCb : option (Z → ptp_timestamp_t → ptp_timestamp_t → M W unit);
  sSendDlyReqCb : option (list Z → M W unit);
  pAnnounce : Z;
  pSync : Z;
  pFollowUp : Z;
  pDelayResp : Z;
  pPDelayResp : Z;
  pPDelayRespFollwUp : Z;
  delay_req_msg : list Z;
  t1 : ptp_timestamp_t;
  t2 : ptp_timestamp_t;
  t3 : ptp_timestamp_t;
  t4 : ptp_timestamp_t;
  sys_ts : ptp_timestamp_t
}.
Arguments PtpSync {W} _ _ _ _ _ _ _ _ _ _ _ _ _ _ _.
Arguments sSyscTimeCb {W} _.
Arguments sReportDiffCb {W} _.
Arguments sSendDlyReqCb {W} _.
Arguments pAnnounce {W} _.
Arguments pSync {W} _.
Arguments pFollowUp {W} _.
Arguments pDelayResp {W} _.
Arguments pPDelayResp {W} _.
Arguments pPDelayRespFollwUp {W} _.
Arguments delay_req_msg {W} _.
Arguments t1 {W} _.
Arguments t2 {W} _.
Arguments t3 {W} _.
Arguments t4 {W} _.
Arguments sys_ts {W} _.

Section Interpreter.
Context {W : Type}.

(** The variables of the file together with the client's state. *)
Record world := World { own : ptp_sync W; env : W }.

Definition env_l : lens world W := Lens env (λ w s, World (own s) w).

Definition ptp_sync_boot : ptp_sync W :=
  PtpSync None None None 0 0 0 0 0 0 delay_req_init ts_zero ts_zero ts_zero ts_zero ts_zero.

Definition with_gettime_cb (v : option (M W ptp_timestamp_t)) (s : ptp_sync W) : ptp_sync W :=
    PtpSync v (sReportDiffCb s) (sSendDlyReqCb s) (pAnnounce s) (pSync s) (pFollowUp s)
    (pDelayResp s) (pPDelayResp s) (pPDelayRespFollwUp s) (delay_req_msg s) (t1 s) (t2 s)
    (t3 s) (t4 s) (sys_ts s).
Definition with_report_cb (v : option (Z → ptp_timestamp_t → ptp_timestamp_t → M W unit)) (s : ptp_sync W) : ptp_sync W :=
    PtpSync (sSyscTimeCb s) v (sSendDlyReqCb s) (pAnnounce s) (pSync s) (pFollowUp s)
    (pDelayResp s) (pPDelayResp s) (pPDelayRespFollwUp s) (delay_req_msg s) (t1 s) (t2 s)
    (t3 s) (t4 s) (sys_ts s).
Definition with_send_cb (v : option (list Z → M W unit)) (s : ptp_sync W) : ptp_sync W :=
    PtpSync (sSyscTimeCb s) (sReportDiffCb s) v (pAnnounce s) (pSync s) (pFollowUp s)
    (pDelayResp s) (pPDelayResp s) (pPDelayRespFollwUp s) (delay_req_msg s) (t1 s) (t2 s)
    (t3 s) (t4 s) (sys_ts s).
Definition with_pAnnounce (v : Z) (s : ptp_sync W) : ptp_sync W :=
    PtpSync (sSyscTimeCb s) (sReportDiffCb s) (sSendDlyReqCb s) v (pSync s) (pFollowUp s)
    (pDelayResp s) (pPDelayResp s) (pPDelayRespFollwUp s) (delay_req_msg s) (t1 s) (t2 s)
    (t3 s) (t4 s) (sys_ts s).
Definition with_pSync (v : Z) (s : ptp_sync W) : ptp_sync W :=
    PtpSync (sSyscTimeCb s) (sReportDiffCb s) (sSendDlyReqCb s) (pAnnounce s) v (pFollowUp
    s) (pDelayResp s) (pPDelayResp s) (pPDelayRespFollwUp s) (delay_req_msg s) (t1 s) (t2 s)
    (t3 s) (t4 s) (sys_ts s).
Definition with_pFollowUp (v : Z) (s : ptp_sync W) : ptp_sync W :=
    PtpSync (sSyscTimeCb s) (sReportDiffCb s) (sSendDlyReqCb s) (pAnnounce s) (pSync s) v
    (pDelayResp s) (pPDelayResp s) (pPDelayRespFollwUp s) (delay_req_msg s) (t1 s) (t2 s)
    (t3 s) (t4 s) (sys_ts s).
Definition with_pDelayResp (v : Z) (s : ptp_sync W) : ptp_sync W :=
    PtpSync (sSyscTimeCb s) (sReportDiffCb s) (sSendDlyReqCb s) (pAnnounce s) (pSync s)
    (pFollowUp s) v (pPDelayResp s) (pPDelayRespFollwUp s) (delay_req_msg s) (t1 s) (t2 s)
    (t3 s) (t4 s) (sys_ts s).
Definition with_pPDelayResp (v : Z) (s : ptp_sync W) : ptp_sync W :=
    PtpSync (sSyscTimeCb s) (sReportDiffCb s) (sSendDlyReqCb s) (pAnnounce s) (pSync s)
    (pFollowUp s) (pDelayResp s) v (pPDelayRespFollwUp s) (delay_req_msg s) (t1 s) (t2 s)
    (t3 s) (t4 s) (sys_ts s).
Definition with_pPDelayRespFollwUp (v : Z) (s : ptp_sync W) : ptp_sync W :=
    PtpSync (sSyscTimeCb s) (sReportDiffCb s) (sSendDlyReqCb s) (pAnnounce s) (pSync s)
    (pFollowUp s) (pDelayResp s) (pPDelayResp s) v (delay_req_msg s) (t1 s) (t2 s) (t3 s)
    (t4 s) (sys_ts s).
Definition with_msg (v : list Z) (s : ptp_sync W) : ptp_sync W :=
    PtpSync (sSyscTimeCb s) (sReportDiffCb s) (sSendDlyReqCb s) (pAnnounce s) (pSync s)
    (pFollowUp s) (pDelayResp s) (pPDelayResp s) (pPDelayRespFollwUp s) v (t1 s) (t2 s) (t3
    s) (t4 s) (sys_ts s).
Definition with_t1 (v : ptp_timestamp_t) (s : ptp_sync W) : ptp_sync W :=
    PtpSync (sSyscTimeCb s) (sReportDiffCb s) (sSendDlyReqCb s) (pAnnounce s) (pSync s)
    (pFollowUp s) (pDelayResp s) (pPDelayResp s) (pPDelayRespFollwUp s) (delay_req_msg s) v
    (t2 s) (t3 s) (t4 s) (sys_ts s).
Definition with_t2 (v : ptp_timestamp_t) (s : ptp_sync W) : ptp_sync W :=
    PtpSync (sSyscTimeCb s) (sReportDiffCb s) (sSendDlyReqCb s) (pAnnounce s) (pSync s)
    (pFollowUp s) (pDelayResp s) (pPDelayResp s) (pPDelayRespFollwUp s) (delay_req_msg s)
    (t1 s) v (t3 s) (t4 s) (sys_ts s).
Definition with_t3 (v : ptp_timestamp_t) (s : ptp_sync W) : ptp_sync W :=
    PtpSync (sSyscTimeCb s) (sReportDiffCb s) (sSendDlyReqCb s) (pAnnounce s) (pSync s)
    (pFollowUp s) (pDelayResp s) (pPDelayResp s) (pPDelayRespFollwUp s) (delay_req_msg s)
    (t1 s) (t2 s) v (t4 s) (sys_ts s).
Definition with_t4 (v : ptp_timestamp_t) (s : ptp_sync W) : ptp_sync W :=
    PtpSync (sSyscTimeCb s) (sReportDiffCb s) (sSendDlyReqCb s) (pAnnounce s) (pSync s)
    (pFollowUp s) (pDelayResp s) (pPDelayResp s) (pPDelayRespFollwUp s) (delay_req_msg s)
    (t1 s) (t2 s) (t3 s) v (sys_ts s).
Definition with_sys_ts (v : ptp_timestamp_t) (s : ptp_sync W) : ptp_sync W :=
    PtpSync (sSyscTimeCb s) (sReportDiffCb s) (sSendDlyReqCb s) (pAnnounce s) (pSync s)
    (pFollowUp s) (pDelayResp s) (pPDelayResp s) (pPDelayRespFollwUp s) (delay_req_msg s)
    (t1 s) (t2 s) (t3 s) (t4 s) v.

(** Assignment to a variable of the file. *)
Definition assign (f : ptp_sync W → ptp_sync W) : M world unit :=
  modify (λ s, World (f (own s)) (env s)).

Definition ptp_sync_register_gettime_cb (cb : M W ptp_timestamp_t) : M world unit :=
  assign (with_gettime_cb (Some cb)).
Definition ptp_sync_register_report_diff_cb
    (cb : Z → ptp_timestamp_t → ptp_timestamp_t → M W unit) : M world unit :=
  assign (with_report_cb (Some cb)).
Definition ptp_sync_register_delay_req_cb (cb : list Z → M W unit) : M world unit :=
  assign (with_send_cb (Some cb)).

Definition ptp_sync_read_systime : M world ptp_timestamp_t :=
  cb ← gets (λ s, sSyscTimeCb (own s));
  match cb with
  | Some cb => zoom env_l cb
  | None => fail (AssertFailed "Getting system time API is not registered!")
  end.

Definition ptp_sycn_report_diff (offset : Z) (sync_ts diff_ts : ptp_timestamp_t) : M world unit :=
  cb ← gets (λ s, sReportDiffCb (own s));
  match cb with
  | Some cb => zoom env_l (cb offset sync_ts diff_ts)
  | None => fail (AssertFailed "Reporting API is not registered!")
  end.

Definition ptp_sync_send_delay_req_event (hdr : list Z) (ts : ptp_timestamp_t) : M world unit :=
  cb ← gets (λ s, sSendDlyReqCb (own s));
  match cb with
  | Some cb =>
      msg ← gets (λ s, delay_req_msg (own s));
      '(_, msg') ← lift (fill_delay_req hdr ts msg);
      assign (with_msg msg') ;;
      zoom env_l (cb msg')
  | None => fail (AssertFailed "Send delay request API is not registered")
  end.

(** The synchronised time and its difference to the system time. *)
Definition delay_resp_calc (t1 t2 t3 t4 sys_ts : ptp_timestamp_t) :
    outcome (ptp_timestamp_t * ptp_timestamp_t) :=
  t2_t1 ← ptp_time_sub t2 t1;
  t4_t3 ← ptp_time_sub t4 t3;
  delay ← ptp_time_add t2_t1 t4_t3;
  delay ← ptp_time_except_2 delay;
  offset ← ptp_time_sub t2_t1 t4_t3;
  offset ← ptp_time_except_2 offset;
  prop_delay ← ptp_time_sub delay offset;
  synced_time ← ptp_time_add t3 prop_delay;
  diff ← ptp_time_sub synced_time sys_ts;
  Ok (synced_time, diff).

Definition handle_sync (msg : message) : M world unit :=
  assign (with_pSync (m_addr msg)) ;;
  t ← ptp_sync_read_systime;
  assign (with_t2 t).

Definition handle_follow_up (msg : message) : M world unit :=
  assign (with_pFollowUp (m_addr msg)) ;;
  t ← gets (λ s, t1 (own s));
  t ← lift (ptp_store_timestamp (m_bytes msg)
    (offset_of "precise_origin_ts" ptp_follow_up_msg_fmt_t) t);
  assign (with_t1 t) ;;
  t ← ptp_sync_read_systime;
  assign (with_t3 t) ;;
  ptp_sync_send_delay_req_event (m_bytes msg) t.

Definition handle_delay_resp (msg : message) : M world unit :=
  assign (with_pDelayResp (m_addr msg)) ;;
  t ← ptp_sync_read_systime;
  assign (with_sys_ts t) ;;
  t ← gets (λ s, t4 (own s));
  t ← lift (ptp_store_timestamp (m_bytes msg) (offset_of "recv_ts" ptp_delay_resp_msg_fmt_t) t);
  assign (with_t4 t) ;;
  s ← gets own;
  '(synced_time, diff) ← lift (delay_resp_calc (t1 s) (t2 s) (t3 s) (t4 s) (sys_ts s));
  ptp_sycn_report_diff 0 synced_time diff.

(** [switch(hdr->messageType)] *)
Definition ptp_sync_interpreter (msg : message) : M world Z :=
  ty ← lift (messageType (m_bytes msg));
  if ty =? SyncMsg_e then handle_sync msg ;; mret PTP_MSG_OK
  else if ty =? FollowUpMsg_e then handle_follow_up msg ;; mret PTP_MSG_OK
  else if ty =? DelayResponse_e then handle_delay_resp msg ;; mret PTP_MSG_OK
  else if ty =? PDelayResponse_e then
    assign (with_pPDelayResp (m_addr msg)) ;; mret PTP_MSG_OK
  else if ty =? PDelayResponseFollowUp_e then
    assign (with_pPDelayRespFollwUp (m_addr msg)) ;; mret PTP_MSG_OK
  else if ty =? Announce_e then
    assign (with_pAnnounce (m_addr msg)) ;; mret PTP_MSG_OK
  else if ty =? Signaling_e then mret PTP_MSG_ERR
  else if ty =? Management_e then mret PTP_MSG_ERR
  else mret PTP_MSG_ERR.
End Interpreter.
Arguments world : clear implicits.
Arguments ptp_sync_boot : clear implicits.

(** ** The calculation after a delay response *)

(** A timestamp with its nanoseconds below one second, and 48-bit seconds. *)
Definition ts_sane (t : ptp_timestamp_t) : Prop :=
  0 ≤ seconds t < 2 ^ 48 ∧ 0 ≤ nanosec t < NS_SEC_PERIOD.

#[global] Instance ts_sane_dec t : Decision (ts_sane t).
Proof. unfold ts_sane. apply _. Defined.

Lemma halve_fields sec ns s n : halve sec ns = Ok (s, n) →
  2 * s = sec - sec mod 2 ∧ n = ns ÷ 2 + sec mod 2 * 500000000.
Proof.
  unfold halve, NS_SEC_PERIOD. case_match eqn:E.
  - intros [= <- <-]. lia.
  - intros H. minv.
    repeat match goal with
    | H : i64 _ = Ok _ |- _ => apply i64_inv in H as [-> ?]
    | H : i32 _ = Ok _ |- _ => apply i32_inv in H as [-> ?]
    end. lia.
Qed.

Lemma except_2_fields t r : ptp_time_except_2 t = Ok r →
  2 * seconds r = seconds t - seconds t mod 2 ∧
  nanosec r = nanosec t ÷ 2 + seconds t mod 2 * 500000000.
Proof. intros [H _]%except_2_inv. by apply halve_fields in H. Qed.

(** The Sync exchange cancels: half the sum minus half the difference of
    [t2 - t1] and [t4 - t3] is [t4 - t3] again, up to the rounding of the
    halves.  The synchronised time is [t4], field by field. *)
Lemma delay_resp_calc_fields t1 t2 t3 t4 sys sy d :
  delay_resp_calc t1 t2 t3 t4 sys = Ok (sy, d) →
  ∃ e, - 1 ≤ e ≤ 1 ∧
    seconds sy = seconds t4 ∧ nanosec sy = nanosec t4 + e ∧
    seconds d = seconds t4 - seconds sys ∧ nanosec d = nanosec t4 - nanosec sys + e.
Proof.
  unfold delay_resp_calc. intros H. minv.
  repeat match goal with
  | H : ptp_time_sub _ _ = Ok _ |- _ => apply ptp_time_sub_fields in H as (_ & ? & ?)
  | H : ptp_time_add _ _ = Ok _ |- _ => apply ptp_time_add_fields in H as (_ & ? & ?)
  | H : ptp_time_except_2 _ = Ok _ |- _ => apply except_2_fields in H as (? & ?)
  end.
  exists (nanosec sy - nanosec t4). lia.
Qed.

(** Establish the next step of a calculation that cannot overflow. *)
Ltac calc_step :=
  match goal with
  | |- context [ptp_time_sub ?a ?b] =>
      let c := fresh "c" in let E := fresh "E" in
      destruct (ptp_time_sub_run a b) as [c E]; [int_lia..|];
      rewrite E, bind_Ok_l; apply ptp_time_sub_fields in E as ([??]&?&?)
  | |- context [ptp_time_add ?a ?b] =>
      let c := fresh "c" in let E := fresh "E" in
      destruct (ptp_time_add_run a b) as [c E]; [int_lia..|];
      rewrite E, bind_Ok_l; apply ptp_time_add_fields in E as ([??]&?&?)
  | |- context [ptp_time_except_2 ?a] =>
      let c := fresh "c" in let E := fresh "E" in
      destruct (except_2_run a) as (c & E & ? & ?); [split; int_lia|];
      rewrite E, bind_Ok_l; apply except_2_fields in E as (?&?)
  end.

Lemma delay_resp_calc_run t1 t2 t3 t4 sys :
  ts_sane t1 → ts_sane t2 → ts_sane t3 → ts_sane t4 → ts_sane sys →
  ∃ sy d, delay_resp_calc t1 t2 t3 t4 sys = Ok (sy, d).
Proof.
  unfold ts_sane, NS_SEC_PERIOD. intros [??] [??] [??] [??] [??].
  unfold delay_resp_calc. repeat calc_step. eauto.
Qed.

(** The calculation can only fail by overflow. *)
Definition overflow_only {A} (o : outcome A) : Prop :=
  match o with Ok _ => True | Fault e => e = SignedOverflow end.

Lemma overflow_only_bind {A B} (m : outcome A) (k : A → outcome B) :
  overflow_only m → (∀ a, overflow_only (k a)) → overflow_only (m ≫= k).
Proof. by destruct m; cbn; auto. Qed.

Lemma i32_overflow_only z : overflow_only (i32 z).
Proof. unfold i32. by case_decide. Qed.
Lemma i64_overflow_only z : overflow_only (i64 z).
Proof. unfold i64. by case_decide. Qed.

Create HintDb overflow.
#[local] Hint Resolve i32_overflow_only i64_overflow_only : overflow.

Ltac overflow_tac :=
  repeat first [done | apply overflow_only_bind; [solve [eauto with overflow]|intros [??]]
    | apply overflow_only_bind; [solve [eauto with overflow]|intros ?]].

Lemma ptp_time_add_overflow a b : overflow_only (ptp_time_add a b).
Proof. unfold ptp_time_add. overflow_tac. Qed.
#[local] Hint Resolve ptp_time_add_overflow : overflow.
Lemma ptp_time_sub_overflow a b : overflow_only (ptp_time_sub a b).
Proof. unfold ptp_time_sub. overflow_tac. Qed.
Lemma halve_overflow sec ns : overflow_only (halve sec ns).
Proof. unfold halve. case_match; overflow_tac. Qed.
#[local] Hint Resolve ptp_time_sub_overflow halve_overflow : overflow.
Lemma except_2_overflow a : overflow_only (ptp_time_except_2 a).
Proof. unfold ptp_time_except_2. overflow_tac. Qed.
#[local] Hint Resolve except_2_overflow : overflow.

Lemma delay_resp_calc_overflow t1 t2 t3 t4 sys :
  overflow_only (delay_resp_calc t1 t2 t3 t4 sys).
Proof. unfold delay_resp_calc. overflow_tac. Qed.

Lemma delay_resp_calc_leg t1 t2 t3 t4 sys r :
  delay_resp_calc t1 t2 t3 t4 sys = Ok r → - 2 ^ 31 ≤ nanosec t4 - nanosec t3.
Proof.
  unfold delay_resp_calc. intros H. minv.
  match goal with H : ptp_time_sub t4 t3 = Ok _ |- _ =>
    apply ptp_time_sub_fields in H as ([_ ?] & _ & ?) end.
  unfold in_i32 in *. lia.
Qed.

(** ** The handlers with their callbacks registered *)

Section Runs.
Context {W : Type}.
Implicit Types (s : world W) (w : W).

Lemma assign_run f s : assign f s = Ok (tt, World (f (own s)) (env s)).
Proof. done. Qed.

Lemma read_systime_run s g : sSyscTimeCb (own s) = Some g →
  ptp_sync_read_systime s = '(t, w) ← g (env s); Ok (t, World (own s) w).
Proof.
  intros Hg. unfold ptp_sync_read_systime. rewrite run_bind, run_gets, bind_Ok_l, Hg.
  by rewrite run_zoom.
Qed.

Lemma report_diff_run s f o sy d : sReportDiffCb (own s) = Some f →
  ptp_sycn_report_diff o sy d s = '(u, w) ← f o sy d (env s); Ok (u, World (own s) w).
Proof.
  intros Hf. unfold ptp_sycn_report_diff. rewrite run_bind, run_gets, bind_Ok_l, Hf.
  by rewrite run_zoom.
Qed.

Lemma send_delay_req_run s f b0 b1 b2 b3 h ts :
  sSendDlyReqCb (own s) = Some f → delay_req_buf (delay_req_msg (own s)) →
  ptp_sync_send_delay_req_event (b0 :: b1 :: b2 :: b3 :: h) ts s =
  '(u, w) ← f (delay_req_bytes b0 b1 ts) (env s);
  Ok (u, World (with_msg (delay_req_bytes b0 b1 ts) (own s)) w).
Proof.
  intros Hf Hb. unfold ptp_sync_send_delay_req_event.
  rewrite run_bind, run_gets, bind_Ok_l, Hf, run_bind, run_gets, bind_Ok_l, run_bind.
  rewrite fill_delay_req_run, run_lift_Ok, bind_Ok_l by done.
  by rewrite run_bind, assign_run, bind_Ok_l, run_zoom.
Qed.

Lemma handle_sync_run msg s g : sSyscTimeCb (own s) = Some g →
  handle_sync msg s = '(t, w) ← g (env s);
    Ok (tt, World (with_t2 t (with_pSync (m_addr msg) (own s))) w).
Proof.
  intros Hg. unfold handle_sync. rewrite run_bind, assign_run, bind_Ok_l, run_bind.
  erewrite read_systime_run by done. cbn. by destruct (g (env s)) as [[t w]|].
Qed.

(** The timestamp of a follow-up message and of a delay response. *)
Definition wire_ts (m : list Z) (d : option double) : ptp_timestamp_t :=
  wire_timestamp (bytes_at m 34 10) d.

Lemma handle_follow_up_run msg s g f b0 b1 b2 b3 h :
  sSyscTimeCb (own s) = Some g → sSendDlyReqCb (own s) = Some f →
  delay_req_buf (delay_req_msg (own s)) →
  m_bytes msg = b0 :: b1 :: b2 :: b3 :: h → (44 ≤ length (m_bytes msg))%nat →
  Forall is_byte (m_bytes msg) →
  handle_follow_up msg s =
  '(t, w) ← g (env s);
  '(u, w') ← f (delay_req_bytes b0 b1 t) w;
  Ok (u, World (with_msg (delay_req_bytes b0 b1 t) (with_t3 t
    (with_t1 (wire_ts (m_bytes msg) (dts (t1 (own s)))) (with_pFollowUp (m_addr msg) (own s))))) w').
Proof.
  intros Hg Hf Hbuf Hm Hlen Hb. unfold handle_follow_up.
  change (offset_of "precise_origin_ts" ptp_follow_up_msg_fmt_t) with 34%nat.
  rewrite run_bind, assign_run, bind_Ok_l, run_bind, run_gets, bind_Ok_l, run_bind.
  rewrite ptp_store_timestamp_run, run_lift_Ok, bind_Ok_l by (done || lia).
  rewrite run_bind, assign_run, bind_Ok_l, run_bind.
  erewrite read_systime_run by done. cbn [own env].
  destruct (g (env s)) as [[t w]|]; [|done]. rewrite !bind_Ok_l, run_bind, assign_run, bind_Ok_l.
  rewrite Hm. by erewrite send_delay_req_run by done.
Qed.

Lemma handle_delay_resp_run msg s g f :
  sSyscTimeCb (own s) = Some g → sReportDiffCb (own s) = Some f →
  (44 ≤ length (m_bytes msg))%nat → Forall is_byte (m_bytes msg) →
  handle_delay_resp msg s =
  '(t, w) ← g (env s);
  let t4' := wire_ts (m_bytes msg) (dts (t4 (own s))) in
  '(sy, d) ← delay_resp_calc (t1 (own s)) (t2 (own s)) (t3 (own s)) t4' t;
  '(u, w') ← f 0 sy d w;
  Ok (u, World (with_t4 t4' (with_sys_ts t (with_pDelayResp (m_addr msg) (own s)))) w').
Proof.
  intros Hg Hf Hlen Hb. unfold handle_delay_resp.
  change (offset_of "recv_ts" ptp_delay_resp_msg_fmt_t) with 34%nat.
  rewrite run_bind, assign_run, bind_Ok_l, run_bind.
  erewrite read_systime_run by done. cbn [own env].
  destruct (g (env s)) as [[t w]|]; [|done]. rewrite !bind_Ok_l.
  rewrite run_bind, assign_run, bind_Ok_l, run_bind, run_gets, bind_Ok_l, run_bind.
  rewrite ptp_store_timestamp_run, run_lift_Ok, bind_Ok_l by (done || lia).
  rewrite run_bind, assign_run, bind_Ok_l, run_bind, run_gets, bind_Ok_l.
  rewrite run_bind. cbn [own t1 t2 t3 t4 sys_ts with_t4 with_sys_ts with_pDelayResp].
  fold (wire_ts (m_bytes msg) (dts (t4 (own s)))). cbn zeta.
  destruct (delay_resp_calc _ _ _ _ _) as [[sy d]|]; [|done].
  rewrite run_lift_Ok, !bind_Ok_l. by erewrite report_diff_run by done.
Qed.

(** The interpreter on the three messages that do something. *)
Lemma interpreter_sync msg s : messageType (m_bytes msg) = Ok SyncMsg_e →
  ptp_sync_interpreter msg s = '(_, s') ← handle_sync msg s; Ok (PTP_MSG_OK, s').
Proof.
  intros Hty. unfold ptp_sync_interpreter. rewrite run_bind, Hty, run_lift_Ok, bind_Ok_l.
  cbn. by rewrite run_bind.
Qed.

Lemma interpreter_follow_up msg s : messageType (m_bytes msg) = Ok FollowUpMsg_e →
  ptp_sync_interpreter msg s = '(_, s') ← handle_follow_up msg s; Ok (PTP_MSG_OK, s').
Proof.
  intros Hty. unfold ptp_sync_interpreter. rewrite run_bind, Hty, run_lift_Ok, bind_Ok_l.
  cbn. by rewrite run_bind.
Qed.

Lemma interpreter_delay_resp msg s : messageType (m_bytes msg) = Ok DelayResponse_e →
  ptp_sync_interpreter msg s = '(_, s') ← handle_delay_resp msg s; Ok (PTP_MSG_OK, s').
Proof.
  intros Hty. unfold ptp_sync_interpreter. rewrite run_bind, Hty, run_lift_Ok, bind_Ok_l.
  cbn. by rewrite run_bind.
Qed.
End Runs.

Lemma fill_delay_req_keeps hdr ts m u m' : delay_req_buf m →
  fill_delay_req hdr ts m = Ok (u, m') → delay_req_buf m'.
Proof.
  intros Hm. destruct hdr as [|b0 [|b1 [|b2 [|b3 h]]]];
    try (rewrite fill_delay_req_short by (cbn; lia); discriminate).
  rewrite fill_delay_req_run by done. intros [= _ <-]. apply delay_req_bytes_buf.
Qed.

(** ** What every call keeps *)

Section Kept.
Context {W : Type}.
Implicit Types (s : world W) (w : W).

(** The callbacks stay registered and the request buffer well formed. *)
Definition kept s s' : Prop :=
  sSyscTimeCb (own s') = sSyscTimeCb (own s) ∧
  sReportDiffCb (own s') = sReportDiffCb (own s) ∧
  sSendDlyReqCb (own s') = sSendDlyReqCb (own s) ∧
  (delay_req_buf (delay_req_msg (own s)) → delay_req_buf (delay_req_msg (own s'))).

#[global] Instance kept_preorder : PreOrder kept.
Proof.
  split; [by intros s; split_and!|].
  intros s1 s2 s3 (?&?&?&?) (?&?&?&?). split_and!; [congruence..|auto].
Qed.

Lemma read_systime_kept s t s' : ptp_sync_read_systime s = Ok (t, s') → kept s s'.
Proof.
  unfold ptp_sync_read_systime. intros H. minv. case_match; minv.
  by split_and!.
Qed.

Lemma handle_sync_kept msg s u s' : handle_sync msg s = Ok (u, s') → kept s s'.
Proof.
  unfold handle_sync, assign. intros H. minv.
  match goal with H : ptp_sync_read_systime _ = _ |- _ => apply read_systime_kept in H end.
  etrans; [|etrans; [eassumption|]]; by split_and!.
Qed.

Lemma send_delay_req_kept hdr ts s u s' :
  ptp_sync_send_delay_req_event hdr ts s = Ok (u, s') → kept s s'.
Proof.
  unfold ptp_sync_send_delay_req_event, assign. intros H. minv. case_match; minv.
  split_and!; [done..|]. cbn. eauto using fill_delay_req_keeps.
Qed.

Lemma handle_follow_up_kept msg s u s' : handle_follow_up msg s = Ok (u, s') → kept s s'.
Proof.
  unfold handle_follow_up, assign. intros H. minv.
  match goal with H : ptp_sync_read_systime _ = _ |- _ => apply read_systime_kept in H as K1 end.
  match goal with H : ptp_sync_send_delay_req_event _ _ _ = _ |- _ =>
    apply send_delay_req_kept in H as K2 end.
  etrans; [|etrans; [exact K1|etrans; [|exact K2]]]; by split_and!.
Qed.

Lemma handle_delay_resp_kept msg s u s' : handle_delay_resp msg s = Ok (u, s') → kept s s'.
Proof.
  unfold handle_delay_resp, ptp_sycn_report_diff, assign. intros H. minv.
  match goal with H : ptp_sync_read_systime _ = _ |- _ => apply read_systime_kept in H end.
  case_match; minv.
  etrans; [|etrans; [eassumption|]]; by split_and!.
Qed.
Lemma interpreter_kept msg : keeps kept (ptp_sync_interpreter msg).
Proof.
  intros s r s' H. unfold ptp_sync_interpreter in H. apply run_bind_Ok in H as (ty & s1 & Hty & H).
  apply run_lift_inv in Hty as [_ ->].
  repeat case_match; minv; unfold assign in *; minv; try done;
    first [by split_and! | eauto using handle_sync_kept, handle_follow_up_kept, handle_delay_resp_kept].
Qed.
End Kept.

(** ** What a call can do to the client

    A relation that every registered callback keeps is kept by the
    interpreter. *)

Section Client.
Context {W : Type} (R : relation W) `{!PreOrder R}.
Implicit Types (s : world W) (w : W).

Record callbacks_keep s : Prop := {
  gettime_keeps g : sSyscTimeCb (own s) = Some g → keeps R g;
  report_keeps f o sy d : sReportDiffCb (own s) = Some f → keeps R (f o sy d);
  send_keeps f m : sSendDlyReqCb (own s) = Some f → keeps R (f m)
}.

Lemma callbacks_keep_kept s s' : kept s s' → callbacks_keep s → callbacks_keep s'.
Proof.
  intros (H1&H2&H3&_) [K1 K2 K3]. split; [rewrite H1|rewrite H2|rewrite H3]; eauto.
Qed.

Lemma read_systime_env s t s' : callbacks_keep s →
  ptp_sync_read_systime s = Ok (t, s') → R (env s) (env s').
Proof.
  unfold ptp_sync_read_systime. intros [Hg _ _] H. minv. case_match eqn:E; minv.
  by eapply Hg.
Qed.

Lemma report_env s o sy d u s' : callbacks_keep s →
  ptp_sycn_report_diff o sy d s = Ok (u, s') → R (env s) (env s').
Proof.
  unfold ptp_sycn_report_diff. intros [_ Hf _] H. minv. case_match eqn:E; minv.
  by eapply Hf.
Qed.

Lemma send_env hdr ts s u s' : callbacks_keep s →
  ptp_sync_send_delay_req_event hdr ts s = Ok (u, s') → R (env s) (env s').
Proof.
  unfold ptp_sync_send_delay_req_event, assign. intros [_ _ Hf] H. minv.
  case_match eqn:E; minv. by eapply Hf.
Qed.

Lemma handle_sync_env msg s u s' : callbacks_keep s →
  handle_sync msg s = Ok (u, s') → R (env s) (env s').
Proof.
  unfold handle_sync, assign. intros Hs H. minv.
  match goal with H : ptp_sync_read_systime _ = _ |- _ => apply read_systime_env in H end; [done|].
  by apply (callbacks_keep_kept s).
Qed.

Lemma handle_follow_up_env msg s u s' : callbacks_keep s →
  handle_follow_up msg s = Ok (u, s') → R (env s) (env s').
Proof.
  unfold handle_follow_up, assign. intros Hs H. minv.
  match goal with H : ptp_sync_read_systime ?t = _ |- _ =>
    assert (callbacks_keep t) as Ht by (by apply (callbacks_keep_kept s));
    pose proof (read_systime_kept _ _ _ H) as K; apply read_systime_env in H; [|done] end.
  match goal with H : ptp_sync_send_delay_req_event _ _ _ = _ |- _ => apply send_env in H end.
  - cbn in *. by etrans.
  - eapply callbacks_keep_kept, Ht. etrans; [exact K|by split_and!].
Qed.

Lemma handle_delay_resp_env msg s u s' : callbacks_keep s →
  handle_delay_resp msg s = Ok (u, s') → R (env s) (env s').
Proof.
  unfold handle_delay_resp, assign. intros Hs H. minv.
  match goal with H : ptp_sync_read_systime ?t = _ |- _ =>
    assert (callbacks_keep t) as Ht by (by apply (callbacks_keep_kept s));
    pose proof (read_systime_kept _ _ _ H) as K; apply read_systime_env in H; [|done] end.
  match goal with H : ptp_sycn_report_diff _ _ _ _ = _ |- _ => apply report_env in H end.
  - cbn in *. by etrans.
  - eapply callbacks_keep_kept, Ht. etrans; [exact K|by split_and!].
Qed.

Lemma interpreter_env msg : keeps (λ s s', callbacks_keep s → R (env s) (env s'))
  (ptp_sync_interpreter msg).
Proof.
  intros s r s' H Hs. unfold ptp_sync_interpreter, assign in H.
  apply run_bind_Ok in H as (ty & s1 & Hty & H). apply run_lift_inv in Hty as [_ ->].
  repeat case_match; minv; try done;
    eauto using handle_sync_env, handle_follow_up_env, handle_delay_resp_env.
Qed.
(** The messages that neither send nor report. *)
Lemma interpreter_other msg s ty g : messageType (m_bytes msg) = Ok ty →
  ty ≠ FollowUpMsg_e → ty ≠ DelayResponse_e →
  sSyscTimeCb (own s) = Some g → keeps R g → (∀ w, is_Ok (g w) = true) →
  ∃ r s', ptp_sync_interpreter msg s = Ok (r, s') ∧ R (env s) (env s').
Proof.
  intros Hty H1 H2 Hg Hkeep Htotal.
  destruct (decide (ty = SyncMsg_e)) as [->|H3].
  - rewrite interpreter_sync by done. erewrite handle_sync_run by done.
    specialize (Htotal (env s)). destruct (g (env s)) as [[t w]|] eqn:E; [|done].
    do 2 eexists. split; [done|]. by eapply Hkeep.
  - unfold ptp_sync_interpreter. rewrite run_bind, Hty, run_lift_Ok, bind_Ok_l.
    apply Z.eqb_neq in H1 as ->, H2 as ->, H3 as ->.
    repeat case_match; do 2 eexists; (split; [reflexivity|reflexivity]).
Qed.
End Client.

(** ** Theorems *)

(** The calculation after a delay response never overflows on timestamps
    whose nanoseconds are below one second, and it is insensitive to the Sync
    exchange: whatever [t1] and [t2] are, the synchronised time is the
    master's receive time [t4], seconds and nanoseconds, to within one
    nanosecond, and the difference is [t4] minus the system time, field by
    field and not normalised. *)
Lemma delay_resp_calc_is_t4 t1 t2 t3 t4 sys :
  ts_sane t1 → ts_sane t2 → ts_sane t3 → ts_sane t4 → ts_sane sys →
  ∃ sy d e, delay_resp_calc t1 t2 t3 t4 sys = Ok (sy, d) ∧ - 1 ≤ e ≤ 1 ∧
    seconds sy = seconds t4 ∧ nanosec sy = nanosec t4 + e ∧
    seconds d = seconds t4 - seconds sys ∧ nanosec d = nanosec t4 - nanosec sys + e.
Proof.
  intros H1 H2 H3 H4 Hs.
  destruct (delay_resp_calc_run t1 t2 t3 t4 sys) as (sy & d & E); [done..|].
  destruct (delay_resp_calc_fields _ _ _ _ _ _ _ E) as (e & ?). by exists sy, d, e.
Qed.

(** Two instants ten nanoseconds apart, on both sides of a second boundary: the
    difference has a non-zero seconds field. *)
Lemma delay_resp_calc_is_t4_witness :
  let t1 := Ts 99 0 None in let t2 := Ts 99 999999000 None in
  let t3 := Ts 99 999999500 None in let t4 := Ts 100 5 None in
  let sys := Ts 99 999999995 None in
  ∃ sy d e, delay_resp_calc t1 t2 t3 t4 sys = Ok (sy, d) ∧ - 1 ≤ e ≤ 1 ∧
    seconds sy = seconds t4 ∧ nanosec sy = nanosec t4 + e ∧
    seconds d = seconds t4 - seconds sys ∧ nanosec d = nanosec t4 - nanosec sys + e.
Proof.
  intros t1 t2 t3 t4 sys. apply (delay_resp_calc_is_t4 t1 t2 t3 t4 sys); by_computation.
Defined.

(** C2. The reported difference is biased by the latency of the response.  Let
    the slave be [theta] ahead of the master, the Sync sent at [x1] arrive
    after [d1], the delay request sent at [x3] arrive after [d2], and the
    response reach the slave [r] after that.  The difference that the code
    reports is [- (theta + r)] to within one nanosecond: a slave that is exact
    ([theta] = 0) is told to step back by [r], and neither path delay enters. *)
Theorem delay_resp_bias theta x1 d1 x3 d2 r t1 t2 t3 t4 sys sy d :
  total t1 = x1 → total t2 = x1 + d1 + theta →
  total t3 = x3 + theta → total t4 = x3 + d2 → total sys = x3 + d2 + r + theta →
  delay_resp_calc t1 t2 t3 t4 sys = Ok (sy, d) →
  - 1 ≤ total d + theta + r ≤ 1.
Proof.
  intros _ _ _ H4 Hs (e & He & Hsy & Hny & Hsd & Hnd)%delay_resp_calc_fields.
  unfold total in *. nia.
Qed.

Lemma delay_resp_bias_witness :
  let t1 := Ts 10 0 None in let t2 := Ts 10 2000 None in
  let t3 := Ts 10 100000 None in let t4 := Ts 10 102000 None in
  let sys := Ts 10 152000 None in
  match delay_resp_calc t1 t2 t3 t4 sys with
  | Ok (sy, d) => - 1 ≤ total d + 0 + 50000 ≤ 1
  | Fault _ => False
  end.
Proof.
  intros t1 t2 t3 t4 sys.
  destruct (delay_resp_calc t1 t2 t3 t4 sys) as [[sy d]|] eqn:E; [|discriminate E].
  apply (delay_resp_bias 0 (total t1) 2000 (total t3) 2000 50000 t1 t2 t3 t4 sys sy d);
    try reflexivity. exact E.
Defined.

Section Theorems.
Context {W : Type}.
Implicit Types (s : world W) (w : W).

Record registered s (g : M W ptp_timestamp_t) (r : Z → ptp_timestamp_t → ptp_timestamp_t → M W unit)
    (f : list Z → M W unit) : Prop := {
  reg_gettime : sSyscTimeCb (own s) = Some g;
  reg_report : sReportDiffCb (own s) = Some r;
  reg_send : sSendDlyReqCb (own s) = Some f;
  reg_buf : delay_req_buf (delay_req_msg (own s))
}.

(** A message of the given type with room for the timestamp after the header. *)
Record timed_message (msg : message) (ty b0 b1 : Z) : Prop := {
  tm_type : messageType (m_bytes msg) = Ok ty;
  tm_head : ∃ b2 b3 h, m_bytes msg = b0 :: b1 :: b2 :: b3 :: h;
  tm_long : (44 ≤ length (m_bytes msg))%nat;
  tm_bytes : Forall is_byte (m_bytes msg)
}.

End Theorems.

(** ** A client for concrete runs

    The clock gives the readings of a list; what is sent and reported is
    recorded, newest first. *)

Record client := Client {
  readings : list ptp_timestamp_t;
  sent : list (list Z);
  reports : list (Z * ptp_timestamp_t * ptp_timestamp_t)
}.

Definition client_gettime : M client ptp_timestamp_t := λ c,
  match readings c with
  | t :: l => Ok (t, Client l (sent c) (reports c))
  | [] => Fault (Hang "the clock")
  end.

Definition client_send (m : list Z) : M client unit :=
  modify (λ c, Client (readings c) (m :: sent c) (reports c)).

Definition client_report (offset : Z) (sy d : ptp_timestamp_t) : M client unit :=
  modify (λ c, Client (readings c) (sent c) ((offset, sy, d) :: reports c)).

(** The interpreter's state once a client has registered its callbacks. *)
Definition registered_boot {W} (g : M W ptp_timestamp_t)
    (r : Z → ptp_timestamp_t → ptp_timestamp_t → M W unit) (f : list Z → M W unit) : ptp_sync W :=
  with_send_cb (Some f) (with_report_cb (Some r) (with_gettime_cb (Some g) (ptp_sync_boot W))).

Definition client_world (l : list ptp_timestamp_t) : world client :=
  World (registered_boot client_gettime client_report client_send) (Client l [] []).

(** Messages as a master sends them. *)
Definition ptp_message (ty : Z) (body : list Z) : message :=
  Msg 4096 ([ty; 2; 0; Z.of_nat (34 + length body)] ++ replicate 30 0 ++ body).

Definition stamp (sec ns : Z) : list Z := be_bytes 6 sec ++ be_bytes 4 ns.

Definition sync_message : message := ptp_message SyncMsg_e (stamp 0 0).
Definition follow_up_message (sec ns : Z) : message := ptp_message FollowUpMsg_e (stamp sec ns).
Definition delay_resp_message (sec ns : Z) : message :=
  ptp_message DelayResponse_e (stamp sec ns ++ replicate 10 0).

Lemma client_registered l :
  registered (client_world l) client_gettime client_report client_send.
Proof. split; [done..|apply delay_req_init_buf]. Qed.

(** A message given by its bytes. *)
Ltac concrete_message :=
  split; [reflexivity | do 3 eexists; reflexivity | by_computation | by_computation].

Section Theorems.
Context {W : Type}.
Implicit Types (s : world W) (w : W).

(** C16. A follow-up message stores the precise origin timestamp it carries as
    [t1] and the system time as [t3], and sends exactly one delay request: 44
    bytes of message type 1 with the version of the follow-up, the length, and
    [t3] as origin timestamp; the sequence number and the source port identity
    are always zero. *)
Theorem follow_up_sends_delay_req msg s g r f b0 b1 t w w' :
  registered s g r f → timed_message msg FollowUpMsg_e b0 b1 →
  g (env s) = Ok (t, w) → f (delay_req_bytes b0 b1 t) w = Ok (tt, w') →
  ∃ s', ptp_sync_interpreter msg s = Ok (PTP_MSG_OK, s') ∧ registered s' g r f ∧ env s' = w' ∧
    t1 (own s') = wire_ts (m_bytes msg) (dts (t1 (own s))) ∧ t3 (own s') = t ∧
    t2 (own s') = t2 (own s) ∧ t4 (own s') = t4 (own s) ∧
    messageType (delay_req_bytes b0 b1 t) = Ok DelayRequest_e ∧
    delay_req_bytes b0 b1 t !! 1%nat = Some b1 ∧
    bytes_at (delay_req_bytes b0 b1 t) (hdr_at "messageLen") 2 = [0; 44] ∧
    bytes_at (delay_req_bytes b0 b1 t) (hdr_at "srcPortId") 12 = replicate 12 0.
Proof.
  intros [Hg Hr Hf Hbuf] [Hty (b2 & b3 & h & Hm) Hlen Hb] Ht Hsend.
  rewrite interpreter_follow_up by done.
  erewrite handle_follow_up_run by done.
  rewrite Ht, bind_Ok_l, Hsend, !bind_Ok_l.
  eexists. split; [done|]. split.
  { split; [exact Hg|exact Hr|exact Hf|apply delay_req_bytes_buf]. }
  do 5 (split; [done|]).
  split; [|done]. unfold messageType. cbn. f_equal.
  change (to_u8 ?x) with (x mod 2 ^ 8). rewrite <-Z.land_ones by lia.
  rewrite !Z.land_lor_distr_l, <-!Z.land_assoc. change (Z.land 240 _) with 0 at 1.
  by rewrite Z.land_0_r.
Qed.

(** C5. A whole exchange (Sync, follow-up, delay response) with sane system
    times and sane timestamps in the messages runs without a fault up to the
    report, and reports one difference: the receive time in the delay response
    minus the system time read when it arrived, to within one nanosecond. *)
Theorem ptp_exchange m1 m2 m3 s g r f b0 b1 c0 c1 ta tb tc w1 w2 w3 w4 :
  registered s g r f → messageType (m_bytes m1) = Ok SyncMsg_e →
  timed_message m2 FollowUpMsg_e b0 b1 → timed_message m3 DelayResponse_e c0 c1 →
  g (env s) = Ok (ta, w1) → g w1 = Ok (tb, w2) →
  f (delay_req_bytes b0 b1 tb) w2 = Ok (tt, w3) → g w3 = Ok (tc, w4) →
  ts_sane ta → ts_sane tb → ts_sane tc →
  ts_sane (wire_ts (m_bytes m2) None) → ts_sane (wire_ts (m_bytes m3) None) →
  ∃ sy d e, - 1 ≤ e ≤ 1 ∧
    let t4' := wire_ts (m_bytes m3) None in
    seconds sy = seconds t4' ∧ nanosec sy = nanosec t4' + e ∧
    seconds d = seconds t4' - seconds tc ∧ nanosec d = nanosec t4' - nanosec tc + e ∧
    ∀ w5, r 0 sy d w4 = Ok (tt, w5) →
      ∃ s', (ptp_sync_interpreter m1 ;; ptp_sync_interpreter m2 ;; ptp_sync_interpreter m3) s =
        Ok (PTP_MSG_OK, s') ∧ registered s' g r f ∧ env s' = w5.
Proof.
  intros [Hg Hr Hf Hbuf] Hty1 [Hty2 (b2 & b3 & h & Hm2) Hlen2 Hb2] [Hty3 _ Hlen3 Hb3]
    Ha Hb Hs Hc Sa Sb Sc S1 S4.
  destruct (delay_resp_calc_run (wire_ts (m_bytes m2) (dts (t1 (own s)))) ta tb
    (wire_ts (m_bytes m3) (dts (t4 (own s)))) tc) as (sy & d & E); [done..|].
  destruct (delay_resp_calc_fields _ _ _ _ _ _ _ E) as (e & He & ? & ? & ? & ?).
  exists sy, d, e. split; [done|]. cbn zeta. do 4 (split; [done|]). intros w5 Hrep.
  rewrite run_bind, interpreter_sync by done.
  erewrite handle_sync_run by done. rewrite Ha, !bind_Ok_l.
  rewrite run_bind, interpreter_follow_up by done.
  erewrite handle_follow_up_run by done. cbn [env]. rewrite Hb, bind_Ok_l, Hs, !bind_Ok_l.
  rewrite interpreter_delay_resp by done.
  erewrite handle_delay_resp_run by done. cbn [env]. rewrite Hc, bind_Ok_l. cbn zeta.
  cbn [own t1 t2 t3 t4 dts with_t1 with_t2 with_t3 with_msg with_pSync with_pFollowUp].
  rewrite E, bind_Ok_l, Hrep, !bind_Ok_l.
  eexists. split; [done|]. split; [|done].
  split; [exact Hg|exact Hr|exact Hf|apply delay_req_bytes_buf].
Qed.

(** The types that the interpreter accepts. *)
Definition accepted (ty : Z) : bool :=
  bool_decide (ty ∈ [SyncMsg_e; FollowUpMsg_e; DelayResponse_e; PDelayResponse_e;
    PDelayResponseFollowUp_e; Announce_e]).

(** Dispatch.  A call that returns gives [PTP_MSG_OK] for the six accepted
    message types and [PTP_MSG_ERR], with no state change at all, for every
    other type; in both cases the registered callbacks stay, and the request
    buffer stays well formed. *)
Lemma interpreter_result msg s r s' : ptp_sync_interpreter msg s = Ok (r, s') →
  kept s s' ∧ ∃ ty, messageType (m_bytes msg) = Ok ty ∧
  if accepted ty then r = PTP_MSG_OK else r = PTP_MSG_ERR ∧ s' = s.
Proof.
  intros H. split; [by eapply interpreter_kept|].
  unfold ptp_sync_interpreter in H. apply run_bind_Ok in H as (ty & s1 & Hty & H).
  apply run_lift_inv in Hty as [Hty ->]. exists ty. split; [done|].
  repeat (case_match; [match goal with E : (_ =? _) = true |- _ => apply Z.eqb_eq in E; subst end|
    match goal with E : (_ =? _) = false |- _ => apply Z.eqb_neq in E end]); minv.
  all: try done.
  unfold accepted. rewrite bool_decide_false; [done|].
  rewrite !elem_of_cons, elem_of_nil. tauto.
Qed.

(** C40. There is no length check.  A follow-up shorter than header and
    timestamp makes the interpreter read the byte behind the end of the message,
    or the first one of the timestamp if not even the header is complete,
    whatever the state; and so does a delay response, when a callback for the
    time is registered and gives one. *)
Theorem short_message_out_of_bounds msg s ty :
  messageType (m_bytes msg) = Ok ty → (length (m_bytes msg) < 44)%nat →
  ty = FollowUpMsg_e ∨
    ty = DelayResponse_e ∧ (∃ g t w, sSyscTimeCb (own s) = Some g ∧ g (env s) = Ok (t, w)) →
  ptp_sync_interpreter msg s = Fault (OutOfBounds (Z.of_nat (Nat.max 34 (length (m_bytes msg))))).
Proof.
  intros Hty Hlen [->|[-> (g & t & w & Hg & Ht)]].
  - rewrite interpreter_follow_up by done. unfold handle_follow_up.
    change (offset_of "precise_origin_ts" ptp_follow_up_msg_fmt_t) with 34%nat.
    rewrite run_bind, assign_run, bind_Ok_l, run_bind, run_gets, bind_Ok_l, run_bind.
    unfold lift. by rewrite ptp_store_timestamp_short.
  - rewrite interpreter_delay_resp by done. unfold handle_delay_resp.
    change (offset_of "recv_ts" ptp_delay_resp_msg_fmt_t) with 34%nat.
    rewrite run_bind, assign_run, bind_Ok_l, run_bind. unfold ptp_sync_read_systime at 1.
    rewrite run_bind, run_gets, bind_Ok_l. cbn [own]. change (sSyscTimeCb (with_pDelayResp _ _)) with (sSyscTimeCb (own s)).
    rewrite Hg, run_zoom. cbn [lget env_l env]. rewrite Ht, !bind_Ok_l.
    rewrite run_bind, assign_run, bind_Ok_l, run_bind, run_gets, bind_Ok_l, run_bind.
    unfold lift. by rewrite ptp_store_timestamp_short.
Qed.

(** The nanoseconds on the wire are not validated.  A delay response that
    carries [2 ^ 31] nanoseconds runs into signed overflow once the request was
    sent at a time with non-zero nanoseconds. *)
Lemma unvalidated_nanoseconds_overflow msg s g r f c0 c1 t w :
  registered s g r f → timed_message msg DelayResponse_e c0 c1 → g (env s) = Ok (t, w) →
  bytes_at (m_bytes msg) 40 4 = be_bytes 4 (2 ^ 31) → 0 < nanosec (t3 (own s)) →
  ptp_sync_interpreter msg s = Fault SignedOverflow.
Proof.
  intros [Hg Hr Hf Hbuf] [Hty _ Hlen Hb] Ht Hns H3.
  rewrite interpreter_delay_resp by done.
  erewrite handle_delay_resp_run by done. rewrite Ht, bind_Ok_l. cbn zeta.
  set (t4' := wire_ts _ _).
  assert (nanosec t4' = - 2 ^ 31) as H4.
  { unfold t4', wire_ts, wire_timestamp. cbn [nanosec].
    replace (take 4 (drop 6 (bytes_at (m_bytes msg) 34 10))) with (be_bytes 4 (2 ^ 31)); [done|].
    rewrite <-Hns. unfold bytes_at. by rewrite skipn_firstn_comm, take_take, drop_drop. }
  pose proof (delay_resp_calc_overflow (t1 (own s)) (t2 (own s)) (t3 (own s)) t4' t) as Hov.
  destruct (delay_resp_calc _ _ _ _ _) as [[sy d]|e] eqn:E; [exfalso|by rewrite Hov].
  apply delay_resp_calc_leg in E. lia.
Qed.
End Theorems.

(** ** The theorems on concrete messages *)

Lemma follow_up_sends_delay_req_witness :
  let t := Ts 100 250000000 None in
  let s := client_world [t] in
  ∃ s', ptp_sync_interpreter (follow_up_message 100 7) s = Ok (PTP_MSG_OK, s') ∧
    registered s' client_gettime client_report client_send ∧
    env s' = Client [] [delay_req_bytes 8 2 t] [] ∧
    t1 (own s') = wire_ts (m_bytes (follow_up_message 100 7)) (dts ts_zero) ∧ t3 (own s') = t ∧
    t2 (own s') = ts_zero ∧ t4 (own s') = ts_zero ∧
    messageType (delay_req_bytes 8 2 t) = Ok DelayRequest_e ∧
    delay_req_bytes 8 2 t !! 1%nat = Some 2 ∧
    bytes_at (delay_req_bytes 8 2 t) (hdr_at "messageLen") 2 = [0; 44] ∧
    bytes_at (delay_req_bytes 8 2 t) (hdr_at "srcPortId") 12 = replicate 12 0.
Proof.
  intros t s.
  apply (follow_up_sends_delay_req (follow_up_message 100 7) s client_gettime client_report
    client_send 8 2 t (Client [] [] [])).
  - apply client_registered.
  - concrete_message.
  - reflexivity.
  - reflexivity.
Defined.

Lemma ptp_exchange_witness :
  let ta := Ts 100 500 None in let tb := Ts 100 250000000 None in let tc := Ts 100 260000000 None in
  let s := client_world [ta; tb; tc] in
  ∃ sy d e, - 1 ≤ e ≤ 1 ∧
    let t4' := wire_ts (m_bytes (delay_resp_message 100 250001000)) None in
    seconds sy = seconds t4' ∧ nanosec sy = nanosec t4' + e ∧
    seconds d = seconds t4' - seconds tc ∧ nanosec d = nanosec t4' - nanosec tc + e ∧
    ∀ w5, client_report 0 sy d (Client [] [delay_req_bytes 8 2 tb] []) = Ok (tt, w5) →
      ∃ s', (ptp_sync_interpreter sync_message ;; ptp_sync_interpreter (follow_up_message 100 7) ;;
          ptp_sync_interpreter (delay_resp_message 100 250001000)) s = Ok (PTP_MSG_OK, s') ∧
        registered s' client_gettime client_report client_send ∧ env s' = w5.
Proof.
  intros ta tb tc s.
  apply (ptp_exchange sync_message (follow_up_message 100 7) (delay_resp_message 100 250001000)
    s client_gettime client_report client_send 8 2 9 2 ta tb tc (Client [tb; tc] [] [])
    (Client [tc] [] []) (Client [tc] [delay_req_bytes 8 2 tb] [])
    (Client [] [delay_req_bytes 8 2 tb] []));
    [apply client_registered|reflexivity|concrete_message|concrete_message
    |reflexivity..|by_computation|by_computation|by_computation|by_computation|by_computation].
Defined.

Lemma interpreter_result_witness :
  let s := client_world [] in
  kept s s ∧ ∃ ty, messageType (m_bytes (ptp_message Management_e [])) = Ok ty ∧
    if accepted ty then PTP_MSG_ERR = PTP_MSG_OK else PTP_MSG_ERR = PTP_MSG_ERR ∧ s = s.
Proof.
  intros s. apply (interpreter_result (ptp_message Management_e []) s PTP_MSG_ERR s).
  reflexivity.
Defined.

Lemma short_message_out_of_bounds_witness :
  let s := client_world [ts_zero] in
  ptp_sync_interpreter (Msg 7 [0x08; 2]) s = Fault (OutOfBounds 34) ∧
  ptp_sync_interpreter (ptp_message FollowUpMsg_e [1; 2]) s = Fault (OutOfBounds 36) ∧
  ptp_sync_interpreter (ptp_message DelayResponse_e []) s = Fault (OutOfBounds 34).
Proof.
  intros s. split_and!.
  - apply (short_message_out_of_bounds (Msg 7 [0x08; 2]) s FollowUpMsg_e);
      [reflexivity|by_computation|by left].
  - apply (short_message_out_of_bounds (ptp_message FollowUpMsg_e [1; 2]) s FollowUpMsg_e);
      [reflexivity|by_computation|by left].
  - apply (short_message_out_of_bounds (ptp_message DelayResponse_e []) s DelayResponse_e);
      [reflexivity|by_computation|]. right. split; [done|]. by do 3 eexists.
Defined.

Lemma unvalidated_nanoseconds_overflow_witness :
  ptp_sync_interpreter (delay_resp_message 100 (2 ^ 31))
    (World (with_t3 (Ts 100 5 None) (own (client_world [Ts 100 9 None])))
      (env (client_world [Ts 100 9 None]))) = Fault SignedOverflow.
Proof.
  apply (unvalidated_nanoseconds_overflow (delay_resp_message 100 (2 ^ 31)) _ client_gettime
    client_report client_send 9 2 (Ts 100 9 None) (Client [] [] []));
    [|concrete_message|reflexivity..].
  split; [reflexivity..|apply delay_req_init_buf].
Defined.
