(* ===== verification/Lwip.v ===== *)
(** * The TCP/IP stack, as far as the sources call it

    lwIP is not part of the repository.  What the sources use of it is a class
    of operations on a state [N]: packet buffers by address, UDP and IGMP, the
    inputs of the layers above Ethernet, and address resolution.  [LwipLaws] is
    the documented contract, stated on an abstract view of the state.  The output
    function of the network interface, [netif->linkoutput], is not lwIP's but
    the driver's: a class of its own. *)

From stdpp Require Export gmap.
From S2P Require Export Ints.

#[local] Open Scope Z_scope.

(** ** Packet buffers *)

(** The fields of [struct pbuf] that the sources use.  [p_data] is the pointer
    [p->payload] and [p_payload] the memory there, as long as [p->len]. *)
Record pbuf := Pbuf {
  p_next : Z;
  p_data : Z;
  p_payload : list Z;
  p_tot_len : Z;
  p_if_idx : Z;
  p_flags : Z
}.

#[global] Instance pbuf_eq_dec : EqDecision pbuf.
Proof. solve_decision. Defined.

Definition p_len (b : pbuf) : Z := Z.of_nat (length (p_payload b)).

Inductive pbuf_layer := PBUF_TRANSPORT | PBUF_RAW.
Inductive pbuf_type := PBUF_RAM | PBUF_POOL.

Definition ERR_OK : Z := 0.
Definition ERR_MEM : Z := - 1.
Definition ERR_BUF : Z := - 2.
Definition ERR_ARG : Z := - 16.

Definition NULL : Z := 0.

(** ** The operations *)

Class Lwip (N : Type) := {
  pbuf_get : Z → N → option pbuf;
  pbuf_put : Z → pbuf → N → N;
  pbuf_alloc : pbuf_layer → Z → pbuf_type → N → Z * N;
  pbuf_free : Z → N → N;
  pbuf_ref : Z → N → N;
  pbuf_realloc : Z → Z → N → N;
  pbuf_remove_header : Z → Z → N → bool * N;    (* true: not possible *)
  pbuf_add_header : Z → Z → N → bool * N;
  udp_new : N → Z * N;
  udp_bind : Z → Z → N → N;                     (* pcb, port; IP_ANY_TYPE *)
  udp_recv : Z → N → N;                         (* pcb; ptp_msg_interpreter *)
  udp_sendto : Z → Z → Z → Z → N → N;           (* pcb, pbuf, address, port *)
  udp_remove : Z → N → N;
  igmp_joingroup_netif : Z → N → N;
  ip4_input : Z → N → N;
  ip6_input : Z → N → N;
  etharp_input : Z → N → N;
  etharp_output : Z → Z → N → Z * N;            (* pbuf, address *)
  stats_inc : string → N → N
}.

(** [netif->linkoutput], for a buffer. *)
Class Link (N : Type) := { linkoutput : Z → M N Z }.

Section Access.
Context {N : Type} `{Lwip N}.

(** [p->...]: what is not the address of a live buffer must not be followed. *)
Definition pbuf_at (p : Z) : M N pbuf := λ n,
  match pbuf_get p n with
  | Some b => Ok (b, n)
  | None => Fault (NullDeref "pbuf")
  end.

(** An operation that returns a value. *)
Definition call {A} (f : N → A * N) : M N A := λ n, Ok ((f n).1, (f n).2).

(** [p->len = n; p->tot_len = n; memcpy(p->payload, bytes, n);] into a buffer
    with room for [n] bytes. *)
Definition pbuf_store (p : Z) (bytes : list Z) : M N unit :=
  b ← pbuf_at p;
  if decide (length bytes ≤ length (p_payload b))%nat
  then modify (pbuf_put p (Pbuf (p_next b) (p_data b) bytes (Z.of_nat (length bytes)) (p_if_idx b) (p_flags b)))
  else fail (OutOfBounds (p_len b)).

(** The buffer [q] is [p], or chained behind it. *)
Inductive in_chain (n : N) (q : Z) : Z → Prop :=
  | in_chain_here : in_chain n q q
  | in_chain_behind p b : pbuf_get p n = Some b → in_chain n q (p_next b) → in_chain n q p.
End Access.

(** ** The abstract view

    How many references to each buffer the program holds, not counting those
    that the buffers of a chain hold to the next one, the protocol control
    blocks it holds, and what it asked the stack to do, newest first. *)

Inductive request :=
  | Datagram (address port : Z) (bytes : list Z)
  | Frame (bytes : list Z)
  | Bind (pcb port : Z)
  | Receiver (pcb : Z)
  | JoinGroup (address : Z)
  | ToIp (p : Z)
  | ToIp6 (p : Z)
  | ToArp (p : Z).

#[global] Instance request_eq_dec : EqDecision request.
Proof. solve_decision. Defined.

Record stack := Stack {
  refs : gmap Z Z;
  pcbs : gset Z;
  requests : list request
}.

Definition hold (p : Z) (v : stack) : stack := Stack (<[p := 1]> (refs v)) (pcbs v) (requests v).

(** One reference less; the buffer is gone with the last one. *)
Definition drop_ref (p : Z) (v : stack) : stack :=
  Stack (match refs v !! p with
    | Some r => if r =? 1 then delete p (refs v) else <[p := r - 1]> (refs v)
    | None => refs v
    end) (pcbs v) (requests v).

Lemma drop_ref_refs p q v : refs (drop_ref q v) !! p =
  if decide (p = q) then r ← refs v !! p; if r =? 1 then None else Some (r - 1) else refs v !! p.
Proof.
  cbn. destruct (decide (p = q)) as [->|Hne].
  - destruct (refs v !! q) as [r|] eqn:E; cbn; [|done]. destruct (r =? 1);
      [by rewrite lookup_delete_eq|by rewrite lookup_insert_eq].
  - destruct (refs v !! q) as [r|]; [|done]. destruct (r =? 1);
      [by rewrite lookup_delete_ne|by rewrite lookup_insert_ne].
Qed.

(** One reference more; the buffer may be one that only a chain held so far. *)
Definition add_ref (p : Z) (v : stack) : stack :=
  Stack (<[p := default 0 (refs v !! p) + 1]> (refs v)) (pcbs v) (requests v).

Definition request_made (r : request) (v : stack) : stack :=
  Stack (refs v) (pcbs v) (r :: requests v).

Definition pcb_new (c : Z) (v : stack) : stack := Stack (refs v) ({[c]} ∪ pcbs v) (requests v).
Definition pcb_gone (c : Z) (v : stack) : stack := Stack (refs v) (pcbs v ∖ {[c]}) (requests v).

Class LwipView (N : Type) `{Lwip N} := { view_of_stack : N → stack }.

(** A NULL result means failure and changes nothing; the stack calls do nothing
    on a NULL control block; [pbuf_free] accepts NULL.  Where the last reference
    to a buffer goes, those chained behind it go that have no other. *)
Class LwipLaws (N : Type) `{LwipView N} : Prop := {
  held_live n p : is_Some (refs (view_of_stack n) !! p) → p ≠ NULL ∧ is_Some (pbuf_get p n);
  put_view p b n : view_of_stack (pbuf_put p b n) = view_of_stack n;
  put_get p b n : is_Some (pbuf_get p n) → pbuf_get p (pbuf_put p b n) = Some b;
  alloc_spec l len t n p n' : pbuf_alloc l len t n = (p, n') →
    (p = NULL ∧ view_of_stack n' = view_of_stack n) ∨
    (p ≠ NULL ∧ refs (view_of_stack n) !! p = None ∧ view_of_stack n' = hold p (view_of_stack n) ∧
     (∃ b, pbuf_get p n' = Some b ∧
       (t = PBUF_RAM → length (p_payload b) = Z.to_nat len ∧ p_next b = NULL)));
  null_pbuf n : pbuf_get NULL n = None;
  free_view p n : view_of_stack (pbuf_free p n) = drop_ref p (view_of_stack n);
  free_get p q n b : pbuf_get q n = Some b →
    ¬ in_chain n q p ∨ (∃ r, refs (view_of_stack n) !! q = Some r ∧ (q = p → r ≠ 1)) →
    pbuf_get q (pbuf_free p n) = Some b;
  free_inv p q n b : pbuf_get q (pbuf_free p n) = Some b → pbuf_get q n = Some b;
  ref_view p n : is_Some (pbuf_get p n) →
    view_of_stack (pbuf_ref p n) = add_ref p (view_of_stack n);
  ref_get p q n : pbuf_get q (pbuf_ref p n) = pbuf_get q n;
  realloc_view p len n : view_of_stack (pbuf_realloc p len n) = view_of_stack n;
  alloc_get l len t n q : is_Some (pbuf_get q n) → pbuf_get q (pbuf_alloc l len t n).2 = pbuf_get q n;
  udp_new_spec n c n' : udp_new n = (c, n') →
    (c = NULL ∧ view_of_stack n' = view_of_stack n) ∨
    (c ≠ NULL ∧ (c ∉ pcbs (view_of_stack n)) ∧ view_of_stack n' = pcb_new c (view_of_stack n));
  udp_new_get n p : pbuf_get p (udp_new n).2 = pbuf_get p n;
  bind_view c port n : view_of_stack (udp_bind c port n) = request_made (Bind c port) (view_of_stack n);
  recv_view c n : view_of_stack (udp_recv c n) = request_made (Receiver c) (view_of_stack n);
  sendto_view c p a port n b : c ≠ NULL → pbuf_get p n = Some b →
    view_of_stack (udp_sendto c p a port n) = request_made (Datagram a port (p_payload b)) (view_of_stack n);
  sendto_null p a port n : view_of_stack (udp_sendto NULL p a port n) = view_of_stack n;
  udp_remove_view c n : view_of_stack (udp_remove c n) =
    if c =? NULL then view_of_stack n else pcb_gone c (view_of_stack n);
  join_view g n : view_of_stack (igmp_joingroup_netif g n) = request_made (JoinGroup g) (view_of_stack n);
  ip4_view p n : view_of_stack (ip4_input p n) = drop_ref p (request_made (ToIp p) (view_of_stack n));
  ip6_view p n : view_of_stack (ip6_input p n) = drop_ref p (request_made (ToIp6 p) (view_of_stack n));
  arp_view p n : view_of_stack (etharp_input p n) = drop_ref p (request_made (ToArp p) (view_of_stack n));
  header_view p k n : view_of_stack (pbuf_remove_header p k n).2 = view_of_stack n ∧
    view_of_stack (pbuf_add_header p k n).2 = view_of_stack n;
  remove_header_get p k n b : pbuf_get p n = Some b →
    (pbuf_remove_header p k n).1 = bool_decide (p_len b < k);
  add_header_get p k n : (pbuf_add_header p k n).1 = false → ∀ b, pbuf_get p n = Some b →
    ∃ pre b', length pre = Z.to_nat k ∧ p_payload b' = pre ++ p_payload b ∧
      pbuf_get p (pbuf_add_header p k n).2 = Some b';
  stats_view w n : view_of_stack (stats_inc w n) = view_of_stack n;
  stats_get w p n : pbuf_get p (stats_inc w n) = pbuf_get p n
}.

(** ** A stack for concrete runs

    Buffers are numbered from one; [n_mem] buffers can still be allocated and
    [n_pcb] control blocks. *)

Record net := Net {
  n_bufs : gmap positive (Z * pbuf);
  n_pcbs : gset Z;
  n_requests : list request;
  n_mem : nat;
  n_pcb : nat
}.

Definition net_find (p : Z) (n : net) : option (Z * pbuf) :=
  match p with
  | Z.pos i => n_bufs n !! i
  | _ => None
  end.

Definition net_update (p : Z) (f : option (Z * pbuf) → option (Z * pbuf)) (n : net) : net :=
  match p with
  | Z.pos i => Net (partial_alter f i (n_bufs n)) (n_pcbs n) (n_requests n) (n_mem n) (n_pcb n)
  | _ => n
  end.

Definition net_request (r : request) (n : net) : net :=
  Net (n_bufs n) (n_pcbs n) (r :: n_requests n) (n_mem n) (n_pcb n).

Definition net_drop (p : Z) : net → net :=
  net_update p (λ o, '(r, b) ← o; if r =? 1 then None else Some (r - 1, b)).

Definition pos_above (l : list positive) : positive := Pos.succ (foldr Pos.max 1%positive l).

Definition net_alloc (len : Z) (n : net) : Z * net :=
  match n_mem n with
  | O => (NULL, n)
  | S m =>
      let i := pos_above (map_to_list (n_bufs n)).*1 in
      (Z.pos i, Net (<[i := (1, Pbuf NULL (65536 * Z.pos i) (replicate (Z.to_nat len) 0) len 0 0)]> (n_bufs n))
        (n_pcbs n) (n_requests n) m (n_pcb n))
  end.

Definition net_udp_new (n : net) : Z * net :=
  match n_pcb n with
  | O => (NULL, n)
  | S m =>
      let c := 1 + foldr Z.max 0 (elements (n_pcbs n)) in
      (c, Net (n_bufs n) ({[c]} ∪ n_pcbs n) (n_requests n) (n_mem n) m)
  end.

#[global] Instance net_lwip : Lwip net := {
  pbuf_get p n := snd <$> net_find p n;
  pbuf_put p b := net_update p (λ o, '(r, _) ← o; Some (r, b));
  pbuf_alloc _ len _ := net_alloc len;
  pbuf_free := net_drop;
  pbuf_ref p := net_update p (λ o, '(r, b) ← o; Some (r + 1, b));
  pbuf_realloc p len := net_update p (λ o, '(r, b) ← o;
    Some (r, Pbuf (p_next b) (p_data b) (take (Z.to_nat len) (p_payload b))
      (Z.min len (p_tot_len b)) (p_if_idx b) (p_flags b)));
  pbuf_remove_header p k n :=
    match net_find p n with
    | Some (_, b) =>
        if bool_decide (p_len b < k) then (true, n)
        else (false, net_update p (λ o, '(r, b) ← o;
          Some (r, Pbuf (p_next b) (p_data b + k) (drop (Z.to_nat k) (p_payload b))
            (p_tot_len b - k) (p_if_idx b) (p_flags b))) n)
    | None => (true, n)
    end;
  pbuf_add_header p k n := (false, net_update p (λ o, '(r, b) ← o;
    Some (r, Pbuf (p_next b) (p_data b - k) (replicate (Z.to_nat k) 0 ++ p_payload b)
      (p_tot_len b + k) (p_if_idx b) (p_flags b))) n);
  udp_new := net_udp_new;
  udp_bind c port := net_request (Bind c port);
  udp_recv c := net_request (Receiver c);
  udp_sendto c p a port n :=
    match net_find p n with
    | Some (_, b) => if c =? NULL then n else net_request (Datagram a port (p_payload b)) n
    | None => n
    end;
  udp_remove c n := if c =? NULL then n
    else Net (n_bufs n) (n_pcbs n ∖ {[c]}) (n_requests n) (n_mem n) (n_pcb n);
  igmp_joingroup_netif g := net_request (JoinGroup g);
  ip4_input p n := net_drop p (net_request (ToIp p) n);
  ip6_input p n := net_drop p (net_request (ToIp6 p) n);
  etharp_input p n := net_drop p (net_request (ToArp p) n);
  etharp_output p _ n :=
    match net_find p n with
    | Some (_, b) => (ERR_OK, net_request (Frame (replicate 14 0 ++ p_payload b)) n)
    | None => (ERR_ARG, n)
    end;
  stats_inc _ n := n
}.

#[global] Instance net_view : LwipView net := {
  view_of_stack n := Stack (kmap Z.pos (fst <$> n_bufs n)) (n_pcbs n) (n_requests n)
}.

Lemma pos_above_fresh (m : gmap positive (Z * pbuf)) : m !! pos_above (map_to_list m).*1 = None.
Proof.
  apply eq_None_not_Some. intros [x Hx].
  apply elem_of_map_to_list, (list_elem_of_fmap_2 fst) in Hx. cbn in Hx.
  assert (∀ l i, i ∈ l → (i < pos_above l)%positive) as Hlt.
  { induction l as [|j l IH]; intros i [-> | Hi]%elem_of_cons || (intros ? []%elem_of_nil);
      unfold pos_above in *; cbn; [lia|]. specialize (IH _ Hi). lia. }
  apply Hlt in Hx. lia.
Qed.

Lemma net_find_refs p n :
  refs (view_of_stack n) !! p = fst <$> net_find p n.
Proof.
  cbn. destruct p as [|i|i]; cbn.
  - apply lookup_kmap_None; [apply _|]. by intros.
  - rewrite lookup_kmap by apply _. apply lookup_fmap.
  - apply lookup_kmap_None; [apply _|]. by intros.
Qed.

(** An update of the contents keeps the references. *)
Lemma net_update_view p f n : (∀ o, fst <$> f o = fst <$> (o : option (Z * pbuf))) →
  view_of_stack (net_update p f n) = view_of_stack n.
Proof.
  intros Hf. destruct p as [|i|i]; [done| |done]. cbn. f_equal. f_equal.
  apply map_eq. intros j. rewrite !lookup_fmap.
  destruct (decide (i = j)) as [->|].
  - by rewrite lookup_partial_alter_eq, Hf.
  - by rewrite lookup_partial_alter_ne.
Qed.

Lemma net_find_update p q f n :
  net_find q (net_update p f n) = if bool_decide (p = q ∧ 0 < p) then f (net_find q n) else net_find q n.
Proof.
  destruct p as [|i|i]; cbn; [by rewrite bool_decide_false by lia| |by rewrite bool_decide_false by lia].
  destruct q as [|j|j]; cbn; [by rewrite bool_decide_false by (intros []; done)| |
    by rewrite bool_decide_false by (intros []; done)].
  case_bool_decide as E.
  - destruct E as [[= ->] _]. by rewrite lookup_partial_alter_eq.
  - rewrite lookup_partial_alter_ne; [done|]. intros ->. apply E. split; [done|lia].
Qed.

Lemma net_ref_view p n : is_Some (pbuf_get p n) →
  view_of_stack (pbuf_ref p n) = add_ref p (view_of_stack n).
Proof.
  unfold add_ref. rewrite net_find_refs. destruct p as [|i|i]; cbn; try by intros [].
  intros Hi. f_equal. destruct (n_bufs n !! i) as [[r b]|] eqn:E; [|by destruct Hi]. cbn.
  rewrite <-kmap_insert by apply _. f_equal. apply map_eq. intros j.
  destruct (decide (i = j)) as [->|];
    [rewrite lookup_fmap, lookup_partial_alter_eq, lookup_insert_eq, E
    |rewrite lookup_fmap, lookup_partial_alter_ne, lookup_insert_ne, lookup_fmap by done]; done.
Qed.

Lemma net_drop_view p n : view_of_stack (net_drop p n) = drop_ref p (view_of_stack n).
Proof.
  unfold drop_ref. rewrite net_find_refs. destruct p as [|i|i]; [done| |done].
  cbn. f_equal. unfold net_drop, net_update. cbn.
  destruct (n_bufs n !! i) as [[r b]|] eqn:E; cbn.
  - destruct (r =? 1) eqn:Er.
    + rewrite <-kmap_delete, <-fmap_delete by apply _. do 2 f_equal.
      apply map_eq. intros j. destruct (decide (i = j)) as [->|];
        [rewrite lookup_partial_alter_eq, lookup_delete_eq, E
        |rewrite lookup_partial_alter_ne, lookup_delete_ne by done]; cbn; by rewrite ?Er.
    + rewrite <-kmap_insert by apply _. f_equal.
      apply map_eq. intros j. destruct (decide (i = j)) as [->|];
        [rewrite lookup_fmap, lookup_partial_alter_eq, lookup_insert_eq, E
        |rewrite lookup_fmap, lookup_partial_alter_ne, lookup_insert_ne, lookup_fmap by done]; cbn; by rewrite ?Er.
  - do 2 f_equal. apply map_eq. intros j. destruct (decide (i = j)) as [->|];
      [rewrite lookup_partial_alter_eq, E|rewrite lookup_partial_alter_ne by done]; done.
Qed.

Lemma net_alloc_spec len n p n' : net_alloc len n = (p, n') →
  (p = NULL ∧ view_of_stack n' = view_of_stack n) ∨
  (p ≠ NULL ∧ refs (view_of_stack n) !! p = None ∧ view_of_stack n' = hold p (view_of_stack n) ∧
   (∃ b, pbuf_get p n' = Some b ∧ length (p_payload b) = Z.to_nat len ∧ p_next b = NULL)).
Proof.
  unfold net_alloc. destruct (n_mem n) as [|m]; intros [= <- <-]; [by left|right].
  split; [done|]. split.
  { rewrite net_find_refs. cbn. by rewrite pos_above_fresh. }
  split.
  - unfold hold. cbn. by rewrite fmap_insert, kmap_insert by apply _.
  - cbn. rewrite lookup_insert_eq. eexists. split; [done|]. cbn. split; [apply length_replicate|done].
Qed.

Lemma net_udp_new_spec n c n' : net_udp_new n = (c, n') →
  (c = NULL ∧ view_of_stack n' = view_of_stack n) ∨
  (c ≠ NULL ∧ (c ∉ pcbs (view_of_stack n)) ∧ view_of_stack n' = pcb_new c (view_of_stack n)).
Proof.
  unfold net_udp_new. destruct (n_pcb n) as [|m]; intros [= <- <-]; [by left|right].
  assert (∀ l x, x ∈ l → x ≤ foldr Z.max 0 l) as Hle.
  { induction l as [|y l IH]; cbn; intros x Hx; [by apply elem_of_nil in Hx|].
    apply elem_of_cons in Hx as [->|Hx]; [lia|]. specialize (IH _ Hx). lia. }
  assert (∀ l, 0 ≤ foldr Z.max 0 l) as Hnn by (induction l; cbn; lia).
  split; [unfold NULL; specialize (Hnn (elements (n_pcbs n))); lia|]. split; [|done].
  cbn. intros Hx. apply elem_of_elements, Hle in Hx. cbn in Hx. lia.
Qed.

#[global] Instance net_laws : LwipLaws net.
Proof.
  split.
  - intros n p. rewrite net_find_refs. cbn. unfold net_find.
    destruct p; cbn; rewrite ?fmap_is_Some; try by intros [].
  - intros p b n. apply net_update_view. by intros [[]|].
  - intros p b n. cbn. destruct p as [|i|i]; cbn; try by intros [].
    rewrite lookup_partial_alter_eq. destruct (n_bufs n !! i) as [[]|]; [done|by intros []].
  - intros l len t n p n' Ha. apply net_alloc_spec in Ha as [?|(?&?&?&b&?&?&?)]; [by left|right]. eauto 8.
  - done.
  - apply net_drop_view.
  - intros p q n b. rewrite net_find_refs. cbn. unfold net_drop. rewrite net_find_update.
    case_bool_decide as E; [|done]. destruct E as [<- _].
    destruct (net_find p n) as [[r b']|]; [|done]. cbn. intros [= ->] [Hr|(r' & [= ->] & Hr)].
    + destruct Hr. constructor.
    + specialize (Hr eq_refl). by destruct (Z.eqb_spec r' 1).
  - intros p q n b. cbn. unfold net_drop. rewrite net_find_update. case_bool_decide; [|done].
    destruct (net_find q n) as [[r b']|]; [|done]. cbn. by destruct (r =? 1).
  - apply net_ref_view.
  - intros p q n. cbn. rewrite net_find_update. case_bool_decide; [|done].
    by destruct (net_find q n) as [[]|].
  - intros p len n. apply net_update_view. by intros [[]|].
  - intros l len t n q. cbn. unfold net_alloc. destruct (n_mem n); [done|].
    destruct q as [|j|j]; cbn; try by intros []. intros Hj.
    rewrite lookup_insert_ne; [done|]. intros <-. rewrite pos_above_fresh in Hj. by destruct Hj.
  - apply net_udp_new_spec.
  - intros n p. cbn. unfold net_udp_new. by destruct (n_pcb n).
  - done.
  - done.
  - intros c p a port n b Hc. cbn. destruct (net_find p n) as [[r b']|]; [|done].
    cbn. intros [= ->]. by apply Z.eqb_neq in Hc as ->.
  - intros p a port n. cbn. by destruct (net_find p n) as [[]|].
  - intros c n. cbn. by destruct (c =? NULL).
  - done.
  - intros p n. apply net_drop_view.
  - intros p n. apply net_drop_view.
  - intros p n. apply net_drop_view.
  - intros p k n. unfold pbuf_remove_header, pbuf_add_header, net_lwip. split.
    + destruct (net_find p n) as [[r b]|]; [|done]. case_bool_decide; [done|].
      apply net_update_view. by intros [[]|].
    + apply net_update_view. by intros [[]|].
  - intros p k n b. cbn. destruct (net_find p n) as [[r b']|]; [|done]. cbn. intros [= ->].
    by case_bool_decide.
  - intros p k n _ b. unfold pbuf_get, pbuf_add_header, net_lwip. cbn [fst snd].
    rewrite net_find_update. destruct (net_find p n) as [[r b']|] eqn:E; [|done].
    cbn. intros [= ->]. rewrite bool_decide_true by (destruct p; cbn in E; done || lia).
    do 2 eexists. split; [apply length_replicate|]. split; [|done]. done.
  - done.
  - done.
Qed.
