(* ===== verification/Lift.v ===== *)
(** * The stack as a part of a larger state

    The network interface is modelled over any state with a stack in it.  Where
    the state of the protocols contains the stack, as in the running program,
    the operations of the stack act on that component, and obey the same
    laws. *)

From S2P Require Export Lwip.
From stdpp Require Import gmap.

#[local] Open Scope Z_scope.

Section Lift.
Context {S N : Type} (l : lens S N) `{Lwip N}.

Definition over (f : N → N) (s : S) : S := lput l (f (lget l s)) s.
Definition over_call {A} (f : N → A * N) (s : S) : A * S :=
  ((f (lget l s)).1, lput l (f (lget l s)).2 s).

Definition lifted_lwip : Lwip S := {|
  pbuf_get p s := pbuf_get p (lget l s);
  pbuf_put p b := over (pbuf_put p b);
  pbuf_alloc layer len t := over_call (pbuf_alloc layer len t);
  pbuf_free p := over (pbuf_free p);
  pbuf_ref p := over (pbuf_ref p);
  pbuf_realloc p len := over (pbuf_realloc p len);
  pbuf_remove_header p k := over_call (pbuf_remove_header p k);
  pbuf_add_header p k := over_call (pbuf_add_header p k);
  udp_new := over_call udp_new;
  udp_bind c port := over (udp_bind c port);
  udp_recv c := over (udp_recv c);
  udp_sendto c p a port := over (udp_sendto c p a port);
  udp_remove c := over (udp_remove c);
  igmp_joingroup_netif g := over (igmp_joingroup_netif g);
  ip4_input p := over (ip4_input p);
  ip6_input p := over (ip6_input p);
  etharp_input p := over (etharp_input p);
  etharp_output p a := over_call (etharp_output p a);
  stats_inc w := over (stats_inc w)
|}.
End Lift.

Section Laws.
Context {S N : Type} (l : lens S N) `{!LensLaws l} `{LwipLaws N}.

Definition lifted_view : @LwipView S (lifted_lwip l) :=
  {| view_of_stack s := view_of_stack (lget l s) |}.

Lemma lifted_in_chain s q p : in_chain (lget l s) q p → @in_chain S (lifted_lwip l) s q p.
Proof. induction 1 as [|p b Hb _ IH]; [constructor|]. by eapply in_chain_behind. Qed.

Lemma lifted_laws : @LwipLaws S (lifted_lwip l) lifted_view.
Proof.
  split; unfold lifted_lwip, lifted_view, over, over_call;
    cbn [pbuf_get pbuf_put pbuf_alloc pbuf_free pbuf_ref pbuf_realloc pbuf_remove_header
      pbuf_add_header udp_new udp_bind udp_recv udp_sendto udp_remove igmp_joingroup_netif
      ip4_input ip6_input etharp_input etharp_output stats_inc view_of_stack fst snd].
  all: intros; rewrite ?lget_lput in *.
  - by eapply held_live.
  - apply put_view.
  - by apply put_get.
  - match goal with H : (_, _) = (_, _) |- _ => injection H as <- <- end.
    rewrite lget_lput. apply (alloc_spec _ _ _ _ _ _ (surjective_pairing _)).
  - apply null_pbuf.
  - apply free_view.
  - apply free_get; [done|]. match goal with H : _ ∨ _ |- _ => destruct H as [Hc|Hr] end; [left|by right].
    intros Hq. by apply Hc, lifted_in_chain.
  - by eapply free_inv.
  - by apply ref_view.
  - apply ref_get.
  - apply realloc_view.
  - by apply alloc_get.
  - match goal with H : (_, _) = (_, _) |- _ => injection H as <- <- end.
    rewrite lget_lput. apply (udp_new_spec _ _ _ (surjective_pairing _)).
  - apply udp_new_get.
  - apply bind_view.
  - apply recv_view.
  - by apply sendto_view.
  - apply sendto_null.
  - apply udp_remove_view.
  - apply join_view.
  - apply ip4_view.
  - apply ip6_view.
  - apply arp_view.
  - apply header_view.
  - by apply remove_header_get.
  - by apply add_header_get.
  - apply stats_view.
  - apply stats_get.
Qed.
End Laws.
