(* ===== verification/Ptp.v ===== *)
(** * PTP over UDP ([src/IEEE1588/ptp.c])

    The system time for the interpreter, the servo that a reported difference
    drives, the delay request datagram, the receivers on the two PTP ports, and
    the initialisation.  The servo reaches the synchronisation through the
    function pointers of [struct timesync_init_param]. *)

From S2P Require Export Lwip PtpSync TsuTime.

#[local] Open Scope Z_scope.

Definition PTP_EVENT_MSG_PORT : Z := 319.
Definition PTP_GEN_MSG_PORT : Z := 320.
Definition PTP_MAX_ERR_NS : Z := 500.
Definition PTP_MULTICAST_IPV4_ADDR32 : Z := 0x810100E0.
Definition XST_SUCCESS : Z := 0.

Definition IPV4_BYTE (address byte : Z) : Z := Z.land (Z.shiftr address (byte * 8)) 0xFF.

(** [IP4_ADDR(&group, a, b, c, d)]: the address in network byte order, on a
    little-endian machine. *)
Definition IP4_ADDR (a b c d : Z) : Z :=
  Z.lor a (Z.lor (Z.shiftl b 8) (Z.lor (Z.shiftl c 16) (Z.shiftl d 24))).

(** ** The function pointers of the synchronisation

    They act on the state [T] of the file that fills the structure in. *)
Record timesync_init_param (T : Type) := InitParam {
  coarse_timeout_sec : Z;
  fine_timeout_sec : Z;
  ip_coarse_time_received : option (Z → Z → M T unit);
  ip_fine_time_received : option (Z → Z → M T unit);
  ip_pps_received : option (M T unit);
  ip_coarse_timeout : option (M T unit);
  ip_fine_timeout : option (M T unit);
  ip_housekeeping : option (M T unit);
  ip_error_report : option (Z → Z → M T unit)
}.
Arguments InitParam {T} _ _ _ _ _ _ _ _ _.
Arguments coarse_timeout_sec {T} _.
Arguments fine_timeout_sec {T} _.
Arguments ip_coarse_time_received {T} _.
Arguments ip_fine_time_received {T} _.
Arguments ip_pps_received {T} _.
Arguments ip_coarse_timeout {T} _.
Arguments ip_fine_timeout {T} _.
Arguments ip_housekeeping {T} _.
Arguments ip_error_report {T} _.

(** The state that contains the timer driver. *)
Class TsuClient (T D : Type) := {
  client_tsu : lens T (tsu D);
  client_tsu_laws :: LensLaws client_tsu
}.

(** ** The static variables *)
Record ptp (T N : Type) := Ptp {
  p_client : T;
  p_net : N;
  init_params : option (timesync_init_param T);
  stop : bool;
  group : Z;
  integrated_ns : Z;      (* static sync_diff_integrated_ns of ptp_process_time_diff *)
  udp_bound : bool        (* static of bind_udp_receiver *)
}.
Arguments Ptp {T N} _ _ _ _ _ _ _.
Arguments p_client {T N} _.
Arguments p_net {T N} _.
Arguments init_params {T N} _.
Arguments stop {T N} _.
Arguments group {T N} _.
Arguments integrated_ns {T N} _.
Arguments udp_bound {T N} _.

Section Fields.
Context {T N : Type}.
Implicit Types s : ptp T N.

Definition ptp_boot (t : T) (n : N) : ptp T N := Ptp t n None false 0 0 false.

Definition with_client v s : ptp T N :=
  Ptp v (p_net s) (init_params s) (stop s) (group s) (integrated_ns s) (udp_bound s).
Definition with_net v s : ptp T N :=
  Ptp (p_client s) v (init_params s) (stop s) (group s) (integrated_ns s) (udp_bound s).
Definition with_params v s : ptp T N :=
  Ptp (p_client s) (p_net s) v (stop s) (group s) (integrated_ns s) (udp_bound s).
Definition with_stop v s : ptp T N :=
  Ptp (p_client s) (p_net s) (init_params s) v (group s) (integrated_ns s) (udp_bound s).
Definition with_group v s : ptp T N :=
  Ptp (p_client s) (p_net s) (init_params s) (stop s) v (integrated_ns s) (udp_bound s).
Definition with_integrated_ns v s : ptp T N :=
  Ptp (p_client s) (p_net s) (init_params s) (stop s) (group s) v (udp_bound s).
Definition with_bound v s : ptp T N :=
  Ptp (p_client s) (p_net s) (init_params s) (stop s) (group s) (integrated_ns s) v.

Definition client_l : lens (ptp T N) T := Lens p_client with_client.
Definition net_l : lens (ptp T N) N := Lens p_net with_net.
End Fields.

(** ** The functions *)

Section Ptp.
Context {T N D : Type} `{Xil D} `{!TsuClient T D} `{Lwip N}.
Implicit Types s : ptp T N.

Definition on_tsu {A} (m : M (tsu D) A) : M (ptp T N) A := zoom client_l (zoom client_tsu m).
Definition on_net {A} (m : M N A) : M (ptp T N) A := zoom net_l m.
Definition print (fmt : string) (args : list Z) : M (ptp T N) unit :=
  on_tsu (zoom dev_l (printf fmt args)).

Definition get_systime : M (ptp T N) ptp_timestamp_t :=
  tsu ← on_tsu tsu_get_time;
  mret (Ts (to_i64 (t_seconds tsu)) (to_i32 (t_nanosec tsu)) None).

Definition ptp_start_sync : M (ptp T N) unit :=
  g ← gets group;
  on_net (modify (igmp_joingroup_netif g)) ;;
  print "Joining to multicast group: %d.%d.%d.%d\r\n"
    [IPV4_BYTE g 0; IPV4_BYTE g 1; IPV4_BYTE g 2; IPV4_BYTE g 3] ;;
  print "PTP sync started\r\n" [].

Definition set_gptp_param (init_param : timesync_init_param T) : M (ptp T N) unit :=
  modify (with_params (Some init_param)).

(** [init_params->...] *)
Definition params : M (ptp T N) (timesync_init_param T) :=
  p ← gets init_params;
  match p with
  | Some p => mret p
  | None => fail (NullDeref "init_params")
  end.

(** [if(f) f(...);] for a function pointer of the structure. *)
Definition call_client (f : option (M T unit)) : M (ptp T N) unit :=
  match f with
  | Some m => zoom client_l m
  | None => mret tt
  end.

Definition ptp_process_time_diff (offset : Z) (sync_ts diff_ts : ptp_timestamp_t) :
    M (ptp T N) unit :=
  (if negb (seconds diff_ts =? 0) then
    p ← params;
    match ip_coarse_time_received p with
    | Some f =>
        zoom client_l (f (seconds sync_ts) (to_u32 (nanosec sync_ts))) ;;
        modify (with_integrated_ns 0)
    | None => mret tt
    end
  else
    i ← gets integrated_ns;
    i' ← lift (i32 (i + nanosec diff_ts));
    modify (with_integrated_ns i') ;;
    on_tsu (tsu_clock_fine_tune (nanosec diff_ts) i' PTP_MAX_ERR_NS) ;;
    on_tsu tsu_systick_cb ;;
    p ← params;
    call_client ((λ f, f 0 0) <$> ip_fine_time_received p) ;;
    call_client ((λ f, f (nanosec diff_ts) i') <$> ip_error_report p)) ;;
  i ← gets integrated_ns;
  print "diff(%-10d) :: %-2d  %-10d \r\n" [i; seconds diff_ts; nanosec diff_ts].

(** The results of [udp_new] and [pbuf_alloc] are used unchecked.  The length is
    converted to [u16_t] on the way; the interpreter only sends 44 bytes. *)
Definition ptp_send_delay_request (msg : list Z) : M (ptp T N) unit :=
  pcb ← on_net (call udp_new);
  p ← on_net (call (pbuf_alloc PBUF_TRANSPORT (Z.of_nat (length msg)) PBUF_RAM));
  on_net (pbuf_store p msg) ;;
  g ← gets group;
  on_net (modify (udp_sendto pcb p g PTP_EVENT_MSG_PORT)) ;;
  on_net (modify (pbuf_free p)) ;;
  on_net (modify (udp_remove pcb)).

(** One of the two listeners of [bind_udp_receiver]. *)
Definition listen (port : Z) : M (ptp T N) unit :=
  pcb ← on_net (call udp_new);
  when (negb (pcb =? NULL)) (
    on_net (modify (udp_bind pcb port)) ;;
    on_net (modify (udp_recv pcb)) ;;
    print "UDP listener for PTP on port %d\r\n" [port]).

Definition bind_udp_receiver : M (ptp T N) unit :=
  b ← gets udp_bound;
  if (b : bool) then mret tt
  else
    modify (with_bound true) ;;
    listen PTP_EVENT_MSG_PORT ;;
    listen PTP_GEN_MSG_PORT.

Definition handle_ptp : M (ptp T N) unit :=
  p ← params;
  call_client (ip_housekeeping p).

Definition ptp_cleanup : M (ptp T N) unit := modify (with_stop true).

(** The functions that call into [ptp_sync.c] act on the variables of both
    files. *)
Definition on_ptp {A} (m : M (ptp T N) A) : M (world (ptp T N)) A := zoom env_l m.

Definition ptp_msg_interpreter (p : Z) : M (world (ptp T N)) unit :=
  b ← on_ptp (on_net (pbuf_at p));
  stat ← ptp_sync_interpreter (Msg p (p_payload b));
  on_ptp (on_net (modify (pbuf_free p))) ;;
  when (negb (stat =? PTP_MSG_OK)) (on_ptp (print "Invalid PTP message received!\r\n" [])).

Definition init_ptp_task (TSU_CLK_FREQ : Z) : M (world (ptp T N)) Z :=
  on_ptp (on_tsu (init_tsu TSU_CLK_FREQ)) ;;
  ptp_sync_register_gettime_cb get_systime ;;
  ptp_sync_register_report_diff_cb ptp_process_time_diff ;;
  ptp_sync_register_delay_req_cb ptp_send_delay_request ;;
  on_ptp bind_udp_receiver ;;
  on_ptp (modify (with_group (IP4_ADDR 224 0 1 129))) ;;
  on_ptp ptp_start_sync ;;
  mret XST_SUCCESS.

Definition ptp_init (TSU_CLK_FREQ : Z) (init_param : timesync_init_param T) : M (world (ptp T N)) unit :=
  on_ptp (modify (with_params (Some init_param))) ;;
  init_ptp_task TSU_CLK_FREQ ;;
  mret tt.
End Ptp.

(** ** Effects on the stack *)

(** Holding a new buffer and releasing it again leaves nothing behind. *)
Lemma drop_hold p v r : refs v !! p = None →
  drop_ref p (request_made r (hold p v)) = request_made r v ∧ drop_ref p (hold p v) = v.
Proof.
  intros Hp. unfold drop_ref, hold, request_made. cbn.
  rewrite lookup_insert_eq. cbn. rewrite delete_insert_id by done. by destruct v.
Qed.

Lemma pcb_new_gone c v : c ∉ pcbs v → pcb_gone c (pcb_new c v) = v.
Proof.
  intros Hc. unfold pcb_gone, pcb_new. cbn. destruct v as [r ps q]; cbn in *. f_equal. set_solver.
Qed.

Section Stack.
Context {N : Type} `{LwipLaws N}.
Implicit Types n : N.

Lemma pbuf_store_run p bytes n b : pbuf_get p n = Some b →
  length (p_payload b) = length bytes →
  ∃ b', p_payload b' = bytes ∧ pbuf_store p bytes n = Ok (tt, pbuf_put p b' n).
Proof.
  intros Hb Hlen. unfold pbuf_store, pbuf_at. rewrite run_bind, Hb, bind_Ok_l.
  rewrite decide_True by lia. eexists. split; [|done]. done.
Qed.

(** [udp_new], [pbuf_alloc] and what is given back at the end, together. *)
Lemma datagram_view n c n1 p n2 a port bytes :
  udp_new n = (c, n1) → pbuf_alloc PBUF_TRANSPORT (Z.of_nat (length bytes)) PBUF_RAM n1 = (p, n2) →
  p ≠ NULL → ∃ b', pbuf_store p bytes n2 = Ok (tt, pbuf_put p b' n2) ∧
    view_of_stack (udp_remove c (pbuf_free p (udp_sendto c p a port (pbuf_put p b' n2)))) =
    if c =? NULL then view_of_stack n else request_made (Datagram a port bytes) (view_of_stack n).
Proof.
  intros Hc Hp Hnull.
  destruct (alloc_spec _ _ _ _ _ _ Hp) as [[? _]|(_ & Hfresh & Hview & b & Hb & Hlen)]; [done|].
  destruct (Hlen eq_refl) as [Hlen0 _]. rewrite Nat2Z.id in Hlen0.
  destruct (pbuf_store_run p bytes n2 b Hb Hlen0) as (b' & Hb' & Hst).
  exists b'. split; [done|].
  assert (pbuf_get p (pbuf_put p b' n2) = Some b') as Hget by (apply put_get; by rewrite Hb).
  rewrite udp_remove_view, free_view.
  destruct (Z.eqb_spec c NULL) as [->|Hcn].
  - rewrite sendto_null, put_view, Hview.
    destruct (udp_new_spec _ _ _ Hc) as [[_ Hv]|[? _]]; [|done].
    rewrite Hv in Hfresh |- *. by apply (drop_hold p _ (JoinGroup 0)).
  - erewrite sendto_view by done. rewrite put_view, Hview, Hb'.
    destruct (udp_new_spec _ _ _ Hc) as [[? _]|(_ & Hnew & Hv)]; [done|].
    destruct (drop_hold p (view_of_stack n1) (Datagram a port bytes) Hfresh) as [-> _].
    rewrite Hv. rewrite <-(pcb_new_gone c (view_of_stack n)) at 2 by done. done.
Qed.
End Stack.

Section Datagrams.
Context {T N D : Type} `{Xil D} `{!TsuClient T D} `{LwipLaws N}.
Implicit Types s : ptp T N.

(** The allocation that [ptp_send_delay_request] makes. *)
Definition request_pbuf (len : nat) (n : N) : Z * N :=
  pbuf_alloc PBUF_TRANSPORT (Z.of_nat len) PBUF_RAM (udp_new n).2.

Lemma send_delay_request_run msg s : (request_pbuf (length msg) (p_net s)).1 ≠ NULL →
  ∃ n, ptp_send_delay_request msg s = Ok (tt, with_net n s) ∧
    view_of_stack n = if (udp_new (p_net s)).1 =? NULL then view_of_stack (p_net s)
      else request_made (Datagram (group s) PTP_EVENT_MSG_PORT msg) (view_of_stack (p_net s)).
Proof.
  unfold request_pbuf. intros Hp.
  destruct (udp_new (p_net s)) as [c n1] eqn:Ec. cbn [fst snd] in *.
  destruct (pbuf_alloc _ _ _ n1) as [p n2] eqn:Ep. cbn [fst snd] in *.
  destruct (datagram_view _ _ _ _ _ (group s) PTP_EVENT_MSG_PORT _ Ec Ep Hp) as (b & Hst & Hv).
  eexists. split; [|exact Hv].
  unfold ptp_send_delay_request, on_net, call. mexec. rewrite Ec. cbn. rewrite Ep. cbn.
  unfold zoom. cbn. rewrite Hst. done.
Qed.

Lemma send_delay_request_null msg s : (request_pbuf (length msg) (p_net s)).1 = NULL →
  ptp_send_delay_request msg s = Fault (NullDeref "pbuf").
Proof.
  unfold request_pbuf. intros Hp.
  destruct (udp_new (p_net s)) as [c n1] eqn:Ec. cbn [fst snd] in *.
  destruct (pbuf_alloc _ _ _ n1) as [p n2] eqn:Ep. cbn [fst snd] in *. subst p.
  unfold ptp_send_delay_request, on_net, call. mexec. rewrite Ec. cbn. rewrite Ep. cbn.
  unfold pbuf_store, pbuf_at. mexec. by rewrite null_pbuf.
Qed.

(** What the functions of this file do to the stack: references and control
    blocks are balanced, and requests are only added. *)
Definition balanced s s' : Prop :=
  refs (view_of_stack (p_net s')) = refs (view_of_stack (p_net s)) ∧
  pcbs (view_of_stack (p_net s')) = pcbs (view_of_stack (p_net s)) ∧
  ∃ l, requests (view_of_stack (p_net s')) = l ++ requests (view_of_stack (p_net s)).

#[global] Instance balanced_preorder : PreOrder balanced.
Proof.
  split.
  - intros s. split_and!; [done..|by exists []].
  - intros s1 s2 s3 (?&?&l&Hl) (?&?&l'&Hl'). split_and!; [congruence..|].
    exists (l' ++ l). by rewrite Hl', Hl, app_assoc.
Qed.

(** The same stack, untouched. *)
Definition same_net s s' : Prop := p_net s' = p_net s.

#[global] Instance same_net_preorder : PreOrder same_net.
Proof. split; [done|]. intros s1 s2 s3. unfold same_net. congruence. Qed.

Lemma same_net_balanced s s' : same_net s s' → balanced s s'.
Proof. intros Hs. unfold balanced. rewrite Hs. split_and!; [done..|by exists []]. Qed.

Lemma client_same_net {A} (m : M T A) : keeps same_net (zoom client_l m).
Proof. apply (keeps_zoom _ (λ _ _, True)); done. Qed.

Lemma params_same_net : keeps same_net params.
Proof. unfold params. keeps_tac. Qed.

Lemma call_client_same_net f : keeps same_net (call_client f).
Proof. destruct f; cbn; [apply client_same_net|]. keeps_tac. Qed.

#[local] Hint Resolve client_same_net params_same_net call_client_same_net : keeps.

Lemma get_systime_same_net : keeps same_net get_systime.
Proof. unfold get_systime, on_tsu. keeps_tac. Qed.

Lemma process_time_diff_same_net o sy d : keeps same_net (ptp_process_time_diff o sy d).
Proof. unfold ptp_process_time_diff, print, on_tsu. keeps_tac. Qed.

Lemma send_delay_request_balanced msg : keeps balanced (ptp_send_delay_request msg).
Proof.
  intros s u s' Hs. destruct (decide ((request_pbuf (length msg) (p_net s)).1 = NULL)) as [Hp|Hp].
  - rewrite send_delay_request_null in Hs by done. done.
  - destruct (send_delay_request_run msg s Hp) as (n & E & Hv). rewrite E in Hs.
    injection Hs as _ <-. unfold balanced. cbn. rewrite Hv.
    destruct (_ =? _); (split; [done|split; [done|]]); [by exists []|by exists (Datagram (group s) PTP_EVENT_MSG_PORT msg :: nil)].
Qed.
End Datagrams.

Section Registered.
Context {T N D : Type} `{Xil D} `{!TsuClient T D} `{LwipLaws N}.
Implicit Types h : world (ptp T N).

(** The interpreter calls the functions of this file. *)
Definition ptp_registered h : Prop :=
  registered h get_systime ptp_process_time_diff ptp_send_delay_request.

Lemma ptp_registered_keep h : ptp_registered h → callbacks_keep balanced h.
Proof.
  intros [Hg Hr Hf _]. split.
  - intros g. rewrite Hg. intros [= <-] s a s' Hs. by eapply same_net_balanced, get_systime_same_net.
  - intros f o sy d. rewrite Hr. intros [= <-] s a s' Hs.
    by eapply same_net_balanced, process_time_diff_same_net.
  - intros f m. rewrite Hf. intros [= <-]. apply send_delay_request_balanced.
Qed.

Lemma registered_kept {W} (s s' : world W) g r f : kept s s' → registered s g r f → registered s' g r f.
Proof. intros (E1&E2&E3&Eb) [H1' H2' H3' Hb]. split; [by rewrite E1|by rewrite E2|by rewrite E3|auto]. Qed.

Lemma drop_ref_cong p v v' : refs v' = refs v → pcbs v' = pcbs v →
  refs (drop_ref p v') = refs (drop_ref p v) ∧ pcbs (drop_ref p v') = pcbs (drop_ref p v).
Proof. unfold drop_ref. cbn. by intros -> ->. Qed.

(** The last steps of [ptp_msg_interpreter]. *)
Lemma after_interpreter p (stat : Z) h :
  ∃ h', (on_ptp (on_net (modify (pbuf_free p))) ;;
     when (negb (stat =? PTP_MSG_OK)) (on_ptp (print "Invalid PTP message received!\r\n" []))) h
    = Ok (tt, h') ∧ own h' = own h ∧ p_net (env h') = pbuf_free p (p_net (env h)).
Proof.
  unfold on_ptp, on_net, print, on_tsu. mexec.
  destruct (stat =? PTP_MSG_OK); cbn; eexists; (split; [reflexivity|done]).
Qed.
End Registered.

(** ** Theorems *)

Section Theorems.
Context {T N D : Type} `{Xil D} `{!TsuClient T D} `{LwipLaws N}.
Implicit Types (s : ptp T N) (h : world (ptp T N)).

(** C29. A delay request.  If there is memory for it, the message goes out as
    one datagram to the group address and the event port, byte for byte, and
    every buffer and control block taken is given back; without a control
    block nothing is sent and nothing leaks either.  If there is no memory the
    null buffer is dereferenced: the result of [pbuf_alloc] is not checked. *)
Theorem delay_request_datagram msg s :
  match ptp_send_delay_request msg s with
  | Ok (_, s') =>
      s' = with_net (p_net s') s ∧
      view_of_stack (p_net s') = if (udp_new (p_net s)).1 =? NULL then view_of_stack (p_net s)
        else request_made (Datagram (group s) PTP_EVENT_MSG_PORT msg) (view_of_stack (p_net s))
  | Fault e => e = NullDeref "pbuf" ∧ (request_pbuf (length msg) (p_net s)).1 = NULL
  end.
Proof.
  destruct (decide ((request_pbuf (length msg) (p_net s)).1 = NULL)) as [Hp|Hp].
  - by rewrite send_delay_request_null.
  - by destruct (send_delay_request_run msg s Hp) as (n & -> & Hv).
Qed.

(** C25. Reception.  The handler of both UDP ports gives back the received
    buffer exactly once whatever the message is, holds nothing else afterwards
    and stays registered.  It returns for every message type but follow-up
    and delay response, and then it asks the stack for nothing. *)
Theorem receive_releases_once p b ty h :
  ptp_registered h → pbuf_get p (p_net (env h)) = Some b → messageType (p_payload b) = Ok ty →
  (∀ h', ptp_msg_interpreter p h = Ok (tt, h') →
    let v := view_of_stack (p_net (env h)) in let v' := view_of_stack (p_net (env h')) in
    refs v' = refs (drop_ref p v) ∧ pcbs v' = pcbs v ∧
    (∃ l, requests v' = l ++ requests v) ∧ ptp_registered h') ∧
  (ty ≠ FollowUpMsg_e → ty ≠ DelayResponse_e → ∃ h', ptp_msg_interpreter p h = Ok (tt, h') ∧
    view_of_stack (p_net (env h')) = drop_ref p (view_of_stack (p_net (env h)))).
Proof.
  intros Hreg Hb Hty.
  assert (ptp_msg_interpreter p h = '(stat, h1) ← ptp_sync_interpreter (Msg p (p_payload b)) h;
    (on_ptp (on_net (modify (pbuf_free p))) ;;
     when (negb (stat =? PTP_MSG_OK)) (on_ptp (print "Invalid PTP message received!\r\n" []))) h1) as Hrun.
  { unfold ptp_msg_interpreter. rewrite run_bind.
    assert (on_ptp (on_net (pbuf_at p)) h = Ok (b, h)) as ->.
    { unfold on_ptp, on_net, pbuf_at, zoom. cbn. rewrite Hb. by destruct h as [o [? ? ? ? ? ? ?]]. }
    by rewrite bind_Ok_l, run_bind. }
  rewrite Hrun. split.
  - intros h'. destruct (ptp_sync_interpreter _ h) as [[stat h1]|] eqn:E; [|done].
    rewrite bind_Ok_l. destruct (after_interpreter p stat h1) as (h2 & -> & Ho & Hn).
    intros [= <-]. cbn zeta. rewrite Hn, free_view.
    destruct (interpreter_env balanced _ _ _ _ E) as (Hr & Hp & l & Hl); [by apply ptp_registered_keep|].
    pose proof (drop_ref_cong p _ _ Hr Hp) as [-> ->].
    split; [done|]. split; [done|]. split; [by exists l|].
    apply (registered_kept h); [|done].
    pose proof (interpreter_kept _ _ _ _ E) as (E1&E2&E3&E4).
    unfold kept. rewrite Ho. done.
  - intros H1' H2'.
    destruct (interpreter_other same_net (Msg p (p_payload b)) h ty get_systime)
      as (stat & h1 & E & Henv); [done..|apply Hreg|apply get_systime_same_net|done|].
    rewrite E, bind_Ok_l. destruct (after_interpreter p stat h1) as (h2 & -> & Ho & Hn).
    eexists. split; [done|]. by rewrite Hn, free_view, Henv.
Qed.

(** The stack once a listener is installed; nothing without a control block. *)
Definition listening (port c : Z) (v : stack) : stack :=
  if c =? NULL then v
  else request_made (Receiver c) (request_made (Bind c port) (pcb_new c v)).

Lemma listen_run port s : ∃ t n,
  listen port s = Ok (tt, with_net n (with_client t s)) ∧
  view_of_stack n = listening port (udp_new (p_net s)).1 (view_of_stack (p_net s)).
Proof.
  destruct (udp_new (p_net s)) as [c n1] eqn:Ec.
  unfold listen, on_net, call, print, on_tsu. mexec. rewrite Ec. cbn. unfold listening.
  destruct (udp_new_spec _ _ _ Ec) as [[-> Hv]|(Hc & _ & Hv)].
  - cbn. exists (p_client s), n1. by destruct s.
  - apply Z.eqb_neq in Hc as Hc'. rewrite Hc'. cbn.
    eexists _, (udp_recv c (udp_bind c port n1)). split; [reflexivity|].
    by rewrite recv_view, bind_view, Hv.
Qed.

(** The receivers are bound at most once, the event port first; the flag
    is set even when no control block could be had, so a failed binding is
    never tried again. *)
Lemma receivers_bound_once s :
  ∃ s', bind_udp_receiver s = Ok (tt, s') ∧ udp_bound s' = true ∧
    bind_udp_receiver s' = Ok (tt, s') ∧
    if udp_bound s then s' = s
    else ∃ n1, let c1 := (udp_new (p_net s)).1 in let c2 := (udp_new n1).1 in
      view_of_stack n1 = listening PTP_EVENT_MSG_PORT c1 (view_of_stack (p_net s)) ∧
      view_of_stack (p_net s') = listening PTP_GEN_MSG_PORT c2 (view_of_stack n1).
Proof.
  destruct (udp_bound s) eqn:Hb.
  - exists s. unfold bind_udp_receiver. mexec. by rewrite Hb.
  - destruct (listen_run PTP_EVENT_MSG_PORT (with_bound true s)) as (t1 & n1 & E1 & V1).
    destruct (listen_run PTP_GEN_MSG_PORT (with_net n1 (with_client t1 (with_bound true s))))
      as (t2 & n2 & E2 & V2).
    eexists. split; [|split; [|split]].
    + unfold bind_udp_receiver. rewrite run_bind, run_gets, bind_Ok_l, Hb.
      rewrite run_bind, run_modify, bind_Ok_l, run_bind, E1, bind_Ok_l, E2. reflexivity.
    + done.
    + done.
    + by exists n1.
Qed.
End Theorems.

(** ** A concrete host: the timer alone as client *)

#[global] Instance id_lens_laws {S} : LensLaws (Lens (S := S) id (λ t _, t)).
Proof. by split. Qed.

#[global] Instance tsu_client_self {D} : TsuClient (tsu D) D := {
  client_tsu := Lens id (λ t _, t)
}.

(** A stack that holds one received buffer, at address 1. *)
Definition net_with (bytes : list Z) (mem pcb : nat) : net :=
  Net {[1%positive := (1, Pbuf NULL 65536 bytes (Z.of_nat (length bytes)) 0 0)]} ∅ [] mem pcb.

Definition ptp_host (bytes : list Z) : world (ptp (tsu sim) net) :=
  World (registered_boot get_systime ptp_process_time_diff ptp_send_delay_request)
    (ptp_boot (tsu_boot (Sim 0 [])) (net_with bytes 2 2)).

Lemma ptp_host_registered bytes : ptp_registered (ptp_host bytes).
Proof. split; [done..|apply delay_req_init_buf]. Qed.

Lemma receive_releases_once_witness :
  let h := ptp_host (m_bytes sync_message) in
  ∃ h', ptp_msg_interpreter 1 h = Ok (tt, h') ∧
    view_of_stack (p_net (env h')) = drop_ref 1 (view_of_stack (p_net (env h))).
Proof.
  intros h.
  apply (receive_releases_once 1
    (Pbuf NULL 65536 (m_bytes sync_message) 44 0 0) SyncMsg_e h);
    [apply ptp_host_registered|reflexivity|reflexivity|by_computation|by_computation].
Defined.

(** A follow-up without memory for the request. *)
Example no_memory_null_dereference :
  ptp_msg_interpreter 1 (World (own (ptp_host [])) (ptp_boot (tsu_boot (Sim 0 []))
    (net_with (m_bytes (follow_up_message 100 7)) 0 2))) = Fault (NullDeref "pbuf").
Proof. vm_compute. reflexivity. Qed.

Lemma delay_request_datagram_witness :
  let s := env (ptp_host []) in
  match ptp_send_delay_request [1; 2; 3] s with
  | Ok (_, s') => view_of_stack (p_net s') =
      request_made (Datagram 0 PTP_EVENT_MSG_PORT [1; 2; 3]) (view_of_stack (p_net s))
  | Fault _ => False
  end.
Proof.
  intros s. pose proof (delay_request_datagram [1; 2; 3] s) as Hd.
  assert (is_Ok (ptp_send_delay_request [1; 2; 3] s) = true) as Hok by (vm_compute; reflexivity).
  destruct (ptp_send_delay_request [1; 2; 3] s) as [[u s']|e]; [|discriminate Hok].
  destruct Hd as [_ Hd]. exact Hd.
Defined.

Lemma receivers_bound_once_witness :
  let s := env (ptp_host []) in
  ∃ s', bind_udp_receiver s = Ok (tt, s') ∧ udp_bound s' = true ∧
    bind_udp_receiver s' = Ok (tt, s').
Proof.
  intros s. destruct (receivers_bound_once s) as (s' & E & Hb & E' & _).
  exists s'. exact (conj E (conj Hb E')).
Defined.
