(* ===== verification/BdRing.v ===== *)
(** * Buffer descriptor rings

    The GEM driver's rings of buffer descriptors, as the driver documents them:
    every descriptor of a ring is free, allocated and not yet given to the
    hardware, with the hardware, or processed by it and not yet freed; in that
    order backwards they follow each other around the ring. *)

From S2P Require Export Ints.
From stdpp Require Import list_numbers.

#[local] Open Scope Z_scope.

Record ring := Ring {
  r_base : Z;          (* BaseBdAddr *)
  r_sep : Z;           (* Separation *)
  r_all : nat;         (* AllCnt *)
  r_free : list nat;
  r_pre : list nat;
  r_hw : list nat;
  r_post : list nat
}.

#[global] Instance ring_eq_dec : EqDecision ring.
Proof. solve_decision. Defined.

(** Descriptors in the order of the ring, the oldest first. *)
Definition ring_order (r : ring) : list nat := r_post r ++ r_hw r ++ r_pre r ++ r_free r.

(** A ring without descriptors is one that was not created yet. *)
Definition ring_ok (r : ring) : Prop :=
  ((0 < r_all r)%nat → 0 < r_sep r) ∧
  ring_order r = rotate (default 0%nat (head (ring_order r))) (seq 0 (r_all r)).

#[global] Instance ring_ok_dec r : Decision (ring_ok r).
Proof. unfold ring_ok. apply _. Defined.

Definition ring_next (all i : nat) : nat := if (S i =? all)%nat then 0%nat else S i.

Definition bd_addr (r : ring) (i : nat) : Z := r_base r + Z.of_nat i * r_sep r.

(** ** The steps of a descriptor *)

Definition ring_create (base sep : Z) (n : nat) : ring := Ring base sep n (seq 0 n) [] [] [].

Definition ring_alloc (n : nat) (r : ring) : ring :=
  Ring (r_base r) (r_sep r) (r_all r) (drop n (r_free r)) (r_pre r ++ take n (r_free r))
    (r_hw r) (r_post r).

(** The last ones allocated go back. *)
Definition ring_unalloc (n : nat) (r : ring) : ring :=
  let k := (length (r_pre r) - n)%nat in
  Ring (r_base r) (r_sep r) (r_all r) (drop k (r_pre r) ++ r_free r) (take k (r_pre r))
    (r_hw r) (r_post r).

Definition ring_to_hw (n : nat) (r : ring) : ring :=
  Ring (r_base r) (r_sep r) (r_all r) (r_free r) (drop n (r_pre r))
    (r_hw r ++ take n (r_pre r)) (r_post r).

Definition ring_from_hw (n : nat) (r : ring) : ring :=
  Ring (r_base r) (r_sep r) (r_all r) (r_free r) (r_pre r) (drop n (r_hw r))
    (r_post r ++ take n (r_hw r)).

Definition ring_release (n : nat) (r : ring) : ring :=
  Ring (r_base r) (r_sep r) (r_all r) (r_free r ++ take n (r_post r)) (r_pre r) (r_hw r)
    (drop n (r_post r)).

(** All pointers to the first descriptor, the counts kept: meaningful where
    all descriptors are in one group. *)
Definition ring_ptr_reset (r : ring) : ring :=
  let all := seq 0 (r_all r) in
  Ring (r_base r) (r_sep r) (r_all r) (if decide (r_free r = []) then [] else all) []
    (if decide (r_free r = []) then all else []) [].

(** ** The order is kept *)

Lemma rotate_nat_add_small base offset len : (base + offset < len)%nat →
  rotate_nat_add base offset len = (base + offset)%nat.
Proof. intros. unfold rotate_nat_add. rewrite Z.mod_small by lia. lia. Qed.

Lemma rotate_nat_add_wrap base offset len : (len ≤ base + offset < 2 * len)%nat →
  rotate_nat_add base offset len = (base + offset - len)%nat.
Proof.
  intros. unfold rotate_nat_add.
  rewrite <-(Z.mod_unique _ (Z.of_nat len) 1 (Z.of_nat (base + offset - len))); lia.
Qed.

Lemma rotate_app {A} (k : nat) (l a b : list A) :
  rotate k l = a ++ b → b ++ a = rotate (k + length a) l.
Proof.
  intros H. assert (length l = length a + length b)%nat as Hl.
  { rewrite <-(length_rotate l k), H, length_app. done. }
  apply list_eq. intros i. destruct (decide (i < length l)%nat) as [Hi|Hi].
  2: { rewrite !lookup_ge_None_2; [done| |]; rewrite ?length_rotate, ?length_app; lia. }
  rewrite lookup_rotate_r by done.
  assert (rotate_nat_add (k + length a) i (length l) =
    rotate_nat_add k (rotate_nat_add (length a) i (length l)) (length l)) as ->.
  { unfold rotate_nat_add. f_equal. rewrite Z2Nat.id by (apply Z.mod_pos_bound; lia).
    rewrite Zplus_mod_idemp_r. f_equal. lia. }
  rewrite <-lookup_rotate_r by (apply rotate_nat_add_lt; lia).
  rewrite H. destruct (decide (i < length b)%nat) as [Hb|Hb].
  - rewrite rotate_nat_add_small, lookup_app_l, lookup_app_r by lia. f_equal. lia.
  - rewrite rotate_nat_add_wrap by lia. rewrite lookup_app_r, lookup_app_l by lia. f_equal. lia.
Qed.

Lemma head_rotate (k all : nat) : (0 < all)%nat →
  head (rotate k (seq 0 all)) = Some (k mod all)%nat.
Proof.
  intros Hall. rewrite head_lookup, lookup_rotate_r, length_seq by (rewrite length_seq; lia).
  assert (rotate_nat_add k 0 all = (k mod all)%nat) as ->.
  { unfold rotate_nat_add. rewrite Z.add_0_r, <-Nat2Z.inj_mod. lia. }
  apply lookup_seq. split; [done|]. apply Nat.mod_upper_bound. lia.
Qed.

(** A ring is fine as soon as its order is some rotation. *)
Lemma ring_ok_intro r k : ((0 < r_all r)%nat → 0 < r_sep r) →
  ring_order r = rotate k (seq 0 (r_all r)) → ring_ok r.
Proof.
  intros Hsep H. split; [done|]. destruct (decide (r_all r = 0%nat)) as [E|E].
  { rewrite H, E. unfold rotate. cbn. by rewrite drop_nil, take_nil. }
  rewrite H, head_rotate by lia. cbn.
  unfold rotate. rewrite length_seq, Nat.Div0.mod_mod. done.
Qed.

Lemma ring_ok_order r r' : ring_ok r → ring_order r' = ring_order r →
  r_sep r' = r_sep r → r_all r' = r_all r → ring_ok r'.
Proof. intros (H1&H3) Ho Hs Ha. eapply ring_ok_intro; rewrite ?Ho, ?Hs, ?Ha; done. Qed.

Lemma ring_create_ok base sep n : 0 < sep → ring_ok (ring_create base sep n).
Proof.
  intros. apply (ring_ok_intro _ 0); [done..|]. unfold ring_order, rotate. cbn.
  rewrite Nat.Div0.mod_0_l. cbn. by rewrite app_nil_r.
Qed.

Lemma ring_alloc_ok n r : ring_ok r → ring_ok (ring_alloc n r).
Proof.
  intros Hr. apply (ring_ok_order r); [done| |done..].
  unfold ring_order. cbn. by rewrite <-!app_assoc, take_drop.
Qed.

Lemma ring_unalloc_ok n r : ring_ok r → ring_ok (ring_unalloc n r).
Proof.
  intros Hr. apply (ring_ok_order r); [done| |done..].
  unfold ring_order. cbn. by rewrite (app_assoc (take _ _)), take_drop.
Qed.

Lemma ring_to_hw_ok n r : ring_ok r → ring_ok (ring_to_hw n r).
Proof.
  intros Hr. apply (ring_ok_order r); [done| |done..].
  unfold ring_order. cbn. by rewrite <-!app_assoc, (app_assoc (take _ _)), take_drop.
Qed.

Lemma ring_from_hw_ok n r : ring_ok r → ring_ok (ring_from_hw n r).
Proof.
  intros Hr. apply (ring_ok_order r); [done| |done..].
  unfold ring_order. cbn. by rewrite <-!app_assoc, (app_assoc (take _ _)), take_drop.
Qed.

Lemma ring_release_ok n r : ring_ok r → ring_ok (ring_release n r).
Proof.
  intros (Hs&Ho). eapply ring_ok_intro; [done..|].
  unfold ring_order in *. cbn in *. symmetry in Ho.
  rewrite <-(take_drop n (r_post r)) in Ho at 2. rewrite <-app_assoc in Ho.
  rewrite !app_assoc. rewrite <-!app_assoc. rewrite <-(rotate_app _ _ _ _ Ho).
  by rewrite <-!app_assoc.
Qed.

Lemma ring_ptr_reset_ok r : ring_ok r → ring_ok (ring_ptr_reset r).
Proof.
  intros (Hs&Ho). apply (ring_ok_intro _ 0); [done..|].
  unfold ring_order, ring_ptr_reset, rotate. cbn. rewrite Nat.Div0.mod_0_l. cbn.
  case_decide; cbn; by rewrite ?app_nil_r.
Qed.

(** ** What a ring that is fine gives its users *)

Section Ok.
Context (r : ring) (Hr : ring_ok r).

Lemma ring_order_perm : ring_order r ≡ₚ seq 0 (r_all r).
Proof.
  destruct Hr as (_&->). unfold rotate. rewrite Permutation_app_comm. by rewrite take_drop.
Qed.

Lemma ring_order_nodup : NoDup (ring_order r).
Proof. rewrite ring_order_perm. apply NoDup_seq. Qed.

Lemma ring_order_lt i : i ∈ ring_order r → (i < r_all r)%nat.
Proof. rewrite ring_order_perm. rewrite elem_of_seq. lia. Qed.

Lemma ring_order_length : length (ring_order r) = r_all r.
Proof. rewrite ring_order_perm. apply length_seq. Qed.

(** Neighbours in the order are neighbours in memory. *)
Lemma ring_order_next k i j :
  ring_order r !! k = Some i → ring_order r !! S k = Some j → j = ring_next (r_all r) i.
Proof.
  destruct Hr as (_&Ho). rewrite Ho. set (h := default _ _). clearbody h.
  intros [Hi Hk]%lookup_rotate_r_Some [Hj Hk']%lookup_rotate_r_Some.
  rewrite length_seq in *. apply lookup_seq in Hi as [-> Hi], Hj as [-> Hj].
  unfold ring_next, rotate_nat_add in *. rewrite !Nat.add_0_l.
  set (n := Z.of_nat (r_all r)) in *.
  replace (Z.of_nat h + Z.of_nat (S k)) with (Z.of_nat h + Z.of_nat k + 1) by lia.
  pose proof (Z.mod_pos_bound (Z.of_nat h + Z.of_nat k) n) as Hb.
  pose proof (Z.div_mod (Z.of_nat h + Z.of_nat k) n) as Hd.
  set (x := (Z.of_nat h + Z.of_nat k)) in *. set (m := x mod n) in *.
  set (q := x / n) in *. clearbody m q.
  destruct (Nat.eqb_spec (S (Z.to_nat m)) (r_all r)) as [E|E].
  - rewrite <-(Z.mod_unique (x + 1) n (q + 1) 0); [done|lia|]. unfold n in *. nia.
  - rewrite <-(Z.mod_unique (x + 1) n q (m + 1)); [lia|lia|]. nia.
Qed.

(** A group of neighbours. *)
Fixpoint linked (all : nat) (l : list nat) : Prop :=
  match l with
  | i :: ((j :: _) as l') => j = ring_next all i ∧ linked all l'
  | _ => True
  end.

Lemma ring_part_linked a l b : ring_order r = a ++ l ++ b → linked (r_all r) l.
Proof.
  revert a. induction l as [|i [|j l] IH]; intros a Ho; [done..|]. split.
  - apply (ring_order_next (length a)); rewrite Ho.
    + by apply list_lookup_middle.
    + rewrite lookup_app_r by lia. by replace (S (length a) - length a)%nat with 1%nat by lia.
  - apply (IH (a ++ [i])). by rewrite <-app_assoc.
Qed.

Lemma ring_part_lt a l b i : ring_order r = a ++ l ++ b → i ∈ l → (i < r_all r)%nat.
Proof.
  intros Ho Hi. apply ring_order_lt. rewrite Ho, !elem_of_app. auto.
Qed.

Lemma ring_part_nodup a l b : ring_order r = a ++ l ++ b → NoDup l.
Proof.
  intros Ho. pose proof ring_order_nodup as Hd. rewrite Ho in Hd.
  apply NoDup_app in Hd as (_&_&Hd). by apply NoDup_app in Hd as (?&_&_).
Qed.
End Ok.
