(* ===== verification/EmacPs.v ===== *)
(** * The GEM driver, as far as the sources call it

    The driver of the Ethernet controller ([XEmacPs_...]), the packet queue and
    the interrupt controller are part of the board support package.  What the
    sources use is a class of operations on a state [G]; [EmacPsLaws] is their
    documented contract, on an abstract view: the two rings, the receive queue,
    and what was asked of the controller. *)

From stdpp Require Import gmap.
From S2P Require Export TsuHw BdRing.

#[local] Open Scope Z_scope.

Inductive direction := XEMACPS_SEND | XEMACPS_RECV.

#[global] Instance direction_eq_dec : EqDecision direction.
Proof. solve_decision. Defined.

(** The macros that write a descriptor. *)
Inductive bd_operation :=
  | BdWord (offset v : Z)       (* a 32-bit word *)
  | BdSetAddressTx (a : Z)
  | BdSetAddressRx (a : Z)
  | BdSetLength (n : Z)
  | BdSetStatus (w : Z)
  | BdClear
  | BdClearLast
  | BdSetLast
  | BdClearTxUsed.

#[global] Instance bd_operation_eq_dec : EqDecision bd_operation.
Proof. solve_decision. Defined.

(** Calls that configure the controller, its interrupts and its memory. *)
Inductive mac_operation :=
  | MacStop
  | MacStart
  | MacSetOptions (o : Z)
  | MacClearOptions (o : Z)
  | MacSetHash (mac : list Z)
  | MacDeleteHash (mac : list Z)
  | MacSetQueuePtr (a queue : Z) (d : direction)
  | MacInit
  | MacInitOnError
  | MacSetupIsr
  | MacStartEmacps
  | SetTlbAttributes (a : Z)
  | RegisterHandler (intr : Z)
  | EnableIntr (intr : Z)
  | DisableIntr (intr : Z)
  | WriteReg (a v : Z).

#[global] Instance mac_operation_eq_dec : EqDecision mac_operation.
Proof. solve_decision. Defined.

Definition XST_SUCCESS : Z := 0.
Definition XST_FAILURE : Z := 1.

Class EmacPs (G : Type) := {
  gem_xil :: Xil G;
  BaseBdAddr : direction → G → Z;
  Separation : direction → G → Z;
  HwCnt : direction → G → Z;
  BdRingGetFreeCnt : direction → G → Z;
  BdRingCreate : direction → Z → Z → Z → G → Z * G;       (* base, alignment, count *)
  BdRingClone : direction → list bd_operation → G → Z * G;
  BdRingAlloc : direction → Z → G → Z * Z * G;            (* status, first descriptor *)
  BdRingUnAlloc : direction → Z → Z → G → Z * G;
  BdRingToHw : direction → Z → Z → G → Z * G;
  BdRingFromHw : direction → Z → G → Z * Z * G;           (* count, first descriptor *)
  BdRingFree : direction → Z → Z → G → Z * G;
  BdRingNext : direction → Z → G → Z;
  BdRingPtrReset : direction → Z → G → G;
  bd_op : Z → bd_operation → G → G;
  BdGetLength : Z → G → Z;
  CfgInitialize : Z → G → Z * G;
  mac_op : mac_operation → G → Z * G;
  pq_enqueue : Z → G → Z * G;
  pq_dequeue : G → Z * G;
  pq_qlength : G → Z
}.

(** ** The abstract view *)

Record gem := Gem {
  g_tx : ring;
  g_rx : ring;
  g_queue : list Z;
  g_bds : list (Z * bd_operation);       (* newest first *)
  g_macs : list mac_operation            (* newest first *)
}.

#[global] Instance gem_eq_dec : EqDecision gem.
Proof. solve_decision. Defined.

Definition ring_of (d : direction) (v : gem) : ring :=
  match d with XEMACPS_SEND => g_tx v | XEMACPS_RECV => g_rx v end.

Definition set_ring (d : direction) (r : ring) (v : gem) : gem :=
  match d with
  | XEMACPS_SEND => Gem r (g_rx v) (g_queue v) (g_bds v) (g_macs v)
  | XEMACPS_RECV => Gem (g_tx v) r (g_queue v) (g_bds v) (g_macs v)
  end.
Definition set_queue (q : list Z) (v : gem) : gem :=
  Gem (g_tx v) (g_rx v) q (g_bds v) (g_macs v).
Definition bd_written (bd : Z) (o : bd_operation) (v : gem) : gem :=
  Gem (g_tx v) (g_rx v) (g_queue v) ((bd, o) :: g_bds v) (g_macs v).
Definition mac_done (o : mac_operation) (v : gem) : gem :=
  Gem (g_tx v) (g_rx v) (g_queue v) (g_bds v) (o :: g_macs v).

Class GemView (G : Type) `{EmacPs G} := { gem_view : G → gem }.

(** The first descriptor of a group, and whether a set of descriptors is the
    front of a group. *)
Definition group_at (r : ring) (l : list nat) (bd : Z) : Prop :=
  match l with i :: _ => bd = bd_addr r i | [] => True end.
Definition is_front (r : ring) (l : list nat) (n bd : Z) : Prop :=
  0 < n ≤ Z.of_nat (length l) ∧ group_at r l bd.

Class EmacPsLaws (G : Type) `{GemView G} : Prop := {
  rings_ok d g : ring_ok (ring_of d (gem_view g));
  base_law d g : BaseBdAddr d g = r_base (ring_of d (gem_view g));
  sep_law d g : Separation d g = r_sep (ring_of d (gem_view g));
  hw_cnt_law d g : HwCnt d g = Z.of_nat (length (r_hw (ring_of d (gem_view g))));
  free_cnt_law d g : BdRingGetFreeCnt d g = Z.of_nat (length (r_free (ring_of d (gem_view g))));
  create_law d base align n g st g' : BdRingCreate d base align n g = (st, g') → st = XST_SUCCESS →
    ∃ sep, gem_view g' = set_ring d (ring_create base sep (Z.to_nat n)) (gem_view g);
  clone_law d t g : gem_view (BdRingClone d t g).2 = gem_view g;
  alloc_law d n g st bd g' : BdRingAlloc d n g = (st, bd, g') → 0 ≤ n →
    let r := ring_of d (gem_view g) in
    if decide (n ≤ Z.of_nat (length (r_free r)))
    then st = XST_SUCCESS ∧ group_at r (r_free r) bd ∧
      gem_view g' = set_ring d (ring_alloc (Z.to_nat n) r) (gem_view g)
    else st ≠ XST_SUCCESS ∧ gem_view g' = gem_view g;
  unalloc_law d n bd g : let r := ring_of d (gem_view g) in
    0 < n ≤ Z.of_nat (length (r_pre r)) →
    gem_view (BdRingUnAlloc d n bd g).2 = set_ring d (ring_unalloc (Z.to_nat n) r) (gem_view g);
  to_hw_law d n bd g : let r := ring_of d (gem_view g) in is_front r (r_pre r) n bd →
    BdRingToHw d n bd g = (XST_SUCCESS, (BdRingToHw d n bd g).2) ∧
    gem_view (BdRingToHw d n bd g).2 = set_ring d (ring_to_hw (Z.to_nat n) r) (gem_view g);
  from_hw_law d limit g n bd g' : BdRingFromHw d limit g = (n, bd, g') → 0 ≤ limit →
    let r := ring_of d (gem_view g) in
    0 ≤ n ≤ Z.min limit (Z.of_nat (length (r_hw r))) ∧ (0 < n → group_at r (r_hw r) bd) ∧
    gem_view g' = set_ring d (ring_from_hw (Z.to_nat n) r) (gem_view g);
  free_law d n bd g : let r := ring_of d (gem_view g) in is_front r (r_post r) n bd →
    BdRingFree d n bd g = (XST_SUCCESS, (BdRingFree d n bd g).2) ∧
    gem_view (BdRingFree d n bd g).2 = set_ring d (ring_release (Z.to_nat n) r) (gem_view g);
  next_law d i g : let r := ring_of d (gem_view g) in (i < r_all r)%nat →
    BdRingNext d (bd_addr r i) g = bd_addr r (ring_next (r_all r) i);
  ptr_reset_law d g : let r := ring_of d (gem_view g) in r_free r = [] ∨ r_hw r = [] →
    gem_view (BdRingPtrReset d (r_base r) g) = set_ring d (ring_ptr_reset r) (gem_view g);
  bd_op_law bd o g : gem_view (bd_op bd o g) = bd_written bd o (gem_view g);
  mac_op_law o g : gem_view (mac_op o g).2 = mac_done o (gem_view g);
  gem_in32_law a g : gem_view (Xil_In32 a g).2 = gem_view g;
  gem_out32_law a v g : gem_view (Xil_Out32 a v g) = mac_done (WriteReg a v) (gem_view g);
  gem_printf_law f args g : gem_view (xil_printf f args g) = gem_view g;
  enqueue_law p g st g' : pq_enqueue p g = (st, g') →
    if st <? 0 then gem_view g' = gem_view g
    else gem_view g' = set_queue (g_queue (gem_view g) ++ [p]) (gem_view g);
  qlength_law g : pq_qlength g = Z.of_nat (length (g_queue (gem_view g)));
  dequeue_law g p q : g_queue (gem_view g) = p :: q →
    (pq_dequeue g).1 = p ∧ gem_view (pq_dequeue g).2 = set_queue q (gem_view g);
  cfg_queue_law base g : g_queue (gem_view (CfgInitialize base g).2) = g_queue (gem_view g)
}.

Lemma set_ring_of d r v : ring_of d (set_ring d r v) = r.
Proof. by destruct d. Qed.
Lemma set_ring_ne d d' r v : d ≠ d' → ring_of d' (set_ring d r v) = ring_of d' v.
Proof. by destruct d, d'. Qed.
Lemma set_ring_set d r r' v : set_ring d r (set_ring d r' v) = set_ring d r v.
Proof. by destruct d. Qed.
Lemma set_ring_id d v : set_ring d (ring_of d v) v = v.
Proof. by destruct d, v. Qed.

(** ** A controller for concrete runs

    The hardware has completed [s_done_tx] and [s_done_rx] descriptors that the
    driver has not picked up; every frame has [s_len] bytes; the receive queue
    has room for [s_room] more entries. *)

Record okring := OkRing { the_ring : ring; the_ring_ok : bool_decide (ring_ok the_ring) = true }.

Definition ok_set (r : ring) (old : okring) : okring :=
  match Sumbool.sumbool_of_bool (bool_decide (ring_ok r)) with
  | left H => OkRing r H
  | right _ => old
  end.

Lemma ok_set_ok r old : ring_ok r → the_ring (ok_set r old) = r.
Proof.
  intros Hr. unfold ok_set. destruct (Sumbool.sumbool_of_bool _) as [E|E]; [done|].
  by rewrite bool_decide_true in E.
Qed.

Lemma the_ring_fine o : ring_ok (the_ring o).
Proof. apply (bool_decide_eq_true_1 _), the_ring_ok. Qed.

Definition ring_none : ring := Ring 0 0 0 [] [] [] [].
Definition okring_none : okring := OkRing ring_none eq_refl.

Record gemsim := GemSim {
  s_tx : okring;
  s_rx : okring;
  s_queue : list Z;
  s_bds : list (Z * bd_operation);
  s_macs : list mac_operation;
  s_regs : gmap Z Z;
  s_done_tx : nat;
  s_done_rx : nat;
  s_len : Z;
  s_room : nat
}.

Definition gemsim_view (g : gemsim) : gem :=
  Gem (the_ring (s_tx g)) (the_ring (s_rx g)) (s_queue g) (s_bds g) (s_macs g).

Definition sim_ring (d : direction) (g : gemsim) : ring := ring_of d (gemsim_view g).

Definition sim_set (d : direction) (r : ring) (g : gemsim) : gemsim :=
  match d with
  | XEMACPS_SEND => GemSim (ok_set r (s_tx g)) (s_rx g) (s_queue g) (s_bds g) (s_macs g)
      (s_regs g) (s_done_tx g) (s_done_rx g) (s_len g) (s_room g)
  | XEMACPS_RECV => GemSim (s_tx g) (ok_set r (s_rx g)) (s_queue g) (s_bds g) (s_macs g)
      (s_regs g) (s_done_tx g) (s_done_rx g) (s_len g) (s_room g)
  end.

Definition sim_done (d : direction) (g : gemsim) : nat :=
  match d with XEMACPS_SEND => s_done_tx g | XEMACPS_RECV => s_done_rx g end.

Definition sim_take (d : direction) (n : nat) (g : gemsim) : gemsim :=
  GemSim (s_tx g) (s_rx g) (s_queue g) (s_bds g) (s_macs g) (s_regs g)
    (match d with XEMACPS_SEND => s_done_tx g - n | _ => s_done_tx g end)%nat
    (match d with XEMACPS_RECV => s_done_rx g - n | _ => s_done_rx g end)%nat
    (s_len g) (s_room g).

Definition sim_log (o : mac_operation) (g : gemsim) : gemsim :=
  GemSim (s_tx g) (s_rx g) (s_queue g) (s_bds g) (o :: s_macs g) (s_regs g)
    (s_done_tx g) (s_done_rx g) (s_len g) (s_room g).

Definition sim_front (r : ring) (l : list nat) (n bd : Z) : bool :=
  (0 <? n) && (n <=? Z.of_nat (length l)) &&
  match l with i :: _ => bd =? bd_addr r i | [] => true end.

Definition first_bd (r : ring) (l : list nat) : Z :=
  match l with i :: _ => bd_addr r i | [] => 0 end.

Definition sim_next (r : ring) (bd : Z) : Z :=
  bd_addr r (ring_next (r_all r) (Z.to_nat ((bd - r_base r) / r_sep r))).

(** The identification of the controller: its version is 2. *)
Definition sim_version : Z := 0x00020118.

#[global] Instance gemsim_xil : Xil gemsim := {
  Xil_In32 a g := (if a =? 0xff0b00fc then sim_version else default 0 (s_regs g !! a), g);
  Xil_Out32 a v g := GemSim (s_tx g) (s_rx g) (s_queue g) (s_bds g) (WriteReg a v :: s_macs g)
    (<[a := v]> (s_regs g)) (s_done_tx g) (s_done_rx g) (s_len g) (s_room g);
  xil_printf _ _ g := g
}.

#[global] Instance gemsim_emac : EmacPs gemsim := {
  BaseBdAddr d g := r_base (sim_ring d g);
  Separation d g := r_sep (sim_ring d g);
  HwCnt d g := Z.of_nat (length (r_hw (sim_ring d g)));
  BdRingGetFreeCnt d g := Z.of_nat (length (r_free (sim_ring d g)));
  BdRingCreate d base align n g := (XST_SUCCESS, sim_set d (ring_create base 64 (Z.to_nat n)) g);
  BdRingClone d t g := (XST_SUCCESS, g);
  BdRingAlloc d n g :=
    let r := sim_ring d g in
    if decide (n ≤ Z.of_nat (length (r_free r)))
    then (XST_SUCCESS, first_bd r (r_free r), sim_set d (ring_alloc (Z.to_nat n) r) g)
    else (XST_FAILURE, 0, g);
  BdRingUnAlloc d n bd g := (XST_SUCCESS, sim_set d (ring_unalloc (Z.to_nat n) (sim_ring d g)) g);
  BdRingToHw d n bd g :=
    let r := sim_ring d g in
    if sim_front r (r_pre r) n bd then (XST_SUCCESS, sim_set d (ring_to_hw (Z.to_nat n) r) g)
    else (XST_FAILURE, g);
  BdRingFromHw d limit g :=
    let r := sim_ring d g in
    let n := Nat.min (Z.to_nat limit) (Nat.min (sim_done d g) (length (r_hw r))) in
    (Z.of_nat n, first_bd r (r_hw r), sim_take d n (sim_set d (ring_from_hw n r) g));
  BdRingFree d n bd g :=
    let r := sim_ring d g in
    if sim_front r (r_post r) n bd then (XST_SUCCESS, sim_set d (ring_release (Z.to_nat n) r) g)
    else (XST_FAILURE, g);
  BdRingNext d bd g := sim_next (sim_ring d g) bd;
  BdRingPtrReset d a g := sim_set d (ring_ptr_reset (sim_ring d g)) g;
  bd_op bd o g := GemSim (s_tx g) (s_rx g) (s_queue g) ((bd, o) :: s_bds g) (s_macs g) (s_regs g)
    (s_done_tx g) (s_done_rx g) (s_len g) (s_room g);
  BdGetLength bd g := s_len g;
  CfgInitialize base g := (XST_SUCCESS, g);
  mac_op o g := (XST_SUCCESS, sim_log o g);
  pq_enqueue p g := match s_room g with
    | O => (- 1, g)
    | S m => (0, GemSim (s_tx g) (s_rx g) (s_queue g ++ [p]) (s_bds g) (s_macs g) (s_regs g)
        (s_done_tx g) (s_done_rx g) (s_len g) m)
    end;
  pq_dequeue g := match s_queue g with
    | p :: q => (p, GemSim (s_tx g) (s_rx g) q (s_bds g) (s_macs g) (s_regs g)
        (s_done_tx g) (s_done_rx g) (s_len g) (S (s_room g)))
    | [] => (0, g)
    end;
  pq_qlength g := Z.of_nat (length (s_queue g))
}.

#[global] Instance gemsim_gem : GemView gemsim := { gem_view := gemsim_view }.

Lemma sim_set_view d r g : ring_ok r → gemsim_view (sim_set d r g) = set_ring d r (gemsim_view g).
Proof. intros Hr. destruct d; unfold gemsim_view; cbn; by rewrite ok_set_ok. Qed.

Lemma sim_ring_ok d g : ring_ok (sim_ring d g).
Proof. destruct d; apply the_ring_fine. Qed.

Lemma sim_front_true r l n bd : is_front r l n bd → sim_front r l n bd = true.
Proof.
  unfold is_front, group_at, sim_front. intros [Hn Hg].
  destruct l; cbn in *; rewrite !andb_true_iff, ?Z.eqb_eq, Z.ltb_lt, Z.leb_le; lia.
Qed.

Lemma group_at_first r l : group_at r l (first_bd r l).
Proof. by destruct l. Qed.

#[global] Instance gemsim_laws : EmacPsLaws gemsim.
Proof.
  split; cbn; try done.
  - apply sim_ring_ok.
  - intros d base align n g st g' [= <- <-] _. exists 64. apply sim_set_view, ring_create_ok. lia.
  - intros d n g st bd g' E Hn. fold (sim_ring d g) in *. case_decide; injection E as <- <- <-.
    + split; [done|]. split; [apply group_at_first|]. apply sim_set_view, ring_alloc_ok, sim_ring_ok.
    + done.
  - intros d n bd g _. apply sim_set_view, ring_unalloc_ok, sim_ring_ok.
  - intros d n bd g Hf. apply sim_front_true in Hf. fold (sim_ring d g) in *. rewrite Hf.
    split; [done|]. apply sim_set_view, ring_to_hw_ok, sim_ring_ok.
  - intros d limit g n bd g' [= <- <- <-] Hl. fold (sim_ring d g). split; [lia|].
    split; [intros _; apply group_at_first|]. rewrite Nat2Z.id.
    assert (∀ m t, gemsim_view (sim_take d m t) = gemsim_view t) as -> by (by destruct d).
    apply sim_set_view, ring_from_hw_ok, sim_ring_ok.
  - intros d n bd g Hf. apply sim_front_true in Hf. fold (sim_ring d g) in *. rewrite Hf.
    split; [done|]. apply sim_set_view, ring_release_ok, sim_ring_ok.
  - intros d i g Hi. fold (sim_ring d g) in *. unfold sim_next. do 2 f_equal.
    destruct (sim_ring_ok d g) as [Hsep _]. unfold bd_addr.
    replace (r_base (sim_ring d g) + Z.of_nat i * r_sep (sim_ring d g) - r_base (sim_ring d g))
      with (Z.of_nat i * r_sep (sim_ring d g)) by lia.
    rewrite Z.div_mul; [lia|]. specialize (Hsep ltac:(lia)). lia.
  - intros d g _. apply sim_set_view, ring_ptr_reset_ok, sim_ring_ok.
  - intros p g st g'. destruct (s_room g); intros [= <- <-]; done.
  - intros g p q. unfold gemsim_view. cbn. destruct (s_queue g) as [|p' q']; [done|].
    intros [= -> ->]. done.
Qed.
