(* ===== verification/Dma.v ===== *)
(** * The DMA side of the network interface ([src/IEEE1588/netif/xemacpsif_dma.c])

    The buffers that belong to descriptors, transmission and the processing of
    sent descriptors, reception and the refilling of the receive ring, the
    initialisation and the resets.  The configuration modelled is the one of a
    standalone (no operating system) ARMv8 platform without jumbo frames, and
    with [LWIP_UDP_OPT_BLOCK_TX_TILL_COMPLETE] off.  Barriers and cache
    maintenance have no counterpart. *)

From S2P Require Export Lwip EmacPs.

#[local] Open Scope Z_scope.

(** ** What the generated headers and the driver's headers define *)

Class Board := {
  XPAR_XEMACPS_BASEADDR : list (option Z);  (* controllers 0, 1, ... *)
  XLWIP_CONFIG_N_TX_DESC : nat;
  XLWIP_CONFIG_N_RX_DESC : nat;
  XEMACPS_MAX_FRAME_SIZE : Z;
  BD_ALIGNMENT : Z;
  bd_space : Z;                             (* the address of the array *)
  scugic_emac_intr : Z;
  XEMACPS_MAX_MAC_ADDR : nat;
  ip6_multicast_scopes : list (list Z → bool);  (* link-local, ..., global *)
  XEMACPS_NWCTRL_OFFSET : Z;
  XEMACPS_TXSR_OFFSET : Z;
  XEMACPS_RXSR_OFFSET : Z;
  XEMACPS_RXCNT_OFFSET : Z;
  XEMACPS_DMACR_OFFSET : Z;
  XEMACPS_RXQ1BASE_OFFSET : Z;
  XEMACPS_TXQBASE_OFFSET : Z;
  XEMACPS_NWCTRL_STARTTX_MASK : Z;
  XEMACPS_NWCTRL_RXEN_MASK : Z;
  XEMACPS_NWCTRL_TXEN_MASK : Z;
  XEMACPS_RXBUF_WRAP_MASK : Z;
  XEMACPS_RXBUF_NEW_MASK : Z;
  XEMACPS_TXBUF_USED_MASK : Z;
  XEMACPS_TXBUF_WRAP_MASK : Z;
  max_chain : nat                           (* no more buffers fit into memory *)
}.

Definition BD_SPACE_SIZE : Z := 0x200000.
Definition ERR_IF : Z := - 12.

(** ** The variables of the interface *)

Record emac := Emac {
  v_base : Z;          (* emacps.Config.BaseAddress *)
  v_rxspace : Z;       (* rx_bdspace *)
  v_txspace : Z;       (* tx_bdspace *)
  v_last_rx : Z;       (* last_rx_frms_cntr *)
  v_txst : list Z;     (* tx_pbufs_storage *)
  v_rxst : list Z;     (* rx_pbufs_storage *)
  v_space : Z;         (* bd_space_index *)
  v_attr : Z;          (* bd_space_attr_set *)
  v_intr : Z;          (* emac_intr_num *)
  v_mask : Z;          (* xemacps_mcast_entry_mask *)
  v_mask6 : Z          (* xemacps_mld6_mcast_entry_mask *)
}.

#[global] Instance emac_eq_dec : EqDecision emac.
Proof. solve_decision. Defined.

Definition with_v_base (x : Z) (v : emac) : emac := Emac x (v_rxspace v) (v_txspace v)
    (v_last_rx v) (v_txst v) (v_rxst v) (v_space v) (v_attr v) (v_intr v) (v_mask v) (v_mask6
    v).
Definition with_v_rxspace (x : Z) (v : emac) : emac := Emac (v_base v) x (v_txspace v)
    (v_last_rx v) (v_txst v) (v_rxst v) (v_space v) (v_attr v) (v_intr v) (v_mask v) (v_mask6
    v).
Definition with_v_txspace (x : Z) (v : emac) : emac := Emac (v_base v) (v_rxspace v) x
    (v_last_rx v) (v_txst v) (v_rxst v) (v_space v) (v_attr v) (v_intr v) (v_mask v) (v_mask6
    v).
Definition with_v_last_rx (x : Z) (v : emac) : emac := Emac (v_base v) (v_rxspace v) (v_txspace
    v) x (v_txst v) (v_rxst v) (v_space v) (v_attr v) (v_intr v) (v_mask v) (v_mask6 v).
Definition with_v_txst (x : list Z) (v : emac) : emac := Emac (v_base v) (v_rxspace v)
    (v_txspace v) (v_last_rx v) x (v_rxst v) (v_space v) (v_attr v) (v_intr v) (v_mask v)
    (v_mask6 v).
Definition with_v_rxst (x : list Z) (v : emac) : emac := Emac (v_base v) (v_rxspace v)
    (v_txspace v) (v_last_rx v) (v_txst v) x (v_space v) (v_attr v) (v_intr v) (v_mask v)
    (v_mask6 v).
Definition with_v_space (x : Z) (v : emac) : emac := Emac (v_base v) (v_rxspace v) (v_txspace
    v) (v_last_rx v) (v_txst v) (v_rxst v) x (v_attr v) (v_intr v) (v_mask v) (v_mask6 v).
Definition with_v_attr (x : Z) (v : emac) : emac := Emac (v_base v) (v_rxspace v) (v_txspace v)
    (v_last_rx v) (v_txst v) (v_rxst v) (v_space v) x (v_intr v) (v_mask v) (v_mask6 v).
Definition with_v_intr (x : Z) (v : emac) : emac := Emac (v_base v) (v_rxspace v) (v_txspace v)
    (v_last_rx v) (v_txst v) (v_rxst v) (v_space v) (v_attr v) x (v_mask v) (v_mask6 v).
Definition with_v_mask (x : Z) (v : emac) : emac := Emac (v_base v) (v_rxspace v) (v_txspace v)
    (v_last_rx v) (v_txst v) (v_rxst v) (v_space v) (v_attr v) (v_intr v) x (v_mask6 v).
Definition with_v_mask6 (x : Z) (v : emac) : emac := Emac (v_base v) (v_rxspace v) (v_txspace
    v) (v_last_rx v) (v_txst v) (v_rxst v) (v_space v) (v_attr v) (v_intr v) (v_mask v) x.

(** The interface with the stack above it and the controller below. *)
Record nic (N G : Type) := Nic { nic_net : N; nic_gem : G; nic_vars : emac }.
Arguments Nic {N G} _ _ _.
Arguments nic_net {N G} _.
Arguments nic_gem {N G} _.
Arguments nic_vars {N G} _.

Section Access.
Context {N G : Type} `{Board} `{Lwip N} `{EmacPs G}.

Definition stack_l : lens (nic N G) N := Lens nic_net (λ n s, Nic n (nic_gem s) (nic_vars s)).
Definition gem_l : lens (nic N G) G := Lens nic_gem (λ g s, Nic (nic_net s) g (nic_vars s)).

Definition on_stack {A} (m : M N A) : M (nic N G) A := zoom stack_l m.
Definition on_gem {A} (m : M G A) : M (nic N G) A := zoom gem_l m.
Definition gem_call {A} (f : G → A * G) : M (nic N G) A := on_gem (call f).
Definition gem_get {A} (f : G → A) : M (nic N G) A := on_gem (gets f).
Definition gem_do (f : G → G) : M (nic N G) unit := on_gem (modify f).
Definition mac (o : mac_operation) : M (nic N G) unit := gem_call (mac_op o) ;; mret tt.
Definition vars_get {A} (f : emac → A) : M (nic N G) A := gets (λ s, f (nic_vars s)).
Definition vars_do (f : emac → emac) : M (nic N G) unit :=
  modify (λ s, Nic (nic_net s) (nic_gem s) (f (nic_vars s))).

(** [XEmacPs_ReadReg], [XEmacPs_WriteReg] *)
Definition ReadReg (offset : Z) : M (nic N G) Z :=
  base ← vars_get v_base;
  gem_call (Xil_In32 (base + offset)).
Definition WriteReg_ (offset v : Z) : M (nic N G) unit :=
  base ← vars_get v_base;
  gem_do (Xil_Out32 (base + offset) v).
Definition nic_print (fmt : string) (args : list Z) : M (nic N G) unit := on_gem (printf fmt args).
Definition link_stat (what : string) : M (nic N G) unit := on_stack (modify (stats_inc what)).

(** An element of a static array. *)
Definition read_at (l : list Z) (i : nat) : outcome Z :=
  match l !! i with Some x => Ok x | None => Fault (OutOfBounds (Z.of_nat i)) end.
Definition write_at (l : list Z) (i : nat) (x : Z) : outcome (list Z) :=
  if decide (i < length l)%nat then Ok (<[i := x]> l) else Fault (OutOfBounds (Z.of_nat i)).

Definition tx_storage (i : nat) : M (nic N G) Z :=
  l ← vars_get v_txst; lift (read_at l i).
Definition set_tx_storage (i : nat) (x : Z) : M (nic N G) unit :=
  l ← vars_get v_txst; l' ← lift (write_at l i x); vars_do (with_v_txst l').
Definition rx_storage (i : nat) : M (nic N G) Z :=
  l ← vars_get v_rxst; lift (read_at l i).
Definition set_rx_storage (i : nat) (x : Z) : M (nic N G) unit :=
  l ← vars_get v_rxst; l' ← lift (write_at l i x); vars_do (with_v_rxst l').

(** [XEMACPS_BD_TO_INDEX] *)
Definition XEMACPS_BD_TO_INDEX (d : direction) (bd : Z) : M (nic N G) nat :=
  base ← gem_get (BaseBdAddr d);
  sep ← gem_get (Separation d);
  mret (Z.to_nat ((bd - base) / sep)).

(** [get_base_index_txpbufsstorage], [get_base_index_rxpbufsstorage]: the last
    controller whose base address matches; without any the index is not set. *)
Fixpoint base_index_from (n k : nat) (l : list (option Z)) (base : Z) (acc : option nat) : option nat :=
  match l with
  | [] => acc
  | x :: l' => base_index_from n (Datatypes.S k) l' base
      (if bool_decide (x = Some base) then Some (k * n)%nat else acc)
  end.

Definition get_base_index (n : nat) : M (nic N G) nat :=
  base ← vars_get v_base;
  match base_index_from n 0 (take 4 XPAR_XEMACPS_BASEADDR) base None with
  | Some i => mret i
  | None => fail (Indeterminate "index")
  end.
Definition get_base_index_txpbufsstorage : M (nic N G) nat := get_base_index XLWIP_CONFIG_N_TX_DESC.
Definition get_base_index_rxpbufsstorage : M (nic N G) nat := get_base_index XLWIP_CONFIG_N_RX_DESC.

Definition is_tx_space_available : M (nic N G) Z := gem_get (BdRingGetFreeCnt XEMACPS_SEND).

Definition gigeversion : M (nic N G) Z :=
  base ← vars_get v_base;
  w ← gem_call (Xil_In32 (base + 0xFC));
  mret (Z.land (Z.shiftr w 16) 0xFFF).
End Access.

(** ** Transmission *)

Section Transmit.
Context {N G : Type} `{Board} `{Lwip N} `{EmacPs G}.

(** The body of the inner loop of [process_sent_bds]. *)
Definition release_bd (index : nat) (bd : Z) : M (nic N G) unit :=
  bdindex ← XEMACPS_BD_TO_INDEX XEMACPS_SEND bd;
  gem_do (bd_op bd (BdWord 0 0)) ;;
  gem_do (bd_op bd (BdWord 4
    (if (bdindex =? XLWIP_CONFIG_N_TX_DESC - 1)%nat then 0xC0000000 else 0x80000000))) ;;
  p ← tx_storage (index + bdindex);
  when (negb (p =? NULL)) (on_stack (modify (pbuf_free p))) ;;
  set_tx_storage (index + bdindex) NULL.

(** [while (n_pbufs_freed > 0)] *)
Fixpoint release_bds (index n : nat) (curbdpntr : Z) : M (nic N G) unit :=
  match n with
  | O => mret tt
  | Datatypes.S n' =>
      release_bd index curbdpntr ;;
      next ← gem_get (BdRingNext XEMACPS_SEND curbdpntr);
      release_bds index n' next
  end.

(** [while (1)]; the status of [XEmacPs_BdRingFree] is only logged. *)
Fixpoint process_sent_loop (fuel index : nat) : M (nic N G) unit :=
  match fuel with
  | O => fail (Hang "process_sent_bds")
  | Datatypes.S fuel' =>
      '(n_bds, txbdset) ← gem_call (BdRingFromHw XEMACPS_SEND (Z.of_nat XLWIP_CONFIG_N_TX_DESC));
      if n_bds =? 0 then mret tt
      else
        release_bds index (Z.to_nat n_bds) txbdset ;;
        gem_call (BdRingFree XEMACPS_SEND n_bds txbdset) ;;
        process_sent_loop fuel' index
  end.

(** Every round takes a descriptor from the hardware. *)
Definition process_sent_bds : M (nic N G) unit :=
  index ← get_base_index_txpbufsstorage;
  hw ← gem_get (HwCnt XEMACPS_SEND);
  process_sent_loop (Datatypes.S (Z.to_nat hw)) index.

Definition emacps_send_handler : M (nic N G) unit :=
  regval ← ReadReg XEMACPS_TXSR_OFFSET;
  WriteReg_ XEMACPS_TXSR_OFFSET regval ;;
  process_sent_bds.

(** [for (q = p; q != NULL; q = q->next)]: the buffers of a chain. *)
Fixpoint pbuf_chain (fuel : nat) (p : Z) : M (nic N G) (list Z) :=
  if p =? NULL then mret []
  else match fuel with
    | O => fail (Hang "pbuf chain")
    | Datatypes.S fuel' =>
        b ← on_stack (pbuf_at p);
        l ← pbuf_chain fuel' (p_next b);
        mret (p :: l)
    end.

Definition max_fr_size : Z := XEMACPS_MAX_FRAME_SIZE - 18.

(** One buffer into one descriptor; [false] where the function gives up. *)
Definition fill_txbd (index : nat) (q txbd : Z) : M (nic N G) bool :=
  bdindex ← XEMACPS_BD_TO_INDEX XEMACPS_SEND txbd;
  old ← tx_storage (index + bdindex);
  if negb (old =? NULL) then mret false
  else
    b ← on_stack (pbuf_at q);
    gem_do (bd_op txbd (BdSetAddressTx (p_data b))) ;;
    gem_do (bd_op txbd (BdSetLength
      (Z.land (if max_fr_size <? p_len b then max_fr_size else p_len b) 0x3FFF))) ;;
    set_tx_storage (index + bdindex) q ;;
    on_stack (modify (pbuf_ref q)) ;;
    gem_do (bd_op txbd BdClearLast) ;;
    mret true.

(** The loop over the chain; the result is [last_txbd]. *)
Fixpoint fill_txbds (index : nat) (l : list Z) (txbd last_txbd : Z) : M (nic N G) (option Z) :=
  match l with
  | [] => mret (Some last_txbd)
  | q :: l' =>
      ok ← fill_txbd index q txbd;
      if (ok : bool) then
        next ← gem_get (BdRingNext XEMACPS_SEND txbd);
        fill_txbds index l' next txbd
      else mret None
  end.

(** The used bits of the fragments after the first. *)
Fixpoint clear_used (l : list Z) (txbd : Z) : M (nic N G) unit :=
  match l with
  | [] => mret tt
  | _ :: l' =>
      gem_do (bd_op txbd BdClearTxUsed) ;;
      next ← gem_get (BdRingNext XEMACPS_SEND txbd);
      clear_used l' next
  end.

Definition emacps_sgsend (p : Z) : M (nic N G) Z :=
  index ← get_base_index_txpbufsstorage;
  l ← pbuf_chain max_chain p;
  let n_pbufs := Z.of_nat (length l) in
  '(status, txbdset) ← gem_call (BdRingAlloc XEMACPS_SEND n_pbufs);
  if negb (status =? XST_SUCCESS) then mret XST_FAILURE
  else
    last ← fill_txbds index l txbdset NULL;
    match last with
    | None => mret XST_FAILURE
    | Some last_txbd =>
        if p =? NULL then fail (NullDeref "last_txbd")
        else
          gem_do (bd_op last_txbd BdSetLast) ;;
          second ← gem_get (BdRingNext XEMACPS_SEND txbdset);
          clear_used (tail l) second ;;
          gem_do (bd_op txbdset BdClearTxUsed) ;;
          status ← gem_call (BdRingToHw XEMACPS_SEND n_pbufs txbdset);
          if negb (status =? XST_SUCCESS) then mret XST_FAILURE
          else
            w ← ReadReg XEMACPS_NWCTRL_OFFSET;
            WriteReg_ XEMACPS_NWCTRL_OFFSET (Z.lor w XEMACPS_NWCTRL_STARTTX_MASK) ;;
            mret status
    end.
End Transmit.

(** ** Reception *)

Section Receive.
Context {N G : Type} `{Board} `{Lwip N} `{EmacPs G}.

(** A round of [setup_rx_bds]; [false] where the function returns. *)
Definition setup_rx_bd (index : nat) : M (nic N G) bool :=
  p ← on_stack (call (pbuf_alloc PBUF_RAW XEMACPS_MAX_FRAME_SIZE PBUF_POOL));
  if p =? NULL then
    link_stat "link.memerr" ;; link_stat "link.drop" ;;
    nic_print "unable to alloc pbuf in recv_handler\r\n" [] ;;
    mret false
  else
    '(status, rxbd) ← gem_call (BdRingAlloc XEMACPS_RECV 1);
    if negb (status =? XST_SUCCESS) then
      on_stack (modify (pbuf_free p)) ;; mret false
    else
      status ← gem_call (BdRingToHw XEMACPS_RECV 1 rxbd);
      if negb (status =? XST_SUCCESS) then
        on_stack (modify (pbuf_free p)) ;;
        gem_call (BdRingUnAlloc XEMACPS_RECV 1 rxbd) ;;
        mret false
      else
        bdindex ← XEMACPS_BD_TO_INDEX XEMACPS_RECV rxbd;
        gem_do (bd_op rxbd (BdWord 4 0)) ;;
        b ← on_stack (pbuf_at p);
        gem_do (bd_op rxbd (BdWord 8 (Z.shiftr (p_data b) 32))) ;;
        gem_do (bd_op rxbd (BdWord 0
          (if (bdindex =? XLWIP_CONFIG_N_RX_DESC - 1)%nat
           then Z.lor (to_u32 (p_data b)) XEMACPS_RXBUF_WRAP_MASK else to_u32 (p_data b)))) ;;
        set_rx_storage (index + bdindex) p ;;
        mret true.

Fixpoint setup_rx_loop (freebds index : nat) : M (nic N G) unit :=
  match freebds with
  | O => mret tt
  | Datatypes.S n =>
      ok ← setup_rx_bd index;
      when ok (setup_rx_loop n index)
  end.

Definition setup_rx_bds : M (nic N G) unit :=
  index ← get_base_index_rxpbufsstorage;
  freebds ← gem_get (BdRingGetFreeCnt XEMACPS_RECV);
  setup_rx_loop (Z.to_nat freebds) index.

Definition resetrx_on_no_rxdata : M (nic N G) unit :=
  version ← gigeversion;
  when (version =? 2) (
    tempcntr ← ReadReg XEMACPS_RXCNT_OFFSET;
    last ← vars_get v_last_rx;
    when ((tempcntr =? 0) && (last =? 0)) (
      regctrl ← ReadReg XEMACPS_NWCTRL_OFFSET;
      WriteReg_ XEMACPS_NWCTRL_OFFSET (Z.ldiff regctrl XEMACPS_NWCTRL_RXEN_MASK) ;;
      regctrl ← ReadReg XEMACPS_NWCTRL_OFFSET;
      WriteReg_ XEMACPS_NWCTRL_OFFSET (Z.lor regctrl XEMACPS_NWCTRL_RXEN_MASK)) ;;
    vars_do (with_v_last_rx tempcntr)).

(** One received frame into the queue; dropped when the queue is full. *)
Definition receive_bd (index : nat) (bd : Z) : M (nic N G) unit :=
  bdindex ← XEMACPS_BD_TO_INDEX XEMACPS_RECV bd;
  p ← rx_storage (index + bdindex);
  rx_bytes ← gem_get (BdGetLength bd);
  on_stack (modify (pbuf_realloc p rx_bytes)) ;;
  st ← gem_call (pq_enqueue p);
  when (st <? 0) (
    link_stat "link.memerr" ;; link_stat "link.drop" ;;
    on_stack (modify (pbuf_free p))).

Fixpoint receive_bds (index n : nat) (bd : Z) : M (nic N G) unit :=
  match n with
  | O => mret tt
  | Datatypes.S n' =>
      receive_bd index bd ;;
      next ← gem_get (BdRingNext XEMACPS_RECV bd);
      receive_bds index n' next
  end.

Fixpoint receive_loop (fuel index : nat) : M (nic N G) unit :=
  match fuel with
  | O => fail (Hang "emacps_recv_handler")
  | Datatypes.S fuel' =>
      '(bd_processed, rxbdset) ←
        gem_call (BdRingFromHw XEMACPS_RECV (Z.of_nat XLWIP_CONFIG_N_RX_DESC));
      if bd_processed <=? 0 then mret tt
      else
        receive_bds index (Z.to_nat bd_processed) rxbdset ;;
        gem_call (BdRingFree XEMACPS_RECV bd_processed rxbdset) ;;
        setup_rx_bds ;;
        receive_loop fuel' index
  end.

(** The refilled descriptors go back to the hardware, which may complete them
    while the handler runs: [fuel] rounds are enough for a quiet line. *)
Definition emacps_recv_handler (fuel : nat) : M (nic N G) unit :=
  version ← gigeversion;
  index ← get_base_index_rxpbufsstorage;
  regval ← ReadReg XEMACPS_RXSR_OFFSET;
  WriteReg_ XEMACPS_RXSR_OFFSET regval ;;
  when (version <=? 2) resetrx_on_no_rxdata ;;
  receive_loop fuel index.
End Receive.

(** ** Initialisation and reset *)

Section Init.
Context {N G : Type} `{Board} `{Lwip N} `{EmacPs G}.

Definition tx_template : list bd_operation := [BdClear; BdSetStatus XEMACPS_TXBUF_USED_MASK].

Definition clean_dma_txdescs : M (nic N G) unit :=
  base ← vars_get v_txspace;
  gem_call (BdRingCreate XEMACPS_SEND base BD_ALIGNMENT (Z.of_nat XLWIP_CONFIG_N_TX_DESC)) ;;
  gem_call (BdRingClone XEMACPS_SEND tx_template) ;;
  mret tt.

(** [tempaddress = &bd_space[bd_space_index]; bd_space_index += 0x10000]: the
    descriptors are written there, so the element must be one of the array. *)
Definition take_bd_space : M (nic N G) Z :=
  i ← vars_get v_space;
  if BD_SPACE_SIZE <=? i then fail (OutOfBounds i)
  else
    vars_do (with_v_space (to_u32 (i + 0x10000))) ;;
    mret (bd_space + i).

(** A round of the last loop of [init_dma]; [false] where it returns. *)
Definition init_rx_bd (index : nat) : M (nic N G) bool :=
  p ← on_stack (call (pbuf_alloc PBUF_RAW XEMACPS_MAX_FRAME_SIZE PBUF_POOL));
  if p =? NULL then
    link_stat "link.memerr" ;; link_stat "link.drop" ;;
    nic_print "unable to alloc pbuf in init_dma\r\n" [] ;;
    mret false
  else
    '(status, rxbd) ← gem_call (BdRingAlloc XEMACPS_RECV 1);
    if negb (status =? XST_SUCCESS) then
      on_stack (modify (pbuf_free p)) ;; mret false
    else
      status ← gem_call (BdRingToHw XEMACPS_RECV 1 rxbd);
      if negb (status =? XST_SUCCESS) then
        on_stack (modify (pbuf_free p)) ;;
        gem_call (BdRingUnAlloc XEMACPS_RECV 1 rxbd) ;;
        mret false
      else
        bdindex ← XEMACPS_BD_TO_INDEX XEMACPS_RECV rxbd;
        gem_do (bd_op rxbd (BdWord 0 0)) ;;
        when (bdindex =? XLWIP_CONFIG_N_RX_DESC - 1)%nat (gem_do (bd_op rxbd (BdWord 0 2))) ;;
        gem_do (bd_op rxbd (BdWord 4 0)) ;;
        b ← on_stack (pbuf_at p);
        gem_do (bd_op rxbd (BdSetAddressRx (p_data b))) ;;
        set_rx_storage (index + bdindex) p ;;
        mret true.

Fixpoint init_rx_loop (n index : nat) : M (nic N G) bool :=
  match n with
  | O => mret true
  | Datatypes.S n' =>
      ok ← init_rx_bd index;
      if (ok : bool) then init_rx_loop n' index else mret false
  end.

(** [if (status != XST_SUCCESS) return ERR_IF;] *)
Definition checked (m : M (nic N G) Z) (k : M (nic N G) Z) : M (nic N G) Z :=
  status ← m;
  if negb (status =? XST_SUCCESS) then mret ERR_IF else k.

(** The queue pointers, the parked queues, and the interrupt. *)
Definition start_queues (version bdrxterminate bdtxterminate : Z) : M (nic N G) Z :=
  rxbase ← gem_get (BaseBdAddr XEMACPS_RECV);
  mac (MacSetQueuePtr rxbase 0 XEMACPS_RECV) ;;
  txbase ← gem_get (BaseBdAddr XEMACPS_SEND);
  mac (MacSetQueuePtr txbase (if 2 <? version then 1 else 0) XEMACPS_SEND) ;;
  when (2 <? version) (
    base ← vars_get v_base;
    gem_do (bd_op bdrxterminate BdClear) ;;
    gem_do (bd_op bdrxterminate
      (BdSetAddressRx (Z.lor XEMACPS_RXBUF_NEW_MASK XEMACPS_RXBUF_WRAP_MASK))) ;;
    gem_do (Xil_Out32 (base + XEMACPS_RXQ1BASE_OFFSET) (to_u32 bdrxterminate)) ;;
    gem_do (bd_op bdtxterminate BdClear) ;;
    gem_do (bd_op bdtxterminate
      (BdSetStatus (Z.lor XEMACPS_TXBUF_USED_MASK XEMACPS_TXBUF_WRAP_MASK))) ;;
    gem_do (Xil_Out32 (base + XEMACPS_TXQBASE_OFFSET) (to_u32 bdtxterminate))) ;;
  mac (RegisterHandler scugic_emac_intr) ;;
  mac (EnableIntr scugic_emac_intr) ;;
  vars_do (with_v_intr scugic_emac_intr) ;;
  mret 0.

Definition init_dma : M (nic N G) Z :=
  index ← get_base_index_rxpbufsstorage;
  version ← gigeversion;
  attr ← vars_get v_attr;
  when (attr =? 0) (mac (SetTlbAttributes bd_space) ;; vars_do (with_v_attr 1)) ;;
  rxspace ← take_bd_space;
  vars_do (with_v_rxspace rxspace) ;;
  txspace ← take_bd_space;
  vars_do (with_v_txspace txspace) ;;
  '(bdrxterminate, bdtxterminate) ←
    (if 2 <? version then
      a ← take_bd_space;
      b ← take_bd_space;
      mret (a, b)
    else mret (NULL, NULL));
  if (rxspace =? NULL) || (txspace =? NULL) then
    nic_print "%s@%d: Error: Unable to allocate memory for TX/RX buffer descriptors" [] ;;
    mret ERR_IF
  else
    checked (gem_call (BdRingCreate XEMACPS_RECV rxspace BD_ALIGNMENT
      (Z.of_nat XLWIP_CONFIG_N_RX_DESC)))
    (checked (gem_call (BdRingClone XEMACPS_RECV [BdClear]))
    (checked (gem_call (BdRingCreate XEMACPS_SEND txspace BD_ALIGNMENT
      (Z.of_nat XLWIP_CONFIG_N_TX_DESC)))
    (checked (gem_call (BdRingClone XEMACPS_SEND tx_template))
    (ok ← init_rx_loop XLWIP_CONFIG_N_RX_DESC index;
     if negb ok then mret ERR_IF
     else start_queues version bdrxterminate bdtxterminate)))).

Definition free_onlytx_body (i : nat) : M (nic N G) unit :=
  p ← tx_storage i;
  when (negb (p =? NULL)) (
    on_stack (modify (pbuf_free p)) ;;
    set_tx_storage i NULL).

Definition free_onlytx_pbufs : M (nic N G) unit :=
  index1 ← get_base_index_txpbufsstorage;
  for_range index1 XLWIP_CONFIG_N_TX_DESC free_onlytx_body.

(** The receive buffers are freed unconditionally and their entries kept. *)
Definition free_txrx_pbufs : M (nic N G) unit :=
  free_onlytx_pbufs ;;
  index1 ← get_base_index_rxpbufsstorage;
  for_range index1 XLWIP_CONFIG_N_RX_DESC (λ i,
    p ← rx_storage i;
    on_stack (modify (pbuf_free p))).

Definition reset_dma : M (nic N G) unit :=
  txspace ← vars_get v_txspace;
  gem_do (BdRingPtrReset XEMACPS_SEND txspace) ;;
  rxspace ← vars_get v_rxspace;
  gem_do (BdRingPtrReset XEMACPS_RECV rxspace) ;;
  version ← gigeversion;
  let txqueuenum := if 2 <? version then 1 else 0 in
  rxbase ← gem_get (BaseBdAddr XEMACPS_RECV);
  mac (MacSetQueuePtr rxbase 0 XEMACPS_RECV) ;;
  txbase ← gem_get (BaseBdAddr XEMACPS_SEND);
  mac (MacSetQueuePtr txbase txqueuenum XEMACPS_SEND).

Definition emac_disable_intr : M (nic N G) unit :=
  i ← vars_get v_intr; mac (DisableIntr i).
Definition emac_enable_intr : M (nic N G) unit :=
  i ← vars_get v_intr; mac (EnableIntr i).
End Init.
