(* ===== verification/DmaTx.v ===== *)
(** * Transmission: what belongs to the hardware

    The theorems on the transmit side of [xemacpsif_dma.c].  The invariant ties
    the array of buffers to the ring: an entry is set exactly for the
    descriptors that are with the hardware. *)

From S2P Require Export Dma.
From stdpp Require Import list gmap.

#[local] Open Scope Z_scope.

(** ** Runs of the elementary operations *)

Section Runs.
Context {N G : Type} `{Board} `{Lwip N} `{EmacPs G}.
Implicit Types s : nic N G.

Lemma gem_call_run {A} (f : G → A * G) s :
  gem_call f s = Ok ((f (nic_gem s)).1, Nic (nic_net s) (f (nic_gem s)).2 (nic_vars s)).
Proof. done. Qed.

Lemma gem_get_run {A} (f : G → A) s : gem_get f s = Ok (f (nic_gem s), s).
Proof. by destruct s. Qed.

Lemma gem_do_run (f : G → G) s :
  gem_do f s = Ok (tt, Nic (nic_net s) (f (nic_gem s)) (nic_vars s)).
Proof. done. Qed.

Lemma stack_do_run (f : N → N) s :
  on_stack (modify f) s = Ok (tt, Nic (f (nic_net s)) (nic_gem s) (nic_vars s)).
Proof. done. Qed.

Lemma pbuf_at_run p b s : pbuf_get p (nic_net s) = Some b → on_stack (pbuf_at p) s = Ok (b, s).
Proof. intros Hb. unfold on_stack, zoom, pbuf_at. cbn. rewrite Hb. by destruct s. Qed.

Lemma vars_get_run {A} (f : emac → A) s : vars_get f s = Ok (f (nic_vars s), s).
Proof. done. Qed.

Lemma vars_do_run f s : vars_do f s = Ok (tt, Nic (nic_net s) (nic_gem s) (f (nic_vars s))).
Proof. done. Qed.

Lemma mac_run o s : mac o s = Ok (tt, Nic (nic_net s) (mac_op o (nic_gem s)).2 (nic_vars s)).
Proof. done. Qed.

Lemma tx_storage_run i p s : v_txst (nic_vars s) !! i = Some p → tx_storage i s = Ok (p, s).
Proof. intros Hi. unfold tx_storage. rewrite run_bind, vars_get_run, bind_Ok_l. unfold read_at. by rewrite Hi. Qed.

Lemma set_tx_storage_run i x s : (i < length (v_txst (nic_vars s)))%nat →
  set_tx_storage i x s =
  Ok (tt, Nic (nic_net s) (nic_gem s) (with_v_txst (<[i := x]> (v_txst (nic_vars s))) (nic_vars s))).
Proof.
  intros Hi. unfold set_tx_storage. rewrite run_bind, vars_get_run, bind_Ok_l, run_bind.
  unfold write_at. by rewrite decide_True.
Qed.
End Runs.

Ltac nic_step :=
  first [ rewrite run_bind | rewrite bind_Ok_l | rewrite gem_call_run | rewrite gem_get_run
    | rewrite gem_do_run | rewrite mac_run | rewrite stack_do_run | rewrite vars_get_run | rewrite vars_do_run
    | rewrite run_ret | rewrite run_lift_Ok ]; cbn [nic_net nic_gem nic_vars fst snd].
Ltac nic_run := repeat nic_step.

(** ** The invariant *)

Section Invariant.
Context {N G : Type} `{Board} `{LwipLaws N} `{EmacPsLaws G}.
Implicit Types s : nic N G.

Definition tx_ring s : ring := g_tx (gem_view (nic_gem s)).
Definition net_view s : stack := view_of_stack (nic_net s).

(** The view apart from the contents of descriptors. *)
Definition no_bds (v : gem) : gem := Gem (g_tx v) (g_rx v) (g_queue v) [] (g_macs v).
Definition gem_core s : gem := no_bds (gem_view (nic_gem s)).

(** Whole blocks of [bd_space] are taken, and the transmit ring starts at an
    address that the controller accepts. *)
Definition memory_aligned (v : emac) : Prop :=
  v_space v mod 0x10000 = 0 ∧ v_txspace v mod BD_ALIGNMENT = 0.

Record tx_inv (index : nat) s : Prop := {
  tx_index : base_index_from XLWIP_CONFIG_N_TX_DESC 0 (take 4 XPAR_XEMACPS_BASEADDR)
    (v_base (nic_vars s)) None = Some index;
  tx_all : r_all (tx_ring s) = XLWIP_CONFIG_N_TX_DESC;
  tx_pre : r_pre (tx_ring s) = [];
  tx_post : r_post (tx_ring s) = [];
  tx_room : (index + XLWIP_CONFIG_N_TX_DESC ≤ length (v_txst (nic_vars s)))%nat;
  tx_entries i : (i < XLWIP_CONFIG_N_TX_DESC)%nat → ∃ p,
    v_txst (nic_vars s) !! (index + i)%nat = Some p ∧ (p ≠ NULL ↔ i ∈ r_hw (tx_ring s));
  tx_memory : memory_aligned (nic_vars s)
}.

Lemma tx_ring_ok s : ring_ok (tx_ring s).
Proof. apply (rings_ok XEMACPS_SEND). Qed.

Lemma tx_core s : g_tx (gem_core s) = tx_ring s.
Proof. done. Qed.

(** The number of a descriptor from its address, on either ring. *)
Lemma bd_index_dir d i s : let r := ring_of d (gem_view (nic_gem s)) in (i < r_all r)%nat →
  XEMACPS_BD_TO_INDEX d (bd_addr r i) s = Ok (i, s).
Proof.
  intros r Hi. unfold XEMACPS_BD_TO_INDEX. nic_run. do 2 f_equal.
  rewrite base_law, sep_law. fold r. unfold bd_addr.
  replace (r_base r + Z.of_nat i * r_sep r - r_base r) with (Z.of_nat i * r_sep r) by lia.
  destruct (rings_ok d (nic_gem s)) as [Hsep _]. fold r in Hsep.
  rewrite Z.div_mul by (specialize (Hsep ltac:(lia)); lia). lia.
Qed.

Lemma bd_index_run i s : (i < r_all (tx_ring s))%nat →
  XEMACPS_BD_TO_INDEX XEMACPS_SEND (bd_addr (tx_ring s) i) s = Ok (i, s).
Proof. apply (bd_index_dir XEMACPS_SEND). Qed.

(** The entries of a list of descriptors, and the array without them. *)
Definition entries (index : nat) (l : list nat) (st : list Z) : list Z :=
  (λ i, st !!! (index + i)%nat) <$> l.
Definition cleared (index : nat) (l : list nat) (st : list Z) : list Z :=
  foldl (λ st i, <[(index + i)%nat := NULL]> st) st l.

Lemma cleared_length index l st : length (cleared index l st) = length st.
Proof.
  revert st. induction l as [|i l IH]; intros st; [done|].
  change (cleared index (i :: l) st) with (cleared index l (<[(index + i)%nat := NULL]> st)).
  by rewrite IH, length_insert.
Qed.

Lemma entries_ne index i x l st : i ∉ l → entries index l (<[(index + i)%nat := x]> st) = entries index l st.
Proof.
  intros Hi. apply list_fmap_ext. intros k j Hj.
  rewrite list_lookup_total_insert_ne; [done|]. intros E. apply Hi.
  assert (i = j) as -> by lia. by eapply list_elem_of_lookup_2.
Qed.

Lemma cleared_lookup index l st i : (index + i < length st)%nat →
  cleared index l st !! (index + i)%nat = if bool_decide (i ∈ l) then Some NULL else st !! (index + i)%nat.
Proof.
  revert st. induction l as [|j l IH]; intros st Hlen; [done|].
  change (cleared index (j :: l) st) with (cleared index l (<[(index + j)%nat := NULL]> st)).
  rewrite IH by by rewrite length_insert.
  destruct (decide (i ∈ l)) as [Hi|Hi].
  - rewrite !bool_decide_true; [done|by right|done].
  - rewrite (bool_decide_false (i ∈ l)) by done. destruct (decide (i = j)) as [->|Hij].
    + rewrite list_lookup_insert_eq by done. by rewrite bool_decide_true by left.
    + rewrite list_lookup_insert_ne by lia. rewrite bool_decide_false; [done|].
      by intros [?|?]%elem_of_cons.
Qed.

Lemma entries_cleared index l il st : (∀ i, i ∈ l → i ∉ il) →
  entries index l (cleared index il st) = entries index l st.
Proof.
  revert st. induction il as [|j il IH]; intros st Hd; [done|].
  change (cleared index (j :: il) st) with (cleared index il (<[(index + j)%nat := NULL]> st)).
  rewrite IH by (intros i Hi ?; apply (Hd i Hi); by right).
  apply entries_ne. intros Hj. apply (Hd j Hj). by left.
Qed.

(** Each buffer loses one reference. *)
Definition dropped (l : list Z) (v : stack) : stack := foldl (λ v p, drop_ref p v) v l.

Lemma dropped_app l l' v : dropped (l ++ l') v = dropped l' (dropped l v).
Proof. apply foldl_app. Qed.

Lemma dropped_some l v q : is_Some (refs (dropped l v) !! q) → is_Some (refs v !! q).
Proof.
  revert v. induction l as [|p l IH]; intros v; [done|].
  change (dropped (p :: l) v) with (dropped l (drop_ref p v)). intros Hq%IH.
  rewrite drop_ref_refs in Hq. case_decide; [|done]. by destruct (refs v !! q).
Qed.

(** A buffer that stays when one reference to each of the list is given back: it
    is in no chain of theirs, or has a reference left. *)
Definition spared (l : list Z) (n : N) (q : Z) : Prop :=
  (∀ p, p ∈ l → ¬ in_chain n q p) ∨ is_Some (refs (dropped l (view_of_stack n)) !! q).

(** Buffers that are spared stay as they are, and none appear. *)
Record others_kept (l : list Z) (n n' : N) : Prop := {
  spared_kept q b : spared l n q → pbuf_get q n = Some b → pbuf_get q n' = Some b;
  kept_only q b : pbuf_get q n' = Some b → pbuf_get q n = Some b
}.

Lemma others_kept_refl l n : others_kept l n n.
Proof. done. Qed.

Lemma in_chain_kept n n' q p : (∀ q b, pbuf_get q n' = Some b → pbuf_get q n = Some b) →
  in_chain n' q p → in_chain n q p.
Proof. intros Hk. induction 1 as [|p b Hb _ IH]; [constructor|]. eapply in_chain_behind; [by apply Hk|done]. Qed.

Lemma spared_app l l' n n' q : view_of_stack n' = dropped l (view_of_stack n) →
  (∀ q b, pbuf_get q n' = Some b → pbuf_get q n = Some b) →
  spared (l ++ l') n q → spared l n q ∧ spared l' n' q.
Proof.
  intros Hv Hk [Hq|Hq].
  - split; left; intros p Hp; [|intros Hc%(in_chain_kept n); [|done]; revert Hc]; apply Hq, elem_of_app; tauto.
  - rewrite dropped_app in Hq. split; right; [by eapply dropped_some|by rewrite Hv].
Qed.

Lemma others_kept_app l l' n1 n2 n3 : view_of_stack n2 = dropped l (view_of_stack n1) →
  others_kept l n1 n2 → others_kept l' n2 n3 → others_kept (l ++ l') n1 n3.
Proof.
  intros Hv [H12 H21] [H23 H32]. split; [|auto].
  intros q b (Hs1 & Hs2)%(spared_app l l' n1 n2); auto.
Qed.

Lemma free_others_kept p n : others_kept [p] n (pbuf_free p n).
Proof.
  split; [|intros q b; apply free_inv]. intros q b [Hq|Hq] Hb; apply free_get; try done.
  - left. apply Hq. by left.
  - right. cbn in Hq. pose proof (dropped_some [p] (view_of_stack n) q Hq) as [r Hr]. exists r. split; [done|].
    intros -> ->. rewrite Hr in Hq. cbn in Hq. rewrite lookup_delete_eq in Hq. by destruct Hq.
Qed.

Lemma release_bd_run index i p s :
  (i < r_all (tx_ring s))%nat → v_txst (nic_vars s) !! (index + i)%nat = Some p → p ≠ NULL →
  ∃ g, release_bd index (bd_addr (tx_ring s) i) s =
    Ok (tt, Nic (pbuf_free p (nic_net s)) g
      (with_v_txst (<[(index + i)%nat := NULL]> (v_txst (nic_vars s))) (nic_vars s))) ∧
    no_bds (gem_view g) = gem_core s.
Proof.
  intros Hi Hp Hn. unfold release_bd. rewrite run_bind, bd_index_run, bind_Ok_l by done.
  nic_run. rewrite (tx_storage_run _ p) by done. nic_run.
  apply Z.eqb_neq in Hn as ->. cbn [negb when]. nic_run.
  eexists. split.
  - rewrite set_tx_storage_run by (cbn; by eapply lookup_lt_Some). reflexivity.
  - cbn [nic_gem]. by rewrite !bd_op_law.
Qed.

Lemma release_bds_run index l s bd :
  linked (r_all (tx_ring s)) l → NoDup l → group_at (tx_ring s) l bd →
  Forall (λ i, (i < r_all (tx_ring s))%nat ∧
    ∃ p, v_txst (nic_vars s) !! (index + i)%nat = Some p ∧ p ≠ NULL) l →
  ∃ n g, release_bds index (length l) bd s =
    Ok (tt, Nic n g (with_v_txst (cleared index l (v_txst (nic_vars s))) (nic_vars s))) ∧
    view_of_stack n = dropped (entries index l (v_txst (nic_vars s))) (net_view s) ∧
    no_bds (gem_view g) = gem_core s ∧
    others_kept (entries index l (v_txst (nic_vars s))) (nic_net s) n.
Proof.
  revert s bd. induction l as [|i l IH]; intros s bd Hlink Hnd Hbd Hall.
  { exists (nic_net s), (nic_gem s). split; [by destruct s as [? ? []]|split; [done|split; [done|apply others_kept_refl]]]. }
  cbn in Hbd. subst bd. apply Forall_cons_iff in Hall as [(Hi & p & Hp & Hn) Hall].
  apply list.NoDup_cons in Hnd as [Hil Hnd].
  destruct (release_bd_run index i p s) as (g & E & Hg); [done..|].
  cbn [release_bds length]. rewrite run_bind, E, bind_Ok_l. nic_run.
  set (s1 := Nic _ _ _).
  assert (tx_ring s1 = tx_ring s) as Hr1 by (change (g_tx (no_bds (gem_view g)) = tx_ring s); by rewrite Hg).
  pose proof (next_law XEMACPS_SEND i g) as Hnext. cbn zeta in Hnext.
  change (ring_of XEMACPS_SEND (gem_view g)) with (tx_ring s1) in Hnext. rewrite Hr1 in Hnext.
  rewrite Hnext by done.
  destruct (IH s1 (bd_addr (tx_ring s) (ring_next (r_all (tx_ring s)) i))) as (n' & g' & E' & Hv & Hg' & Hk).
  - rewrite Hr1. by destruct l; [|destruct Hlink].
  - done.
  - rewrite Hr1. destruct l; [done|]. destruct Hlink as [-> _]. done.
  - rewrite Hr1. apply list.Forall_forall. intros j Hjl.
    destruct (proj1 (list.Forall_forall _ _) Hall j Hjl) as [Hj (q & Hq & Hqn)].
    split; [done|]. exists q. split; [|done].
    cbn. rewrite list_lookup_insert_ne; [done|]. intros Ej. assert (i = j) as -> by lia. done.
  - cbn in Hv, Hk. rewrite entries_ne in Hv, Hk by done.
    assert (entries index (i :: l) (v_txst (nic_vars s)) =
      p :: entries index l (v_txst (nic_vars s))) as ->
      by (unfold entries; cbn; by erewrite list_lookup_total_correct by done).
    exists n', g'. rewrite E'. split; [done|]. split; [|split; [by rewrite Hg'|]].
    + rewrite Hv. unfold net_view. cbn. by rewrite free_view.
    + apply (others_kept_app [p] _ _ (pbuf_free p (nic_net s))); [by rewrite free_view|apply free_others_kept|done].
Qed.

(** ** Processing sent descriptors *)

(** The oldest [k] descriptors of the hardware become free. *)
Definition ring_sent (k : nat) (r : ring) : ring :=
  Ring (r_base r) (r_sep r) (r_all r) (r_free r ++ take k (r_hw r)) (r_pre r)
    (drop k (r_hw r)) (r_post r).

Record sent (index k : nat) s s' : Prop := {
  sent_gem : gem_core s' = set_ring XEMACPS_SEND (ring_sent k (tx_ring s)) (gem_core s);
  sent_vars : nic_vars s' =
    with_v_txst (cleared index (take k (r_hw (tx_ring s))) (v_txst (nic_vars s))) (nic_vars s);
  sent_net : net_view s' =
    dropped (entries index (take k (r_hw (tx_ring s))) (v_txst (nic_vars s))) (net_view s);
  sent_others : others_kept (entries index (take k (r_hw (tx_ring s))) (v_txst (nic_vars s)))
    (nic_net s) (nic_net s')
}.

Lemma sent_ring index k s s' : sent index k s s' → tx_ring s' = ring_sent k (tx_ring s).
Proof. intros [Hg _ _ _]. rewrite <-tx_core, Hg. done. Qed.

(** The hardware's descriptors are a part of the ring. *)
Lemma hw_part s : ring_order (tx_ring s) =
  r_post (tx_ring s) ++ r_hw (tx_ring s) ++ (r_pre (tx_ring s) ++ r_free (tx_ring s)).
Proof. done. Qed.

Lemma hw_take_part s k : ring_order (tx_ring s) =
  r_post (tx_ring s) ++ take k (r_hw (tx_ring s)) ++
    (drop k (r_hw (tx_ring s)) ++ r_pre (tx_ring s) ++ r_free (tx_ring s)).
Proof. rewrite hw_part. by rewrite (app_assoc (take _ _)), take_drop. Qed.

Lemma hw_nodup s : NoDup (r_hw (tx_ring s)).
Proof. eapply ring_part_nodup; [apply tx_ring_ok|apply hw_part]. Qed.

Lemma hw_take_drop s k i : i ∈ take k (r_hw (tx_ring s)) → i ∉ drop k (r_hw (tx_ring s)).
Proof.
  pose proof (hw_nodup s) as Hnd. rewrite <-(take_drop k (r_hw (tx_ring s))) in Hnd.
  apply list.NoDup_app in Hnd as (_ & Hd & _). apply Hd.
Qed.

Lemma tx_inv_sent index k s s' : tx_inv index s → sent index k s s' → tx_inv index s'.
Proof.
  intros [Hi Ha Hpre Hpost Hroom Hent Hmem] Hs. pose proof (sent_ring _ _ _ _ Hs) as Hr.
  destruct Hs as [_ Hv _ _]. split; rewrite ?Hr, ?Hv; try done.
  - cbn. by rewrite cleared_length.
  - intros i Hlt. cbn. destruct (Hent i Hlt) as (p & Hp & Hhw).
    rewrite cleared_lookup by lia. pose proof (hw_nodup s) as Hnd.
    rewrite <-(take_drop k (r_hw (tx_ring s))) in Hhw, Hnd.
    apply list.NoDup_app in Hnd as (_ & Hdisj & _). rewrite elem_of_app in Hhw.
    case_bool_decide as Hin.
    + exists NULL. split; [done|]. split; [done|]. intros Hd. by destruct (Hdisj i Hin).
    + exists p. split; [done|]. rewrite Hhw. tauto.
Qed.

Lemma sent_trans index k k' s1 s2 s3 :
  sent index k s1 s2 → sent index k' s2 s3 →
  sent index (k + k') s1 s3.
Proof.
  intros H12 [Hg Hv Hn Hk]. pose proof (sent_ring _ _ _ _ H12) as Hr.
  destruct H12 as [Hg1 Hv1 Hn1 Hk1]. rewrite Hr in *. cbn [r_hw ring_sent] in *.
  set (hw := r_hw (tx_ring s1)) in *.
  assert (take (k + k') hw = take k hw ++ take k' (drop k hw)) as Htake.
  { rewrite <-(take_drop k hw) at 1. destruct (decide (k ≤ length hw)%nat).
    - rewrite take_app_ge by (rewrite length_take; lia). rewrite length_take. f_equal. f_equal. lia.
    - rewrite !(drop_ge hw k), !app_nil_r, take_nil, app_nil_r by lia. rewrite take_take. f_equal. lia. }
  assert (∀ st, entries index (take k' (drop k hw)) (cleared index (take k hw) st) =
    entries index (take k' (drop k hw)) st) as Hent.
  { intros st. apply entries_cleared. intros i Hi Hi'. apply (hw_take_drop s1 k i Hi').
    apply elem_of_take in Hi as (? & Hi & _). by eapply list_elem_of_lookup_2. }
  split.
  - rewrite Hg, Hg1, set_ring_set. f_equal. unfold ring_sent. cbn. fold hw.
    rewrite Htake, drop_drop, app_assoc. done.
  - rewrite Hv, Hv1. fold hw. rewrite Htake. cbn. unfold cleared. by rewrite foldl_app.
  - rewrite Hn, Hn1, Hv1. fold hw. cbn. rewrite Hent, Htake. unfold entries.
    by rewrite fmap_app, dropped_app.
  - fold hw. rewrite Hv1 in Hk. cbn in Hk. fold hw in Hk. rewrite Hent in Hk.
    rewrite Htake. unfold entries in *. rewrite fmap_app. by eapply others_kept_app.
Qed.

Lemma sent_refl index s s' : tx_inv index s →
  gem_core s' = set_ring XEMACPS_SEND (ring_from_hw 0 (tx_ring s)) (gem_core s) →
  nic_net s' = nic_net s → nic_vars s' = nic_vars s → sent index 0 s s'.
Proof.
  intros Hinv Hg Hn Hv. split.
  - rewrite Hg. f_equal. unfold ring_from_hw, ring_sent. cbn. by rewrite !app_nil_r.
  - rewrite Hv. by destruct (nic_vars s).
  - unfold net_view. by rewrite Hn.
  - rewrite Hn. apply others_kept_refl.
Qed.

(** One round of the loop that took [n > 0] descriptors. *)
Lemma sent_round index n bd s g : tx_inv index s → (0 < n ≤ length (r_hw (tx_ring s)))%nat →
  group_at (tx_ring s) (r_hw (tx_ring s)) bd →
  gem_view g = set_ring XEMACPS_SEND (ring_from_hw n (tx_ring s)) (gem_view (nic_gem s)) →
  ∃ s', (release_bds index n bd ;; gem_call (BdRingFree XEMACPS_SEND (Z.of_nat n) bd))
      (Nic (nic_net s) g (nic_vars s)) = Ok (XST_SUCCESS, s') ∧ sent index n s s'.
Proof.
  intros Hinv Hn Hbd Hg. set (l := take n (r_hw (tx_ring s))). set (s1 := Nic _ _ _).
  assert (tx_ring s1 = ring_from_hw n (tx_ring s)) as Hr1 by (unfold tx_ring; cbn; by rewrite Hg).
  assert (length l = n) as Hlen by (unfold l; rewrite length_take; lia).
  pose proof (tx_ring_ok s) as Hok.
  assert (group_at (tx_ring s) l bd) as Hbl.
  { unfold l. destruct n; [lia|]. by destruct (r_hw (tx_ring s)). }
  destruct (release_bds_run index l s1 bd) as (n' & g' & E & Hv & Hg' & Hk).
  - rewrite Hr1. exact (ring_part_linked _ Hok _ _ _ (hw_take_part s n)).
  - exact (ring_part_nodup _ Hok _ _ _ (hw_take_part s n)).
  - rewrite Hr1. by destruct l.
  - rewrite Hr1. apply list.Forall_forall. intros i Hi.
    assert (i < r_all (tx_ring s))%nat as Hlt
      by exact (ring_part_lt _ Hok _ _ _ _ (hw_take_part s n) Hi).
    split; [done|]. rewrite (tx_all _ _ Hinv) in Hlt.
    destruct (tx_entries _ _ Hinv i Hlt) as (p & Hp & Hhw). exists p. split; [done|].
    apply Hhw. apply elem_of_take in Hi as (? & Hi & _). by eapply list_elem_of_lookup_2.
  - rewrite Hlen in E. rewrite run_bind, E, bind_Ok_l. nic_run.
    assert (g_tx (gem_view g') = ring_from_hw n (tx_ring s)) as Hr'.
    { change (g_tx (no_bds (gem_view g')) = ring_from_hw n (tx_ring s)). by rewrite Hg', tx_core. }
    destruct (free_law XEMACPS_SEND (Z.of_nat n) bd g') as [Ef Hf].
    { cbn [ring_of]. rewrite Hr'. cbn [r_post ring_from_hw]. rewrite (tx_post _ _ Hinv). cbn [app]. fold l.
      split; [lia|]. by destruct l. }
    rewrite Ef. cbn [fst snd]. eexists. split; [done|].
    cbn [ring_of] in Hf. rewrite Hr', Nat2Z.id in Hf. split; cbn [nic_net nic_gem nic_vars].
    + unfold gem_core at 1. cbn [nic_gem]. rewrite Hf.
      change (set_ring XEMACPS_SEND (ring_release n (ring_from_hw n (tx_ring s))) (no_bds (gem_view g')) =
        set_ring XEMACPS_SEND (ring_sent n (tx_ring s)) (gem_core s)).
      rewrite Hg'. unfold gem_core. cbn [nic_gem s1]. rewrite Hg.
      change (no_bds (set_ring XEMACPS_SEND ?r ?v)) with (set_ring XEMACPS_SEND r (no_bds v)).
      rewrite set_ring_set. f_equal. unfold ring_release, ring_from_hw, ring_sent. cbn.
      rewrite (tx_post _ _ Hinv). cbn. fold l. rewrite (take_ge l), (drop_ge l) by lia. done.
    + done.
    + exact Hv.
    + exact Hk.
Qed.

Lemma process_sent_loop_run index fuel s : tx_inv index s →
  (length (r_hw (tx_ring s)) < fuel)%nat →
  ∃ k s', process_sent_loop fuel index s = Ok (tt, s') ∧
    (k ≤ length (r_hw (tx_ring s)))%nat ∧ sent index k s s'.
Proof.
  revert s. induction fuel as [|fuel IH]; intros s Hinv Hf; [lia|].
  cbn [process_sent_loop]. nic_run.
  destruct (BdRingFromHw _ _ _) as [[n bd] g] eqn:E. cbn [fst snd].
  apply from_hw_law in E as (Hn & Hbd & Hg); [|lia]. cbn [ring_of] in *. fold (tx_ring s) in *.
  destruct (Z.eqb_spec n 0) as [->|Hn0].
  - eexists 0%nat, _. split; [done|]. split; [lia|]. apply sent_refl; [done| |done..].
    unfold gem_core. cbn [nic_gem]. rewrite Hg. done.
  - destruct (sent_round index (Z.to_nat n) bd s g) as (s1 & E1 & Hs1); [done|lia|apply Hbd; lia|done|].
    rewrite Z2Nat.id in E1 by lia.
    pose proof (tx_inv_sent _ _ _ _ Hinv Hs1) as Hinv1.
    pose proof (sent_ring _ _ _ _ Hs1) as Hr1.
    assert (length (r_hw (tx_ring s1)) = length (r_hw (tx_ring s)) - Z.to_nat n)%nat as Hl1
      by (rewrite Hr1; cbn; apply length_drop).
    destruct (IH s1) as (k & s' & E2 & Hk & Hs2); [done|lia|].
    exists (Z.to_nat n + k)%nat, s'. split; [|split; [lia|by eapply sent_trans]].
    rewrite run_bind in E1. rewrite run_bind.
    destruct (release_bds _ _ _ _) as [[u s0]|]; [|done].
    rewrite bind_Ok_l in E1. rewrite bind_Ok_l, run_bind, E1. exact E2.
Qed.

Lemma base_index_run n index s :
  base_index_from n 0 (take 4 XPAR_XEMACPS_BASEADDR) (v_base (nic_vars s)) None = Some index →
  get_base_index n s = Ok (index, s).
Proof. intros Hi. unfold get_base_index. nic_run. by rewrite Hi. Qed.

Lemma process_sent_bds_run index s : tx_inv index s →
  ∃ k s', process_sent_bds s = Ok (tt, s') ∧
    (k ≤ length (r_hw (tx_ring s)))%nat ∧ sent index k s s'.
Proof.
  intros Hinv. unfold process_sent_bds, get_base_index_txpbufsstorage.
  rewrite run_bind, (base_index_run _ index), bind_Ok_l by apply Hinv. nic_run.
  rewrite hw_cnt_law. cbn [ring_of]. fold (tx_ring s).
  apply process_sent_loop_run; [done|lia].
Qed.

(** ** Submitting a chain of buffers *)

(** The chain that starts at [p] consists of the buffers [l]. *)
Fixpoint chain (n : N) (p : Z) (l : list Z) : Prop :=
  match l with
  | [] => p = NULL
  | q :: l' => p = q ∧ q ≠ NULL ∧ ∃ b, pbuf_get q n = Some b ∧ chain n (p_next b) l'
  end.

Lemma pbuf_chain_run fuel p l s : chain (nic_net s) p l → (length l ≤ fuel)%nat →
  pbuf_chain fuel p s = Ok (l, s).
Proof.
  revert p fuel. induction l as [|q l IH]; intros p fuel Hc Hf.
  - cbn in Hc. subst p. by destruct fuel.
  - destruct Hc as (-> & Hq & b & Hb & Hc). destruct fuel as [|fuel]; cbn in Hf; [lia|].
    cbn [pbuf_chain]. apply Z.eqb_neq in Hq as ->.
    rewrite run_bind, (pbuf_at_run _ b), bind_Ok_l, run_bind by done.
    rewrite (IH _ fuel) by (done || lia). done.
Qed.

Lemma chain_bufs n p l : chain n p l → ∃ bufs, Forall2 (λ q b, pbuf_get q n = Some b) l bufs.
Proof.
  revert p. induction l as [|q l IH]; intros p Hc; [by exists []|].
  destruct Hc as (_&_&b&Hb&Hc). destruct (IH _ Hc) as [bs Hbs]. exists (b :: bs). by constructor.
Qed.

Lemma chain_nonnull n p l : chain n p l → Forall (λ q, q ≠ NULL) l.
Proof.
  revert p. induction l as [|q l IH]; intros p Hc; constructor.
  - by destruct Hc as (_&?&_).
  - destruct Hc as (_&_&b&_&Hc). eauto.
Qed.

(** What is written to the descriptor of a buffer, in order. *)
Definition tx_length (b : pbuf) : Z :=
  Z.land (if max_fr_size <? p_len b then max_fr_size else p_len b) 0x3FFF.
Definition fill_ops (r : ring) (i : nat) (b : pbuf) : list (Z * bd_operation) :=
  [(bd_addr r i, BdSetAddressTx (p_data b)); (bd_addr r i, BdSetLength (tx_length b));
   (bd_addr r i, BdClearLast)].

Definition written (ops : list (Z * bd_operation)) (v : gem) : gem :=
  foldl (λ v o, bd_written o.1 o.2 v) v ops.

Lemma written_app l l' v : written (l ++ l') v = written l' (written l v).
Proof. apply foldl_app. Qed.

Lemma written_ring d l v : ring_of d (written l v) = ring_of d v.
Proof. revert v. induction l as [|o l IH]; intros v; [done|]. cbn. unfold written in IH. rewrite IH. by destruct d. Qed.

Lemma written_queue l v : g_queue (written l v) = g_queue v.
Proof. revert v. induction l as [|o l IH]; intros v; [done|]. apply (IH (bd_written o.1 o.2 v)). Qed.

Lemma written_set_ring d r l v : written l (set_ring d r v) = set_ring d r (written l v).
Proof. revert v. induction l as [|o l IH]; intros v; [done|]. cbn. unfold written in IH. rewrite <-IH. by destruct d. Qed.

Definition filled (index : nat) (il : list nat) (l : list Z) (st : list Z) : list Z :=
  foldl (λ st x, <[(index + x.1)%nat := x.2]> st) st (zip il l).
Definition held (l : list Z) (v : stack) : stack := foldl (λ v p, add_ref p v) v l.

Lemma fill_txbd_run index i q b s :
  (i < r_all (tx_ring s))%nat → v_txst (nic_vars s) !! (index + i)%nat = Some NULL →
  pbuf_get q (nic_net s) = Some b →
  ∃ g, fill_txbd index q (bd_addr (tx_ring s) i) s = Ok (true, Nic (pbuf_ref q (nic_net s)) g
      (with_v_txst (<[(index + i)%nat := q]> (v_txst (nic_vars s))) (nic_vars s))) ∧
    gem_view g = written (fill_ops (tx_ring s) i b) (gem_view (nic_gem s)).
Proof.
  intros Hi Hp Hb. unfold fill_txbd. rewrite run_bind, bd_index_run, bind_Ok_l by done.
  rewrite run_bind, (tx_storage_run _ NULL) by done. nic_run.
  change (negb (NULL =? NULL)) with false. cbn [negb].
  rewrite run_bind, (pbuf_at_run _ b) by done. nic_run.
  rewrite set_tx_storage_run by (cbn; by eapply lookup_lt_Some). nic_run.
  eexists. split; [reflexivity|]. by rewrite !bd_op_law.
Qed.

Definition last_bd (r : ring) (il : list nat) (bd : Z) : Z :=
  match list.last il with Some i => bd_addr r i | None => bd end.

(** The ring of a state whose descriptors were written. *)
Lemma ring_of_written s s' ops : gem_view (nic_gem s') = written ops (gem_view (nic_gem s)) →
  tx_ring s' = tx_ring s.
Proof. intros Hg. unfold tx_ring. rewrite Hg. apply (written_ring XEMACPS_SEND). Qed.

Lemma next_tx i s : (i < r_all (tx_ring s))%nat →
  BdRingNext XEMACPS_SEND (bd_addr (tx_ring s) i) (nic_gem s) =
  bd_addr (tx_ring s) (ring_next (r_all (tx_ring s)) i).
Proof. apply (next_law XEMACPS_SEND). Qed.

Lemma fill_txbds_run index il l bufs s bd last :
  length il = length l → linked (r_all (tx_ring s)) il → NoDup il → group_at (tx_ring s) il bd →
  Forall2 (λ q b, pbuf_get q (nic_net s) = Some b) l bufs →
  Forall (λ i, (i < r_all (tx_ring s))%nat ∧ v_txst (nic_vars s) !! (index + i)%nat = Some NULL) il →
  ∃ n g, fill_txbds index l bd last s = Ok (Some (last_bd (tx_ring s) il last), Nic n g
      (with_v_txst (filled index il l (v_txst (nic_vars s))) (nic_vars s))) ∧
    gem_view g = written (concat (zip_with (fill_ops (tx_ring s)) il bufs)) (gem_view (nic_gem s)) ∧
    view_of_stack n = held l (net_view s) ∧ ∀ q, pbuf_get q n = pbuf_get q (nic_net s).
Proof.
  revert il bufs s bd last. induction l as [|q l IH]; intros il bufs s bd last Hlen Hlink Hnd Hbd Hbufs Hall.
  { destruct il; [|done]. exists (nic_net s), (nic_gem s).
    split; [by destruct s as [? ? []]|done]. }
  destruct il as [|i il]; [done|]. apply list.Forall2_cons_inv_l in Hbufs as (b & bs & Hb & Hbs & ->).
  cbn in Hbd. subst bd. apply Forall_cons_iff in Hall as [[Hi Hp] Hall].
  apply list.NoDup_cons in Hnd as [Hil Hnd].
  destruct (fill_txbd_run index i q b s) as (g & E & Hg); [done..|].
  cbn [fill_txbds]. rewrite run_bind, E, bind_Ok_l. set (s1 := Nic _ _ _). nic_run.
  assert (tx_ring s1 = tx_ring s) as Hr1 by by eapply ring_of_written.
  pose proof (next_tx i s1) as Hnext. rewrite Hr1 in Hnext.
  rewrite Hnext by done.
  destruct (IH il bs s1 (bd_addr (tx_ring s) (ring_next (r_all (tx_ring s)) i)) (bd_addr (tx_ring s) i))
    as (n' & g' & E' & Hg' & Hv' & Hget).
  - by injection Hlen.
  - rewrite Hr1. by destruct il; [|destruct Hlink].
  - done.
  - rewrite Hr1. destruct il; [done|]. by destruct Hlink as [-> _].
  - eapply Forall2_impl; [exact Hbs|]. cbn. intros q' b'. by rewrite ref_get.
  - rewrite Hr1. apply list.Forall_forall. intros j Hj.
    destruct (proj1 (list.Forall_forall _ _) Hall j Hj) as [Hlt Hnull]. split; [done|].
    cbn. rewrite list_lookup_insert_ne; [done|]. intros Ej. assert (i = j) as -> by lia. done.
  - exists n', g'. rewrite E', Hr1. split; [|split; [|split]].
    + do 3 f_equal. unfold last_bd. destruct il as [|j il']; [done|].
      change (list.last (i :: j :: il')) with (list.last (j :: il')).
      destruct (list.last (j :: il')) eqn:El; [done|]. by apply last_None in El.
    + rewrite Hg', Hr1. cbn [nic_gem s1]. rewrite Hg. cbn [zip_with concat].
      by rewrite written_app.
    + rewrite Hv'. unfold net_view. cbn [nic_net s1]. rewrite ref_view by by rewrite Hb. done.
    + intros q'. rewrite Hget. cbn. apply ref_get.
Qed.

Lemma clear_used_run il l s bd : length il = length l → linked (r_all (tx_ring s)) il →
  group_at (tx_ring s) il bd → Forall (λ i, (i < r_all (tx_ring s))%nat) il →
  ∃ g, clear_used l bd s = Ok (tt, Nic (nic_net s) g (nic_vars s)) ∧
    gem_view g = written ((λ i, (bd_addr (tx_ring s) i, BdClearTxUsed)) <$> il) (gem_view (nic_gem s)).
Proof.
  revert il s bd. induction l as [|q l IH]; intros il s bd Hlen Hlink Hbd Hall.
  { destruct il; [|done]. exists (nic_gem s). split; [by destruct s|done]. }
  destruct il as [|i il]; [done|]. cbn in Hbd. subst bd.
  apply Forall_cons_iff in Hall as [Hi Hall]. cbn [clear_used]. nic_run. set (s1 := Nic _ _ _).
  assert (gem_view (nic_gem s1) = written [(bd_addr (tx_ring s) i, BdClearTxUsed)] (gem_view (nic_gem s)))
    as Hg by (cbn; by rewrite bd_op_law).
  assert (tx_ring s1 = tx_ring s) as Hr1 by by eapply ring_of_written.
  pose proof (next_tx i s1) as Hnext. rewrite Hr1 in Hnext.
  change (nic_gem s1) with (bd_op (bd_addr (tx_ring s) i) BdClearTxUsed (nic_gem s)) in Hnext.
  rewrite Hnext by done.
  destruct (IH il s1 (bd_addr (tx_ring s) (ring_next (r_all (tx_ring s)) i))) as (g' & E' & Hg').
  - by injection Hlen.
  - rewrite Hr1. by destruct il; [|destruct Hlink].
  - rewrite Hr1. destruct il; [done|]. by destruct Hlink as [-> _].
  - by rewrite Hr1.
  - exists g'. rewrite E'. split; [done|]. rewrite Hg', Hg, Hr1. by rewrite <-written_app.
Qed.

(** The writes after the chain is filled in: the last descriptor is marked, and
    the used bits are cleared, of the first descriptor last. *)
Definition mark_ops (r : ring) (il : list nat) : list (Z * bd_operation) :=
  [(last_bd r il NULL, BdSetLast)] ++ ((λ i, (bd_addr r i, BdClearTxUsed)) <$> tail il) ++
  [(first_bd r il, BdClearTxUsed)].

(** What [emacps_sgsend] writes to the descriptors [il] for the buffers [bufs],
    in order: the used bit of the first one is cleared last. *)
Definition send_ops (r : ring) (il : list nat) (bufs : list pbuf) : list (Z * bd_operation) :=
  concat (zip_with (fill_ops r) il bufs) ++ mark_ops r il.

(** The first [k] free descriptors go to the hardware. *)
Definition ring_queued (k : nat) (r : ring) : ring :=
  Ring (r_base r) (r_sep r) (r_all r) (drop k (r_free r)) (r_pre r) (r_hw r ++ take k (r_free r))
    (r_post r).

Lemma free_take_part s k : r_post (tx_ring s) = [] → ring_order (tx_ring s) =
  (r_hw (tx_ring s) ++ r_pre (tx_ring s)) ++ take k (r_free (tx_ring s)) ++ drop k (r_free (tx_ring s)).
Proof. intros Hp. unfold ring_order. rewrite Hp, take_drop, <-app_assoc. done. Qed.

(** The entries of free descriptors are empty. *)
Lemma free_entries index s k : tx_inv index s →
  Forall (λ i, (i < r_all (tx_ring s))%nat ∧ v_txst (nic_vars s) !! (index + i)%nat = Some NULL)
    (take k (r_free (tx_ring s))).
Proof.
  intros Hinv. apply list.Forall_forall. intros i Hi.
  pose proof (free_take_part s k (tx_post _ _ Hinv)) as Hpart.
  pose proof (ring_part_lt _ (tx_ring_ok s) _ _ _ _ Hpart Hi) as Hlt. split; [done|].
  rewrite (tx_all _ _ Hinv) in Hlt. destruct (tx_entries _ _ Hinv i Hlt) as (p & Hp & Hhw).
  rewrite Hp. f_equal. destruct (decide (p = NULL)) as [|Hn]; [done|]. apply Hhw in Hn.
  pose proof (ring_order_nodup _ (tx_ring_ok s)) as Hnd. rewrite Hpart in Hnd.
  apply list.NoDup_app in Hnd as (_ & Hd & _). destruct (Hd i); [apply elem_of_app; by left|].
  apply elem_of_app. by left.
Qed.

(** Not enough descriptors: nothing happens. *)
Lemma sgsend_full index p l s : tx_inv index s → chain (nic_net s) p l → (length l ≤ max_chain)%nat →
  (length (r_free (tx_ring s)) < length l)%nat →
  ∃ g, emacps_sgsend p s = Ok (XST_FAILURE, Nic (nic_net s) g (nic_vars s)) ∧
    gem_view g = gem_view (nic_gem s).
Proof.
  intros Hinv Hc Hm Hl. unfold emacps_sgsend, get_base_index_txpbufsstorage.
  rewrite run_bind, (base_index_run _ index), bind_Ok_l by apply Hinv.
  rewrite run_bind, (pbuf_chain_run _ _ l), bind_Ok_l by done. nic_run.
  destruct (BdRingAlloc _ _ _) as [[st bd] g] eqn:E. cbn [fst snd].
  apply alloc_law in E; [|lia]. cbn [ring_of] in E. fold (tx_ring s) in E.
  rewrite decide_False in E by lia. destruct E as [Hst Hg].
  apply Z.eqb_neq in Hst as ->. cbn [negb]. exists g. done.
Qed.

(** Enough descriptors: the chain is queued. *)
Record queued (index : nat) (l : list Z) (bufs : list pbuf) s s' : Prop := {
  queued_gem : ∃ w, gem_view (nic_gem s') = mac_done (WriteReg (v_base (nic_vars s) + XEMACPS_NWCTRL_OFFSET) w)
    (written (send_ops (tx_ring s) (take (length l) (r_free (tx_ring s))) bufs)
      (set_ring XEMACPS_SEND (ring_queued (length l) (tx_ring s)) (gem_view (nic_gem s))));
  queued_vars : nic_vars s' = with_v_txst
    (filled index (take (length l) (r_free (tx_ring s))) l (v_txst (nic_vars s))) (nic_vars s);
  queued_net : net_view s' = held l (net_view s);
  queued_get : ∀ q, pbuf_get q (nic_net s') = pbuf_get q (nic_net s)
}.

Lemma mark_run {A} (k : M (nic N G) A) i il l s : length (i :: il) = length l →
  linked (r_all (tx_ring s)) (i :: il) → Forall (λ i, (i < r_all (tx_ring s))%nat) (i :: il) →
  ∃ g, (gem_do (bd_op (last_bd (tx_ring s) (i :: il) NULL) BdSetLast) ;;
      second ← gem_get (BdRingNext XEMACPS_SEND (bd_addr (tx_ring s) i));
      clear_used (tail l) second ;;
      gem_do (bd_op (bd_addr (tx_ring s) i) BdClearTxUsed) ;; k) s = k (Nic (nic_net s) g (nic_vars s)) ∧
    gem_view g = written (mark_ops (tx_ring s) (i :: il)) (gem_view (nic_gem s)).
Proof.
  intros Hlen Hlink Hall. apply Forall_cons_iff in Hall as [Hi Hall].
  rewrite run_bind, gem_do_run, bind_Ok_l. set (s1 := Nic _ _ _). rewrite run_bind, gem_get_run, bind_Ok_l.
  assert (gem_view (nic_gem s1) = written [(last_bd (tx_ring s) (i :: il) NULL, BdSetLast)] (gem_view (nic_gem s)))
    as Hg1 by (cbn; by rewrite bd_op_law).
  assert (tx_ring s1 = tx_ring s) as Hr1 by by eapply ring_of_written.
  rewrite <-Hr1, next_tx by by rewrite Hr1.
  destruct (clear_used_run il (tail l) s1 (bd_addr (tx_ring s1) (ring_next (r_all (tx_ring s1)) i)))
    as (g & E & Hg); [|rewrite ?Hr1..|].
  - destruct l; [done|]. by injection Hlen.
  - by destruct il; [|destruct Hlink].
  - destruct il; [done|]. by destruct Hlink as [-> _].
  - done.
  - rewrite run_bind, E, bind_Ok_l. eexists. split; [reflexivity|].
    rewrite bd_op_law. cbn [lget gem_l nic_gem]. rewrite Hg, Hg1, Hr1. unfold mark_ops. by rewrite !written_app.
Qed.

(** The descriptors before the hardware, all of them, are handed over. *)
Lemma commit_run n bd s : is_front (tx_ring s) (r_pre (tx_ring s)) n bd →
  ∃ g w, (status ← gem_call (BdRingToHw XEMACPS_SEND n bd);
      if negb (status =? XST_SUCCESS) then mret XST_FAILURE
      else
        w ← ReadReg XEMACPS_NWCTRL_OFFSET;
        WriteReg_ XEMACPS_NWCTRL_OFFSET (Z.lor w XEMACPS_NWCTRL_STARTTX_MASK) ;;
        mret status) s = Ok (XST_SUCCESS, Nic (nic_net s) g (nic_vars s)) ∧
    gem_view g = mac_done (WriteReg (v_base (nic_vars s) + XEMACPS_NWCTRL_OFFSET) w)
      (set_ring XEMACPS_SEND (ring_to_hw (Z.to_nat n) (tx_ring s)) (gem_view (nic_gem s))).
Proof.
  intros Hf. destruct (to_hw_law XEMACPS_SEND n bd (nic_gem s) Hf) as [E Hg].
  rewrite run_bind, gem_call_run, bind_Ok_l, E. change (XST_SUCCESS =? XST_SUCCESS) with true. cbn [negb].
  unfold ReadReg, WriteReg_. nic_run. do 2 eexists. split; [reflexivity|].
  rewrite gem_out32_law. cbn [lget lput gem_l nic_gem nic_vars fst snd]. by rewrite gem_in32_law, Hg.
Qed.

(** A ring whose free descriptors were allocated and handed over. *)
Lemma ring_queued_law k r : r_pre r = [] → ring_to_hw k (ring_alloc k r) = ring_queued k r.
Proof.
  intros Hp. unfold ring_to_hw, ring_alloc, ring_queued. cbn. rewrite Hp. cbn.
  by rewrite (drop_ge (take k _)), (take_ge (take k _)) by (rewrite length_take; lia).
Qed.

Lemma sgsend_queues index p l bufs s : tx_inv index s → chain (nic_net s) p l → l ≠ [] →
  Forall2 (λ q b, pbuf_get q (nic_net s) = Some b) l bufs →
  (length l ≤ max_chain)%nat → (length l ≤ length (r_free (tx_ring s)))%nat →
  ∃ s', emacps_sgsend p s = Ok (XST_SUCCESS, s') ∧ queued index l bufs s s'.
Proof.
  intros Hinv Hc Hne Hbufs Hm Hl.
  pose proof (tx_ring_ok s) as Hok. pose proof (free_take_part s (length l) (tx_post _ _ Hinv)) as Hpart.
  pose proof (ring_part_linked _ Hok _ _ _ Hpart) as Hlink. pose proof (ring_part_nodup _ Hok _ _ _ Hpart) as Hnd.
  pose proof (free_entries index s (length l) Hinv) as Hent. pose proof (tx_pre _ _ Hinv) as Hpre.
  assert (p ≠ NULL) as Hpn by (destruct l as [|q l']; [done|by destruct Hc as (->&?&_)]).
  unfold emacps_sgsend, get_base_index_txpbufsstorage.
  rewrite run_bind, (base_index_run _ index), bind_Ok_l by apply Hinv.
  rewrite run_bind, (pbuf_chain_run _ _ l), bind_Ok_l by done. nic_run.
  destruct (BdRingAlloc _ _ _) as [[st bd] g1] eqn:E. cbn [fst snd].
  apply alloc_law in E; [|lia]. cbn [ring_of] in E. fold (tx_ring s) in E.
  rewrite decide_True, Nat2Z.id in E by lia. destruct E as (-> & Hbd & Hg1).
  change (XST_SUCCESS =? XST_SUCCESS) with true. cbn [negb]. set (s1 := Nic _ g1 _).
  assert (tx_ring s1 = ring_alloc (length l) (tx_ring s)) as Hr1 by (unfold tx_ring; cbn; by rewrite Hg1).
  remember (take (length l) (r_free (tx_ring s))) as il eqn:Hil.
  assert (length il = length l) as Hlen by (rewrite Hil; apply length_take_le; exact Hl).
  destruct il as [|i il]; [by destruct l|].
  assert (bd = bd_addr (tx_ring s) i) as -> by (destruct l, (r_free (tx_ring s)); simplify_eq/=; done).
  destruct (fill_txbds_run index (i :: il) l bufs s1 (bd_addr (tx_ring s) i) NULL)
    as (n2 & g2 & E2 & Hg2 & Hv2 & Hget2); [done|by rewrite Hr1|done|by rewrite Hr1|done|by rewrite Hr1|].
  rewrite run_bind, E2, bind_Ok_l. clear E2. apply Z.eqb_neq in Hpn as ->. set (s2 := Nic n2 g2 _).
  assert (tx_ring s2 = tx_ring s1) as Hr2 by by eapply ring_of_written.
  rewrite <-Hr2. change (bd_addr (tx_ring s)) with (bd_addr (ring_alloc (length l) (tx_ring s))).
  rewrite <-Hr1, <-Hr2.
  edestruct (mark_run (A := Z)) as (g3 & -> & Hg3); [exact Hlen|by rewrite Hr2, Hr1|
    rewrite Hr2, Hr1; eapply list.Forall_impl; [exact Hent|]; by intros ? []|].
  cbn [nic_net nic_vars]. set (s3 := Nic _ g3 _).
  assert (tx_ring s3 = ring_alloc (length l) (tx_ring s)) as Hr3 by (rewrite <-Hr1, <-Hr2; by eapply ring_of_written).
  destruct (commit_run (Z.of_nat (length l)) (bd_addr (tx_ring s2) i) s3) as (g4 & w & -> & Hg4).
  { rewrite Hr3, Hr2, Hr1. cbn [r_pre ring_alloc]. rewrite Hpre, <-Hil. cbn [app]. split; [rewrite Hlen|done].
    destruct l; cbn; [done|lia]. }
  eexists. split; [reflexivity|]. split; cbn [nic_net nic_gem nic_vars]; rewrite <-?Hil; [|done..].
  exists w. rewrite Hg4, Nat2Z.id, Hr3, ring_queued_law by done. f_equal.
  cbn [nic_gem s3] in Hg3 |- *. rewrite Hg3, Hr2, Hr1. cbn [nic_gem s2]. rewrite Hg2, Hr1. cbn [nic_gem s1]. rewrite Hg1.
  rewrite <-written_app, <-!written_set_ring, set_ring_set. done.
Qed.

Lemma filled_length index il l st : length (filled index il l st) = length st.
Proof.
  revert l st. induction il as [|i il IH]; intros [|q l] st; [done..|].
  change (filled index (i :: il) (q :: l) st) with (filled index il l (<[(index + i)%nat := q]> st)).
  by rewrite IH, length_insert.
Qed.

Lemma filled_other index il l st i : i ∉ il → filled index il l st !! (index + i)%nat = st !! (index + i)%nat.
Proof.
  revert l st. induction il as [|j il IH]; intros [|q l] st Hi; [done..|].
  change (filled index (j :: il) (q :: l) st) with (filled index il l (<[(index + j)%nat := q]> st)).
  apply list.not_elem_of_cons in Hi as [Hij Hi]. rewrite IH by done.
  apply list_lookup_insert_ne. lia.
Qed.

Lemma filled_at index il l st k i q : NoDup il → il !! k = Some i → l !! k = Some q →
  (index + i < length st)%nat → filled index il l st !! (index + i)%nat = Some q.
Proof.
  revert l st k. induction il as [|j il IH]; intros [|q' l] st k Hnd Hi Hq Hlen; [done..|].
  change (filled index (j :: il) (q' :: l) st) with (filled index il l (<[(index + j)%nat := q']> st)).
  apply list.NoDup_cons in Hnd as [Hj Hnd]. destruct k as [|k]; cbn in Hi, Hq.
  - injection Hi as ->. injection Hq as ->. rewrite filled_other by done.
    by apply list_lookup_insert_eq.
  - apply (IH _ _ k); try done. by rewrite length_insert.
Qed.

Lemma queued_ring index l bufs s s' : queued index l bufs s s' →
  tx_ring s' = ring_queued (length l) (tx_ring s).
Proof.
  intros [[w Hg] _ _ _]. unfold tx_ring at 1. rewrite Hg.
  change (ring_of XEMACPS_SEND (written (send_ops (tx_ring s) (take (length l) (r_free (tx_ring s))) bufs)
    (set_ring XEMACPS_SEND (ring_queued (length l) (tx_ring s)) (gem_view (nic_gem s)))) =
    ring_queued (length l) (tx_ring s)).
  by rewrite written_ring.
Qed.

Lemma tx_inv_queued index l bufs s s' : tx_inv index s → Forall (λ q, q ≠ NULL) l →
  (length l ≤ length (r_free (tx_ring s)))%nat → queued index l bufs s s' → tx_inv index s'.
Proof.
  intros Hinv Hnn Hl Hq. pose proof (queued_ring _ _ _ _ _ Hq) as Hr. destruct Hq as [_ Hv _ _].
  pose proof (free_take_part s (length l) (tx_post _ _ Hinv)) as Hpart.
  pose proof (ring_part_nodup _ (tx_ring_ok s) _ _ _ Hpart) as Hnd.
  pose proof (free_entries index s (length l) Hinv) as Hfree. rewrite list.Forall_forall in Hfree.
  set (il := take (length l) (r_free (tx_ring s))) in *.
  assert (length il = length l) as Hlen by (apply length_take_le; exact Hl).
  destruct Hinv as [Hi Ha Hpre Hpost Hroom Hent Hmem].
  split; rewrite ?Hr, ?Hv; try done.
  - cbn. by rewrite filled_length.
  - intros i Hlt. destruct (Hent i Hlt) as (p & Hp & Hhw). cbn. 
    fold il.
    destruct (decide (i ∈ il)) as [Hin|Hin].
    + apply list_elem_of_lookup in Hin as [k Hk].
      destruct (lookup_lt_is_Some_2 l k) as [q Hq]; [rewrite <-Hlen; by eapply lookup_lt_Some|].
      exists q. rewrite (filled_at _ _ _ _ k i q) by (done || lia). split; [done|].
      split; [intros _; apply elem_of_app; right; by eapply list_elem_of_lookup_2|intros _].
      rewrite list.Forall_forall in Hnn. apply Hnn. by eapply list_elem_of_lookup_2.
    + exists p. rewrite filled_other by done. split; [done|]. rewrite Hhw, elem_of_app. tauto.
Qed.
End Invariant.

(** ** Theorems *)

Section Theorems.
Context {N G : Type} `{Board} `{LwipLaws N} `{EmacPsLaws G}.
Implicit Types s : nic N G.

(** C19. Submission.  A chain for which there are enough descriptors goes to the
    hardware as a whole: one descriptor per buffer with its address and its
    length, the mark of the last one, the used bit of the first descriptor
    cleared after all others; every buffer gains a reference and is entered in
    the array, and the invariant holds again.  A longer chain is refused with
    no change at all.  In no reachable state is an entry found occupied. *)
Theorem sgsend_hands_over index p l s :
  tx_inv index s → chain (nic_net s) p l → l ≠ [] → (length l ≤ max_chain)%nat →
  if decide (length l ≤ length (r_free (tx_ring s)))%nat
  then ∃ bufs s', Forall2 (λ q b, pbuf_get q (nic_net s) = Some b) l bufs ∧
    emacps_sgsend p s = Ok (XST_SUCCESS, s') ∧ queued index l bufs s s' ∧ tx_inv index s'
  else ∃ g, emacps_sgsend p s = Ok (XST_FAILURE, Nic (nic_net s) g (nic_vars s)) ∧
    gem_view g = gem_view (nic_gem s).
Proof.
  intros Hinv Hc Hne Hm. case_decide as Hl.
  - destruct (chain_bufs _ _ _ Hc) as [bufs Hbufs].
    destruct (sgsend_queues index p l bufs s) as (s' & E & Hq); [done..|].
    exists bufs, s'. split_and!; [done..|].
    eapply tx_inv_queued; [done|by eapply chain_nonnull|done|done].
  - eapply sgsend_full; [done..|lia].
Qed.

(** C20. Completion.  Processing the sent descriptors ends: it picks up the
    oldest [k] descriptors of the hardware, for some [k], gives each of their
    buffers exactly one reference back, empties exactly their entries, makes
    the descriptors free, and keeps the invariant. *)
Theorem sent_descriptors_released index s : tx_inv index s →
  ∃ k s', process_sent_bds s = Ok (tt, s') ∧ (k ≤ length (r_hw (tx_ring s)))%nat ∧
    sent index k s s' ∧ tx_inv index s'.
Proof.
  intros Hinv. destruct (process_sent_bds_run index s Hinv) as (k & s' & E & Hk & Hs).
  exists k, s'. split_and!; [done..|]. by eapply tx_inv_sent.
Qed.
End Theorems.

(** ** An interface for concrete runs: four descriptors each way *)

#[global] Instance board : Board := {
  XPAR_XEMACPS_BASEADDR := [Some 0xff0b0000];
  XLWIP_CONFIG_N_TX_DESC := 4;
  XLWIP_CONFIG_N_RX_DESC := 4;
  XEMACPS_MAX_FRAME_SIZE := 1518;
  BD_ALIGNMENT := 128;
  bd_space := 0x200000;
  scugic_emac_intr := 89;
  XEMACPS_MAX_MAC_ADDR := 4;
  ip6_multicast_scopes := [λ a, match a with 0xff :: 0x02 :: _ => true | _ => false end];
  XEMACPS_NWCTRL_OFFSET := 0x0;
  XEMACPS_TXSR_OFFSET := 0x14;
  XEMACPS_RXSR_OFFSET := 0x20;
  XEMACPS_RXCNT_OFFSET := 0x158;
  XEMACPS_DMACR_OFFSET := 0x10;
  XEMACPS_RXQ1BASE_OFFSET := 0x480;
  XEMACPS_TXQBASE_OFFSET := 0x1c;
  XEMACPS_NWCTRL_STARTTX_MASK := 0x200;
  XEMACPS_NWCTRL_RXEN_MASK := 0x4;
  XEMACPS_NWCTRL_TXEN_MASK := 0x8;
  XEMACPS_RXBUF_WRAP_MASK := 0x2;
  XEMACPS_RXBUF_NEW_MASK := 0x1;
  XEMACPS_TXBUF_USED_MASK := 0x80000000;
  XEMACPS_TXBUF_WRAP_MASK := 0x40000000;
  max_chain := 8
}.

(** A chain of two buffers at 1 and 2. *)
Definition two_bufs : net :=
  Net {[1%positive := (1, Pbuf 2 65536 (replicate 14 0) 60 0 0);
        2%positive := (1, Pbuf NULL 131072 (replicate 46 0) 46 0 0)]} ∅ [] 8 2.

Definition vars_boot : emac :=
  Emac 0xff0b0000 0x200000 0x210000 0 (replicate 16 NULL) (replicate 16 NULL) 0 0 0 0 0.

(** Descriptors 2 and 3 of the transmit ring are with the hardware, which has
    completed the first of them. *)
Definition gem_example (tx : ring) : gemsim :=
  GemSim (ok_set tx okring_none) (ok_set (ring_create 0x200000 64 4) okring_none)
    [] [] [] ∅ 1 0 60 8.

Definition nic_idle : nic net gemsim :=
  Nic two_bufs (gem_example (ring_create 0x210000 64 4)) vars_boot.
Definition nic_busy : nic net gemsim :=
  Nic two_bufs (gem_example (Ring 0x210000 64 4 [0; 1]%nat [] [2; 3]%nat []))
    (with_v_txst (<[2%nat := 1]> (<[3%nat := 2]> (replicate 16 NULL))) vars_boot).

Lemma nic_idle_inv : tx_inv 0 nic_idle.
Proof.
  split; try reflexivity; [cbn; lia| |by split].
  intros i Hi. exists NULL. change (v_txst (nic_vars nic_idle)) with (replicate 16 NULL).
  split; [apply lookup_replicate_2; cbn in Hi; lia|]. split; [done|].
  intros Hx. change (r_hw (tx_ring nic_idle)) with (@nil nat) in Hx. by apply elem_of_nil in Hx.
Qed.

Lemma nic_busy_inv : tx_inv 0 nic_busy.
Proof.
  split; try reflexivity; [cbn; lia| |by split].
  change (r_hw (tx_ring nic_busy)) with [2; 3]%nat. intros i Hi. cbn in Hi.
  destruct i as [|[|[|[|i]]]]; [..|lia]; eexists; (split; [reflexivity|]);
    rewrite !elem_of_cons, elem_of_nil; unfold NULL; lia.
Qed.

Lemma sgsend_hands_over_witness :
  ∃ bufs s', Forall2 (λ q b, pbuf_get q (nic_net nic_idle) = Some b) [1; 2] bufs ∧
    emacps_sgsend 1 nic_idle = Ok (XST_SUCCESS, s') ∧ queued 0 [1; 2] bufs nic_idle s' ∧ tx_inv 0 s'.
Proof.
  refine (sgsend_hands_over 0 1 [1; 2] nic_idle nic_idle_inv _ _ _).
  - split; [done|]. split; [done|]. eexists. split; [reflexivity|].
    split; [done|]. split; [done|]. eexists. split; reflexivity.
  - done.
  - by_computation.
Defined.

Lemma sent_descriptors_released_witness :
  ∃ k s', process_sent_bds nic_busy = Ok (tt, s') ∧ (k ≤ length (r_hw (tx_ring nic_busy)))%nat ∧
    sent 0 k nic_busy s' ∧ tx_inv 0 s'.
Proof. apply (sent_descriptors_released 0 nic_busy nic_busy_inv). Defined.
