(* ===== verification/Xemacpsif.v ===== *)
(** * The network interface driver ([src/IEEE1588/netif/xemacpsif.c])

    Output, input, the multicast filters, and the recovery from errors of the
    controller, for a standalone platform ([NO_SYS], no padding word). *)

From S2P Require Export DmaTx.
From stdpp Require Import list gmap.

#[local] Open Scope Z_scope.

Definition ETHTYPE_IP : Z := 0x0800.
Definition ETHTYPE_ARP : Z := 0x0806.
Definition ETHTYPE_PTP : Z := 0x88F7.
Definition ETHTYPE_IPV6 : Z := 0x86DD.

Definition NETIF_DEL_MAC_FILTER : Z := 0.
Definition NETIF_ADD_MAC_FILTER : Z := 1.
Definition IGMP_DEL_MAC_FILTER : Z := NETIF_DEL_MAC_FILTER.
Definition IGMP_ADD_MAC_FILTER : Z := NETIF_ADD_MAC_FILTER.

(** ** Output *)

Section Output.
Context {N G : Type} `{Board} `{Lwip N} `{EmacPs G}.

Definition _unbuffered_low_level_output (p : Z) : M (nic N G) Z :=
  status ← emacps_sgsend p;
  err ← (if negb (status =? XST_SUCCESS) then link_stat "link.drop" ;; mret ERR_MEM
         else mret ERR_OK);
  link_stat "link.xmit" ;;
  mret err.

Definition low_level_output (p : Z) : M (nic N G) Z :=
  freecnt ← is_tx_space_available;
  when (freecnt <=? 5) process_sent_bds ;;
  space ← is_tx_space_available;
  if negb (space =? 0) then _unbuffered_low_level_output p
  else
    link_stat "link.drop" ;;
    nic_print "pack dropped, no space\r\n" [] ;;
    mret ERR_MEM.

(** Resolution of the address is the stack's; it calls [low_level_output]. *)
Definition xemacpsif_output (p ipaddr : Z) : M (nic N G) Z :=
  on_stack (call (etharp_output p ipaddr)).
End Output.

(** ** Input *)

Section Input.
Context {N G : Type} `{Board} `{Lwip N} `{EmacPs G}.

Definition low_level_input : M (nic N G) Z :=
  len ← gem_get pq_qlength;
  if len =? 0 then mret NULL else gem_call pq_dequeue.

(** [htons(ethhdr->type)] of the frame in a buffer. *)
Definition frame_type (payload : list Z) : outcome Z :=
  hi ← rd8 payload 12;
  lo ← rd8 payload 13;
  Ok (hi * 256 + lo).

(** The types that [xemacpsif_input] hands to the stack; [lwip_ipv6] is
    [LWIP_IPV6], and PPPoE is off. *)
Definition passed_up (lwip_ipv6 : bool) (ty : Z) : bool :=
  (ty =? ETHTYPE_PTP) || (ty =? ETHTYPE_IP) || (ty =? ETHTYPE_ARP) ||
  (lwip_ipv6 && (ty =? ETHTYPE_IPV6)).

(** [input] is [netif->input].  It acts on the state of the whole program, of
    which the interface, at [l], is a part. *)
Definition xemacpsif_input {S} (l : lens S (nic N G)) (lwip_ipv6 : bool) (input : Z → M S Z) : M S Z :=
  p ← zoom l low_level_input;
  if p =? NULL then mret 0
  else
    b ← zoom l (on_stack (pbuf_at p));
    ty ← lift (frame_type (p_payload b));
    zoom l (link_stat "link.recv") ;;
    (if passed_up lwip_ipv6 ty then
      e ← input p;
      when (negb (e =? ERR_OK)) (zoom l (on_stack (modify (pbuf_free p))))
    else zoom l (on_stack (modify (pbuf_free p)))) ;;
    mret 1.
End Input.

(** ** The multicast filters *)

Section Filter.
Context {N G : Type} `{Board} `{Lwip N} `{EmacPs G}.

(** [while(txring->HwCnt);].  The loop ends only if the interrupt handlers that
    run meanwhile, [isr], bring the count to zero. *)
Definition wait_tx (isr : M (nic N G) unit) : M (nic N G) unit :=
  hw ← gem_get (HwCnt XEMACPS_SEND);
  when (negb (hw =? 0)) (
    isr ;;
    hw ← gem_get (HwCnt XEMACPS_SEND);
    if hw =? 0 then mret tt else fail (Hang "while(txring->HwCnt)")).

(** What both hash updates do with the address they have built. *)
Definition hash_update (isr : M (nic N G) unit) (multicast_mac_addr : list Z) (action : Z) :
    M (nic N G) unit :=
  wait_tx isr ;;
  mac MacStop ;;
  (if action =? NETIF_ADD_MAC_FILTER then mac (MacSetHash multicast_mac_addr)
   else when (action =? NETIF_DEL_MAC_FILTER) (mac (MacDeleteHash multicast_mac_addr))) ;;
  reset_dma ;;
  mac MacStart.

(** An element of the address. *)
Definition byte_of (ip_addr : list Z) (i : nat) : outcome Z := rd8 ip_addr i.

Definition xemacpsif_mac_hash_update (isr : M (nic N G) unit) (ip_addr : list Z) (action : Z) :
    M (nic N G) unit :=
  b1 ← lift (byte_of ip_addr 1);
  b2 ← lift (byte_of ip_addr 2);
  b3 ← lift (byte_of ip_addr 3);
  hash_update isr [0x01; 0x00; 0x5E; Z.land b1 0x7F; b2; b3] action.

Definition xemacpsif_mld6_mac_hash_update (isr : M (nic N G) unit) (ip_addr : list Z) (action : Z) :
    M (nic N G) unit :=
  b12 ← lift (byte_of ip_addr 12);
  b13 ← lift (byte_of ip_addr 13);
  b14 ← lift (byte_of ip_addr 14);
  b15 ← lift (byte_of ip_addr 15);
  hash_update isr [0x33; 0x33; b12; b13; b14; b15] action.

(** The loops over the entries: [get] and [set] access the mask, [update] is
    the hash update. *)
Section Loops.
Context (get : emac → Z) (set : Z → emac → emac) (update : Z → M (nic N G) unit).

Fixpoint add_loop (n i : nat) : M (nic N G) Z :=
  match n with
  | O => mret ERR_MEM
  | Datatypes.S n' =>
      let temp_mask := to_u8 (Z.shiftl 1 (Z.of_nat i)) in
      mask ← vars_get get;
      if Z.land mask temp_mask =? temp_mask then add_loop n' (Datatypes.S i)
      else
        vars_do (set (to_u8 (Z.lor mask temp_mask))) ;;
        update NETIF_ADD_MAC_FILTER ;;
        mret ERR_OK
  end.

Fixpoint del_loop (n i : nat) : M (nic N G) Z :=
  match n with
  | O => mret ERR_MEM
  | Datatypes.S n' =>
      let temp_mask := to_u8 (Z.shiftl 1 (Z.of_nat i)) in
      mask ← vars_get get;
      if negb (Z.land mask temp_mask =? temp_mask) then del_loop n' (Datatypes.S i)
      else
        vars_do (set (to_u8 (Z.ldiff mask temp_mask))) ;;
        update NETIF_DEL_MAC_FILTER ;;
        mret ERR_OK
  end.
End Loops.

(** [(ip_addr[0] < 224) && (ip_addr[0] > 239)] *)
Definition xemacpsif_mac_filter_update (isr : M (nic N G) unit) (ip_addr : list Z) (action : Z) :
    M (nic N G) Z :=
  b0 ← lift (byte_of ip_addr 0);
  if (b0 <? 224) && (239 <? b0) then mret ERR_ARG
  else if action =? IGMP_ADD_MAC_FILTER then
    add_loop v_mask with_v_mask (xemacpsif_mac_hash_update isr ip_addr) XEMACPS_MAX_MAC_ADDR 0
  else if action =? IGMP_DEL_MAC_FILTER then
    del_loop v_mask with_v_mask (xemacpsif_mac_hash_update isr ip_addr) XEMACPS_MAX_MAC_ADDR 0
  else mret ERR_OK.

Definition xemacpsif_ip6_addr_ismulticast (ip_addr : list Z) : bool :=
  existsb (λ scope, scope ip_addr) ip6_multicast_scopes.

Definition xemacpsif_mld6_mac_filter_update (isr : M (nic N G) unit) (ip_addr : list Z) (action : Z) :
    M (nic N G) Z :=
  if negb (xemacpsif_ip6_addr_ismulticast ip_addr) then mret ERR_ARG
  else if action =? NETIF_ADD_MAC_FILTER then
    add_loop v_mask6 with_v_mask6 (xemacpsif_mld6_mac_hash_update isr ip_addr) XEMACPS_MAX_MAC_ADDR 0
  else if action =? NETIF_DEL_MAC_FILTER then
    del_loop v_mask6 with_v_mask6 (xemacpsif_mld6_mac_hash_update isr ip_addr) XEMACPS_MAX_MAC_ADDR 0
  else mret ERR_ARG.
End Filter.

(** ** Recovery *)

Section Recovery.
Context {N G : Type} `{Board} `{Lwip N} `{EmacPs G}.

(** The result of [init_dma] is not looked at. *)
Definition HandleEmacPsError : M (nic N G) unit :=
  free_txrx_pbufs ;;
  base ← vars_get v_base;
  gem_call (CfgInitialize base) ;;
  mac MacInitOnError ;;
  dmacrreg ← ReadReg XEMACPS_DMACR_OFFSET;
  WriteReg_ XEMACPS_DMACR_OFFSET (Z.lor dmacrreg 0x01000000) ;;
  mac MacSetupIsr ;;
  init_dma ;;
  mac MacStartEmacps.

Definition HandleTxErrors : M (nic N G) unit :=
  netctrlreg ← ReadReg XEMACPS_NWCTRL_OFFSET;
  WriteReg_ XEMACPS_NWCTRL_OFFSET (Z.ldiff netctrlreg XEMACPS_NWCTRL_TXEN_MASK) ;;
  free_onlytx_pbufs ;;
  clean_dma_txdescs ;;
  netctrlreg ← ReadReg XEMACPS_NWCTRL_OFFSET;
  WriteReg_ XEMACPS_NWCTRL_OFFSET (Z.lor netctrlreg XEMACPS_NWCTRL_TXEN_MASK).

Definition xemacpsif_resetrx_on_no_rxdata : M (nic N G) unit := resetrx_on_no_rxdata.
End Recovery.

(** ** Output: never a fault, never a leak *)

Section OutputTheorem.
Context {N G : Type} `{Board} `{LwipLaws N} `{EmacPsLaws G}.
Implicit Types s : nic N G.

Lemma link_stat_run what s :
  link_stat what s = Ok (tt, Nic (stats_inc what (nic_net s)) (nic_gem s) (nic_vars s)).
Proof. done. Qed.

Lemma nic_print_run fmt args s :
  nic_print fmt args s = Ok (tt, Nic (nic_net s) (xil_printf fmt args (nic_gem s)) (nic_vars s)).
Proof. done. Qed.

Lemma tx_inv_ext index s s' : tx_inv index s → tx_ring s' = tx_ring s →
  nic_vars s' = nic_vars s → tx_inv index s'.
Proof.
  intros [Hi Ha Hpre Hpost Hroom Hent Hmem] Hr Hv. split; rewrite ?Hr, ?Hv; done.
Qed.

Lemma chain_kept n n' L p l : chain n p l → others_kept L n n' → Forall (spared L n) l →
  chain n' p l.
Proof.
  intros Hc Hk Hl. revert p Hc. induction l as [|q l IH]; intros p Hc; [done|].
  apply Forall_cons_iff in Hl as [Hq Hl]. destruct Hc as (-> & Hn & b & Hb & Hc).
  split; [done|]. split; [done|]. exists b. split; [by apply Hk|]. by apply IH.
Qed.

Lemma sent_zero index s : sent index 0 s s.
Proof.
  split.
  - unfold ring_sent. cbn. rewrite app_nil_r.
    replace (Ring _ _ _ _ _ _ _) with (tx_ring s) by by destruct (tx_ring s).
    done.
  - cbn. by destruct (nic_vars s).
  - done.
  - apply others_kept_refl.
Qed.

(** The descriptors picked up before a transmission. *)
Lemma make_room_run index s : tx_inv index s → ∃ k s1,
  (freecnt ← is_tx_space_available; when (freecnt <=? 5) process_sent_bds) s = Ok (tt, s1) ∧
  (k ≤ length (r_hw (tx_ring s)))%nat ∧ sent index k s s1 ∧ tx_inv index s1.
Proof.
  intros Hinv. unfold is_tx_space_available. nic_run. unfold when. case_match.
  - destruct (process_sent_bds_run index s Hinv) as (k & s1 & E & Hk & Hs).
    exists k, s1. split_and!; [done..|by eapply tx_inv_sent].
  - exists 0%nat, s. split_and!; [done|lia|apply sent_zero|done].
Qed.

(** What [low_level_output] promises after the descriptors of [s1] were made
    free: the chain is queued whole, or nothing changes but the counters of the
    link. *)
Definition output_result (index : nat) (l : list Z) s1 (r : Z) s' : Prop :=
  tx_inv index s' ∧
  if decide (length l ≤ length (r_free (tx_ring s1)))%nat
  then r = ERR_OK ∧ ∃ bufs, Forall2 (λ q b, pbuf_get q (nic_net s1) = Some b) l bufs ∧
    queued index l bufs s1 s'
  else r = ERR_MEM ∧ net_view s' = net_view s1 ∧ nic_vars s' = nic_vars s1 ∧
    gem_view (nic_gem s') = gem_view (nic_gem s1).

Lemma output_refused index l s1 s' : tx_inv index s1 →
  ¬ (length l ≤ length (r_free (tx_ring s1)))%nat → net_view s' = net_view s1 →
  nic_vars s' = nic_vars s1 → gem_view (nic_gem s') = gem_view (nic_gem s1) →
  output_result index l s1 ERR_MEM s'.
Proof.
  intros Hinv Hl Hn Hv Hg. unfold output_result. rewrite decide_False by done.
  split_and!; [|done..]. apply (tx_inv_ext _ s1); [done| |done]. unfold tx_ring. by rewrite Hg.
Qed.

Lemma unbuffered_run index p l s : tx_inv index s → chain (nic_net s) p l → l ≠ [] →
  (length l ≤ max_chain)%nat →
  ∃ r s', _unbuffered_low_level_output p s = Ok (r, s') ∧ output_result index l s r s'.
Proof.
  intros Hinv Hc Hne Hm. unfold _unbuffered_low_level_output.
  rewrite run_bind. destruct (decide (length l ≤ length (r_free (tx_ring s)))%nat) as [Hl|Hl].
  - destruct (chain_bufs _ _ _ Hc) as [bufs Hbufs].
    destruct (sgsend_queues index p l bufs s) as (s1 & E & Hq); [done..|].
    assert (tx_inv index s1) as Hinv1 by (eapply tx_inv_queued; [done|by eapply chain_nonnull|done|done]).
    rewrite E, bind_Ok_l. change (XST_SUCCESS =? XST_SUCCESS) with true. cbn [negb].
    nic_run. rewrite link_stat_run. nic_run. do 2 eexists. split; [reflexivity|].
    split; [by apply (tx_inv_ext _ s1)|]. rewrite decide_True by done. split; [done|].
    exists bufs. split; [done|]. destruct Hq as [Hg Hv Hn Hget]. split; [done..| |].
    + unfold net_view at 1. cbn. rewrite stats_view. exact Hn.
    + intros q. cbn. by rewrite stats_get.
  - destruct (sgsend_full index p l s) as (g & E & Hg); [done|done|done|lia|].
    rewrite E, bind_Ok_l. change (XST_FAILURE =? XST_SUCCESS) with false. cbn [negb].
    nic_run. rewrite link_stat_run. nic_run. rewrite link_stat_run. nic_run.
    do 2 eexists. split; [reflexivity|]. apply output_refused; [done..| |done|done].
    unfold net_view. cbn. by rewrite !stats_view.
Qed.

(** Output of a chain that survives the release of the buffers sent before never
    faults and keeps the invariant.  The descriptors that the hardware has finished are reused
    first where few are free; then the chain is queued whole, with one more
    reference per buffer, or dropped with [ERR_MEM], with no reference
    gained.  Either way every buffer picked up before loses exactly one. *)
Lemma output_run index p l s : tx_inv index s → chain (nic_net s) p l → l ≠ [] →
  (length l ≤ max_chain)%nat →
  (∀ k, Forall (spared (entries index (take k (r_hw (tx_ring s))) (v_txst (nic_vars s))) (nic_net s)) l) →
  ∃ k s1 r s', (k ≤ length (r_hw (tx_ring s)))%nat ∧ sent index k s s1 ∧
    low_level_output p s = Ok (r, s') ∧ output_result index l s1 r s'.
Proof.
  intros Hinv Hc Hne Hm Hnq. destruct (make_room_run index s Hinv) as (k & s1 & E & Hk & Hs & Hinv1).
  exists k, s1.
  assert (chain (nic_net s1) p l) as Hc1.
  { eapply chain_kept; [done|apply Hs|apply Hnq]. }
  assert (low_level_output p s = (space ← is_tx_space_available;
    if negb (space =? 0) then _unbuffered_low_level_output p
    else link_stat "link.drop" ;; nic_print "pack dropped, no space\r\n" [] ;; mret ERR_MEM) s1) as ->.
  { unfold low_level_output. rewrite run_bind in E. rewrite run_bind.
    destruct (is_tx_space_available s) as [[f s0]|]; [|done]. rewrite bind_Ok_l in E.
    by rewrite bind_Ok_l, run_bind, E, bind_Ok_l. }
  unfold is_tx_space_available. nic_run. rewrite free_cnt_law. cbn [ring_of]. fold (tx_ring s1).
  destruct (Z.eqb_spec (Z.of_nat (length (r_free (tx_ring s1)))) 0) as [H0'|H0']; cbn [negb].
  - rewrite run_bind, link_stat_run. nic_run. rewrite nic_print_run. nic_run.
    do 2 eexists. split; [done|]. split; [done|]. split; [reflexivity|].
    apply output_refused; [done|destruct l; cbn; [done|lia]| |done|apply gem_printf_law].
    unfold net_view. cbn. apply stats_view.
  - destruct (unbuffered_run index p l s1) as (r & s' & E' & Hres); [done..|].
    exists r, s'. split_and!; [done..|exact Hres].
Qed.

End OutputTheorem.
