(* ===== verification/MacFilter.v ===== *)
(** * The multicast filter as a counter

    The theorems on [xemacpsif_mac_filter_update]: the mask counts the groups
    joined, the controller is stopped, programmed and restarted around every
    change, and no address is ever rejected. *)

From S2P Require Export Xemacpsif.
From stdpp Require Import list gmap.

#[local] Open Scope Z_scope.

(** ** Bits of a mask *)

Definition count_bits (n : nat) (m : Z) : nat :=
  length (filter (λ i, Z.testbit m (Z.of_nat i) = true) (seq 0 n)).

Lemma land_bit m i : 0 ≤ i ->
  (Z.land m (Z.shiftl 1 i) =? Z.shiftl 1 i) = Z.testbit m i.
Proof.
  intros Hi. rewrite Z.shiftl_1_l. destruct (Z.testbit m i) eqn:E.
  - apply Z.eqb_eq. apply Z.bits_inj'. intros k Hk. rewrite Z.land_spec, Z.pow2_bits_eqb by lia.
    destruct (Z.eqb_spec i k) as [<-|]; [by rewrite E|by rewrite andb_false_r].
  - apply Z.eqb_neq. intros H. apply (f_equal (λ z, Z.testbit z i)) in H.
    rewrite Z.land_spec, Z.pow2_bits_true, E in H by lia. done.
Qed.

Lemma small_bit i : (i < 8)%nat → to_u8 (Z.shiftl 1 (Z.of_nat i)) = Z.shiftl 1 (Z.of_nat i).
Proof.
  intros Hi. unfold to_u8. rewrite Z.shiftl_1_l. apply Z.mod_small.
  split; [apply Z.pow_nonneg; lia|]. apply Z.pow_lt_mono_r; lia.
Qed.

(** The first bit with the given value among [n] bits from [i]. *)
Fixpoint find_bit (b : bool) (m : Z) (n i : nat) : option nat :=
  match n with
  | O => None
  | S n' => if eqb (Z.testbit m (Z.of_nat i)) b then Some i else find_bit b m n' (S i)
  end.

Lemma find_bit_Some b m n i j : find_bit b m n i = Some j →
  (i ≤ j < i + n)%nat ∧ Z.testbit m (Z.of_nat j) = b.
Proof.
  revert i. induction n as [|n IH]; intros i; cbn; [done|].
  destruct (eqb _ _) eqn:E.
  - intros [= <-]. apply eqb_prop in E. split; [lia|done].
  - intros H%IH. split; [lia|apply H].
Qed.

Lemma find_bit_None b m n i j : find_bit b m n i = None → (i ≤ j < i + n)%nat →
  Z.testbit m (Z.of_nat j) = negb b.
Proof.
  revert i. induction n as [|n IH]; intros i; cbn; [lia|].
  destruct (eqb _ _) eqn:E; [done|]. intros H Hj.
  destruct (decide (j = i)) as [->|]; [|apply (IH (S i)); [done|lia]].
  apply eqb_false_iff in E. by destruct (Z.testbit _ _), b.
Qed.

(** A list whose predicate changes at one place. *)
Lemma filter_ext_in (P Q : nat → Prop) `{!∀ i, Decision (P i), !∀ i, Decision (Q i)} (l : list nat) :
  (∀ i, i ∈ l → P i ↔ Q i) → filter Q l = filter P l.
Proof.
  induction l as [|k l IH]; intros Hl; [done|]. rewrite !filter_cons.
  rewrite IH by (intros i Hi; apply Hl; by right).
  destruct (Hl k) as [H1 H2]; [by left|].
  destruct (decide (Q k)), (decide (P k)); tauto || done.
Qed.

Lemma filter_flip (P Q : nat → Prop) `{!∀ i, Decision (P i), !∀ i, Decision (Q i)} j l :
  NoDup l → j ∈ l → ¬ P j → Q j → (∀ i, i ∈ l → i ≠ j → P i ↔ Q i) →
  length (filter Q l) = S (length (filter P l)).
Proof.
  intros Hnd Hj Hp Hq Hne. induction l as [|i l IH]; [by apply elem_of_nil in Hj|].
  apply list.NoDup_cons in Hnd as [Hil Hnd]. rewrite !filter_cons.
  destruct (decide (i = j)) as [->|Hij].
  - rewrite decide_True, decide_False by done. cbn. do 2 f_equal.
    apply filter_ext_in. intros k Hk. apply Hne; [by right|]. by intros ->.
  - apply elem_of_cons in Hj as [->|Hj]; [done|]. destruct (Hne i) as [H1 H2]; [by left|done|].
    assert (length (filter Q l) = S (length (filter P l))) as IH'
      by (apply IH; [done..|intros k Hk; apply Hne; by right]).
    destruct (decide (Q i)), (decide (P i)); cbn; rewrite ?IH'; tauto || done.
Qed.

Lemma to_u8_bit m i : (i < 8)%nat → Z.testbit (to_u8 m) (Z.of_nat i) = Z.testbit m (Z.of_nat i).
Proof. intros Hi. unfold to_u8. apply Z.mod_pow2_bits_low. lia. Qed.

Lemma count_set n m j : (n ≤ 8)%nat → (j < n)%nat → Z.testbit m (Z.of_nat j) = false →
  count_bits n (to_u8 (Z.lor m (Z.shiftl 1 (Z.of_nat j)))) = S (count_bits n m).
Proof.
  intros Hn Hj Hm. unfold count_bits. apply (filter_flip _ _ j).
  - apply NoDup_seq.
  - apply elem_of_seq. lia.
  - by rewrite Hm.
  - rewrite to_u8_bit, Z.lor_spec, Z.shiftl_1_l, Z.pow2_bits_true by lia. apply orb_true_r.
  - intros i Hi%elem_of_seq Hij.
    rewrite to_u8_bit, Z.lor_spec, Z.shiftl_1_l, Z.pow2_bits_false, orb_false_r by lia. done.
Qed.

Lemma count_clear n m j : (n ≤ 8)%nat → (j < n)%nat → Z.testbit m (Z.of_nat j) = true →
  count_bits n m = S (count_bits n (to_u8 (Z.ldiff m (Z.shiftl 1 (Z.of_nat j))))).
Proof.
  intros Hn Hj Hm. unfold count_bits. apply (filter_flip _ _ j).
  - apply NoDup_seq.
  - apply elem_of_seq. lia.
  - rewrite to_u8_bit, Z.ldiff_spec, Z.shiftl_1_l, Z.pow2_bits_true by lia. by rewrite andb_false_r.
  - done.
  - intros i Hi%elem_of_seq Hij.
    rewrite to_u8_bit, Z.ldiff_spec, Z.shiftl_1_l, Z.pow2_bits_false, andb_true_r by lia. done.
Qed.

(** No clear bit, or no set bit. *)
Lemma count_full n m : find_bit false m n 0 = None → count_bits n m = n.
Proof.
  intros H. unfold count_bits. rewrite <-(length_seq n 0) at 2. f_equal.
  rewrite (filter_ext_in (λ _, True) _ (seq 0 n)).
  - induction (seq 0 n) as [|k l IH]; [done|]. rewrite filter_cons, decide_True by done. by f_equal.
  - intros i Hi%elem_of_seq. rewrite (find_bit_None _ _ _ _ i H) by lia. done.
Qed.

Lemma count_empty n m : find_bit true m n 0 = None → count_bits n m = 0%nat.
Proof.
  intros H. unfold count_bits.
  rewrite (filter_ext_in (λ _, False) _ (seq 0 n)).
  - induction (seq 0 n) as [|k l IH]; [done|]. rewrite filter_cons, decide_False by tauto. exact IH.
  - intros i Hi%elem_of_seq. rewrite (find_bit_None _ _ _ _ i H) by lia. done.
Qed.

Section Filter.
Context {N G : Type} `{Board} `{LwipLaws N} `{EmacPsLaws G}.
Implicit Types s : nic N G.

(** Nothing is being sent, every receive descriptor is with the hardware, and
    the rings start where the interface remembers. *)
Record at_rest s : Prop := {
  rest_tx : r_hw (tx_ring s) = [];
  rest_rx : r_free (g_rx (gem_view (nic_gem s))) = [];
  rest_txspace : v_txspace (nic_vars s) = r_base (tx_ring s);
  rest_rxspace : v_rxspace (nic_vars s) = r_base (g_rx (gem_view (nic_gem s)))
}.

(** The controller after a filter operation [op]. *)
Definition reprogrammed (op : mac_operation) (q : Z) (v : gem) : gem :=
  Gem (ring_ptr_reset (g_tx v)) (ring_ptr_reset (g_rx v)) (g_queue v) (g_bds v)
    (MacStart :: MacSetQueuePtr (r_base (g_tx v)) q XEMACPS_SEND ::
     MacSetQueuePtr (r_base (g_rx v)) 0 XEMACPS_RECV :: op :: MacStop :: g_macs v).

Lemma reset_dma_run s : at_rest s → ∃ g q,
  reset_dma s = Ok (tt, Nic (nic_net s) g (nic_vars s)) ∧
  gem_view g = let v := gem_view (nic_gem s) in
    Gem (ring_ptr_reset (g_tx v)) (ring_ptr_reset (g_rx v)) (g_queue v) (g_bds v)
    (MacSetQueuePtr (r_base (g_tx v)) q XEMACPS_SEND ::
     MacSetQueuePtr (r_base (g_rx v)) 0 XEMACPS_RECV :: g_macs v).
Proof.
  intros [Htx Hrx Hts Hrs]. unfold reset_dma, gigeversion. nic_run.
  do 2 eexists. split; [reflexivity|]. cbn [nic_gem].
  assert (gem_view (BdRingPtrReset XEMACPS_SEND (v_txspace (nic_vars s)) (nic_gem s)) =
    set_ring XEMACPS_SEND (ring_ptr_reset (g_tx (gem_view (nic_gem s)))) (gem_view (nic_gem s))) as E1.
  { rewrite Hts. apply (ptr_reset_law XEMACPS_SEND). by right. }
  set (g1 := BdRingPtrReset XEMACPS_SEND (v_txspace (nic_vars s)) (nic_gem s)) in *.
  assert (gem_view (BdRingPtrReset XEMACPS_RECV (v_rxspace (nic_vars s)) g1) =
    set_ring XEMACPS_RECV (ring_ptr_reset (g_rx (gem_view (nic_gem s)))) (gem_view g1)) as E2.
  { assert (g_rx (gem_view g1) = g_rx (gem_view (nic_gem s))) as Hg1 by by rewrite E1.
    rewrite Hrs, <-Hg1. apply (ptr_reset_law XEMACPS_RECV). left. cbn [ring_of]. by rewrite Hg1. }
  rewrite !mac_op_law, !base_law, ?mac_op_law, !gem_in32_law, E2, E1. done.
Qed.

Lemma hash_update_run isr m action s op : at_rest s →
  (action = NETIF_ADD_MAC_FILTER ∧ op = MacSetHash m ∨
   action = NETIF_DEL_MAC_FILTER ∧ op = MacDeleteHash m) →
  ∃ g q, hash_update isr m action s = Ok (tt, Nic (nic_net s) g (nic_vars s)) ∧
    gem_view g = reprogrammed op q (gem_view (nic_gem s)).
Proof.
  intros Hrest Hop. unfold hash_update, wait_tx. nic_run. rewrite hw_cnt_law. cbn [ring_of].
  fold (tx_ring s). rewrite (rest_tx s Hrest). change (negb (Z.of_nat (length (@nil nat)) =? 0)) with false.
  cbn [when]. nic_run.
  assert ((if action =? NETIF_ADD_MAC_FILTER then mac (MacSetHash m)
    else when (action =? NETIF_DEL_MAC_FILTER) (mac (MacDeleteHash m))) = (mac op : M (nic N G) unit)) as ->
    by (by destruct Hop as [[-> ->]|[-> ->]]).
  nic_run. set (s1 := Nic _ _ _).
  assert (gem_view (nic_gem s1) = mac_done op (mac_done MacStop (gem_view (nic_gem s)))) as Hg1
    by (cbn; by rewrite !mac_op_law).
  destruct (reset_dma_run s1) as (g2 & q & E2 & Hg2).
  { destruct Hrest as [Htx Hrx Hts Hrs]. split; unfold tx_ring in *; rewrite ?Hg1; done. }
  rewrite E2. nic_run. do 2 eexists. split; [reflexivity|].
  cbn [nic_gem]. rewrite mac_op_law, Hg2, Hg1. reflexivity.
Qed.

Section Loops.
Context (get : emac → Z) (set : Z → emac → emac) (update : Z → M (nic N G) unit).

Lemma add_loop_run n i s : (i + n ≤ 8)%nat →
  add_loop get set update n i s = match find_bit false (get (nic_vars s)) n i with
    | None => Ok (ERR_MEM, s)
    | Some j => (update NETIF_ADD_MAC_FILTER ;; mret ERR_OK) (Nic (nic_net s) (nic_gem s)
        (set (to_u8 (Z.lor (get (nic_vars s)) (Z.shiftl 1 (Z.of_nat j)))) (nic_vars s)))
    end.
Proof.
  revert i. induction n as [|n IH]; intros i Hi; [done|]. cbn [add_loop find_bit]. nic_run.
  rewrite small_bit, land_bit by lia. destruct (Z.testbit _ _); cbn [eqb].
  - apply IH. lia.
  - nic_run. done.
Qed.

Lemma del_loop_run n i s : (i + n ≤ 8)%nat →
  del_loop get set update n i s = match find_bit true (get (nic_vars s)) n i with
    | None => Ok (ERR_MEM, s)
    | Some j => (update NETIF_DEL_MAC_FILTER ;; mret ERR_OK) (Nic (nic_net s) (nic_gem s)
        (set (to_u8 (Z.ldiff (get (nic_vars s)) (Z.shiftl 1 (Z.of_nat j)))) (nic_vars s)))
    end.
Proof.
  revert i. induction n as [|n IH]; intros i Hi; [done|]. cbn [del_loop find_bit]. nic_run.
  rewrite small_bit, land_bit by lia. destruct (Z.testbit _ _); cbn [eqb negb].
  - nic_run. done.
  - apply IH. lia.
Qed.
End Loops.

(** The address that stands for a group. *)
Definition group_mac (b1 b2 b3 : Z) : list Z := [0x01; 0x00; 0x5E; Z.land b1 0x7F; b2; b3].

Lemma mac_hash_update_run isr b0 b1 b2 b3 tl action s op : at_rest s →
  (action = NETIF_ADD_MAC_FILTER ∧ op = MacSetHash (group_mac b1 b2 b3) ∨
   action = NETIF_DEL_MAC_FILTER ∧ op = MacDeleteHash (group_mac b1 b2 b3)) →
  ∃ g q, xemacpsif_mac_hash_update isr (b0 :: b1 :: b2 :: b3 :: tl) action s =
      Ok (tt, Nic (nic_net s) g (nic_vars s)) ∧
    gem_view g = reprogrammed op q (gem_view (nic_gem s)).
Proof.
  intros Hrest Hop. unfold xemacpsif_mac_hash_update. cbn [byte_of rd8 lookup list_lookup].
  nic_run. by apply hash_update_run.
Qed.

(** The range check of the address is always passed. *)
Lemma filter_update_loops isr b0 b1 b2 b3 tl action s :
  let ip := b0 :: b1 :: b2 :: b3 :: tl in
  xemacpsif_mac_filter_update isr ip action s =
  (if action =? IGMP_ADD_MAC_FILTER then
    add_loop v_mask with_v_mask (xemacpsif_mac_hash_update isr ip) XEMACPS_MAX_MAC_ADDR 0
  else if action =? IGMP_DEL_MAC_FILTER then
    del_loop v_mask with_v_mask (xemacpsif_mac_hash_update isr ip) XEMACPS_MAX_MAC_ADDR 0
  else mret ERR_OK) s.
Proof.
  intros ip. unfold xemacpsif_mac_filter_update. cbn [byte_of rd8 lookup list_lookup ip].
  nic_run. assert ((b0 <? 224) && (239 <? b0) = false) as -> by lia. done.
Qed.

Lemma rest_vars s m : at_rest s → at_rest (Nic (nic_net s) (nic_gem s) (with_v_mask m (nic_vars s))).
Proof. by intros []. Qed.

(** C31. The multicast filter is a counter.  With the interface at rest, adding
    a group takes the next free entry of the mask and deleting one frees an
    entry, whichever group it was entered for; the controller is stopped, its
    hash changed, its rings reset and it is started again.  With no entry left
    (or none taken) the result is [ERR_MEM] and nothing changes.  The range
    check never rejects an address, multicast or not. *)
Theorem mac_filter_counts isr b0 b1 b2 b3 tl s :
  at_rest s → (XEMACPS_MAX_MAC_ADDR ≤ 8)%nat →
  let ip := b0 :: b1 :: b2 :: b3 :: tl in
  let used := count_bits XEMACPS_MAX_MAC_ADDR (v_mask (nic_vars s)) in
  (if decide (used < XEMACPS_MAX_MAC_ADDR)%nat
   then ∃ m g q, xemacpsif_mac_filter_update isr ip IGMP_ADD_MAC_FILTER s =
       Ok (ERR_OK, Nic (nic_net s) g (with_v_mask m (nic_vars s))) ∧
     count_bits XEMACPS_MAX_MAC_ADDR m = S used ∧
     gem_view g = reprogrammed (MacSetHash (group_mac b1 b2 b3)) q (gem_view (nic_gem s))
   else xemacpsif_mac_filter_update isr ip IGMP_ADD_MAC_FILTER s = Ok (ERR_MEM, s)) ∧
  (if decide (used = 0)%nat
   then xemacpsif_mac_filter_update isr ip IGMP_DEL_MAC_FILTER s = Ok (ERR_MEM, s)
   else ∃ m g q, xemacpsif_mac_filter_update isr ip IGMP_DEL_MAC_FILTER s =
       Ok (ERR_OK, Nic (nic_net s) g (with_v_mask m (nic_vars s))) ∧
     S (count_bits XEMACPS_MAX_MAC_ADDR m) = used ∧
     gem_view g = reprogrammed (MacDeleteHash (group_mac b1 b2 b3)) q (gem_view (nic_gem s))).
Proof.
  intros Hrest Hmax ip used. set (mask := v_mask (nic_vars s)) in *.
  unfold ip. rewrite !filter_update_loops. fold ip.
  change (IGMP_ADD_MAC_FILTER =? IGMP_ADD_MAC_FILTER) with true.
  change (IGMP_DEL_MAC_FILTER =? IGMP_ADD_MAC_FILTER) with false.
  change (IGMP_DEL_MAC_FILTER =? IGMP_DEL_MAC_FILTER) with true. cbv iota.
  rewrite add_loop_run, del_loop_run by lia. fold mask. split.
  - destruct (find_bit false mask _ 0) as [j|] eqn:Ej.
    + apply find_bit_Some in Ej as [Hj Hbit].
      pose proof (count_set XEMACPS_MAX_MAC_ADDR mask j ltac:(lia) ltac:(lia) Hbit) as Hc.
      set (m' := to_u8 _) in *.
      assert (count_bits XEMACPS_MAX_MAC_ADDR m' ≤ XEMACPS_MAX_MAC_ADDR)%nat as Hle.
      { unfold count_bits. etrans; [apply length_filter|]. by rewrite length_seq. }
      rewrite decide_True by (unfold used; lia).
      destruct (mac_hash_update_run isr b0 b1 b2 b3 tl NETIF_ADD_MAC_FILTER
        (Nic (nic_net s) (nic_gem s) (with_v_mask m' (nic_vars s)))
        (MacSetHash (group_mac b1 b2 b3))) as (g & q & E & Hg); [by apply rest_vars|by left|].
      exists m', g, q. split_and!; [|exact Hc|exact Hg].
      unfold ip. by rewrite run_bind, E, bind_Ok_l.
    + apply count_full in Ej. rewrite decide_False by (unfold used; lia). done.
  - destruct (find_bit true mask _ 0) as [j|] eqn:Ej.
    + apply find_bit_Some in Ej as [Hj Hbit].
      pose proof (count_clear XEMACPS_MAX_MAC_ADDR mask j ltac:(lia) ltac:(lia) Hbit) as Hc.
      set (m' := to_u8 _) in *. rewrite decide_False by (unfold used; lia).
      destruct (mac_hash_update_run isr b0 b1 b2 b3 tl NETIF_DEL_MAC_FILTER
        (Nic (nic_net s) (nic_gem s) (with_v_mask m' (nic_vars s)))
        (MacDeleteHash (group_mac b1 b2 b3))) as (g & q & E & Hg); [by apply rest_vars|by right|].
      exists m', g, q. split_and!; [|by rewrite <-Hc|exact Hg].
      unfold ip. by rewrite run_bind, E, bind_Ok_l.
    + apply count_empty in Ej. rewrite decide_True by done. done.
Qed.
End Filter.

(** The interface with all receive descriptors given to the hardware. *)
Definition nic_rest : nic net gemsim :=
  Nic two_bufs (GemSim (ok_set (ring_create 0x210000 64 4) okring_none)
    (ok_set (Ring 0x200000 64 4 [] [] [0; 1; 2; 3]%nat []) okring_none) [] [] [] ∅ 0 0 60 8) vars_boot.

Lemma nic_rest_at_rest : at_rest nic_rest.
Proof. split; vm_compute; reflexivity. Qed.

(** 10.0.1.129 is accepted as a group. *)
Lemma mac_filter_counts_witness :
  ∃ m g q, xemacpsif_mac_filter_update (mret tt) [10; 0; 1; 129] IGMP_ADD_MAC_FILTER nic_rest =
      Ok (ERR_OK, Nic (nic_net nic_rest) g (with_v_mask m (nic_vars nic_rest))) ∧
    count_bits 4 m = 1%nat ∧
    gem_view g = reprogrammed (MacSetHash (group_mac 0 1 129)) q (gem_view (nic_gem nic_rest)).
Proof.
  exact (proj1 (mac_filter_counts (mret tt) 10 0 1 129 [] nic_rest
    nic_rest_at_rest ltac:(by_computation))).
Defined.
