(* ===== verification/NicTheorems.v ===== *)
(** * Input, and the memory for descriptors

    The theorems on [low_level_input] and [xemacpsif_input], and on the part
    of [bd_space] that every initialisation takes. *)

From S2P Require Export Xemacpsif.
From stdpp Require Import list gmap.

#[local] Open Scope Z_scope.

(** ** Input *)

Section Input.
Context {N G : Type} `{Board} `{LwipLaws N} `{EmacPsLaws G}.
Implicit Types s : nic N G.

Lemma frame_type_run payload : (14 ≤ length payload)%nat → ∃ hi lo,
  payload !! 12%nat = Some hi ∧ payload !! 13%nat = Some lo ∧ frame_type payload = Ok (hi * 256 + lo).
Proof.
  intros Hl. destruct (lookup_lt_is_Some_2 payload 12) as [hi Hhi]; [lia|].
  destruct (lookup_lt_is_Some_2 payload 13) as [lo Hlo]; [lia|].
  exists hi, lo. split_and!; [done..|]. unfold frame_type, rd8. by rewrite Hhi, Hlo.
Qed.

(** The buffer given back. *)
Definition freed (p : Z) s : nic N G := Nic (pbuf_free p (nic_net s)) (nic_gem s) (nic_vars s).

Context {S : Type} (l : lens S (nic N G)) `{!LensLaws l}.

(** The buffer given back, in the state of the program. *)
Definition freed_in (p : Z) (w : S) : S := lput l (freed p (lget l w)) w.

Lemma input_run ipv6 (input : Z → M S Z) p q b w :
  g_queue (gem_view (nic_gem (lget l w))) = p :: q → p ≠ NULL →
  pbuf_get p (nic_net (lget l w)) = Some b → (14 ≤ length (p_payload b))%nat →
  ∃ s1 ty, frame_type (p_payload b) = Ok ty ∧
    gem_view (nic_gem s1) = set_queue q (gem_view (nic_gem (lget l w))) ∧
    nic_net s1 = stats_inc "link.recv" (nic_net (lget l w)) ∧ nic_vars s1 = nic_vars (lget l w) ∧
    xemacpsif_input l ipv6 input w =
      if passed_up ipv6 ty
      then '(e, w2) ← input p (lput l s1 w); Ok (1, if e =? ERR_OK then w2 else freed_in p w2)
      else Ok (1, freed_in p (lput l s1 w)).
Proof.
  intros Eq Hp Hb Hlen. destruct (frame_type_run _ Hlen) as (hi & lo & _ & _ & Hty).
  destruct (dequeue_law _ _ _ Eq) as [Hd Hq]. set (s := lget l w) in *.
  set (s1 := Nic (nic_net s) (pq_dequeue (nic_gem s)).2 (nic_vars s)).
  exists (Nic (stats_inc "link.recv" (nic_net s)) (nic_gem s1) (nic_vars s)), (hi * 256 + lo).
  split_and!; [done..|].
  assert (low_level_input s = Ok (p, s1)) as E1.
  { unfold low_level_input. nic_run. rewrite qlength_law, Eq.
    assert ((Z.of_nat (length (p :: q)) =? 0) = false) as -> by (apply Z.eqb_neq; cbn; lia). nic_run.
    by rewrite Hd. }
  unfold xemacpsif_input. rewrite run_bind, run_zoom. fold s. rewrite E1, !bind_Ok_l.
  apply Z.eqb_neq in Hp as ->.
  rewrite run_bind, run_zoom, lget_lput. rewrite (pbuf_at_run _ b), !bind_Ok_l by done.
  rewrite run_bind, Hty, run_lift_Ok, bind_Ok_l.
  rewrite run_bind, run_zoom, lget_lput, link_stat_run, !bind_Ok_l, !lput_lput.
  rewrite run_bind. case_match; [|done].
  rewrite run_bind. change (nic_net s1) with (nic_net s).
  destruct (input p _) as [[e w2]|]; [|done]. rewrite !bind_Ok_l.
  by destruct (e =? ERR_OK).
Qed.

(** Input takes the oldest frame of the queue and disposes of it once: a
    frame of a type the stack knows goes to the input function of the
    interface, which owns it unless it reports an error; any other frame is
    freed.  An empty queue is no event. *)
Lemma input_takes_oldest ipv6 (input : Z → M S Z) w :
  match g_queue (gem_view (nic_gem (lget l w))) with
  | [] => xemacpsif_input l ipv6 input w = Ok (0, w)
  | p :: q => ∀ b, p ≠ NULL → pbuf_get p (nic_net (lget l w)) = Some b →
      (14 ≤ length (p_payload b))%nat →
      ∃ s1 ty, frame_type (p_payload b) = Ok ty ∧
        gem_view (nic_gem s1) = set_queue q (gem_view (nic_gem (lget l w))) ∧
        net_view s1 = net_view (lget l w) ∧ nic_vars s1 = nic_vars (lget l w) ∧
        xemacpsif_input l ipv6 input w =
          if passed_up ipv6 ty
          then '(e, w2) ← input p (lput l s1 w); Ok (1, if e =? ERR_OK then w2 else freed_in p w2)
          else Ok (1, freed_in p (lput l s1 w))
  end.
Proof.
  destruct (g_queue (gem_view (nic_gem (lget l w)))) as [|p q] eqn:Eq.
  - assert (low_level_input (lget l w) = Ok (NULL, lget l w)) as E.
    { unfold low_level_input. nic_run. by rewrite qlength_law, Eq. }
    unfold xemacpsif_input. rewrite run_bind, run_zoom, E, !bind_Ok_l, lput_lget. done.
  - intros b Hp Hb Hlen.
    destruct (input_run ipv6 input p q b w Eq Hp Hb Hlen) as (s1 & ty & ?&?& Hn &?& E).
    exists s1, ty. split_and!; [done..| |done|exact E]. unfold net_view. by rewrite Hn, stats_view.
Qed.
End Input.

(** ** Memory for descriptors *)

Section Space.
Context {N G : Type} `{Board} `{Lwip N} `{EmacPs G}.
Implicit Types s : nic N G.

Definition same_space s s' : Prop :=
  v_space (nic_vars s') = v_space (nic_vars s) ∧ v_base (nic_vars s') = v_base (nic_vars s).

#[local] Instance same_space_preorder : PreOrder same_space.
Proof. split; [done|]. intros s1 s2 s3 [? ?] [? ?]. split; congruence. Qed.

Lemma on_gem_space {A} (m : M G A) : keeps same_space (on_gem m).
Proof. apply (keeps_zoom _ (λ _ _, True)); done. Qed.
Lemma on_stack_space {A} (m : M N A) : keeps same_space (on_stack m).
Proof. apply (keeps_zoom _ (λ _ _, True)); done. Qed.
Lemma vars_get_space {A} (f : emac → A) : keeps same_space (vars_get f).
Proof. apply keeps_gets, _. Qed.
Lemma vars_do_space f : (∀ v, v_space (f v) = v_space v ∧ v_base (f v) = v_base v) →
  keeps same_space (vars_do f).
Proof. intros Hf. apply keeps_modify. intros s. apply Hf. Qed.
#[local] Hint Resolve on_gem_space on_stack_space vars_get_space : keeps.
#[local] Hint Extern 1 (keeps same_space (vars_do _)) =>
  apply vars_do_space; intros []; split; reflexivity : keeps.

Ltac space_tac := unfold mac, gem_call, gem_get, gem_do, link_stat, nic_print; keeps_tac.

Lemma ReadReg_space o : keeps same_space (ReadReg o).
Proof. unfold ReadReg. space_tac. Qed.
Lemma WriteReg_space o v : keeps same_space (WriteReg_ o v).
Proof. unfold WriteReg_. space_tac. Qed.
Lemma gigeversion_space : keeps same_space gigeversion.
Proof. unfold gigeversion. space_tac. Qed.
Lemma base_index_space n : keeps same_space (get_base_index n).
Proof. unfold get_base_index. space_tac. Qed.
Lemma tx_storage_space i : keeps same_space (tx_storage i).
Proof. unfold tx_storage. space_tac. Qed.
Lemma set_tx_storage_space i x : keeps same_space (set_tx_storage i x).
Proof. unfold set_tx_storage. space_tac. Qed.
Lemma rx_storage_space i : keeps same_space (rx_storage i).
Proof. unfold rx_storage. space_tac. Qed.
Lemma set_rx_storage_space i x : keeps same_space (set_rx_storage i x).
Proof. unfold set_rx_storage. space_tac. Qed.
Lemma bd_index_space d bd : keeps same_space (XEMACPS_BD_TO_INDEX d bd).
Proof. unfold XEMACPS_BD_TO_INDEX. space_tac. Qed.
#[local] Hint Resolve ReadReg_space WriteReg_space gigeversion_space base_index_space
  tx_storage_space set_tx_storage_space rx_storage_space set_rx_storage_space bd_index_space : keeps.

Lemma for_range_space from n body : (∀ i, keeps same_space (body i)) →
  keeps same_space (for_range from n body).
Proof.
  intros Hb. revert from. induction n as [|n IH]; intros from; cbn [for_range].
  - apply keeps_ret, _.
  - apply keeps_bind; [apply _|apply Hb|]. intros _. apply IH.
Qed.

Lemma init_rx_bd_space index : keeps same_space (init_rx_bd index).
Proof. unfold init_rx_bd. space_tac. Qed.
#[local] Hint Resolve init_rx_bd_space : keeps.
Lemma init_rx_loop_space n index : keeps same_space (init_rx_loop n index).
Proof. induction n as [|n IH]; cbn [init_rx_loop]; space_tac. Qed.
#[local] Hint Resolve init_rx_loop_space : keeps.

Lemma start_queues_space w a b : keeps same_space (start_queues w a b).
Proof. unfold start_queues. space_tac. Qed.
#[local] Hint Resolve start_queues_space : keeps.

Lemma free_txrx_pbufs_space : keeps same_space free_txrx_pbufs.
Proof.
  unfold free_txrx_pbufs, free_onlytx_pbufs, get_base_index_txpbufsstorage,
    get_base_index_rxpbufsstorage.
  repeat first [apply for_range_space; intros | keeps_step]; unfold free_onlytx_body; space_tac.
Qed.

Lemma take_bd_space_run s a s' : 0 ≤ v_space (nic_vars s) → take_bd_space s = Ok (a, s') →
  v_space (nic_vars s) < BD_SPACE_SIZE ∧
  (v_space (nic_vars s') = v_space (nic_vars s) + 0x10000 ∧ v_base (nic_vars s') = v_base (nic_vars s)).
Proof.
  unfold take_bd_space, vars_get, vars_do, BD_SPACE_SIZE. intros Hs Ht. minv.
  case_match; minv. unfold to_u32. cbn. rewrite Z.mod_small by lia. lia.
Qed.

Lemma checked_space m k : keeps same_space m → keeps same_space k → keeps same_space (checked m k).
Proof. intros Hm Hk. unfold checked. keeps_tac. Qed.

(** One block of 64 KiB, within the array. *)
Lemma take_block s s0 a s' : same_space s0 s → 0 ≤ v_space (nic_vars s0) →
  take_bd_space s = Ok (a, s') →
  v_space (nic_vars s0) < BD_SPACE_SIZE ∧
  (v_space (nic_vars s') = v_space (nic_vars s0) + 0x10000 ∧ v_base (nic_vars s') = v_base (nic_vars s0)).
Proof. unfold same_space. intros Hs H0' Ht. apply take_bd_space_run in Ht; lia. Qed.

(** A step that leaves the space alone. *)
Lemma skip_space {A B} (m : M (nic N G) A) (k : A → M (nic N G) B) s0 s b s' :
  same_space s0 s → (m ≫= k) s = Ok (b, s') → keeps same_space m →
  ∃ a s1, same_space s0 s1 ∧ k a s1 = Ok (b, s').
Proof.
  intros Hs (a & s1 & H1' & H2')%run_bind_Ok Hm. exists a, s1. split; [|done].
  etrans; [exact Hs|by eapply Hm].
Qed.

Ltac skip_step H :=
  let a := fresh "a" in let s := fresh "s" in let K := fresh "K" in
  match goal with K0 : same_space _ ?t |- _ =>
    match type of H with _ ?t = _ =>
      eapply (skip_space _ _ _ _ _ _ K0) in H; [clear K0; destruct H as (a & s & K & H)|space_tac]
    end
  end.

Ltac take_step H L :=
  let a := fresh "a" in let s := fresh "s" in let E := fresh "E" in
  apply run_bind_Ok in H as (a & s & E & H);
  match goal with K0 : same_space ?s0 _ |- _ =>
    apply (take_block _ s0) in E as [L E]; [clear K0|exact K0|lia] end;
  assert (same_space s s) by reflexivity.

(** The version of the controller at [base], as it reads its register. *)
Definition version_at (base : Z) (g : G) : Z := Z.land (Z.shiftr (Xil_In32 (base + 0xFC) g).1 16) 0xFFF.

Lemma gigeversion_run s : gigeversion s = Ok (version_at (v_base (nic_vars s)) (nic_gem s),
  Nic (nic_net s) (Xil_In32 (v_base (nic_vars s) + 0xFC) (nic_gem s)).2 (nic_vars s)).
Proof. by destruct s. Qed.

(** What an initialisation takes: two blocks, or four from version 3 on. *)
Definition dma_blocks (version : Z) : Z := if 2 <? version then 0x40000 else 0x20000.

Lemma dma_blocks_cases version : dma_blocks version = 0x20000 ∨ dma_blocks version = 0x40000.
Proof. unfold dma_blocks. case_match; auto. Qed.

(** Every initialisation of the DMA that returns, with or without an error, has
    taken that much, within the array. *)
Lemma init_dma_space version s r s' : (∀ g, version_at (v_base (nic_vars s)) g = version) →
  0 ≤ v_space (nic_vars s) → v_space (nic_vars s) mod dma_blocks version = 0 → init_dma s = Ok (r, s') →
  v_space (nic_vars s') ≤ BD_SPACE_SIZE ∧ v_space (nic_vars s') = v_space (nic_vars s) + dma_blocks version ∧
  v_base (nic_vars s') = v_base (nic_vars s).
Proof.
  intros Hver Hs Hmod Hr. unfold init_dma, get_base_index_rxpbufsstorage in Hr.
  assert (same_space s s) by reflexivity. skip_step Hr.
  rewrite run_bind, gigeversion_run, bind_Ok_l in Hr.
  assert (version_at (v_base (nic_vars s0)) (nic_gem s0) = version) as Hv0 by (destruct K as [_ ->]; apply Hver).
  rewrite Hv0 in Hr. match type of Hr with _ ?t = _ => change (same_space s t) in K end.
  do 2 skip_step Hr. take_step Hr L1. skip_step Hr. take_step Hr L2. skip_step Hr.
  apply run_bind_Ok in Hr as ([c d] & s9 & E9 & Hr).
  assert (same_space s9 s') as Etail.
  { revert Hr. clear. match goal with |- ?m _ = _ → _ => assert (keeps same_space m) as K end.
    - repeat first [apply checked_space | space_tac].
    - apply K. }
  unfold same_space in Etail. unfold dma_blocks in *. destruct (2 <? version).
  - take_step E9 L3. take_step E9 L4. rewrite run_ret in E9. injection E9 as _ _ <-.
    unfold BD_SPACE_SIZE in *. lia.
  - rewrite run_ret in E9. injection E9 as _ _ <-. unfold same_space, BD_SPACE_SIZE in *. lia.
Qed.

Lemma recovery_space version s u s' : (∀ g, version_at (v_base (nic_vars s)) g = version) →
  0 ≤ v_space (nic_vars s) → v_space (nic_vars s) mod dma_blocks version = 0 →
  HandleEmacPsError s = Ok (u, s') →
  v_space (nic_vars s') ≤ BD_SPACE_SIZE ∧ v_space (nic_vars s') = v_space (nic_vars s) + dma_blocks version ∧
  v_base (nic_vars s') = v_base (nic_vars s).
Proof.
  intros Hver Hs Hmod Hr. unfold HandleEmacPsError in Hr.
  assert (same_space s s) by reflexivity.
  eapply skip_space in Hr as (u1 & s1 & K1 & Hr); [|done|apply free_txrx_pbufs_space].
  do 6 skip_step Hr. apply run_bind_Ok in Hr as (r & sd & E & Hr).
  assert (same_space sd s') as K2.
  { revert Hr. match goal with |- ?m _ = _ → _ => assert (keeps same_space m) as K' by space_tac end.
    apply K'. }
  match goal with K : same_space s ?t, E : init_dma ?t = _ |- _ =>
    destruct K as [K Kb]; rewrite <-K in Hs, Hmod |- *; rewrite <-Kb in Hver |- *;
    apply (init_dma_space version) in E; [|done..] end.
  destruct K2 as [-> ->]. done.
Qed.
End Space.
