(* ===== verification/DmaRx.v ===== *)
(** * Reception: who owns a receive buffer

    The theorems on the receive side of [xemacpsif_dma.c].  A receive buffer
    belongs to a descriptor that is with the hardware, or to the queue between
    the interrupt and the main loop.  The invariant says that the buffers of
    both are distinct and each held exactly once. *)

From S2P Require Export NicTheorems.
From stdpp Require Import list gmap.

#[local] Open Scope Z_scope.

(** ** References *)

Section Refs.
Implicit Types v : stack.

Lemma drop_ref_rest p v : pcbs (drop_ref p v) = pcbs v ∧ requests (drop_ref p v) = requests v.
Proof. done. Qed.

Lemma drop_ref_lookup p q v : refs v !! p = Some 1 ∨ p ≠ q →
  refs (drop_ref q v) !! p = if decide (p = q) then None else refs v !! p.
Proof.
  intros Hp. cbn. destruct (decide (p = q)) as [->|Hne].
  - destruct Hp as [->|]; [|done]. cbn. by rewrite lookup_delete_eq.
  - destruct (refs v !! q) as [r|]; [|done]. destruct (r =? 1);
      [by rewrite lookup_delete_ne|by rewrite lookup_insert_ne].
Qed.

(** A buffer that is not there stays away; one that is held once goes with the
    first reference that is dropped. *)
Lemma dropped_gone l p v : refs v !! p = None → refs (dropped l v) !! p = None.
Proof.
  revert v. induction l as [|q l IH]; intros v Hp; [done|]. apply IH. cbn.
  destruct (decide (q = p)) as [->|Hne]; [by rewrite Hp|].
  destruct (refs v !! q) as [r|]; [|done]. destruct (r =? 1);
    [by rewrite lookup_delete_ne|by rewrite lookup_insert_ne].
Qed.

Lemma dropped_lookup l p v : refs v !! p = Some 1 →
  refs (dropped l v) !! p = if decide (p ∈ l) then None else Some 1.
Proof.
  revert v. induction l as [|q l IH]; intros v Hp; [done|].
  change (dropped (q :: l) v) with (dropped l (drop_ref q v)).
  pose proof (drop_ref_lookup p q v (or_introl Hp)) as Hd.
  destruct (decide (p = q)) as [->|Hne].
  - rewrite decide_True by by left. by apply dropped_gone.
  - rewrite IH by by rewrite Hd, Hp.
    destruct (decide (p ∈ l)); [by rewrite decide_True by by right|].
    rewrite decide_False; [done|]. by intros [|]%elem_of_cons.
Qed.

Lemma dropped_other l p v : p ∉ l → refs (dropped l v) !! p = refs v !! p.
Proof.
  revert v. induction l as [|q l IH]; intros v Hp; [done|].
  apply list.not_elem_of_cons in Hp as [Hpq Hp].
  change (dropped (q :: l) v) with (dropped l (drop_ref q v)).
  rewrite IH by done. rewrite drop_ref_lookup by by right. by rewrite decide_False.
Qed.

Lemma dropped_rest l v : pcbs (dropped l v) = pcbs v ∧ requests (dropped l v) = requests v.
Proof. revert v. induction l as [|q l IH]; intros v; [done|]. apply (IH (drop_ref q v)). Qed.

(** The order does not matter. *)
Lemma drop_ref_comm p q v : drop_ref p (drop_ref q v) = drop_ref q (drop_ref p v).
Proof.
  assert (∀ v w, refs v = refs w → pcbs v = pcbs w → requests v = requests w → v = w) as Hext
    by (intros [] []; cbn; congruence).
  apply Hext; [|done..]. apply map_eq. intros i. rewrite !drop_ref_refs.
  destruct (decide (i = p)) as [->|], (decide (p = q)) as [->|]; repeat case_decide; congruence.
Qed.

Lemma dropped_perm l l' v : l ≡ₚ l' → dropped l v = dropped l' v.
Proof.
  intros Hp. revert v. induction Hp as [|p l l' _ IH|p q l|l1 l2 l3 _ IH1 _ IH2]; intros v; [done|..].
  - apply IH.
  - unfold dropped. cbn [foldl]. by rewrite drop_ref_comm.
  - by rewrite IH1, IH2.
Qed.

(** New buffers, each held once. *)
Definition got (l : list Z) v : stack := foldl (λ v p, hold p v) v l.

Lemma got_lookup l p v : refs (got l v) !! p = if decide (p ∈ l) then Some 1 else refs v !! p.
Proof.
  revert v. induction l as [|q l IH]; intros v; [done|].
  change (got (q :: l) v) with (got l (hold q v)). rewrite IH.
  destruct (decide (p ∈ l)) as [Hl|Hl]; [by rewrite decide_True by by right|].
  cbn. destruct (decide (p = q)) as [->|Hne].
  - rewrite decide_True by by left. apply lookup_insert_eq.
  - rewrite decide_False by by intros [|]%elem_of_cons. by apply lookup_insert_ne.
Qed.

Lemma got_rest l v : pcbs (got l v) = pcbs v ∧ requests (got l v) = requests v.
Proof. revert v. induction l as [|q l IH]; intros v; [done|]. apply (IH (hold q v)). Qed.
End Refs.

(** ** The state of the receive side *)

Section Receive.
Context {N G : Type} `{Board} `{LwipLaws N} `{EmacPsLaws G}.
Implicit Types s : nic N G.

Definition rx_ring s : ring := g_rx (gem_view (nic_gem s)).
Definition rx_queue s : list Z := g_queue (gem_view (nic_gem s)).

(** The buffers of the descriptors that are with the hardware, and of the
    frames in the queue. *)
Definition armed (index : nat) s : list Z := entries index (r_hw (rx_ring s)) (v_rxst (nic_vars s)).
Definition owned (index : nat) s : list Z := armed index s ++ rx_queue s.

Record rx_inv (index : nat) s : Prop := {
  rx_index : base_index_from XLWIP_CONFIG_N_RX_DESC 0 (take 4 XPAR_XEMACPS_BASEADDR)
    (v_base (nic_vars s)) None = Some index;
  rx_all : r_all (rx_ring s) = XLWIP_CONFIG_N_RX_DESC;
  rx_pre : r_pre (rx_ring s) = [];
  rx_post : r_post (rx_ring s) = [];
  rx_room : (index + XLWIP_CONFIG_N_RX_DESC ≤ length (v_rxst (nic_vars s)))%nat;
  rx_distinct : NoDup (owned index s);
  rx_held p : p ∈ owned index s → refs (net_view s) !! p = Some 1
}.

(** What reception does to the references: a buffer that is owned afterwards
    is held once, a buffer that is no longer owned is gone, all others are as
    they were; a buffer that became owned is a new one.  The queue only grows,
    and transmission is left alone. *)
Record rx_step (index : nat) s s' : Prop := {
  step_accounts p : refs (net_view s') !! p =
    if decide (p ∈ owned index s') then Some 1
    else if decide (p ∈ owned index s) then None else refs (net_view s) !! p;
  step_fresh p : p ∈ owned index s' → p ∉ owned index s → refs (net_view s) !! p = None;
  step_rest : pcbs (net_view s') = pcbs (net_view s) ∧ requests (net_view s') = requests (net_view s);
  step_queue : rx_queue s `prefix_of` rx_queue s';
  step_tx : tx_ring s' = tx_ring s ∧ v_txst (nic_vars s') = v_txst (nic_vars s) ∧
    v_base (nic_vars s') = v_base (nic_vars s) ∧
    (memory_aligned (nic_vars s) → memory_aligned (nic_vars s'))
}.

Lemma rx_step_trans index s1 s2 s3 : rx_step index s1 s2 → rx_step index s2 s3 → rx_step index s1 s3.
Proof.
  intros [Ha Hf [Hc Hr] Hq (Ht&Hs&Hb&Hm)] [Ha' Hf' [Hc' Hr'] Hq' (Ht'&Hs'&Hb'&Hm')]. split.
  - intros p. rewrite Ha'. destruct (decide (p ∈ owned index s3)); [done|]. rewrite Ha.
    destruct (decide (p ∈ owned index s2)); [|done].
    destruct (decide (p ∈ owned index s1)); [done|]. symmetry. by apply Hf.
  - intros p Hp Hn. destruct (decide (p ∈ owned index s2)) as [Hp2|Hp2]; [by apply Hf|].
    specialize (Hf' p Hp Hp2). rewrite Ha, decide_False, decide_False in Hf'; done.
  - by rewrite Hc', Hr'.
  - by etrans.
  - split_and!; [congruence..|auto].
Qed.

(** States that differ only in what reception does not look at. *)
Record rx_same s s' : Prop := {
  same_ring : rx_ring s' = rx_ring s;
  same_queue : rx_queue s' = rx_queue s;
  same_stack : net_view s' = net_view s;
  same_rxst : v_rxst (nic_vars s') = v_rxst (nic_vars s);
  same_tx : tx_ring s' = tx_ring s ∧ v_txst (nic_vars s') = v_txst (nic_vars s) ∧
    v_base (nic_vars s') = v_base (nic_vars s) ∧
    (memory_aligned (nic_vars s) → memory_aligned (nic_vars s'))
}.

Lemma rx_same_owned index s s' : rx_same s s' → owned index s' = owned index s.
Proof. intros [Hr Hq _ Hs _]. unfold owned, armed. by rewrite Hr, Hq, Hs. Qed.

Lemma rx_same_inv index s s' : rx_same s s' → rx_inv index s → rx_inv index s'.
Proof.
  intros Hss [Hi Ha Hpre Hpost Hroom Hd Hh]. pose proof (rx_same_owned index _ _ Hss) as Ho.
  destruct Hss as [Hr Hq Hn Hs (_&_&Hb&_)]. split; rewrite ?Hr, ?Hs, ?Hb, ?Ho, ?Hn; done.
Qed.

Lemma rx_same_step index s s' : rx_same s s' → rx_inv index s → rx_step index s s'.
Proof.
  intros Hss Hinv. pose proof (rx_same_owned index _ _ Hss) as Ho.
  destruct Hss as [Hr Hq Hn Hs Ht]. split.
  - intros p. rewrite Ho, Hn. destruct (decide _) as [Hp|Hp]; [by apply (rx_held _ _ Hinv)|done].
  - intros p. by rewrite Ho.
  - by rewrite Hn.
  - by rewrite Hq.
  - done.
Qed.

Lemma rx_ring_ok s : ring_ok (rx_ring s).
Proof. apply (rings_ok XEMACPS_RECV). Qed.

Lemma rx_index_run i s : (i < r_all (rx_ring s))%nat →
  XEMACPS_BD_TO_INDEX XEMACPS_RECV (bd_addr (rx_ring s) i) s = Ok (i, s).
Proof. apply (bd_index_dir XEMACPS_RECV). Qed.

Lemma rx_storage_run i p s : v_rxst (nic_vars s) !! i = Some p → rx_storage i s = Ok (p, s).
Proof. intros Hi. unfold rx_storage. rewrite run_bind, vars_get_run, bind_Ok_l. unfold read_at. by rewrite Hi. Qed.

Lemma set_rx_storage_run i x s : (i < length (v_rxst (nic_vars s)))%nat →
  set_rx_storage i x s =
  Ok (tt, Nic (nic_net s) (nic_gem s) (with_v_rxst (<[i := x]> (v_rxst (nic_vars s))) (nic_vars s))).
Proof.
  intros Hi. unfold set_rx_storage. rewrite run_bind, vars_get_run, bind_Ok_l, run_bind.
  unfold write_at. by rewrite decide_True.
Qed.

(** ** Frames received *)

(** One frame: into the queue, or given back when the queue is full. *)
Lemma receive_bd_run index i p s : (i < r_all (rx_ring s))%nat →
  v_rxst (nic_vars s) !! (index + i)%nat = Some p →
  ∃ n g, receive_bd index (bd_addr (rx_ring s) i) s = Ok (tt, Nic n g (nic_vars s)) ∧
    ((gem_view g = set_queue (rx_queue s ++ [p]) (gem_view (nic_gem s)) ∧
      view_of_stack n = net_view s) ∨
     (gem_view g = gem_view (nic_gem s) ∧ view_of_stack n = drop_ref p (net_view s))).
Proof.
  intros Hi Hp. unfold receive_bd. rewrite run_bind, rx_index_run, bind_Ok_l by done.
  rewrite run_bind, (rx_storage_run _ p), bind_Ok_l by done. nic_run.
  destruct (pq_enqueue p (nic_gem s)) as [st g] eqn:E. cbn [fst snd].
  apply enqueue_law in E. destruct (st <? 0); cbn [when].
  - rewrite run_bind, link_stat_run, bind_Ok_l, run_bind, link_stat_run, bind_Ok_l. nic_run.
    do 2 eexists. split; [reflexivity|]. right. split; [done|].
    by rewrite free_view, !stats_view, realloc_view.
  - do 2 eexists. split; [reflexivity|]. left. split; [done|]. apply realloc_view.
Qed.

Lemma receive_bds_run index l s bd : linked (r_all (rx_ring s)) l → group_at (rx_ring s) l bd →
  Forall (λ i, (i < r_all (rx_ring s))%nat ∧ (index + i < length (v_rxst (nic_vars s)))%nat) l →
  ∃ n g kept lost, receive_bds index (length l) bd s = Ok (tt, Nic n g (nic_vars s)) ∧
    entries index l (v_rxst (nic_vars s)) ≡ₚ kept ++ lost ∧
    kept `sublist_of` entries index l (v_rxst (nic_vars s)) ∧
    gem_view g = set_queue (rx_queue s ++ kept) (gem_view (nic_gem s)) ∧
    view_of_stack n = dropped lost (net_view s).
Proof.
  revert s bd. induction l as [|i l IH]; intros s bd Hlink Hbd Hall.
  { exists (nic_net s), (nic_gem s), [], []. split_and!; [by destruct s|done|constructor| |done].
    unfold set_queue, rx_queue. rewrite app_nil_r. by destruct (gem_view _). }
  cbn in Hbd. subst bd. apply Forall_cons_iff in Hall as [[Hi Hlen] Hall].
  destruct (lookup_lt_is_Some_2 _ _ Hlen) as [p Hp].
  destruct (receive_bd_run index i p s) as (n & g & E & Hg); [done..|].
  cbn [receive_bds length]. rewrite run_bind, E, bind_Ok_l. nic_run. set (s1 := Nic _ _ _).
  assert (rx_ring s1 = rx_ring s) as Hr1 by (unfold rx_ring; cbn; by destruct Hg as [[-> _]|[-> _]]).
  pose proof (next_law XEMACPS_RECV i g) as Hnext. cbn zeta in Hnext.
  change (ring_of XEMACPS_RECV (gem_view g)) with (rx_ring s1) in Hnext. rewrite Hr1 in Hnext.
  rewrite Hnext by done.
  destruct (IH s1 (bd_addr (rx_ring s) (ring_next (r_all (rx_ring s)) i)))
    as (n' & g' & kept & lost & E' & Hperm & Hsub & Hg' & Hv').
  - rewrite Hr1. by destruct l; [|destruct Hlink].
  - rewrite Hr1. destruct l; [done|]. by destruct Hlink as [-> _].
  - by rewrite Hr1.
  - cbn in Hperm, Hsub. rewrite E'.
    assert (entries index (i :: l) (v_rxst (nic_vars s)) = p :: entries index l (v_rxst (nic_vars s))) as ->
      by (unfold entries; cbn; by erewrite list_lookup_total_correct by done).
    destruct Hg as [[Hg Hv]|[Hg Hv]].
    + exists n', g', (p :: kept), lost. split_and!; [done|by rewrite Hperm|by constructor| |].
      * assert (rx_queue s1 = rx_queue s ++ [p]) as Hq by (unfold rx_queue; cbn; by rewrite Hg).
        rewrite Hg', Hq, <-app_assoc. cbn [nic_gem s1]. by rewrite Hg.
      * rewrite Hv'. unfold net_view. cbn. by rewrite Hv.
    + exists n', g', kept, (p :: lost). split_and!; [done|rewrite Hperm; apply Permutation_middle| | |].
      * by constructor.
      * assert (rx_queue s1 = rx_queue s) as Hq by (unfold rx_queue; cbn; by rewrite Hg).
        rewrite Hg', Hq. cbn [nic_gem s1]. by rewrite Hg.
      * rewrite Hv'. unfold net_view. cbn. by rewrite Hv.
Qed.
(** ** Refilling the ring *)

Definition alloc_rx : N → Z * N := pbuf_alloc PBUF_RAW XEMACPS_MAX_FRAME_SIZE PBUF_POOL.

(** The oldest free descriptors went to the hardware with the new buffers
    [ps]; [ops] is what is written to the descriptor of a buffer. *)
Record refilled (ops : ring → nat → pbuf → list (Z * bd_operation)) (index : nat) (ps : list Z)
    (bufs : list pbuf) s s' : Prop := {
  refilled_count : (length ps ≤ length (r_free (rx_ring s)))%nat;
  refilled_gem : gem_view (nic_gem s') =
    written (concat (zip_with (ops (rx_ring s)) (take (length ps) (r_free (rx_ring s))) bufs))
      (set_ring XEMACPS_RECV (ring_queued (length ps) (rx_ring s)) (gem_view (nic_gem s)));
  refilled_vars : nic_vars s' = with_v_rxst
    (filled index (take (length ps) (r_free (rx_ring s))) ps (v_rxst (nic_vars s))) (nic_vars s);
  refilled_net : net_view s' = got ps (net_view s);
  refilled_fresh : NoDup ps ∧ Forall (λ p, p ≠ NULL ∧ refs (net_view s) !! p = None) ps;
  refilled_bufs : Forall2 (λ p b, pbuf_get p (nic_net s') = Some b) ps bufs;
  refilled_kept q b : pbuf_get q (nic_net s) = Some b → pbuf_get q (nic_net s') = Some b
}.

Lemma refilled_ring ops index ps bufs s s' : refilled ops index ps bufs s s' →
  rx_ring s' = ring_queued (length ps) (rx_ring s).
Proof.
  intros [_ Hg _ _ _ _ _]. unfold rx_ring at 1. rewrite Hg.
  pose proof (written_ring XEMACPS_RECV (concat (zip_with (ops (rx_ring s))
    (take (length ps) (r_free (rx_ring s))) bufs)) (set_ring XEMACPS_RECV
    (ring_queued (length ps) (rx_ring s)) (gem_view (nic_gem s)))) as Hw.
  by rewrite set_ring_of in Hw.
Qed.

Lemma take_more {A} (l : list A) k k' : (k ≤ length l)%nat →
  take (k + k') l = take k l ++ take k' (drop k l).
Proof.
  intros Hk. rewrite <-(take_drop k l) at 1. rewrite take_app_ge by (rewrite length_take; lia).
  rewrite length_take. f_equal. f_equal. lia.
Qed.

Lemma ring_queued_queued k k' r : (k ≤ length (r_free r))%nat →
  ring_queued k' (ring_queued k r) = ring_queued (k + k') r.
Proof.
  intros Hk. unfold ring_queued. cbn.
  by rewrite drop_drop, (take_more (r_free r)), app_assoc.
Qed.

Lemma filled_app index il il' l l' st : length il = length l →
  filled index (il ++ il') (l ++ l') st = filled index il' l' (filled index il l st).
Proof. intros Hl. unfold filled. by rewrite zip_with_app, foldl_app. Qed.

Lemma got_app l l' v : got (l ++ l') v = got l' (got l v).
Proof. apply foldl_app. Qed.

Lemma refilled_app ops index ps ps' bufs bufs' s1 s2 s3 :
  (∀ k r, ops (ring_queued k r) = ops r) →
  refilled ops index ps bufs s1 s2 → refilled ops index ps' bufs' s2 s3 →
  refilled ops index (ps ++ ps') (bufs ++ bufs') s1 s3.
Proof.
  intros Hops Ha Hb. pose proof (refilled_ring _ _ _ _ _ _ Ha) as Hr.
  destruct Ha as [Hc Hg Hv Hn [Hd Hf] Hbu Hk], Hb as [Hc' Hg' Hv' Hn' [Hd' Hf'] Hbu' Hk'].
  rewrite Hr in *. cbn [r_free ring_queued] in Hc', Hg', Hv'. rewrite length_drop in Hc'.
  set (fr := r_free (rx_ring s1)) in *.
  assert (length (take (length ps) fr) = length ps) as Htl by (rewrite length_take; lia).
  assert (length bufs = length ps) as Hbl by (symmetry; by eapply Forall2_length).
  assert (take (length (ps ++ ps')) fr =
    take (length ps) fr ++ take (length ps') (drop (length ps) fr)) as Htake
    by (rewrite length_app; by apply take_more).
  split; fold fr; rewrite ?Htake.
  - rewrite length_app. lia.
  - rewrite Hg', Hg, Hops, zip_with_app, concat_app by congruence.
    rewrite written_app, <-written_set_ring, set_ring_set, length_app.
    by rewrite ring_queued_queued by done.
  - rewrite Hv', Hv. cbn. rewrite filled_app by done. by destruct (nic_vars s1).
  - by rewrite Hn', Hn, got_app.
  - rewrite Hn in Hf'. split.
    + apply list.NoDup_app. split_and!; [done| |done]. intros p Hp Hp'.
      rewrite list.Forall_forall in Hf'. destruct (Hf' p Hp') as [_ E].
      by rewrite got_lookup, decide_True in E.
    + apply Forall_app_2; [done|]. eapply list.Forall_impl; [exact Hf'|]. intros p [Hp E].
      split; [done|]. rewrite got_lookup in E. by destruct (decide _).
  - apply List.Forall2_app; [|done]. eapply Forall2_impl; [exact Hbu|]. intros p b. apply Hk'.
  - auto.
Qed.

(** The part that [setup_rx_bds] and [init_dma] have in common: a buffer and a
    descriptor for the hardware. *)
Definition arm (msg : string) (k : Z → Z → M (nic N G) bool) : M (nic N G) bool :=
  p ← on_stack (call alloc_rx);
  if p =? NULL then
    link_stat "link.memerr" ;; link_stat "link.drop" ;; nic_print msg [] ;; mret false
  else
    '(status, rxbd) ← gem_call (BdRingAlloc XEMACPS_RECV 1);
    if negb (status =? XST_SUCCESS) then
      on_stack (modify (pbuf_free p)) ;; mret false
    else
      status ← gem_call (BdRingToHw XEMACPS_RECV 1 rxbd);
      if negb (status =? XST_SUCCESS) then
        on_stack (modify (pbuf_free p)) ;;
        gem_call (BdRingUnAlloc XEMACPS_RECV 1 rxbd) ;;
        mret false
      else k p rxbd.

(** Without memory nothing changes but the counters of the link. *)
Definition out_of_memory s s' : Prop :=
  (alloc_rx (nic_net s)).1 = NULL ∧ gem_view (nic_gem s') = gem_view (nic_gem s) ∧
  nic_vars s' = nic_vars s ∧ net_view s' = net_view s ∧
  ∀ q b, pbuf_get q (nic_net s) = Some b → pbuf_get q (nic_net s') = Some b.

Lemma arm_run msg k s i fr : r_pre (rx_ring s) = [] → r_free (rx_ring s) = i :: fr →
  (∃ s', arm msg k s = Ok (false, s') ∧ out_of_memory s s') ∨
  ∃ p b n g, arm msg k s = k p (bd_addr (rx_ring s) i) (Nic n g (nic_vars s)) ∧
    p ≠ NULL ∧ refs (net_view s) !! p = None ∧ view_of_stack n = hold p (net_view s) ∧
    pbuf_get p n = Some b ∧ (∀ q b, pbuf_get q (nic_net s) = Some b → pbuf_get q n = Some b) ∧
    gem_view g = set_ring XEMACPS_RECV (ring_queued 1 (rx_ring s)) (gem_view (nic_gem s)).
Proof.
  intros Hpre Hfree. unfold arm.
  assert (∀ q b, pbuf_get q (nic_net s) = Some b → pbuf_get q (alloc_rx (nic_net s)).2 = Some b) as Hkept
    by (intros q b Hq; unfold alloc_rx; rewrite alloc_get; [done|by rewrite Hq]).
  rewrite run_bind. change (on_stack (call alloc_rx) s) with
    (Ok ((alloc_rx (nic_net s)).1, Nic (alloc_rx (nic_net s)).2 (nic_gem s) (nic_vars s))).
  rewrite bind_Ok_l. unfold out_of_memory. destruct (alloc_rx (nic_net s)) as [p n] eqn:Ea.
  cbn [fst snd] in *. destruct (alloc_spec _ _ _ _ _ _ Ea) as [[-> Hv]|(Hp & Hnone & Hv & b & Hb & _)].
  - left. change (NULL =? NULL) with true. cbn match.
    rewrite run_bind, link_stat_run, bind_Ok_l, run_bind, link_stat_run, bind_Ok_l.
    rewrite run_bind, nic_print_run, bind_Ok_l, run_ret. cbn [nic_net nic_gem nic_vars].
    eexists. split; [reflexivity|]. split_and!; [done|apply gem_printf_law|done| |].
    + unfold net_view. cbn. by rewrite !stats_view.
    + intros q b Hq. cbn. rewrite !stats_get. by apply Hkept.
  - right. exists p, b. apply Z.eqb_neq in Hp as Hp'. rewrite Hp'. nic_run.
    destruct (BdRingAlloc XEMACPS_RECV 1 (nic_gem s)) as [[st bd] g1] eqn:E. cbn [fst snd].
    apply alloc_law in E; [|lia]. cbn [ring_of] in E. fold (rx_ring s) in E.
    rewrite Hfree in E. cbn zeta in E. rewrite decide_True in E by (rewrite length_cons; lia). destruct E as (-> & Hbd & Hg1).
    change (XST_SUCCESS =? XST_SUCCESS) with true. cbn [negb]. cbn in Hbd. subst bd. nic_run.
    destruct (to_hw_law XEMACPS_RECV 1 (bd_addr (rx_ring s) i) g1) as [E Hg2].
    { rewrite Hg1, set_ring_of. unfold is_front, ring_alloc. cbn [r_pre]. rewrite Hpre, Hfree. done. }
    rewrite E. cbn [fst snd]. change (XST_SUCCESS =? XST_SUCCESS) with true. cbn [negb].
    exists n, (BdRingToHw XEMACPS_RECV 1 (bd_addr (rx_ring s) i) g1).2.
    split_and!; [done..|]. rewrite Hg2, Hg1, set_ring_of, set_ring_set. f_equal.
    unfold ring_to_hw, ring_alloc, ring_queued. cbn. by rewrite Hpre, Hfree.
Qed.
(** What is written to the descriptor [i] for a buffer: the status first, the
    word that gives the descriptor to the hardware last. *)
Definition setup_ops (r : ring) (i : nat) (b : pbuf) : list (Z * bd_operation) :=
  [(bd_addr r i, BdWord 4 0); (bd_addr r i, BdWord 8 (Z.shiftr (p_data b) 32));
   (bd_addr r i, BdWord 0
     (if (i =? XLWIP_CONFIG_N_RX_DESC - 1)%nat
      then Z.lor (to_u32 (p_data b)) XEMACPS_RXBUF_WRAP_MASK else to_u32 (p_data b)))].

Definition init_ops (r : ring) (i : nat) (b : pbuf) : list (Z * bd_operation) :=
  [(bd_addr r i, BdWord 0 0)] ++
  (if (i =? XLWIP_CONFIG_N_RX_DESC - 1)%nat then [(bd_addr r i, BdWord 0 2)] else []) ++
  [(bd_addr r i, BdWord 4 0); (bd_addr r i, BdSetAddressRx (p_data b))].

(** What the loops need of the state. *)
Record fillable (index : nat) s : Prop := {
  fill_all : r_all (rx_ring s) = XLWIP_CONFIG_N_RX_DESC;
  fill_pre : r_pre (rx_ring s) = [];
  fill_room : (index + XLWIP_CONFIG_N_RX_DESC ≤ length (v_rxst (nic_vars s)))%nat
}.

Lemma free_lt s i : i ∈ r_free (rx_ring s) → (i < r_all (rx_ring s))%nat.
Proof.
  intros Hi. apply ring_order_lt; [apply rx_ring_ok|]. unfold ring_order. rewrite !elem_of_app. auto.
Qed.

(** A body that writes [ops] and enters the buffer in the array. *)
Lemma refilled_one ops index msg k s i fr :
  fillable index s → r_free (rx_ring s) = i :: fr →
  (∀ p b n g, let s0 := Nic n g (nic_vars s) in
    bd_addr (rx_ring s) i = bd_addr (rx_ring s0) i → r_all (rx_ring s0) = r_all (rx_ring s) →
    pbuf_get p n = Some b → ∃ g', k p (bd_addr (rx_ring s) i) s0 = Ok (true, Nic n g'
        (with_v_rxst (<[(index + i)%nat := p]> (v_rxst (nic_vars s))) (nic_vars s))) ∧
      gem_view g' = written (ops (rx_ring s) i b) (gem_view g)) →
  (∃ s', arm msg k s = Ok (false, s') ∧ out_of_memory s s') ∨
  ∃ p b s', arm msg k s = Ok (true, s') ∧ refilled ops index [p] [b] s s'.
Proof.
  intros [Ha Hpre Hroom] Hfree Hk.
  destruct (arm_run msg k s i fr Hpre Hfree) as [?|(p & b & n & g & E & Hp & Hnone & Hv & Hb & Hkept & Hg)];
    [by left|right].
  assert (rx_ring (Nic n g (nic_vars s)) = ring_queued 1 (rx_ring s)) as Hr
    by (unfold rx_ring; cbn; by rewrite Hg).
  destruct (Hk p b n g) as (g' & E' & Hg'); [by rewrite Hr|by rewrite Hr|done|].
  exists p, b, (Nic n g' (with_v_rxst (<[(index + i)%nat := p]> (v_rxst (nic_vars s))) (nic_vars s))).
  rewrite E. split; [exact E'|]. rewrite Hg in Hg'. split; rewrite ?Hfree; cbn [take length].
  - lia.
  - cbn [zip_with concat nic_gem]. by rewrite app_nil_r.
  - done.
  - exact Hv.
  - split; [apply NoDup_singleton|by constructor].
  - by constructor.
  - exact Hkept.
Qed.

Lemma setup_rx_bd_run index s i fr : fillable index s → r_free (rx_ring s) = i :: fr →
  (∃ s', setup_rx_bd index s = Ok (false, s') ∧ out_of_memory s s') ∨
  ∃ p b s', setup_rx_bd index s = Ok (true, s') ∧ refilled setup_ops index [p] [b] s s'.
Proof.
  intros Hf Hfree. apply (refilled_one setup_ops index _ _ s i fr Hf Hfree).
  intros p b n g s0 Hbd Hall Hb. assert (i < r_all (rx_ring s))%nat as Hi
    by (apply free_lt; rewrite Hfree; by left).
  cbv beta. rewrite Hbd, run_bind, rx_index_run, bind_Ok_l by by rewrite Hall. nic_run.
  rewrite (pbuf_at_run _ b) by done. nic_run.
  rewrite set_rx_storage_run by (cbn; destruct Hf; lia). nic_run.
  eexists. split; [reflexivity|]. by rewrite !bd_op_law, <-Hbd.
Qed.

Lemma init_rx_bd_run index s i fr : fillable index s → r_free (rx_ring s) = i :: fr →
  (∃ s', init_rx_bd index s = Ok (false, s') ∧ out_of_memory s s') ∨
  ∃ p b s', init_rx_bd index s = Ok (true, s') ∧ refilled init_ops index [p] [b] s s'.
Proof.
  intros Hf Hfree. apply (refilled_one init_ops index _ _ s i fr Hf Hfree).
  intros p b n g s0 Hbd Hall Hb. assert (i < r_all (rx_ring s))%nat as Hi
    by (apply free_lt; rewrite Hfree; by left).
  cbv beta. rewrite Hbd, run_bind, rx_index_run, bind_Ok_l by by rewrite Hall. nic_run.
  unfold init_ops. rewrite <-Hbd. case_match; cbn [when]; nic_run;
    (rewrite (pbuf_at_run _ b) by done; nic_run;
     rewrite set_rx_storage_run by (cbn; destruct Hf; lia); nic_run;
     eexists; split; [reflexivity|]; by rewrite !bd_op_law).
Qed.

Lemma refilled_none ops index s s' : gem_view (nic_gem s') = gem_view (nic_gem s) →
  nic_vars s' = nic_vars s → net_view s' = net_view s →
  (∀ q b, pbuf_get q (nic_net s) = Some b → pbuf_get q (nic_net s') = Some b) →
  refilled ops index [] [] s s'.
Proof.
  intros Hg Hv Hn Hk. split; [cbn; lia| | |done|split; constructor|constructor|done].
  - rewrite Hg. cbn. unfold ring_queued. cbn. rewrite app_nil_r.
    destruct (gem_view (nic_gem s)) as [? [] ? ? ?] eqn:E. unfold rx_ring. by rewrite E.
  - rewrite Hv. cbn. by destruct (nic_vars s).
Qed.

Lemma refilled_fillable ops index ps bufs s s' : refilled ops index ps bufs s s' →
  fillable index s → fillable index s'.
Proof.
  intros Hr [Ha Hpre Hroom]. pose proof (refilled_ring _ _ _ _ _ _ Hr) as E. destruct Hr as [_ _ Hv _ _ _ _].
  split; rewrite ?E, ?Hv; [done..|]. cbn. by rewrite filled_length.
Qed.

(** How a loop over the free descriptors ends: all of them filled, or no
    memory for the next one. *)
Definition loop_end (k : nat) (ps : list Z) s' : Prop :=
  length ps = k ∨ (length ps < k)%nat ∧ ∃ n, view_of_stack n = net_view s' ∧ (alloc_rx n).1 = NULL.

Lemma setup_rx_loop_run k index s : fillable index s → (k ≤ length (r_free (rx_ring s)))%nat →
  ∃ ps bufs s', setup_rx_loop k index s = Ok (tt, s') ∧ refilled setup_ops index ps bufs s s' ∧
    loop_end k ps s'.
Proof.
  revert s. induction k as [|k IH]; intros s Hf Hk.
  { exists [], [], s. split_and!; [done|by apply refilled_none|by left]. }
  destruct (r_free (rx_ring s)) as [|i fr] eqn:Hfree; [cbn in Hk; lia|]. cbn [setup_rx_loop].
  destruct (setup_rx_bd_run index s i fr Hf Hfree) as [(s' & E & Hm)|(p & b & s1 & E & Hr)].
  - rewrite run_bind, E, bind_Ok_l. destruct Hm as (Hm & Hg & Hv & Hn & Hq).
    exists [], [], s'. split_and!; [done|by apply refilled_none|]. right. split; [cbn; lia|].
    exists (nic_net s). by rewrite Hn.
  - rewrite run_bind, E, bind_Ok_l. cbn [when].
    destruct (IH s1) as (ps & bufs & s' & E' & Hr' & Hend).
    + by eapply refilled_fillable.
    + rewrite (refilled_ring _ _ _ _ _ _ Hr). cbn. rewrite length_drop, Hfree. cbn in *. lia.
    + exists (p :: ps), (b :: bufs), s'. split_and!; [done| |].
      * by apply (refilled_app setup_ops index [p] ps [b] bufs s s1 s').
      * destruct Hend as [?|[??]]; [left|right; split; [|done]]; cbn; lia.
Qed.

Lemma init_rx_loop_run k index s : fillable index s → (k ≤ length (r_free (rx_ring s)))%nat →
  ∃ ps bufs s', init_rx_loop k index s = Ok (bool_decide (length ps = k), s') ∧
    refilled init_ops index ps bufs s s' ∧ loop_end k ps s'.
Proof.
  revert s. induction k as [|k IH]; intros s Hf Hk.
  { exists [], [], s. split_and!; [done|by apply refilled_none|by left]. }
  destruct (r_free (rx_ring s)) as [|i fr] eqn:Hfree; [cbn in Hk; lia|]. cbn [init_rx_loop].
  destruct (init_rx_bd_run index s i fr Hf Hfree) as [(s' & E & Hm)|(p & b & s1 & E & Hr)].
  - rewrite run_bind, E, bind_Ok_l. destruct Hm as (Hm & Hg & Hv & Hn & Hq).
    exists [], [], s'. split_and!; [done|by apply refilled_none|]. right. split; [cbn; lia|].
    exists (nic_net s). by rewrite Hn.
  - rewrite run_bind, E, bind_Ok_l.
    destruct (IH s1) as (ps & bufs & s' & E' & Hr' & Hend).
    + by eapply refilled_fillable.
    + rewrite (refilled_ring _ _ _ _ _ _ Hr). cbn. rewrite length_drop, Hfree. cbn in *. lia.
    + exists (p :: ps), (b :: bufs), s'. split_and!.
      * rewrite E'. do 2 f_equal. apply bool_decide_ext. cbn. lia.
      * by apply (refilled_app init_ops index [p] ps [b] bufs s s1 s').
      * destruct Hend as [?|[??]]; [left|right; split; [|done]]; cbn; lia.
Qed.
(** ** The invariant is kept *)

Lemma entries_app index l l' st : entries index (l ++ l') st = entries index l st ++ entries index l' st.
Proof. apply fmap_app. Qed.

Lemma entries_filled_other index l il ps st : (∀ i, i ∈ l → i ∉ il) →
  entries index l (filled index il ps st) = entries index l st.
Proof.
  intros Hd. apply list_fmap_ext. intros k i Hi. rewrite !list_lookup_total_alt. f_equal.
  apply filled_other, Hd. by eapply list_elem_of_lookup_2.
Qed.

Lemma entries_filled index il ps st : NoDup il → length il = length ps →
  (∀ i, i ∈ il → (index + i < length st)%nat) → entries index il (filled index il ps st) = ps.
Proof.
  intros Hnd Hl Hlt. apply list_eq. intros k. unfold entries. rewrite list_lookup_fmap.
  destruct (il !! k) as [i|] eqn:Hi; cbn.
  - destruct (lookup_lt_is_Some_2 ps k) as [p Hp]; [rewrite <-Hl; by eapply lookup_lt_Some|].
    rewrite Hp. f_equal. apply list_lookup_total_correct.
    eapply filled_at; [done..|]. apply Hlt. by eapply list_elem_of_lookup_2.
  - symmetry. apply lookup_ge_None. rewrite <-Hl. by apply lookup_ge_None.
Qed.

(** Descriptors of different groups are different. *)
Lemma rx_hw_free s k i : i ∈ r_hw (rx_ring s) → i ∉ take k (r_free (rx_ring s)).
Proof.
  intros Hi Hf. pose proof (ring_order_nodup _ (rx_ring_ok s)) as Hnd. unfold ring_order in Hnd.
  apply list.NoDup_app in Hnd as (_ & _ & Hnd). apply list.NoDup_app in Hnd as (_ & Hd & _).
  apply (Hd i Hi), elem_of_app. right. apply elem_of_take in Hf as (? & Hf & _).
  by eapply list_elem_of_lookup_2.
Qed.

Lemma rx_free_take s k : NoDup (take k (r_free (rx_ring s))) ∧
  ∀ i, i ∈ take k (r_free (rx_ring s)) → (i < r_all (rx_ring s))%nat.
Proof.
  pose proof (ring_order_nodup _ (rx_ring_ok s)) as Hnd. unfold ring_order in Hnd.
  rewrite !app_assoc in Hnd. apply list.NoDup_app in Hnd as (_ & _ & Hnd). split.
  - eapply sublist_NoDup; [exact Hnd|apply sublist_take].
  - intros i Hi. apply free_lt. apply elem_of_take in Hi as (? & Hi & _). by eapply list_elem_of_lookup_2.
Qed.

Lemma refilled_tx ops index ps bufs s s' : refilled ops index ps bufs s s' → tx_ring s' = tx_ring s.
Proof.
  intros [_ Hg _ _ _ _ _]. unfold tx_ring. rewrite Hg.
  by rewrite (written_ring XEMACPS_SEND).
Qed.

Lemma refilled_queue ops index ps bufs s s' : refilled ops index ps bufs s s' → rx_queue s' = rx_queue s.
Proof.
  intros [_ Hg _ _ _ _ _]. unfold rx_queue. by rewrite Hg, written_queue.
Qed.

Lemma refilled_owned ops index ps bufs s s' : rx_inv index s → refilled ops index ps bufs s s' →
  owned index s' ≡ₚ ps ++ owned index s.
Proof.
  intros Hinv Hr. pose proof (refilled_ring _ _ _ _ _ _ Hr) as E.
  pose proof (refilled_queue _ _ _ _ _ _ Hr) as Hq. destruct Hr as [Hc Hg Hv _ _ _ _].
  destruct (rx_free_take s (length ps)) as [Hnd Hlt].
  unfold owned, armed. rewrite E, Hv, Hq. cbn [r_hw ring_queued v_rxst with_v_rxst].
  rewrite entries_app, entries_filled_other, entries_filled.
  - rewrite <-app_assoc, !app_assoc. apply Permutation_app_tail, Permutation_app_comm.
  - done.
  - rewrite length_take. lia.
  - intros i Hi. specialize (Hlt i Hi). rewrite (rx_all _ _ Hinv) in Hlt. pose proof (rx_room _ _ Hinv). lia.
  - intros i Hi. by apply rx_hw_free.
Qed.

Lemma refilled_inv ops index ps bufs s s' : rx_inv index s → refilled ops index ps bufs s s' →
  rx_inv index s' ∧ rx_step index s s'.
Proof.
  intros Hinv Hr. pose proof (refilled_owned _ _ _ _ _ _ Hinv Hr) as Ho.
  pose proof (refilled_ring _ _ _ _ _ _ Hr) as E. pose proof (refilled_tx _ _ _ _ _ _ Hr) as Etx.
  pose proof (refilled_queue _ _ _ _ _ _ Hr) as Eq.
  destruct Hr as [Hc Hg Hv Hn [Hnd Hfresh] _ _]. rewrite list.Forall_forall in Hfresh.
  destruct Hinv as [Hi Ha Hpre Hpost Hroom Hd Hh].
  split; split.
  - by rewrite Hv.
  - by rewrite E.
  - by rewrite E.
  - by rewrite E.
  - rewrite Hv. cbn. by rewrite filled_length.
  - rewrite Ho. apply list.NoDup_app. split_and!; [done| |done].
    intros p Hp Hin. destruct (Hfresh p Hp) as [_ Hnone]. by rewrite Hh in Hnone.
  - intros p Hp. rewrite Ho, elem_of_app in Hp. rewrite Hn, got_lookup.
    destruct (decide (p ∈ ps)); [done|]. destruct Hp; [done|by apply Hh].
  - intros p. rewrite Hn, got_lookup. destruct (decide (p ∈ ps)) as [Hp|Hp].
    + by rewrite decide_True by (rewrite Ho, elem_of_app; auto).
    + destruct (decide (p ∈ owned index s)) as [Hin|Hin].
      * rewrite decide_True by (rewrite Ho, elem_of_app; auto). by apply Hh.
      * rewrite decide_False by (rewrite Ho, elem_of_app; tauto). done.
  - intros p Hp Hno. rewrite Ho, elem_of_app in Hp. destruct Hp as [Hp|]; [|done]. by apply Hfresh.
  - rewrite Hn. apply got_rest.
  - by rewrite Eq.
  - by rewrite Hv.
Qed.

(** The oldest [n] descriptors of the hardware were picked up: their frames
    are in the queue, or given back. *)
Record taken (index n : nat) s s' : Prop := {
  taken_vars : nic_vars s' = nic_vars s;
  taken_frames : ∃ kept lost,
    entries index (take n (r_hw (rx_ring s))) (v_rxst (nic_vars s)) ≡ₚ kept ++ lost ∧
    kept `sublist_of` entries index (take n (r_hw (rx_ring s))) (v_rxst (nic_vars s)) ∧
    gem_view (nic_gem s') = set_queue (rx_queue s ++ kept)
      (set_ring XEMACPS_RECV (ring_sent n (rx_ring s)) (gem_view (nic_gem s))) ∧
    net_view s' = dropped lost (net_view s)
}.

Lemma taken_inv index n s s' : rx_inv index s → taken index n s s' →
  rx_inv index s' ∧ rx_step index s s' ∧ rx_ring s' = ring_sent n (rx_ring s).
Proof.
  intros Hinv [Hv (kept & lost & Hperm & _ & Hg & Hn)].
  assert (rx_ring s' = ring_sent n (rx_ring s)) as E by (unfold rx_ring at 1; by rewrite Hg).
  assert (rx_queue s' = rx_queue s ++ kept) as Eq by (unfold rx_queue at 1; by rewrite Hg).
  assert (tx_ring s' = tx_ring s) as Etx by (unfold tx_ring; by rewrite Hg).
  assert (owned index s ≡ₚ lost ++ owned index s') as Ho.
  { unfold owned, armed. rewrite E, Eq, Hv. cbn [r_hw ring_sent].
    rewrite <-(take_drop n (r_hw (rx_ring s))) at 1. rewrite entries_app, Hperm. solve_Permutation. }
  destruct Hinv as [Hi Ha Hpre Hpost Hroom Hd Hh].
  pose proof Hd as Hd'. rewrite Ho in Hd'. apply list.NoDup_app in Hd' as (Hnl & Hdis & Hnd).
  assert (∀ p, p ∈ owned index s → refs (net_view s') !! p = if decide (p ∈ lost) then None else Some 1)
    as Hrefs by (intros p Hp; rewrite Hn; by apply dropped_lookup, Hh).
  split_and!; [split|split|done].
  - by rewrite Hv.
  - by rewrite E.
  - by rewrite E.
  - by rewrite E.
  - by rewrite Hv.
  - done.
  - intros p Hp. rewrite Hrefs by (rewrite Ho; set_solver). rewrite decide_False; [done|]. intros Hl. by apply (Hdis p).
  - intros p. destruct (decide (p ∈ owned index s)) as [Hp|Hp].
    + rewrite Hrefs by done. rewrite Ho, elem_of_app in Hp.
      destruct (decide (p ∈ lost)) as [Hl|Hl].
      * rewrite decide_False; [done|]. by apply Hdis.
      * rewrite decide_True; [done|tauto].
    + rewrite decide_False by (intros ?; apply Hp; rewrite Ho; set_solver).
      rewrite Hn. apply dropped_other. intros ?. apply Hp. rewrite Ho. set_solver.
  - intros p Hp Hno. destruct Hno. rewrite Ho. set_solver.
  - rewrite Hn. apply dropped_rest.
  - rewrite Eq. by eexists.
  - by rewrite Hv.
Qed.
End Receive.

(** ** Frames still to come

    The handler goes on as long as the hardware completes descriptors, also
    those that it has just filled again: it ends when the line is quiet.
    [arrivals] bounds the number of descriptors that the hardware will complete
    before the handler returns. *)

Class Arrivals (G : Type) `{EmacPs G} := { arrivals : G → nat }.

Class ArrivalsLaws (G : Type) `{Arrivals G} : Prop := {
  from_hw_arrivals limit g n bd g' : BdRingFromHw XEMACPS_RECV limit g = (n, bd, g') →
    (arrivals g' + Z.to_nat n ≤ arrivals g)%nat;
  alloc_arrivals n g : (arrivals (BdRingAlloc XEMACPS_RECV n g).2 ≤ arrivals g)%nat;
  unalloc_arrivals n bd g : (arrivals (BdRingUnAlloc XEMACPS_RECV n bd g).2 ≤ arrivals g)%nat;
  to_hw_arrivals n bd g : (arrivals (BdRingToHw XEMACPS_RECV n bd g).2 ≤ arrivals g)%nat;
  free_arrivals n bd g : (arrivals (BdRingFree XEMACPS_RECV n bd g).2 ≤ arrivals g)%nat;
  bd_op_arrivals bd o g : (arrivals (bd_op bd o g) ≤ arrivals g)%nat;
  enqueue_arrivals p g : (arrivals (pq_enqueue p g).2 ≤ arrivals g)%nat;
  in32_arrivals a g : (arrivals (Xil_In32 a g).2 ≤ arrivals g)%nat;
  out32_arrivals a v g : (arrivals (Xil_Out32 a v g) ≤ arrivals g)%nat;
  printf_arrivals f args g : (arrivals (xil_printf f args g) ≤ arrivals g)%nat
}.

#[global] Instance gemsim_arrivals : Arrivals gemsim := { arrivals := s_done_rx }.

#[global] Instance gemsim_arrivals_laws : ArrivalsLaws gemsim.
Proof.
  split; cbn; try done.
  - intros limit g n bd g' [= <- _ <-]. rewrite Nat2Z.id. cbn. lia.
  - intros n g. by case_decide.
  - intros n bd g. by destruct (sim_front _ _ _ _).
  - intros n bd g. by destruct (sim_front _ _ _ _).
  - intros p g. by destruct (s_room g).
Qed.

Section Quiet.
Context {N G : Type} `{Board} `{Lwip N} `{ArrivalsLaws G}.
Implicit Types s : nic N G.

Definition quieter s s' : Prop := (arrivals (nic_gem s') ≤ arrivals (nic_gem s))%nat.

#[local] Instance quieter_preorder : PreOrder quieter.
Proof. split; [intros s; apply Nat.le_refl|]. intros s1 s2 s3. unfold quieter. lia. Qed.

Lemma gem_call_quieter {A} (f : G → A * G) : (∀ g, (arrivals (f g).2 ≤ arrivals g)%nat) →
  keeps quieter (gem_call f).
Proof. intros Hf s a s' Hs. rewrite gem_call_run in Hs. injection Hs as _ <-. apply Hf. Qed.
Lemma gem_do_quieter (f : G → G) : (∀ g, (arrivals (f g) ≤ arrivals g)%nat) →
  keeps quieter (gem_do f).
Proof. intros Hf s a s' Hs. rewrite gem_do_run in Hs. injection Hs as _ <-. apply Hf. Qed.
Lemma gem_get_quieter {A} (f : G → A) : keeps quieter (gem_get f).
Proof. intros s a s' Hs. rewrite gem_get_run in Hs. injection Hs as _ <-. apply Nat.le_refl. Qed.
Lemma on_stack_quieter {A} (m : M N A) : keeps quieter (on_stack m).
Proof. apply (keeps_zoom _ (λ _ _, True)); [|done]. intros s t _. apply Nat.le_refl. Qed.
Lemma vars_get_quieter {A} (f : emac → A) : keeps quieter (vars_get f).
Proof. apply keeps_gets, _. Qed.
Lemma vars_do_quieter f : keeps quieter (vars_do f).
Proof. apply keeps_modify. intros s. apply Nat.le_refl. Qed.
#[local] Hint Resolve gem_call_quieter gem_do_quieter gem_get_quieter on_stack_quieter vars_get_quieter
  vars_do_quieter alloc_arrivals unalloc_arrivals to_hw_arrivals free_arrivals bd_op_arrivals
  enqueue_arrivals in32_arrivals out32_arrivals printf_arrivals : keeps.

Lemma nic_print_quieter f args : keeps quieter (nic_print f args).
Proof. intros s a s' Hs. rewrite nic_print_run in Hs. injection Hs as _ <-. apply printf_arrivals. Qed.
Lemma base_index_quieter n : keeps quieter (get_base_index n).
Proof. unfold get_base_index. keeps_tac. Qed.
Lemma rx_storage_quieter i : keeps quieter (rx_storage i).
Proof. unfold rx_storage. keeps_tac. Qed.
Lemma set_rx_storage_quieter i x : keeps quieter (set_rx_storage i x).
Proof. unfold set_rx_storage. keeps_tac. Qed.
Lemma bd_index_quieter d bd : keeps quieter (XEMACPS_BD_TO_INDEX d bd).
Proof. unfold XEMACPS_BD_TO_INDEX. keeps_tac. Qed.
#[local] Hint Resolve nic_print_quieter base_index_quieter rx_storage_quieter set_rx_storage_quieter
  bd_index_quieter : keeps.

Lemma receive_bds_quieter index n bd : keeps quieter (receive_bds index n bd).
Proof.
  revert bd. induction n as [|n IH]; intros bd; cbn [receive_bds]; [keeps_tac|].
  unfold receive_bd, link_stat. keeps_tac.
Qed.

Lemma setup_rx_bds_quieter : keeps quieter setup_rx_bds.
Proof.
  unfold setup_rx_bds, get_base_index_rxpbufsstorage. keeps_tac.
  match goal with |- keeps _ (setup_rx_loop ?n ?i) => generalize n; intros k end.
  induction k as [|k IH]; cbn [setup_rx_loop]; [keeps_tac|].
  unfold setup_rx_bd, link_stat. keeps_tac.
Qed.

Lemma ReadReg_quieter o : keeps quieter (ReadReg o).
Proof. unfold ReadReg. keeps_tac. Qed.
Lemma WriteReg_quieter o v : keeps quieter (WriteReg_ o v).
Proof. unfold WriteReg_. keeps_tac. Qed.
Lemma gigeversion_quieter : keeps quieter gigeversion.
Proof. unfold gigeversion. keeps_tac. Qed.
#[local] Hint Resolve ReadReg_quieter WriteReg_quieter gigeversion_quieter : keeps.
Lemma resetrx_quieter : keeps quieter resetrx_on_no_rxdata.
Proof. unfold resetrx_on_no_rxdata. keeps_tac. Qed.
End Quiet.

(** ** The handler *)

Section Handler.
Context {N G : Type} `{Board} `{LwipLaws N} `{EmacPsLaws G}.
Implicit Types s : nic N G.

Lemma rx_hw_take_part s k : ring_order (rx_ring s) =
  r_post (rx_ring s) ++ take k (r_hw (rx_ring s)) ++
    (drop k (r_hw (rx_ring s)) ++ r_pre (rx_ring s) ++ r_free (rx_ring s)).
Proof. unfold ring_order. by rewrite (app_assoc (take _ _)), take_drop. Qed.

Lemma taken_round index n bd s g : rx_inv index s → (0 < n ≤ length (r_hw (rx_ring s)))%nat →
  group_at (rx_ring s) (r_hw (rx_ring s)) bd →
  gem_view g = set_ring XEMACPS_RECV (ring_from_hw n (rx_ring s)) (gem_view (nic_gem s)) →
  ∃ s', (receive_bds index n bd ;; gem_call (BdRingFree XEMACPS_RECV (Z.of_nat n) bd))
      (Nic (nic_net s) g (nic_vars s)) = Ok (XST_SUCCESS, s') ∧ taken index n s s'.
Proof.
  intros Hinv Hn Hbd Hg. set (l := take n (r_hw (rx_ring s))). set (s1 := Nic _ _ _).
  assert (rx_ring s1 = ring_from_hw n (rx_ring s)) as Hr1 by (unfold rx_ring at 1; cbn; by rewrite Hg).
  assert (length l = n) as Hlen by (unfold l; rewrite length_take; lia).
  pose proof (rx_ring_ok s) as Hok. pose proof (rx_hw_take_part s n) as Hpart.
  assert (group_at (rx_ring s) l bd) as Hbl.
  { unfold l. destruct n; [lia|]. by destruct (r_hw (rx_ring s)). }
  destruct (receive_bds_run index l s1 bd) as (n' & g' & kept & lost & E & Hp & Hsub & Hg' & Hv).
  - rewrite Hr1. exact (ring_part_linked _ Hok _ _ _ Hpart).
  - rewrite Hr1. by destruct l.
  - rewrite Hr1. apply list.Forall_forall. intros i Hi.
    assert (i < r_all (rx_ring s))%nat as Hlt by exact (ring_part_lt _ Hok _ _ _ _ Hpart Hi).
    split; [done|]. rewrite (rx_all _ _ Hinv) in Hlt. pose proof (rx_room _ _ Hinv). cbn. lia.
  - rewrite Hlen in E. rewrite run_bind, E, bind_Ok_l. nic_run.
    assert (g_rx (gem_view g') = ring_from_hw n (rx_ring s)) as Hr' by (rewrite Hg'; exact Hr1).
    destruct (free_law XEMACPS_RECV (Z.of_nat n) bd g') as [Ef Hf].
    { cbn [ring_of]. rewrite Hr'. cbn [r_post ring_from_hw]. rewrite (rx_post _ _ Hinv). cbn [app]. fold l.
      split; [lia|]. by destruct l. }
    rewrite Ef. cbn [fst snd]. eexists. split; [done|].
    cbn [ring_of] in Hf. rewrite Hr', Nat2Z.id in Hf. split; cbn [nic_net nic_gem nic_vars]; [done|].
    exists kept, lost. split_and!; [done..| |exact Hv]. rewrite Hf, Hg'. cbn [nic_gem s1].
    unfold rx_queue at 1. cbn [nic_gem s1]. rewrite Hg.
    change (set_ring XEMACPS_RECV ?a (set_queue ?q ?v)) with (set_queue q (set_ring XEMACPS_RECV a v)).
    rewrite set_ring_set. cbn [g_queue set_ring]. do 2 f_equal.
    unfold ring_release, ring_from_hw, ring_sent. cbn.
    rewrite (rx_post _ _ Hinv). cbn. fold l. by rewrite (take_ge l), (drop_ge l) by lia.
Qed.

Lemma setup_rx_bds_run index s : rx_inv index s →
  ∃ ps bufs s', setup_rx_bds s = Ok (tt, s') ∧ refilled setup_ops index ps bufs s s' ∧
    loop_end (length (r_free (rx_ring s))) ps s'.
Proof.
  intros Hinv. unfold setup_rx_bds, get_base_index_rxpbufsstorage.
  rewrite run_bind, (base_index_run _ index), bind_Ok_l by apply Hinv. nic_run.
  rewrite free_cnt_law, Nat2Z.id. cbn [ring_of]. fold (rx_ring s).
  apply setup_rx_loop_run; [|done]. destruct Hinv. by split.
Qed.

Lemma receive_loop_run `{!Arrivals G, !ArrivalsLaws G} index fuel s : rx_inv index s →
  (arrivals (nic_gem s) < fuel)%nat →
  ∃ s', receive_loop fuel index s = Ok (tt, s') ∧ rx_inv index s' ∧ rx_step index s s'.
Proof.
  revert s. induction fuel as [|fuel IH]; intros s Hinv Hf; [lia|].
  cbn [receive_loop]. nic_run.
  destruct (BdRingFromHw _ _ _) as [[n bd] g] eqn:E. cbn [fst snd].
  apply from_hw_arrivals in E as Harr.
  apply from_hw_law in E as (Hn & Hbd & Hg); [|lia]. cbn [ring_of] in *. fold (rx_ring s) in *.
  destruct (Z.leb_spec n 0) as [Hn0|Hn0].
  - assert (n = 0) as -> by lia. eexists. split; [reflexivity|].
    assert (rx_same s (Nic (nic_net s) g (nic_vars s))) as Hsame.
    { split; [|unfold rx_queue; cbn; by rewrite Hg|done..|split_and!; [unfold tx_ring; cbn; by rewrite Hg|done..]].
      unfold rx_ring at 1. cbn. rewrite Hg. cbn. unfold ring_from_hw. cbn.
      rewrite app_nil_r. by destruct (rx_ring s). }
    split; [by eapply rx_same_inv|by apply rx_same_step].
  - destruct (taken_round index (Z.to_nat n) bd s g) as (s1 & E1 & Hs1); [done|lia|by apply Hbd|done|].
    rewrite Z2Nat.id in E1 by lia. destruct (taken_inv _ _ _ _ Hinv Hs1) as (Hinv1 & Hstep1 & _).
    destruct (setup_rx_bds_run index s1 Hinv1) as (ps & bufs & s2 & E2 & Hr2 & _).
    destruct (refilled_inv _ _ _ _ _ _ Hinv1 Hr2) as [Hinv2 Hstep2].
    rewrite run_bind in E1. rewrite run_bind.
    destruct (receive_bds index (Z.to_nat n) bd _) as [[u s0]|] eqn:E0; [|done].
    rewrite bind_Ok_l in E1. rewrite bind_Ok_l, run_bind, E1, bind_Ok_l, run_bind, E2, bind_Ok_l.
    destruct (IH s2) as (s3 & E3 & Hinv3 & Hstep3); [done| |].
    + apply receive_bds_quieter in E0. apply setup_rx_bds_quieter in E2.
      rewrite gem_call_run in E1. injection E1 as _ <-. unfold quieter in *. cbn in *.
      pose proof (free_arrivals n bd (nic_gem s0)). lia.
    + exists s3. split_and!; [done..|].
      eapply rx_step_trans; [exact Hstep1|]. by eapply rx_step_trans.
Qed.

(** ** What is nothing to reception *)

Definition harmless {A} (m : M (nic N G) A) : Prop := ∀ s, ∃ a s', m s = Ok (a, s') ∧ rx_same s s'.

Lemma rx_same_refl s : rx_same s s.
Proof. by split. Qed.

Lemma rx_same_trans s1 s2 s3 : rx_same s1 s2 → rx_same s2 s3 → rx_same s1 s3.
Proof. intros [????(?&?&?&?)] [????(?&?&?&?)]. split; [congruence..|]. split_and!; [congruence..|auto]. Qed.

Lemma harmless_ret {A} (a : A) : harmless (mret a).
Proof. intros s. exists a, s. split; [done|apply rx_same_refl]. Qed.

Lemma harmless_bind {A B} (m : M (nic N G) A) (k : A → M (nic N G) B) :
  harmless m → (∀ a, harmless (k a)) → harmless (m ≫= k).
Proof.
  intros Hm Hk s. destruct (Hm s) as (a & s1 & E & Hs). destruct (Hk a s1) as (b & s2 & E' & Hs').
  exists b, s2. rewrite run_bind, E, bind_Ok_l. split; [done|by eapply rx_same_trans].
Qed.

Lemma harmless_when b m : harmless m → harmless (when b m).
Proof. destruct b; [done|]. intros _. apply harmless_ret. Qed.

Definition no_log (v : gem) : gem := Gem (g_tx v) (g_rx v) (g_queue v) [] [].

Lemma rx_same_gem s g : no_log (gem_view g) = no_log (gem_view (nic_gem s)) →
  rx_same s (Nic (nic_net s) g (nic_vars s)).
Proof.
  intros Hg. injection Hg as Htx Hrx Hq. by split.
Qed.

Lemma harmless_gem_call {A} (f : G → A * G) :
  (∀ g, no_log (gem_view (f g).2) = no_log (gem_view g)) → harmless (gem_call f).
Proof. intros Hf s. rewrite gem_call_run. do 2 eexists. split; [reflexivity|]. apply rx_same_gem, Hf. Qed.

Lemma harmless_gem_do (f : G → G) :
  (∀ g, no_log (gem_view (f g)) = no_log (gem_view g)) → harmless (gem_do f).
Proof. intros Hf s. rewrite gem_do_run. do 2 eexists. split; [reflexivity|]. apply rx_same_gem, Hf. Qed.

Lemma harmless_gem_get {A} (f : G → A) : harmless (gem_get f).
Proof. intros s. rewrite gem_get_run. do 2 eexists. split; [reflexivity|]. apply rx_same_refl. Qed.

Lemma harmless_vars_get {A} (f : emac → A) : harmless (vars_get f).
Proof. intros s. rewrite vars_get_run. do 2 eexists. split; [reflexivity|]. apply rx_same_refl. Qed.

Lemma harmless_vars_do f :
  (∀ v, v_rxst (f v) = v_rxst v ∧ v_txst (f v) = v_txst v ∧ v_base (f v) = v_base v ∧
    (memory_aligned v → memory_aligned (f v))) →
  harmless (vars_do f).
Proof.
  intros Hf s. rewrite vars_do_run. do 2 eexists. split; [reflexivity|].
  destruct (Hf (nic_vars s)) as (?&?&?&?). by split.
Qed.

Lemma in32_no_log a g : no_log (gem_view (Xil_In32 a g).2) = no_log (gem_view g).
Proof. by rewrite gem_in32_law. Qed.
Lemma out32_no_log a v g : no_log (gem_view (Xil_Out32 a v g)) = no_log (gem_view g).
Proof. by rewrite gem_out32_law. Qed.
Lemma mac_no_log o g : no_log (gem_view (mac_op o g).2) = no_log (gem_view g).
Proof. by rewrite mac_op_law. Qed.
Lemma bd_op_no_log bd o g : no_log (gem_view (bd_op bd o g)) = no_log (gem_view g).
Proof. by rewrite bd_op_law. Qed.
Lemma printf_no_log f args g : no_log (gem_view (xil_printf f args g)) = no_log (gem_view g).
Proof. by rewrite gem_printf_law. Qed.
End Handler.

Create HintDb harmless.
#[export] Hint Resolve harmless_gem_get harmless_vars_get harmless_ret
  in32_no_log out32_no_log mac_no_log bd_op_no_log printf_no_log : harmless.
#[export] Hint Extern 1 (harmless (vars_do _)) =>
  apply harmless_vars_do; intros []; split_and!; done : harmless.

(** Walk through a computation. *)
Ltac harmless_step :=
  first [ solve [auto with harmless] | apply harmless_bind; [|intros] | apply harmless_when
    | apply harmless_gem_call; solve [auto with harmless]
    | apply harmless_gem_do; solve [auto with harmless]
    | match goal with |- harmless (match ?x with _ => _ end) => destruct x end ].
Ltac harmless_tac := repeat harmless_step.

Section Registers.
Context {N G : Type} `{Board} `{LwipLaws N} `{EmacPsLaws G}.
Implicit Types s : nic N G.

Lemma mac_harmless o : harmless (mac o : M (nic N G) unit).
Proof. unfold mac. harmless_tac. Qed.
Lemma ReadReg_harmless o : harmless (ReadReg o : M (nic N G) Z).
Proof. unfold ReadReg. harmless_tac. Qed.
Lemma WriteReg_harmless o v : harmless (WriteReg_ o v : M (nic N G) unit).
Proof. unfold WriteReg_. harmless_tac. Qed.
Lemma gigeversion_harmless : harmless (gigeversion : M (nic N G) Z).
Proof. unfold gigeversion. harmless_tac. Qed.
#[local] Hint Resolve mac_harmless ReadReg_harmless WriteReg_harmless gigeversion_harmless : harmless.
Lemma resetrx_harmless : harmless (resetrx_on_no_rxdata : M (nic N G) unit).
Proof. unfold resetrx_on_no_rxdata. harmless_tac. Qed.
End Registers.
#[export] Hint Resolve mac_harmless ReadReg_harmless WriteReg_harmless gigeversion_harmless
  resetrx_harmless : harmless.

(** ** Theorems on reception *)

Section Theorems.
Context {N G : Type} `{Board} `{LwipLaws N} `{EmacPsLaws G}.
Implicit Types s : nic N G.

(** The handler up to its loop. *)
Lemma handler_prologue `{!Arrivals G, !ArrivalsLaws G} index fuel s : rx_inv index s → ∃ s1,
  emacps_recv_handler fuel s = receive_loop fuel index s1 ∧ rx_same s s1 ∧ quieter s s1.
Proof.
  intros Hinv. unfold emacps_recv_handler, get_base_index_rxpbufsstorage.
  destruct (gigeversion_harmless s) as (w & s1 & E1 & Hs1). rewrite run_bind, E1, bind_Ok_l.
  pose proof (rx_same_inv _ _ _ Hs1 Hinv) as Hinv1.
  rewrite run_bind, (base_index_run _ index), bind_Ok_l by apply Hinv1.
  destruct (ReadReg_harmless XEMACPS_RXSR_OFFSET s1) as (r & s2 & E2 & Hs2). rewrite run_bind, E2, bind_Ok_l.
  destruct (WriteReg_harmless XEMACPS_RXSR_OFFSET r s2) as ([] & s3 & E3 & Hs3). rewrite run_bind, E3, bind_Ok_l.
  assert (harmless (when (w <=? 2) (resetrx_on_no_rxdata : M (nic N G) unit))) as Hh by harmless_tac.
  destruct (Hh s3) as ([] & s4 & E4 & Hs4). rewrite run_bind, E4, bind_Ok_l.
  exists s4. split; [done|]. split; [eauto using rx_same_trans|].
  apply gigeversion_quieter in E1. apply ReadReg_quieter in E2. apply WriteReg_quieter in E3.
  assert (quieter s3 s4) as Hq4.
  { unfold when in E4. case_match; [by apply resetrx_quieter in E4|]. injection E4 as <-. unfold quieter. lia. }
  unfold quieter in *. lia.
Qed.

Lemma recv_handler_run `{!Arrivals G, !ArrivalsLaws G} index fuel s :
  rx_inv index s → (arrivals (nic_gem s) < fuel)%nat →
  ∃ s', emacps_recv_handler fuel s = Ok (tt, s') ∧ rx_inv index s' ∧ rx_step index s s'.
Proof.
  intros Hinv Hf. destruct (handler_prologue index fuel s Hinv) as (s1 & E & Hsame & Hq).
  pose proof (rx_same_inv _ _ _ Hsame Hinv) as Hinv1.
  destruct (receive_loop_run index fuel s1) as (s' & E' & Hinv' & Hstep); [done|unfold quieter in *; lia|].
  exists s'. rewrite E. split_and!; [done..|].
  eapply rx_step_trans; [by apply rx_same_step|done].
Qed.

(** C21. Reception.  With fuel for the frames that will arrive while it runs,
    the receive interrupt returns, without any fault, and keeps the
    invariant: every buffer with the hardware or in the queue is held exactly
    once and no two are the same.  A buffer that left both was given back,
    one that came is a new one, all other buffers are untouched: no leak and
    nothing freed twice, with the queue full, the memory exhausted or not.
    Transmission is left alone. *)
Theorem receive_keeps_ownership `{!Arrivals G, !ArrivalsLaws G} index fuel s :
  rx_inv index s → (arrivals (nic_gem s) < fuel)%nat →
  ∃ s', emacps_recv_handler fuel s = Ok (tt, s') ∧ rx_inv index s' ∧ rx_step index s s'.
Proof. exact (recv_handler_run index fuel s). Qed.

(** Refilling.  The oldest free descriptors go to the hardware, each with
    a new buffer: all of them, or as many as there is memory for.  Per
    descriptor the status is cleared first and the word that hands it over is
    written last, with the wrap mark on the last descriptor of the ring. *)
Lemma setup_rx_refills index s : rx_inv index s →
  ∃ ps bufs s', setup_rx_bds s = Ok (tt, s') ∧ refilled setup_ops index ps bufs s s' ∧
    loop_end (length (r_free (rx_ring s))) ps s' ∧ rx_inv index s'.
Proof.
  intros Hinv. destruct (setup_rx_bds_run index s Hinv) as (ps & bufs & s' & E & Hr & Hend).
  exists ps, bufs, s'. split_and!; [done..|]. by eapply refilled_inv.
Qed.
End Theorems.

(** ** A controller that has received *)

(** All four descriptors are with the hardware, which has completed two of
    them; one frame is in the queue. *)
Definition rx_bufs (mem : nat) : net :=
  Net (list_to_map ((λ i, (i, (1, Pbuf NULL (65536 * Z.pos i) (replicate 60 0) 60 0 0))) <$>
    [1%positive; 2%positive; 3%positive; 4%positive; 5%positive])) ∅ [] mem 2.

Definition nic_rx (mem room : nat) : nic net gemsim :=
  Nic (rx_bufs mem) (GemSim (ok_set (ring_create 0x210000 64 4) okring_none)
      (ok_set (Ring 0x200000 64 4 [] [] [0; 1; 2; 3]%nat []) okring_none) [5] [] [] ∅ 0 2 60 room)
    (with_v_rxst ([1; 2; 3; 4] ++ replicate 12 NULL) vars_boot).

Lemma nic_rx_inv mem room : rx_inv 0 (nic_rx mem room).
Proof.
  split; try reflexivity.
  - cbn. lia.
  - change (owned 0 (nic_rx mem room)) with [1; 2; 3; 4; 5]. by_computation.
  - change (owned 0 (nic_rx mem room)) with [1; 2; 3; 4; 5]. intros p.
    rewrite !elem_of_cons, elem_of_nil. intros [->|[->|[->|[->|[->|[]]]]]]; reflexivity.
Qed.

Lemma receive_keeps_ownership_witness :
  ∃ s', emacps_recv_handler 3 (nic_rx 1 1) = Ok (tt, s') ∧ rx_inv 0 s' ∧ rx_step 0 (nic_rx 1 1) s'.
Proof. apply (receive_keeps_ownership 0 3 (nic_rx 1 1) (nic_rx_inv 1 1)). vm_compute. repeat constructor. Defined.

(** Two descriptors are with the hardware and two are free; there is memory
    for one more buffer. *)
Definition nic_low : nic net gemsim :=
  Nic (rx_bufs 1) (GemSim (ok_set (ring_create 0x210000 64 4) okring_none)
      (ok_set (Ring 0x200000 64 4 [0; 1]%nat [] [2; 3]%nat []) okring_none) [5; 1; 2] [] [] ∅ 0 2 60 1)
    (with_v_rxst ([1; 2; 3; 4] ++ replicate 12 NULL) vars_boot).

Lemma nic_low_inv : rx_inv 0 nic_low.
Proof.
  split; try reflexivity.
  - cbn. lia.
  - change (owned 0 nic_low) with [3; 4; 5; 1; 2]. by_computation.
  - change (owned 0 nic_low) with [3; 4; 5; 1; 2]. intros p.
    rewrite !elem_of_cons, elem_of_nil. intros [->|[->|[->|[->|[->|[]]]]]]; reflexivity.
Qed.

Lemma setup_rx_refills_witness :
  ∃ ps bufs s', setup_rx_bds nic_low = Ok (tt, s') ∧ refilled setup_ops 0 ps bufs nic_low s' ∧
    loop_end (length (r_free (rx_ring nic_low))) ps s' ∧ rx_inv 0 s'.
Proof. apply (setup_rx_refills 0 nic_low nic_low_inv). Defined.
