(* ===== verification/DmaInit.v ===== *)
(** * Initialisation and recovery of the DMA

    The theorems on [init_dma], [free_txrx_pbufs] and [HandleEmacPsError]: the
    invariants of both rings are established, and recovery keeps them where
    no descriptor waits for a buffer. *)

From S2P Require Export DmaRx.
From stdpp Require Import list gmap.

#[local] Open Scope Z_scope.

(** ** Giving the buffers back *)

Section Free.
Context {N G : Type} `{Board} `{LwipLaws N} `{EmacPsLaws G}.
Implicit Types s : nic N G.

Lemma null_not_held n : refs (view_of_stack n) !! NULL = None.
Proof.
  destruct (refs (view_of_stack n) !! NULL) eqn:E; [|done].
  by destruct (held_live n NULL) as [? _]; [rewrite E|].
Qed.

Lemma free_null n : view_of_stack (pbuf_free NULL n) = view_of_stack n.
Proof.
  rewrite free_view. unfold drop_ref. rewrite null_not_held. by destruct (view_of_stack n).
Qed.

Lemma free_onlytx_body_run i p s : v_txst (nic_vars s) !! i = Some p →
  ∃ n, free_onlytx_body i s = Ok (tt, Nic n (nic_gem s)
      (with_v_txst (<[i := NULL]> (v_txst (nic_vars s))) (nic_vars s))) ∧
    view_of_stack n = drop_ref p (net_view s).
Proof.
  intros Hp. unfold free_onlytx_body. rewrite run_bind, (tx_storage_run _ p), bind_Ok_l by done.
  destruct (Z.eqb_spec p NULL) as [->|Hn]; cbn [negb when].
  - exists (nic_net s). split; [|unfold net_view; by rewrite <-free_view, free_null].
    rewrite run_ret, list_insert_id by done. by destruct s as [? ? []].
  - nic_run. rewrite set_tx_storage_run by (cbn; by eapply lookup_lt_Some).
    eexists. split; [reflexivity|]. apply free_view.
Qed.

Lemma cleared_cons index i l st : cleared index (i :: l) st = cleared index l (<[(index + i)%nat := NULL]> st).
Proof. done. Qed.

Lemma free_onlytx_loop index k n s : (index + k + n ≤ length (v_txst (nic_vars s)))%nat →
  ∃ n', for_range (index + k) n free_onlytx_body s = Ok (tt, Nic n' (nic_gem s)
      (with_v_txst (cleared index (seq k n) (v_txst (nic_vars s))) (nic_vars s))) ∧
    view_of_stack n' = dropped (entries index (seq k n) (v_txst (nic_vars s))) (net_view s).
Proof.
  revert k s. induction n as [|n IH]; intros k s Hlen; cbn [for_range seq].
  { exists (nic_net s). split; [by destruct s as [? ? []]|done]. }
  destruct (lookup_lt_is_Some_2 (v_txst (nic_vars s)) (index + k)) as [p Hp]; [lia|].
  destruct (free_onlytx_body_run _ p s Hp) as (n1 & E & Hv).
  rewrite run_bind, E, bind_Ok_l. set (s1 := Nic _ _ _).
  destruct (IH (Datatypes.S k) s1) as (n' & E' & Hv'); [cbn; rewrite length_insert; lia|].
  exists n'. rewrite <-Nat.add_succ_r. rewrite E'. split; [done|]. rewrite Hv'.
  cbn [nic_vars s1 v_txst with_v_txst]. rewrite entries_ne by (rewrite elem_of_seq; lia).
  unfold entries at 2. cbn [fmap list_fmap]. rewrite (list_lookup_total_correct _ _ _ Hp).
  unfold net_view. cbn [nic_net s1]. by rewrite Hv.
Qed.

Lemma free_rx_loop index k n s : (index + k + n ≤ length (v_rxst (nic_vars s)))%nat →
  ∃ n', for_range (index + k) n (λ i, p ← rx_storage i; on_stack (modify (pbuf_free p))) s =
      Ok (tt, Nic n' (nic_gem s) (nic_vars s)) ∧
    view_of_stack n' = dropped (entries index (seq k n) (v_rxst (nic_vars s))) (net_view s).
Proof.
  revert k s. induction n as [|n IH]; intros k s Hlen; cbn [for_range seq].
  { exists (nic_net s). split; [by destruct s|done]. }
  destruct (lookup_lt_is_Some_2 (v_rxst (nic_vars s)) (index + k)) as [p Hp]; [lia|].
  rewrite run_bind, run_bind, (rx_storage_run _ p), bind_Ok_l, stack_do_run, bind_Ok_l by done.
  set (s1 := Nic _ _ _).
  destruct (IH (Datatypes.S k) s1) as (n' & E' & Hv'); [cbn; lia|].
  exists n'. rewrite <-Nat.add_succ_r. rewrite E'. split; [done|]. rewrite Hv'.
  unfold entries at 2. cbn [fmap list_fmap]. rewrite (list_lookup_total_correct _ _ _ Hp).
  unfold net_view. cbn [nic_net s1]. by rewrite free_view.
Qed.

(** What [free_txrx_pbufs] gives back: the buffer of every entry of either
    array, whether or not its descriptor is with the hardware. *)
Definition tx_entries_all (index : nat) s : list Z :=
  entries index (seq 0 XLWIP_CONFIG_N_TX_DESC) (v_txst (nic_vars s)).
Definition rx_entries_all (index : nat) s : list Z :=
  entries index (seq 0 XLWIP_CONFIG_N_RX_DESC) (v_rxst (nic_vars s)).

Lemma free_txrx_run ti ri s : tx_inv ti s → rx_inv ri s →
  ∃ n, free_txrx_pbufs s = Ok (tt, Nic n (nic_gem s)
      (with_v_txst (cleared ti (seq 0 XLWIP_CONFIG_N_TX_DESC) (v_txst (nic_vars s))) (nic_vars s))) ∧
    view_of_stack n = dropped (tx_entries_all ti s ++ rx_entries_all ri s) (net_view s).
Proof.
  intros Ht Hr. unfold free_txrx_pbufs, free_onlytx_pbufs, get_base_index_txpbufsstorage,
    get_base_index_rxpbufsstorage.
  rewrite run_bind, run_bind, (base_index_run _ ti), bind_Ok_l by apply Ht.
  destruct (free_onlytx_loop ti 0 XLWIP_CONFIG_N_TX_DESC s) as (n1 & E1 & Hv1).
  { rewrite Nat.add_0_r. apply Ht. }
  rewrite Nat.add_0_r in E1. rewrite E1, bind_Ok_l.
  set (s1 := Nic _ _ _). rewrite run_bind, (base_index_run _ ri), bind_Ok_l by apply Hr.
  destruct (free_rx_loop ri 0 XLWIP_CONFIG_N_RX_DESC s1) as (n2 & E2 & Hv2).
  { rewrite Nat.add_0_r. apply Hr. }
  rewrite Nat.add_0_r in E2. exists n2. split; [exact E2|].
  rewrite Hv2. unfold net_view at 1. cbn [nic_net s1]. by rewrite Hv1, dropped_app.
Qed.
End Free.

(** ** Initialisation *)

(** The driver documents that the creation of a ring fails only for memory that
    is not aligned or for no descriptors at all, and that a template can be
    cloned into a ring that was just created.  The board has descriptors in
    both directions, and [bd_space] is aligned to more than its blocks. *)
Class RingsCreated (G : Type) `{Board, EmacPs G} : Prop := {
  create_succeeds d base n g : base mod BD_ALIGNMENT = 0 → 0 < n →
    (BdRingCreate d base BD_ALIGNMENT n g).1 = XST_SUCCESS;
  clone_succeeds d t base n g : (BdRingCreate d base BD_ALIGNMENT n g).1 = XST_SUCCESS →
    (BdRingClone d t (BdRingCreate d base BD_ALIGNMENT n g).2).1 = XST_SUCCESS;
  rx_descs : (0 < XLWIP_CONFIG_N_RX_DESC)%nat;
  tx_descs : (0 < XLWIP_CONFIG_N_TX_DESC)%nat;
  bd_space_aligned : bd_space mod 0x10000 = 0;
  block_aligned : 0x10000 mod BD_ALIGNMENT = 0
}.

#[global] Instance gemsim_created : RingsCreated gemsim.
Proof. split; cbn; (done || lia). Qed.

(** A whole number of blocks into [bd_space]. *)
Lemma block_address `{RingsCreated G} i : i mod 0x10000 = 0 → (bd_space + i) mod BD_ALIGNMENT = 0.
Proof.
  intros Hi. pose proof bd_space_aligned as Hb. pose proof block_aligned as Ha.
  assert (BD_ALIGNMENT ≠ 0) as Hn by (intros Hn; rewrite Hn in Ha; done).
  apply Z.mod_divide in Ha, Hb, Hi; [|done..]. apply Z.mod_divide; [done|].
  apply Z.divide_add_r; by etrans.
Qed.

Section Init.
Context {N G : Type} `{Board} `{LwipLaws N} `{EmacPsLaws G} `{!RingsCreated G}.
Implicit Types s : nic N G.

(** What initialisation needs: no buffer left for transmission, and a queue
    whose buffers are held. *)
Record ready (ti ri : nat) s : Prop := {
  ready_ti : base_index_from XLWIP_CONFIG_N_TX_DESC 0 (take 4 XPAR_XEMACPS_BASEADDR)
    (v_base (nic_vars s)) None = Some ti;
  ready_ri : base_index_from XLWIP_CONFIG_N_RX_DESC 0 (take 4 XPAR_XEMACPS_BASEADDR)
    (v_base (nic_vars s)) None = Some ri;
  ready_tx_room : (ti + XLWIP_CONFIG_N_TX_DESC ≤ length (v_txst (nic_vars s)))%nat;
  ready_rx_room : (ri + XLWIP_CONFIG_N_RX_DESC ≤ length (v_rxst (nic_vars s)))%nat;
  ready_tx i : (i < XLWIP_CONFIG_N_TX_DESC)%nat → v_txst (nic_vars s) !! (ti + i)%nat = Some NULL;
  ready_queue : NoDup (rx_queue s);
  ready_held p : p ∈ rx_queue s → refs (net_view s) !! p = Some 1;
  ready_memory : memory_aligned (nic_vars s)
}.

Lemma ready_same ti ri s s' : rx_same s s' → ready ti ri s → ready ti ri s'.
Proof.
  intros [Hr Hq Hn Hs (Ht&Hts&Hb&Hm)] [????? Hnd Hh Hmem]. split; rewrite ?Hb, ?Hts, ?Hs, ?Hq, ?Hn; auto.
Qed.

Lemma tx_inv_same index s s' : tx_inv index s → tx_ring s' = tx_ring s →
  v_txst (nic_vars s') = v_txst (nic_vars s) → v_base (nic_vars s') = v_base (nic_vars s) →
  (memory_aligned (nic_vars s) → memory_aligned (nic_vars s')) → tx_inv index s'.
Proof. intros [Hi Ha Hpre Hpost Hroom Hent Hmem] Hr Hs Hb Hm. split; rewrite ?Hr, ?Hs, ?Hb; auto. Qed.

Lemma take_bd_space_ok s : 0 ≤ v_space (nic_vars s) < BD_SPACE_SIZE →
  ∃ s', take_bd_space s = Ok (bd_space + v_space (nic_vars s), s') ∧ rx_same s s' ∧
    v_space (nic_vars s') = v_space (nic_vars s) + 0x10000.
Proof.
  intros Hi. unfold take_bd_space. nic_run.
  destruct (Z.leb_spec BD_SPACE_SIZE (v_space (nic_vars s))); [lia|]. nic_run.
  eexists. split; [reflexivity|]. cbn. assert (to_u32 (v_space (nic_vars s) + 0x10000) =
    v_space (nic_vars s) + 0x10000) as -> by (unfold to_u32, BD_SPACE_SIZE in *; rewrite Z.mod_small; lia).
  split; [|done]. split; [done..|]. split_and!; [done..|]. intros [Hsp Htx]. split; [cbn; lia|exact Htx].
Qed.

Lemma checked_run m k s st s1 : m s = Ok (st, s1) → st = XST_SUCCESS → checked m k s = k s1.
Proof. intros E ->. unfold checked. by rewrite run_bind, E, bind_Ok_l. Qed.

Lemma create_run d base n s : base mod BD_ALIGNMENT = 0 → 0 < n → ∃ sep s1,
  gem_call (BdRingCreate d base BD_ALIGNMENT n) s = Ok (XST_SUCCESS, s1) ∧
  gem_view (nic_gem s1) = set_ring d (ring_create base sep (Z.to_nat n)) (gem_view (nic_gem s)) ∧
  nic_net s1 = nic_net s ∧ nic_vars s1 = nic_vars s ∧
  ∀ t, ∃ s2, gem_call (BdRingClone d t) s1 = Ok (XST_SUCCESS, s2) ∧
    gem_view (nic_gem s2) = gem_view (nic_gem s1) ∧ nic_net s2 = nic_net s ∧ nic_vars s2 = nic_vars s.
Proof.
  intros Hal Hn. rewrite gem_call_run. pose proof (create_succeeds d base n (nic_gem s) Hal Hn) as Hc.
  pose proof (λ t, clone_succeeds d t base n (nic_gem s) Hc) as Hcl.
  destruct (BdRingCreate d base BD_ALIGNMENT n (nic_gem s)) as [st g] eqn:E. cbn [fst snd] in *. subst st.
  destruct (create_law _ _ _ _ _ _ _ E eq_refl) as [sep Hg]. exists sep. eexists. split; [reflexivity|].
  split_and!; [done..|]. intros t. rewrite gem_call_run. cbn [nic_net nic_gem nic_vars]. rewrite Hcl.
  eexists. split; [reflexivity|]. cbn. by rewrite clone_law.
Qed.

(** The rings are created, and the receive ring is filled with the new buffers
    [ps]: all of it, or as far as there is memory, which is an error. *)
Record started (ti ri : nat) (ps : list Z) (r : Z) s s' : Prop := {
  started_result : r = if bool_decide (length ps = XLWIP_CONFIG_N_RX_DESC) then 0 else ERR_IF;
  started_end : loop_end XLWIP_CONFIG_N_RX_DESC ps s';
  started_net : net_view s' = got ps (net_view s);
  started_fresh : Forall (λ p, refs (net_view s) !! p = None) ps;
  started_queue : rx_queue s' = rx_queue s;
  started_tx : r_hw (tx_ring s') = [];
  started_rx : length (r_hw (rx_ring s')) = length ps;
  started_owned : owned ri s' ≡ₚ ps ++ rx_queue s;
  started_tx_inv : tx_inv ti s';
  started_rx_inv : rx_inv ri s'
}.

(** Both rings are there, and empty. *)
Record created (ti ri : nat) (rxspace : Z) s s' : Prop := {
  created_vars : nic_vars s' = nic_vars s;
  created_net : net_view s' = net_view s;
  created_queue : rx_queue s' = rx_queue s;
  created_owned : owned ri s' = rx_queue s;
  created_tx : r_hw (tx_ring s') = [];
  created_rx : ∃ sep, rx_ring s' = ring_create rxspace sep XLWIP_CONFIG_N_RX_DESC;
  created_tx_inv : tx_inv ti s';
  created_rx_inv : rx_inv ri s'
}.

Lemma create_rings_run ti ri rxspace txspace (k : M (nic N G) Z) s : ready ti ri s →
  rxspace mod BD_ALIGNMENT = 0 → txspace mod BD_ALIGNMENT = 0 →
  ∃ s', checked (gem_call (BdRingCreate XEMACPS_RECV rxspace BD_ALIGNMENT
      (Z.of_nat XLWIP_CONFIG_N_RX_DESC)))
    (checked (gem_call (BdRingClone XEMACPS_RECV [BdClear]))
    (checked (gem_call (BdRingCreate XEMACPS_SEND txspace BD_ALIGNMENT
      (Z.of_nat XLWIP_CONFIG_N_TX_DESC)))
    (checked (gem_call (BdRingClone XEMACPS_SEND tx_template)) k))) s = k s' ∧
    created ti ri rxspace s s'.
Proof.
  intros [Hti Hri Htr Hrr Htx Hnd Hh Hmem] Hra Hta. pose proof rx_descs as Hrd. pose proof tx_descs as Htd.
  destruct (create_run XEMACPS_RECV rxspace (Z.of_nat XLWIP_CONFIG_N_RX_DESC) s)
    as (sep & s1 & E1 & Hg1 & Hn1 & Hv1 & Hcl1); [done|lia|]. rewrite (checked_run _ _ _ _ _ E1) by done.
  destruct (Hcl1 [BdClear]) as (s2 & E2 & Hg2 & Hn2 & Hv2). rewrite (checked_run _ _ _ _ _ E2) by done.
  destruct (create_run XEMACPS_SEND txspace (Z.of_nat XLWIP_CONFIG_N_TX_DESC) s2)
    as (sep' & s3 & E3 & Hg3 & Hn3 & Hv3 & Hcl3); [done|lia|]. rewrite (checked_run _ _ _ _ _ E3) by done.
  destruct (Hcl3 tx_template) as (s4 & E4 & Hg4 & Hn4 & Hv4). rewrite (checked_run _ _ _ _ _ E4) by done.
  rewrite Nat2Z.id in Hg1, Hg3. exists s4. split; [done|].
  assert (nic_vars s4 = nic_vars s) as Hv by congruence.
  assert (net_view s4 = net_view s) as Hn by (unfold net_view; congruence).
  assert (rx_ring s4 = ring_create rxspace sep XLWIP_CONFIG_N_RX_DESC) as Hr
    by (unfold rx_ring; by rewrite Hg4, Hg3, Hg2, Hg1).
  assert (tx_ring s4 = ring_create txspace sep' XLWIP_CONFIG_N_TX_DESC) as Ht
    by (unfold tx_ring; by rewrite Hg4, Hg3).
  assert (rx_queue s4 = rx_queue s) as Hq by (unfold rx_queue; by rewrite Hg4, Hg3, Hg2, Hg1).
  assert (owned ri s4 = rx_queue s) as Ho by (unfold owned, armed; by rewrite Hr, Hq).
  split; [done|done|done|done|by rewrite Ht|by exists sep| |].
  - split; rewrite ?Ht, ?Hv; try done. intros i Hi. exists NULL. split; [by apply Htx|].
    split; [done|]. intros Hx. by apply elem_of_nil in Hx.
  - split; rewrite ?Hr, ?Hv, ?Ho, ?Hn; done.
Qed.

Lemma rings_run ti ri rxspace txspace (tail : M (nic N G) Z) s : ready ti ri s →
  rxspace mod BD_ALIGNMENT = 0 → txspace mod BD_ALIGNMENT = 0 →
  (∀ t, ∃ t', tail t = Ok (0, t') ∧ rx_same t t') →
  ∃ ps r s', checked (gem_call (BdRingCreate XEMACPS_RECV rxspace BD_ALIGNMENT
      (Z.of_nat XLWIP_CONFIG_N_RX_DESC)))
    (checked (gem_call (BdRingClone XEMACPS_RECV [BdClear]))
    (checked (gem_call (BdRingCreate XEMACPS_SEND txspace BD_ALIGNMENT
      (Z.of_nat XLWIP_CONFIG_N_TX_DESC)))
    (checked (gem_call (BdRingClone XEMACPS_SEND tx_template))
    (ok ← init_rx_loop XLWIP_CONFIG_N_RX_DESC ri;
     if negb ok then mret ERR_IF else tail)))) s = Ok (r, s') ∧
    started ti ri ps r s s'.
Proof.
  intros Hready Hra Hta Htail.
  edestruct (create_rings_run ti ri rxspace txspace) as (s4 & E4 & Hcr); [exact Hready|done..|].
  rewrite E4. clear E4. destruct Hcr as [Hv Hn Hq Ho Ht [sep Hr] Htxi Hrx].
  destruct (init_rx_loop_run XLWIP_CONFIG_N_RX_DESC ri s4) as (ps & bufs & s5 & E5 & Hr5 & Hend).
  { destruct Hrx. by split. }
  { rewrite Hr. cbn. by rewrite length_seq. }
  destruct (refilled_inv _ _ _ _ _ _ Hrx Hr5) as [Hrx5 Hstep5].
  pose proof (refilled_owned _ _ _ _ _ _ Hrx Hr5) as Ho5. rewrite Ho in Ho5.
  pose proof (refilled_queue _ _ _ _ _ _ Hr5) as Hq5. pose proof (refilled_ring _ _ _ _ _ _ Hr5) as Hring5.
  destruct Hr5 as [Hc5 _ _ Hn5 [_ Hf5] _ _]. destruct Hstep5 as [_ _ _ _ (Ht5&Hs5&Hb5&Hm5)].
  rewrite run_bind, E5, bind_Ok_l. rewrite Hn in Hn5, Hf5.
  assert (∃ r s', (if negb (bool_decide (length ps = XLWIP_CONFIG_N_RX_DESC)) then mret ERR_IF else tail) s5 =
    Ok (r, s') ∧ rx_same s5 s' ∧
    r = if bool_decide (length ps = XLWIP_CONFIG_N_RX_DESC) then 0 else ERR_IF) as (r & s' & E & Hs & Hres).
  { case_bool_decide; cbn [negb].
    - destruct (Htail s5) as (s' & E & Hs). by exists 0, s'.
    - exists ERR_IF, s5. split_and!; [done|apply rx_same_refl|done]. }
  exists ps, r, s'. split; [exact E|].
  pose proof (rx_same_inv _ _ _ Hs Hrx5) as Hrx'. pose proof (rx_same_owned ri _ _ Hs) as Ho'. destruct Hs as [Hsr Hsq Hsn Hss (Hst&Hsts&Hsb&Hsm)].
  split; [exact Hres|..].
  - unfold loop_end in *. by rewrite Hsn.
  - by rewrite Hsn.
  - eapply list.Forall_impl; [exact Hf5|]. by intros p [_ ?].
  - by rewrite Hsq, Hq5.
  - by rewrite Hst, Ht5.
  - rewrite Hsr, Hring5, Hr in *. cbn in *. rewrite length_take. lia.
  - by rewrite Ho', Ho5.
  - eapply tx_inv_same; [exact Htxi|congruence..|auto].
  - done.
Qed.

Lemma same_started ti ri ps r s s' s'' : started ti ri ps r s s' → rx_same s' s'' →
  started ti ri ps (if bool_decide (length ps = XLWIP_CONFIG_N_RX_DESC) then 0 else ERR_IF) s s''.
Proof.
  intros [_ Hend Hn Hf Hq Ht Hr Ho Hti Hri] Hs. pose proof (rx_same_inv _ _ _ Hs Hri).
  pose proof (rx_same_owned ri _ _ Hs) as Ho'.
  destruct Hs as [Hsr Hsq Hsn Hss (Hst&Hsts&Hsb&Hsm)].
  split; rewrite ?Ho', ?Hsr, ?Hsq, ?Hsn, ?Hst; try done.
  - unfold loop_end. by rewrite Hsn.
  - by eapply tx_inv_same.
Qed.

(** The blocks of [bd_space]. *)
Lemma terminators_run w s : 0 ≤ v_space (nic_vars s) → v_space (nic_vars s) + 0x20000 ≤ BD_SPACE_SIZE →
  ∃ ab s', (if 2 <? w then a ← take_bd_space; b ← take_bd_space; mret (a, b)
    else mret (NULL, NULL)) s = Ok (ab, s') ∧ rx_same s s'.
Proof.
  intros Hlo Hhi. destruct (2 <? w).
  - destruct (take_bd_space_ok s) as (s1 & E1 & Hs1 & Hsp1); [lia|].
    destruct (take_bd_space_ok s1) as (s2 & E2 & Hs2 & _); [lia|].
    rewrite run_bind, E1, bind_Ok_l, run_bind, E2, bind_Ok_l. do 2 eexists. split; [reflexivity|].
    by eapply rx_same_trans.
  - do 2 eexists. split; [reflexivity|]. apply rx_same_refl.
Qed.

Lemma started_same ti ri ps r s0 s s' : rx_same s0 s → started ti ri ps r s s' → started ti ri ps r s0 s'.
Proof.
  intros [Hr Hq Hn Hs _] [?????????]. rewrite Hn in *. rewrite Hq in *. by split.
Qed.

Lemma start_queues_run w a b s : ∃ s', start_queues w a b s = Ok (0, s') ∧ rx_same s s'.
Proof.
  assert (harmless (start_queues w a b : M (nic N G) Z)) as Hm by (unfold start_queues; harmless_tac).
  destruct (Hm s) as (z & s' & E & Hs). exists s'. split; [|done].
  rewrite E. do 2 f_equal. clear -E. unfold start_queues in E. minv. done.
Qed.

Lemma init_dma_run ti ri s : ready ti ri s → 0 < bd_space →
  0 ≤ v_space (nic_vars s) → v_space (nic_vars s) + 0x40000 ≤ BD_SPACE_SIZE →
  ∃ ps r s', init_dma s = Ok (r, s') ∧ started ti ri ps r s s'.
Proof.
  intros Hready Hb Hlo Hhi. unfold init_dma, get_base_index_rxpbufsstorage.
  rewrite run_bind, (base_index_run _ ri), bind_Ok_l by apply Hready.
  destruct (gigeversion_harmless s) as (w & s1 & E1 & Hs1). rewrite run_bind, E1, bind_Ok_l.
  apply gigeversion_space in E1 as [Hsp1 _].
  rewrite run_bind, vars_get_run, bind_Ok_l. set (m := when _ _).
  assert (harmless m) as Hm by (unfold m; harmless_tac).
  assert (keeps same_space m) as Hkm.
  { unfold m. intros t a t' Ht. unfold when in Ht. case_match; [|by injection Ht as _ <-].
    rewrite run_bind, mac_run, bind_Ok_l, vars_do_run in Ht. by injection Ht as _ <-. }
  destruct (Hm s1) as (u & s2 & E2 & Hs2). rewrite run_bind, E2, bind_Ok_l.
  apply Hkm in E2 as [E2 _]. clear m Hm Hkm.
  destruct (take_bd_space_ok s2) as (s3 & E3 & Hs3 & Hsp3); [lia|].
  rewrite run_bind, E3, bind_Ok_l, run_bind, vars_do_run, bind_Ok_l. set (s4 := Nic _ _ _).
  assert (rx_same s3 s4) as Hs4 by by split.
  assert (v_space (nic_vars s4) = v_space (nic_vars s3)) as Hsp4 by done.
  destruct (take_bd_space_ok s4) as (s5 & E5 & Hs5 & Hsp5); [lia|].
  rewrite run_bind, E5, bind_Ok_l, run_bind, vars_do_run, bind_Ok_l. set (s6 := Nic _ _ _).
  assert (∀ x, x = v_space (nic_vars s) ∨ x = v_space (nic_vars s) + 0x10000 →
    (bd_space + x) mod BD_ALIGNMENT = 0) as Hal.
  { pose proof (ready_memory _ _ _ Hready) as [Hsp _]. intros x Hx. apply block_address. lia. }
  assert (rx_same s5 s6) as Hs6.
  { split; [done..|]. split_and!; [done..|]. intros [Hsp _]. split; [exact Hsp|]. cbn. apply Hal. lia. }
  assert (v_space (nic_vars s6) = v_space (nic_vars s5)) as Hsp6 by done.
  destruct (terminators_run w s6) as ([a b] & s7 & E7 & Hs7); [lia..|].
  rewrite run_bind, E7, bind_Ok_l.
  assert (rx_same s s7) as Hs by eauto 9 using rx_same_trans.
  assert (∀ x, 0 ≤ x → (bd_space + x =? NULL) = false) as Hnn
    by (intros x Hx; apply Z.eqb_neq; unfold NULL; lia).
  rewrite !Hnn by lia. cbn [orb].
  match goal with |- context [checked (gem_call (BdRingCreate _ ?x _ _)) _] =>
    destruct (rings_run ti ri x (bd_space + v_space (nic_vars s4)) (start_queues w a b) s7)
      as (ps & r & s' & E & Hst); [by eapply ready_same|apply Hal; lia|apply Hal; lia|apply start_queues_run|]
  end.
  exists ps, r, s'. split; [exact E|]. by eapply started_same.
Qed.
End Init.

(** ** Recovery *)

Section Recovery.
Context {N G : Type} `{Board} `{LwipLaws N} `{EmacPsLaws G} `{!RingsCreated G}.
Implicit Types s : nic N G.

(** Where every descriptor of the ring is with the hardware, the entries of
    the array are the buffers of the hardware. *)
Lemma rx_entries_armed ri s : rx_inv ri s → r_free (rx_ring s) = [] →
  rx_entries_all ri s ≡ₚ armed ri s.
Proof.
  intros Hinv Hfree. unfold rx_entries_all, armed, entries. apply fmap_Permutation.
  rewrite <-(rx_all _ _ Hinv), <-(ring_order_perm _ (rx_ring_ok s)). unfold ring_order.
  by rewrite (rx_pre _ _ Hinv), (rx_post _ _ Hinv), Hfree, !app_nil_r.
Qed.

(** After the buffers were given back, with the frames in the queue not among
    them, the interface is ready for initialisation. *)
Lemma freed_ready ti ri s n g : tx_inv ti s → rx_inv ri s →
  (∀ p, p ∈ rx_queue s → p ∉ tx_entries_all ti s ++ rx_entries_all ri s) →
  view_of_stack n = dropped (tx_entries_all ti s ++ rx_entries_all ri s) (net_view s) →
  g_queue (gem_view g) = rx_queue s →
  ready ti ri (Nic n g
    (with_v_txst (cleared ti (seq 0 XLWIP_CONFIG_N_TX_DESC) (v_txst (nic_vars s))) (nic_vars s))).
Proof.
  intros Ht Hr Hq Hn Hg. pose proof (rx_distinct _ _ Hr) as Hnd. unfold owned in Hnd.
  apply list.NoDup_app in Hnd as (_ & _ & Hnd). pose proof (tx_room _ _ Ht) as Hroom.
  split; cbn [nic_vars v_base v_txst v_rxst with_v_txst].
  - apply Ht.
  - apply Hr.
  - by rewrite cleared_length.
  - apply Hr.
  - intros i Hi. rewrite cleared_lookup by lia. rewrite bool_decide_true; [done|]. apply elem_of_seq. lia.
  - unfold rx_queue. cbn. by rewrite Hg.
  - intros p Hp. unfold rx_queue in Hp. cbn in Hp. rewrite Hg in Hp. unfold net_view. cbn. rewrite Hn.
    rewrite dropped_lookup by (apply (rx_held _ _ Hr); unfold owned; apply elem_of_app; by right).
    rewrite decide_False; [done|by apply Hq].
  - apply Ht.
Qed.

(** The recovery up to the initialisation. *)
Lemma recovery_prefix ti ri s : tx_inv ti s → rx_inv ri s → ∃ n t,
  HandleEmacPsError s = (init_dma ;; mac MacStartEmacps) t ∧
  view_of_stack n = dropped (tx_entries_all ti s ++ rx_entries_all ri s) (net_view s) ∧
  rx_same (Nic n (CfgInitialize (v_base (nic_vars s)) (nic_gem s)).2
    (with_v_txst (cleared ti (seq 0 XLWIP_CONFIG_N_TX_DESC) (v_txst (nic_vars s))) (nic_vars s))) t ∧
  same_space s t.
Proof.
  intros Ht Hr. unfold HandleEmacPsError.
  destruct (free_txrx_run ti ri s Ht Hr) as (n & E & Hn). rewrite run_bind, E, bind_Ok_l.
  rewrite run_bind, vars_get_run, bind_Ok_l, run_bind, gem_call_run, bind_Ok_l.
  cbn [nic_net nic_gem nic_vars v_base with_v_txst]. set (g := (CfgInitialize _ _).2). set (s1 := Nic _ g _).
  destruct (mac_harmless MacInitOnError s1) as ([] & s2 & E2 & Hs2). rewrite run_bind, E2, bind_Ok_l.
  destruct (ReadReg_harmless XEMACPS_DMACR_OFFSET s2) as (w & s3 & E3 & Hs3). rewrite run_bind, E3, bind_Ok_l.
  destruct (WriteReg_harmless XEMACPS_DMACR_OFFSET (Z.lor w 0x01000000) s3) as ([] & s4 & E4 & Hs4).
  rewrite run_bind, E4, bind_Ok_l.
  destruct (mac_harmless MacSetupIsr s4) as ([] & s5 & E5 & Hs5). rewrite run_bind, E5, bind_Ok_l.
  exists n, s5. split_and!; [done|done|eauto 6 using rx_same_trans|].
  apply ReadReg_space in E3. apply WriteReg_space in E4. rewrite mac_run in E2, E5.
  injection E2 as <-. injection E5 as <-. destruct E3, E4. split; cbn in *; congruence.
Qed.

Lemma recovery_run ti ri s : tx_inv ti s → rx_inv ri s → r_free (rx_ring s) = [] →
  (∀ p, p ∈ rx_queue s → p ∉ tx_entries_all ti s) →
  0 < bd_space → 0 ≤ v_space (nic_vars s) → v_space (nic_vars s) + 0x40000 ≤ BD_SPACE_SIZE →
  ∃ ps s', HandleEmacPsError s = Ok (tt, s') ∧ tx_inv ti s' ∧ rx_inv ri s' ∧
    net_view s' = got ps (dropped (tx_entries_all ti s ++ armed ri s) (net_view s)) ∧
    rx_queue s' = rx_queue s ∧ r_hw (tx_ring s') = [] ∧
    length (r_hw (rx_ring s')) = length ps ∧ loop_end XLWIP_CONFIG_N_RX_DESC ps s' ∧
    owned ri s' ≡ₚ ps ++ rx_queue s ∧
    Forall (λ p, refs (dropped (tx_entries_all ti s ++ armed ri s) (net_view s)) !! p = None) ps.
Proof.
  intros Ht Hr Hfree Hq Hb Hlo Hhi. pose proof (rx_entries_armed ri s Hr Hfree) as Harmed.
  destruct (recovery_prefix ti ri s Ht Hr) as (n & t & -> & Hn & Hs & [Hsp _]).
  set (g := (CfgInitialize _ _).2) in Hs. set (s1 := Nic _ g _) in Hs.
  assert (ready ti ri s1) as Hready.
  { apply freed_ready; try done; [|apply cfg_queue_law]. intros p Hp. rewrite elem_of_app, Harmed.
    intros [Hin|Hin]; [by apply (Hq p)|]. pose proof (rx_distinct _ _ Hr) as Hnd.
    apply list.NoDup_app in Hnd as (_ & Hd & _). by apply (Hd p). }
  assert (net_view s1 = dropped (tx_entries_all ti s ++ armed ri s) (net_view s)) as Hn1.
  { unfold net_view at 1. cbn. rewrite Hn. apply dropped_perm. by rewrite Harmed. }
  assert (rx_queue s1 = rx_queue s) as Hq1 by (unfold rx_queue; apply cfg_queue_law).
  clearbody s1. clear Hn g.
  destruct (init_dma_run ti ri t) as (ps & r & t' & E & Hst); [by eapply ready_same|done|lia|lia|].
  destruct (mac_harmless MacStartEmacps t') as ([] & s' & E' & Hs').
  exists ps, s'. rewrite run_bind, E. split; [exact E'|].
  eapply same_started, (started_same _ _ _ _ s1) in Hst as [_ Hend Hnet Hf Hqueue Htx Hrx Ho Hti Hri]; [|done..].
  rewrite Hnet, Hqueue, Hn1, Hq1. rewrite Hq1 in Ho. rewrite Hn1 in Hf. by split_and!.
Qed.

(** C22. Recovery from an error of the controller.  Where every receive
    descriptor is with the hardware, recovery succeeds: every buffer that
    belonged to a descriptor is given back once, the queue survives, both
    rings start again, the transmit ring empty and the receive ring with new
    buffers as far as there is memory, and both invariants hold. *)
Theorem recovery_restores ti ri s : tx_inv ti s → rx_inv ri s → r_free (rx_ring s) = [] →
  (∀ p, p ∈ rx_queue s → p ∉ tx_entries_all ti s) →
  0 < bd_space → 0 ≤ v_space (nic_vars s) → v_space (nic_vars s) + 0x40000 ≤ BD_SPACE_SIZE →
  ∃ ps s', HandleEmacPsError s = Ok (tt, s') ∧ tx_inv ti s' ∧ rx_inv ri s' ∧
    net_view s' = got ps (dropped (tx_entries_all ti s ++ armed ri s) (net_view s)) ∧
    rx_queue s' = rx_queue s ∧ r_hw (tx_ring s') = [] ∧
    length (r_hw (rx_ring s')) = length ps ∧ loop_end XLWIP_CONFIG_N_RX_DESC ps s'.
Proof.
  intros. destruct (recovery_run ti ri s) as (ps & s' & E & Hr); [done..|].
  exists ps, s'. split; [done|]. tauto.
Qed.

(** C23. Recovery after a shortage of memory.  The buffers of all entries are
    given back, also those of descriptors that wait for a buffer, whose entries
    still name the frames they received: a frame in the queue survives exactly
    if no entry names it, and is gone, but still in the queue, otherwise. *)
Theorem recovery_frees_queued ti ri s : tx_inv ti s → rx_inv ri s →
  (∀ p, p ∈ rx_queue s → p ∉ tx_entries_all ti s) →
  ∃ s', free_txrx_pbufs s = Ok (tt, s') ∧ rx_queue s' = rx_queue s ∧
    ∀ p, p ∈ rx_queue s →
      refs (net_view s') !! p = if decide (p ∈ rx_entries_all ri s) then None else Some 1.
Proof.
  intros Ht Hr Hq. destruct (free_txrx_run ti ri s Ht Hr) as (n & E & Hn).
  eexists. split; [exact E|]. split; [done|]. intros p Hp. unfold net_view. cbn [nic_net]. rewrite Hn.
  rewrite dropped_lookup by (apply (rx_held _ _ Hr); unfold owned; apply elem_of_app; by right).
  specialize (Hq p Hp). destruct (decide (p ∈ rx_entries_all ri s)) as [Hin|Hin].
  - rewrite decide_True; [done|]. apply elem_of_app. by right.
  - rewrite decide_False; [done|]. by rewrite elem_of_app; intros [|].
Qed.

(** An error of transmission: the transmit ring starts again empty, and the
    buffers that were queued are given back once. *)
Lemma tx_errors_recovered ti s : tx_inv ti s → ∃ s', HandleTxErrors s = Ok (tt, s') ∧ tx_inv ti s' ∧
  r_hw (tx_ring s') = [] ∧ net_view s' = dropped (tx_entries_all ti s) (net_view s) ∧
  rx_ring s' = rx_ring s ∧ rx_queue s' = rx_queue s ∧ v_rxst (nic_vars s') = v_rxst (nic_vars s) ∧
  v_base (nic_vars s') = v_base (nic_vars s).
Proof.
  intros Ht. unfold HandleTxErrors.
  destruct (ReadReg_harmless XEMACPS_NWCTRL_OFFSET s) as (w & s1 & E1 & Hs1). rewrite run_bind, E1, bind_Ok_l.
  destruct (WriteReg_harmless XEMACPS_NWCTRL_OFFSET (Z.ldiff w XEMACPS_NWCTRL_TXEN_MASK) s1)
    as ([] & s2 & E2 & Hs2). rewrite run_bind, E2, bind_Ok_l.
  pose proof (rx_same_trans _ _ _ Hs1 Hs2) as [Hr Hq Hn Hrs (Htr&Hts&Hb&Hm)]. clear s1 E1 E2 Hs1 Hs2.
  assert (tx_inv ti s2) as Ht2 by by eapply tx_inv_same.
  unfold free_onlytx_pbufs, get_base_index_txpbufsstorage.
  rewrite run_bind, run_bind, (base_index_run _ ti), bind_Ok_l by apply Ht2.
  destruct (free_onlytx_loop ti 0 XLWIP_CONFIG_N_TX_DESC s2) as (n & E & Hv).
  { rewrite Nat.add_0_r. apply Ht2. }
  rewrite Nat.add_0_r in E. rewrite E, bind_Ok_l. set (s3 := Nic n _ _).
  unfold clean_dma_txdescs. rewrite run_bind, run_bind, vars_get_run, bind_Ok_l.
  pose proof tx_descs as Htd.
  destruct (create_run XEMACPS_SEND (v_txspace (nic_vars s3)) (Z.of_nat XLWIP_CONFIG_N_TX_DESC) s3)
    as (sep & s4 & E4 & Hg4 & Hn4 & Hv4 & Hcl); [apply Ht2|lia|].
  rewrite run_bind, E4, bind_Ok_l.
  destruct (Hcl tx_template) as (s5 & E5 & Hg5 & Hn5 & Hv5).
  rewrite run_bind, E5, bind_Ok_l, run_ret, bind_Ok_l. rewrite Nat2Z.id in Hg4.
  destruct (ReadReg_harmless XEMACPS_NWCTRL_OFFSET s5) as (w' & s6 & E6 & Hs6). rewrite run_bind, E6, bind_Ok_l.
  destruct (WriteReg_harmless XEMACPS_NWCTRL_OFFSET (Z.lor w' XEMACPS_NWCTRL_TXEN_MASK) s6)
    as ([] & s7 & E7 & Hs7). exists s7. split; [exact E7|].
  pose proof (rx_same_trans _ _ _ Hs6 Hs7) as [Hr' Hq' Hn' Hrs' (Htr'&Hts'&Hb'&Hm')].
  assert (nic_vars s5 = nic_vars s3) as Hv53 by congruence.
  assert (tx_ring s5 = ring_create (v_txspace (nic_vars s3)) sep XLWIP_CONFIG_N_TX_DESC) as Ht5
    by (unfold tx_ring; by rewrite Hg5, Hg4).
  assert (rx_ring s5 = rx_ring s2 ∧ rx_queue s5 = rx_queue s2) as [Hr5 Hq5]
    by (unfold rx_ring, rx_queue; by rewrite Hg5, Hg4).
  split_and!; [|by rewrite Htr', Ht5|..|congruence|congruence|rewrite Hrs', Hv53; exact Hrs|rewrite Hb', Hv53; exact Hb].
  - destruct Ht2 as [Hti _ _ _ Hroom _ Hmem]. split; rewrite ?Htr', ?Hts', ?Hb', ?Ht5, ?Hv53; try done.
    + cbn. by rewrite cleared_length.
    + intros i Hi. exists NULL. cbn. rewrite cleared_lookup by lia.
      rewrite bool_decide_true by (apply elem_of_seq; lia). split; [done|]. split; [done|].
      intros Hx. by apply elem_of_nil in Hx.
    + apply Hm'. rewrite Hv53. exact Hmem.
  - rewrite Hn'. unfold net_view at 1. rewrite Hn5. cbn [nic_net s3]. rewrite Hv.
    unfold tx_entries_all. by rewrite Hn, Hts.
Qed.
End Recovery.

(** ** A recovery, and one too many *)

Lemma nic_rx_tx mem room : tx_inv 0 (nic_rx mem room).
Proof.
  split; try reflexivity; [cbn; lia| |by split].
  intros i Hi. exists NULL. change (v_txst (nic_vars (nic_rx mem room))) with (replicate 16 NULL).
  split; [apply lookup_replicate_2; cbn in Hi; lia|]. split; [done|].
  intros Hx. change (r_hw (tx_ring (nic_rx mem room))) with (@nil nat) in Hx. by apply elem_of_nil in Hx.
Qed.

Lemma recovery_restores_witness :
  ∃ ps s', HandleEmacPsError (nic_rx 3 1) = Ok (tt, s') ∧ tx_inv 0 s' ∧ rx_inv 0 s' ∧
    net_view s' = got ps (dropped (tx_entries_all 0 (nic_rx 3 1) ++ armed 0 (nic_rx 3 1)) (net_view (nic_rx 3 1))) ∧
    rx_queue s' = rx_queue (nic_rx 3 1) ∧ r_hw (tx_ring s') = [] ∧
    length (r_hw (rx_ring s')) = length ps ∧ loop_end XLWIP_CONFIG_N_RX_DESC ps s'.
Proof.
  apply (recovery_restores 0 0 (nic_rx 3 1) (nic_rx_tx 3 1) (nic_rx_inv 3 1)).
  - reflexivity.
  - change (rx_queue (nic_rx 3 1)) with [5]. intros p ->%list_elem_of_singleton. by_computation.
  - reflexivity.
  - by_computation.
  - by_computation.
Defined.

(** Two frames arrive and there is no memory to fill their descriptors again. *)
Definition nic_short : nic net gemsim :=
  match emacps_recv_handler 3 (nic_rx 0 8) with Ok (_, s) => s | Fault _ => nic_rx 0 8 end.

Lemma nic_short_inv : rx_inv 0 nic_short.
Proof.
  assert (owned 0 nic_short = [3; 4; 5; 1; 2]) as Ho by (vm_compute; reflexivity).
  split; try (vm_compute; reflexivity).
  - by_computation.
  - rewrite Ho. by_computation.
  - rewrite Ho. intros p. rewrite !elem_of_cons, elem_of_nil.
    intros [->|[->|[->|[->|[->|[]]]]]]; vm_compute; reflexivity.
Qed.

Lemma nic_short_tx : tx_inv 0 nic_short.
Proof.
  split; try (vm_compute; reflexivity); [by_computation| |by_computation].
  assert (v_txst (nic_vars nic_short) = replicate 16 NULL) as -> by (vm_compute; reflexivity).
  assert (r_hw (tx_ring nic_short) = []) as -> by (vm_compute; reflexivity).
  intros i Hi. exists NULL. split; [apply lookup_replicate_2; cbn in Hi; lia|]. split; [done|].
  intros Hx. by apply elem_of_nil in Hx.
Qed.

(** The recovery that follows frees them while they are in the queue. *)
Lemma recovery_frees_queued_witness :
  emacps_recv_handler 3 (nic_rx 0 8) = Ok (tt, nic_short) ∧
  rx_queue nic_short = [5; 1; 2] ∧ rx_entries_all 0 nic_short = [1; 2; 3; 4] ∧
  ∃ s', free_txrx_pbufs nic_short = Ok (tt, s') ∧ rx_queue s' = rx_queue nic_short ∧
    ∀ p, p ∈ rx_queue nic_short →
      refs (net_view s') !! p = if decide (p ∈ rx_entries_all 0 nic_short) then None else Some 1.
Proof.
  split; [vm_compute; reflexivity|]. split; [vm_compute; reflexivity|]. split; [vm_compute; reflexivity|].
  apply (recovery_frees_queued 0 0 nic_short nic_short_tx nic_short_inv).
  assert (rx_queue nic_short = [5; 1; 2]) as -> by (vm_compute; reflexivity).
  assert (tx_entries_all 0 nic_short = [0; 0; 0; 0]) as -> by (vm_compute; reflexivity).
  intros p Hp. rewrite !elem_of_cons, elem_of_nil in *. lia.
Defined.
