(* ===== verification/BdSpace.v ===== *)
(** * The memory for descriptors

    Every initialisation of the DMA takes blocks of [bd_space] and gives none
    back: how many recoveries there can be in the life of the program. *)

From S2P Require Export DmaInit.
From stdpp Require Import list gmap.

#[local] Open Scope Z_scope.

Section Recoveries.
Context {N G : Type} `{Board} `{LwipLaws N} `{EmacPsLaws G} `{!RingsCreated G}.
Implicit Types s : nic N G.

(** Recoveries one after the other; in between anything may happen that is not
    an initialisation. *)
Inductive recoveries : nat → relation (nic N G) :=
  | no_recovery s s' : same_space s s' → recoveries 0 s s'
  | one_recovery n s s1 s2 s3 : recoveries n s s1 →
      HandleEmacPsError s1 = Ok (tt, s2) → same_space s2 s3 → recoveries (S n) s s3.

(** [n] recoveries one right after the other. *)
Fixpoint recover (n : nat) s : outcome (nic N G) :=
  match n with
  | O => Ok s
  | S n' => s1 ← recover n' s; '(_, s2) ← HandleEmacPsError s1; Ok s2
  end.

Lemma recover_recoveries n s s' : recover n s = Ok s' → recoveries n s s'.
Proof.
  revert s'. induction n as [|n IH]; cbn; intros s' Hr.
  - injection Hr as <-. by apply no_recovery.
  - apply bind_Ok in Hr as (s1 & H1' & Hr). apply bind_Ok in Hr as ([[] s2] & H2' & [= <-]).
    eapply one_recovery; [by apply IH|exact H2'|done].
Qed.

Lemma recoveries_space version n s s' : (∀ g, version_at (v_base (nic_vars s)) g = version) →
  0 ≤ v_space (nic_vars s) ≤ BD_SPACE_SIZE → v_space (nic_vars s) mod dma_blocks version = 0 →
  recoveries n s s' →
  v_space (nic_vars s') = v_space (nic_vars s) + Z.of_nat n * dma_blocks version ∧
  v_space (nic_vars s') ≤ BD_SPACE_SIZE ∧ v_base (nic_vars s') = v_base (nic_vars s).
Proof.
  intros Hver Hs Hmod. induction 1 as [s s' [Hsp Hb]|n s s1 s2 s3 _ IH Hr [Hsp Hb]].
  - rewrite Hsp, Hb. lia.
  - destruct (IH Hver Hs Hmod) as (E & Hle & Eb). pose proof (dma_blocks_cases version) as Hd.
    apply (recovery_space version) in Hr as (Hle' & E' & Eb'); [| |destruct Hd; lia|].
    + rewrite Hsp, Hb, E', Eb', E, Eb. rewrite Nat2Z.inj_succ. split_and!; [ring|lia|done].
    + intros g. rewrite Eb. apply Hver.
    + rewrite E. rewrite Z_mod_plus_full. exact Hmod.
Qed.

(** Without a block left the initialisation leaves the array. *)
Lemma take_full s : v_space (nic_vars s) = BD_SPACE_SIZE →
  take_bd_space s = (Fault (OutOfBounds BD_SPACE_SIZE) : outcome (Z * nic N G)).
Proof. intros Hs. unfold take_bd_space. by rewrite run_bind, vars_get_run, bind_Ok_l, Hs. Qed.

Lemma init_dma_full ri s :
  base_index_from XLWIP_CONFIG_N_RX_DESC 0 (take 4 XPAR_XEMACPS_BASEADDR) (v_base (nic_vars s)) None = Some ri →
  v_space (nic_vars s) = BD_SPACE_SIZE → init_dma s = Fault (OutOfBounds BD_SPACE_SIZE).
Proof.
  intros Hri Hsp. unfold init_dma, get_base_index_rxpbufsstorage.
  rewrite run_bind, (base_index_run _ ri), bind_Ok_l by done.
  rewrite run_bind, gigeversion_run, bind_Ok_l, run_bind, vars_get_run, bind_Ok_l, run_bind.
  unfold when. destruct (_ =? 0).
  - rewrite run_bind, mac_run, bind_Ok_l, vars_do_run, bind_Ok_l, run_bind. by rewrite take_full.
  - rewrite run_ret, bind_Ok_l, run_bind. by rewrite take_full.
Qed.

Lemma recovery_full ti ri s : tx_inv ti s → rx_inv ri s → v_space (nic_vars s) = BD_SPACE_SIZE →
  HandleEmacPsError s = Fault (OutOfBounds BD_SPACE_SIZE).
Proof.
  intros Ht Hr Hsp. destruct (recovery_prefix ti ri s Ht Hr) as (n & t & -> & _ & _ & [Hspt Hbt]).
  rewrite run_bind, (init_dma_full ri); [done|rewrite Hbt; apply Hr|congruence].
Qed.

(** How many recoveries there can be after the initialisation of the interface. *)
Definition most_recoveries (version : Z) : nat := if 2 <? version then 7 else 15.

(** C26. Recovery is bounded.  The first initialisation, by [low_level_init],
    and every recovery that returns take 128 KiB of the 2 MiB of [bd_space], or
    256 KiB for a controller of version 3 or later, and nothing is ever given
    back.  So there are at most fifteen recoveries in the life of the program,
    or seven; after that many the array is used up, and the next error of the
    controller makes the initialisation run past its end. *)
Theorem recoveries_bounded version n s0 r s s' : (∀ g, version_at (v_base (nic_vars s0)) g = version) →
  v_space (nic_vars s0) = 0 → init_dma s0 = Ok (r, s) → recoveries n s s' →
  v_space (nic_vars s') = Z.of_nat (S n) * dma_blocks version ∧
  (n ≤ most_recoveries version)%nat ∧
  (n = most_recoveries version → ∀ ti ri, tx_inv ti s' → rx_inv ri s' →
    HandleEmacPsError s' = Fault (OutOfBounds BD_SPACE_SIZE)).
Proof.
  intros Hver H0' Hi Hn.
  destruct (init_dma_space version s0 r s) as (Hle & E & Eb); [done|lia|by rewrite H0'|done|].
  destruct (recoveries_space version n s s') as (E' & Hle' & _); [by rewrite Eb| | |done|].
  { pose proof (dma_blocks_cases version). lia. }
  { rewrite E, H0', Z.add_0_l. apply Z_mod_same_full. }
  assert (v_space (nic_vars s') = Z.of_nat (S n) * dma_blocks version) as E2
    by (rewrite E', E, H0', Nat2Z.inj_succ; ring).
  split; [done|]. clear E E' Hle. unfold most_recoveries, dma_blocks, BD_SPACE_SIZE in *.
  split; [destruct (2 <? version); lia|]. intros -> ti ri Ht Hr. apply (recovery_full ti ri); [done..|].
  rewrite E2. by destruct (2 <? version).
Qed.
End Recoveries.

(** Fifteen recoveries do happen, and the sixteenth leaves the array. *)
Definition nic_first : nic net gemsim :=
  match init_dma (nic_rx 64 1) with Ok (_, s) => s | Fault _ => nic_rx 64 1 end.

Definition nic_full : nic net gemsim :=
  match recover 15 nic_first with Ok s => s | Fault _ => nic_first end.

Lemma nic_full_inv : rx_inv 0 nic_full.
Proof.
  assert (owned 0 nic_full = [6; 7; 8; 9; 5]) as Ho by (vm_compute; reflexivity).
  split; try (vm_compute; reflexivity).
  - by_computation.
  - rewrite Ho. by_computation.
  - rewrite Ho. intros p. rewrite !elem_of_cons, elem_of_nil.
    intros [->|[->|[->|[->|[->|[]]]]]]; vm_compute; reflexivity.
Qed.

Lemma nic_full_tx : tx_inv 0 nic_full.
Proof.
  split; try (vm_compute; reflexivity); [by_computation| |by_computation].
  assert (v_txst (nic_vars nic_full) = replicate 16 NULL) as -> by (vm_compute; reflexivity).
  assert (r_hw (tx_ring nic_full) = []) as -> by (vm_compute; reflexivity).
  intros i Hi. exists NULL. split; [apply lookup_replicate_2; cbn in Hi; lia|]. split; [done|].
  intros Hx. by apply elem_of_nil in Hx.
Qed.

Lemma recoveries_bounded_witness :
  v_space (nic_vars nic_full) = 0x200000 ∧ HandleEmacPsError nic_full = Fault (OutOfBounds 0x200000).
Proof.
  assert (recoveries 15 nic_first nic_full) as Hr.
  { apply recover_recoveries. unfold nic_full.
    assert (is_Ok (recover 15 nic_first) = true) as Hok by (vm_compute; reflexivity).
    by destruct (recover 15 nic_first). }
  destruct (recoveries_bounded 2 15 (nic_rx 64 1) 0 nic_first nic_full) as (Hsp & _ & Hfull);
    [done|reflexivity|vm_compute; reflexivity|exact Hr|].
  split; [exact Hsp|]. exact (Hfull eq_refl 0%nat 0%nat nic_full_tx nic_full_inv).
Defined.
