(* ===== verification/Interleave.v ===== *)
(** * The driver as a whole: any order of events

    Output and input by the main loop, the interrupts of both directions, the
    recoveries, the allocations and releases of the program and the progress of
    the hardware, in any order in which each is allowed.  Each operation is one
    step: the sources put the operations of the main loop between
    [SYS_ARCH_PROTECT] and [SYS_ARCH_UNPROTECT], and the interrupts of the
    controller do not nest. *)

From S2P Require Export DmaInit MacFilter.
From stdpp Require Import list gmap relations.

#[local] Open Scope Z_scope.

(** ** How often a buffer occurs *)

Definition count (p : Z) (l : list Z) : Z := Z.of_nat (count_occ Z.eq_dec l p).

Lemma count_nonneg p l : 0 ≤ count p l.
Proof. unfold count. lia. Qed.

Lemma count_cons p q l : count p (q :: l) = (if decide (q = p) then 1 else 0) + count p l.
Proof. unfold count. cbn. destruct (Z.eq_dec q p), (decide (q = p)); (done || lia). Qed.

Lemma count_app p l l' : count p (l ++ l') = count p l + count p l'.
Proof. unfold count. rewrite count_occ_app. lia. Qed.

Lemma count_perm p l l' : l ≡ₚ l' → count p l = count p l'.
Proof. intros Hp. unfold count. by rewrite (proj1 (Permutation_count_occ Z.eq_dec l l') Hp p). Qed.

Lemma count_in p l : p ∈ l ↔ 0 < count p l.
Proof. unfold count. rewrite list_elem_of_In, (count_occ_In Z.eq_dec). lia. Qed.

Lemma count_not_in p l : p ∉ l → count p l = 0.
Proof. rewrite count_in. pose proof (count_nonneg p l). lia. Qed.

Lemma count_nodup p l : NoDup l → count p l = if decide (p ∈ l) then 1 else 0.
Proof.
  intros Hnd. destruct (decide (p ∈ l)) as [Hp|Hp]; [|by apply count_not_in].
  apply count_in in Hp. apply NoDup_ListNoDup in Hnd. rewrite (NoDup_count_occ Z.eq_dec) in Hnd.
  unfold count in *. specialize (Hnd p). lia.
Qed.

(** ** Numbers of references *)

(** A buffer that is gone has none. *)
Definition nrefs (p : Z) (v : stack) : Z := default 0 (refs v !! p).

Lemma nrefs_some p v : 0 < nrefs p v → refs v !! p = Some (nrefs p v).
Proof. unfold nrefs. by destruct (refs v !! p). Qed.

Lemma nrefs_drop p q v : nrefs p (drop_ref q v) = nrefs p v - (if decide (q = p) then
  if decide (is_Some (refs v !! p)) then 1 else 0 else 0).
Proof.
  unfold nrefs. rewrite drop_ref_refs. destruct (decide (p = q)) as [->|].
  - rewrite decide_True by done. destruct (refs v !! q) as [r|]; cbn.
    + rewrite decide_True by done. destruct (Z.eqb_spec r 1); cbn; lia.
    + by rewrite decide_False by by intros [].
  - rewrite decide_False by done. lia.
Qed.

Lemma nrefs_dropped p l v : count p l ≤ nrefs p v → nrefs p (dropped l v) = nrefs p v - count p l.
Proof.
  revert v. induction l as [|q l IH]; intros v Hc; [change (nrefs p v = nrefs p v - 0); lia|].
  rewrite count_cons in Hc |- *. pose proof (count_nonneg p l).
  change (dropped (q :: l) v) with (dropped l (drop_ref q v)).
  assert (nrefs p (drop_ref q v) = nrefs p v - (if decide (q = p) then 1 else 0)) as E.
  { rewrite nrefs_drop. destruct (decide (q = p)); [|done].
    rewrite (nrefs_some p v) by lia. by rewrite decide_True. }
  rewrite IH; rewrite E; lia.
Qed.

Lemma nrefs_held p l v : nrefs p (held l v) = nrefs p v + count p l.
Proof.
  revert v. induction l as [|q l IH]; intros v; [change (nrefs p v = nrefs p v + 0); lia|].
  change (held (q :: l) v) with (held l (add_ref q v)). rewrite IH, count_cons.
  unfold nrefs, add_ref. cbn. destruct (decide (q = p)) as [->|].
  - rewrite lookup_insert_eq. cbn. lia.
  - rewrite lookup_insert_ne by done. lia.
Qed.

Lemma held_other p l v : p ∉ l → refs (held l v) !! p = refs v !! p.
Proof.
  revert v. induction l as [|q l IH]; intros v Hp; [done|].
  apply list.not_elem_of_cons in Hp as [Hpq Hp].
  change (held (q :: l) v) with (held l (add_ref q v)). rewrite IH by done.
  cbn. by rewrite lookup_insert_ne.
Qed.

(** ** The invariant of the driver *)

Section Driver.
Context {N G : Type} `{Board} `{LwipLaws N} `{EmacPsLaws G}.
Implicit Types s : nic N G.

(** The buffers of the descriptors that wait for transmission or completion. *)
Definition queued_tx (ti : nat) s : list Z := entries ti (r_hw (tx_ring s)) (v_txst (nic_vars s)).

(** Each descriptor that transmits has a reference of its own, and no buffer
    is used in both directions. *)
Record nic_inv (ti ri : nat) s : Prop := {
  inv_tx : tx_inv ti s;
  inv_rx : rx_inv ri s;
  inv_apart p : p ∈ queued_tx ti s → p ∉ owned ri s;
  inv_counted p : count p (queued_tx ti s) ≤ nrefs p (net_view s)
}.

(** The references to a buffer that are not the driver's. *)
Definition app_refs (ti ri : nat) (p : Z) s : Z :=
  nrefs p (net_view s) - count p (queued_tx ti s) - (if decide (p ∈ owned ri s) then 1 else 0).

Lemma owned_nrefs ri p s : rx_inv ri s → p ∈ owned ri s → nrefs p (net_view s) = 1.
Proof. intros Hr Hp. unfold nrefs. by rewrite (rx_held _ _ Hr). Qed.

Lemma owned_app_refs ti ri p s : nic_inv ti ri s → p ∈ owned ri s → app_refs ti ri p s = 0.
Proof.
  intros [_ Hr Ha _] Hp. unfold app_refs. rewrite (owned_nrefs ri) by done.
  rewrite decide_True, count_not_in by (done || by intros ?%Ha). done.
Qed.

(** What transmission leaves alone. *)
Record rx_kept s s' : Prop := {
  kept_ring : rx_ring s' = rx_ring s;
  kept_queue : rx_queue s' = rx_queue s;
  kept_rxst : v_rxst (nic_vars s') = v_rxst (nic_vars s);
  kept_base : v_base (nic_vars s') = v_base (nic_vars s)
}.

Lemma kept_owned ri s s' : rx_kept s s' → owned ri s' = owned ri s.
Proof. intros [Hr Hq Hs _]. unfold owned, armed. by rewrite Hr, Hq, Hs. Qed.

Lemma kept_inv ri s s' : rx_kept s s' → rx_inv ri s →
  (∀ p, p ∈ owned ri s → refs (net_view s') !! p = refs (net_view s) !! p) → rx_inv ri s'.
Proof.
  intros Hk [Hi Ha Hpre Hpost Hroom Hd Hh] Href. pose proof (kept_owned ri _ _ Hk) as Ho.
  destruct Hk as [Hr Hq Hs Hb]. split; rewrite ?Hr, ?Hs, ?Hb, ?Ho; try done.
  intros p Hp. rewrite Href; auto.
Qed.

(** *** Steps of one side *)

Definition conserved (ti ri : nat) s s' : Prop :=
  nic_inv ti ri s' ∧ ∀ p, app_refs ti ri p s' = app_refs ti ri p s.

Lemma conserved_trans ti ri s1 s2 s3 : conserved ti ri s1 s2 → conserved ti ri s2 s3 → conserved ti ri s1 s3.
Proof. intros [_ H12] [Hi H23]. split; [done|]. intros p. by rewrite H23. Qed.

(** Reception. *)
Lemma rx_conserved ti ri s s' : nic_inv ti ri s → rx_inv ri s' → rx_step ri s s' → conserved ti ri s s'.
Proof.
  intros Hinv Hr' [Hacc Hfresh _ _ (Ht & Hs & Hb & Hm)].
  assert (queued_tx ti s' = queued_tx ti s) as Hq by (unfold queued_tx; by rewrite Ht, Hs).
  assert (∀ p, p ∈ queued_tx ti s → p ∉ owned ri s') as Hap.
  { intros p Hp Ho. pose proof (inv_apart _ _ _ Hinv p Hp) as Hno.
    pose proof (inv_counted _ _ _ Hinv p) as Hc. apply count_in in Hp.
    unfold nrefs in Hc. rewrite (Hfresh p Ho Hno) in Hc. cbn in Hc. lia. }
  assert (nic_inv ti ri s') as Hinv'.
  { split; rewrite ?Hq; [|done|done|].
    - destruct (inv_tx _ _ _ Hinv) as [Hi Ha Hpre Hpost Hroom Hent Hmem].
      split; rewrite ?Ht, ?Hs, ?Hb; auto.
    - intros p. pose proof (inv_counted _ _ _ Hinv p) as Hc. unfold nrefs in *. rewrite Hacc.
      destruct (decide (p ∈ owned ri s')) as [Ho'|Ho']; [|destruct (decide (p ∈ owned ri s)) as [Ho|Ho]; [|done]].
      + rewrite count_not_in; [done|]. by intros ?%Hap.
      + rewrite count_not_in; [done|]. by intros ?%(inv_apart _ _ _ Hinv). }
  split; [done|]. intros p. destruct (decide (p ∈ owned ri s')) as [Ho'|Ho'].
  - rewrite owned_app_refs by done. destruct (decide (p ∈ owned ri s)) as [Ho|Ho].
    + by rewrite owned_app_refs.
    + unfold app_refs. unfold nrefs. rewrite (Hfresh p Ho' Ho), decide_False by done.
      rewrite count_not_in; [done|]. by intros ?%Hap.
  - unfold app_refs at 1. unfold nrefs. rewrite Hacc, Hq, !(decide_False (P := p ∈ owned ri s')) by done.
    destruct (decide (p ∈ owned ri s)) as [Ho|Ho].
    + rewrite owned_app_refs by done. rewrite count_not_in; [done|].
      intros Hp. by apply (inv_apart _ _ _ Hinv p Hp).
    + unfold app_refs, nrefs. by rewrite decide_False.
Qed.

Lemma same_conserved ti ri s s' : nic_inv ti ri s → rx_same s s' → conserved ti ri s s'.
Proof.
  intros Hinv Hs. pose proof (inv_rx _ _ _ Hinv). apply rx_conserved; [done|by eapply rx_same_inv|by apply rx_same_step].
Qed.

(** Transmission: [gone] is what left the ring, [new] what came. *)
Lemma tx_conserved ti ri s s' gone rest new : nic_inv ti ri s → tx_inv ti s' → rx_kept s s' →
  queued_tx ti s = gone ++ rest → queued_tx ti s' = rest ++ new →
  net_view s' = held new (dropped gone (net_view s)) → (∀ p, p ∈ new → p ∉ owned ri s) →
  conserved ti ri s s'.
Proof.
  intros Hinv Ht' Hk Hq Hq' Hn Hnew. pose proof (kept_owned ri _ _ Hk) as Ho.
  assert (∀ p, p ∈ gone → p ∉ owned ri s) as Hgone
    by (intros p Hp; apply (inv_apart _ _ _ Hinv); rewrite Hq, elem_of_app; by left).
  assert (∀ p, count p gone + count p rest ≤ nrefs p (net_view s)) as Hc.
  { intros p. rewrite <-count_app, <-Hq. apply (inv_counted _ _ _ Hinv). }
  assert (∀ p, nrefs p (net_view s') = nrefs p (net_view s) - count p gone + count p new) as Href.
  { intros p. rewrite Hn, nrefs_held. f_equal. destruct (decide (p ∈ gone)) as [Hp|Hp].
    - apply nrefs_dropped. specialize (Hc p). pose proof (count_nonneg p rest). lia.
    - unfold nrefs. rewrite dropped_other by done. rewrite (count_not_in p gone) by done. lia. }
  split; [|intros p; unfold app_refs; rewrite Ho, Hq, Hq', Href, !count_app; lia].
  split; [done| | |].
  - apply (kept_inv ri s); [done|apply Hinv|]. intros p Hp. rewrite Hn.
    rewrite held_other by by intros ?%Hnew. apply dropped_other. by intros ?%Hgone.
  - intros p. rewrite Ho, Hq', elem_of_app. intros [Hp|Hp]; [|by apply Hnew].
    apply (inv_apart _ _ _ Hinv). rewrite Hq, elem_of_app. by right.
  - intros p. specialize (Hc p). rewrite Href, Hq', count_app. lia.
Qed.

Lemma kept_trans s1 s2 s3 : rx_kept s1 s2 → rx_kept s2 s3 → rx_kept s1 s3.
Proof. intros [] []. split; congruence. Qed.

(** The descriptors picked up after transmission. *)
Lemma sent_conserved ti ri k s s' : nic_inv ti ri s → sent ti k s s' → tx_inv ti s' →
  conserved ti ri s s' ∧ rx_kept s s'.
Proof.
  intros Hinv Hs Ht'. pose proof (sent_ring _ _ _ _ Hs) as Hr. destruct Hs as [Hg Hv Hn _].
  assert (rx_kept s s') as Hk.
  { unfold gem_core in Hg. split; rewrite ?Hv; [..|done|done].
    - change (g_rx (no_bds (gem_view (nic_gem s'))) = rx_ring s). by rewrite Hg.
    - change (g_queue (no_bds (gem_view (nic_gem s'))) = rx_queue s). by rewrite Hg. }
  split; [|done]. eapply (tx_conserved ti ri s s' (entries ti (take k (r_hw (tx_ring s))) (v_txst (nic_vars s)))
    (queued_tx ti s') []); [done..| | |exact Hn|].
  - unfold queued_tx. rewrite Hr, Hv. cbn [r_hw ring_sent v_txst with_v_txst]. rewrite entries_cleared.
    + by rewrite <-entries_app, take_drop.
    + intros i Hi Hi'. by apply (hw_take_drop s k i).
  - by rewrite app_nil_r.
  - by intros p ?%elem_of_nil.
Qed.

(** A chain that was queued. *)
Lemma queued_conserved ti ri l bufs s s' : nic_inv ti ri s → queued ti l bufs s s' → tx_inv ti s' →
  (length l ≤ length (r_free (tx_ring s)))%nat → (∀ p, p ∈ l → p ∉ owned ri s) →
  conserved ti ri s s' ∧ rx_kept s s' ∧ queued_tx ti s' = queued_tx ti s ++ l.
Proof.
  intros Hinv Hqd Ht' Hl Hown. pose proof (queued_ring _ _ _ _ _ Hqd) as Hr.
  pose proof (inv_tx _ _ _ Hinv) as Ht. destruct Hqd as [[w Hg] Hv Hn _].
  assert (rx_kept s s') as Hk.
  { split; rewrite ?Hv; [..|done|done].
    - unfold rx_ring at 1. rewrite Hg. exact (written_ring XEMACPS_RECV _ _).
    - unfold rx_queue at 1. rewrite Hg. exact (written_queue _ _). }
  assert (queued_tx ti s' = queued_tx ti s ++ l) as Hq;
    [|split; [by apply (tx_conserved ti ri s s' [] (queued_tx ti s) l)|done]].
  pose proof (free_take_part s (length l) (tx_post _ _ Ht)) as Hpart.
  unfold queued_tx. rewrite Hr, Hv. cbn [r_hw ring_queued v_txst with_v_txst].
  rewrite entries_app, entries_filled_other, entries_filled; [done|..].
  - exact (ring_part_nodup _ (tx_ring_ok s) _ _ _ Hpart).
  - by apply length_take_le.
  - intros i Hi. pose proof (ring_part_lt _ (tx_ring_ok s) _ _ _ _ Hpart Hi) as Hlt.
    rewrite (tx_all _ _ Ht) in Hlt. pose proof (tx_room _ _ Ht). lia.
  - intros i Hi Hi'. pose proof (ring_order_nodup _ (tx_ring_ok s)) as Hnd. rewrite Hpart in Hnd.
    apply list.NoDup_app in Hnd as (_ & Hd & _). apply (Hd i); apply elem_of_app; by left.
Qed.
End Driver.

(** ** Events *)

(** What the program and the hardware can do.  [Alloc] and [Free] are calls of
    the stack by the rest of the program. *)
Inductive event :=
  | Output (p : Z) (l : list Z)       (* [low_level_output] on the chain [l] *)
  | Input                             (* [low_level_input] *)
  | SendIrq                           (* [emacps_send_handler] *)
  | RecvIrq (fuel : nat)              (* [emacps_recv_handler] *)
  | TxErrors                          (* [HandleTxErrors] *)
  | EmacError                         (* [HandleEmacPsError] *)
  | Filter (action b0 b1 b2 b3 : Z)   (* [xemacpsif_mac_filter_update] *)
  | Alloc (layer : pbuf_layer) (len : Z) (type : pbuf_type)
  | Free (p : Z).

(** ** The specification

    To its client the driver is two queues of buffers. *)

Record queues := Queues { q_out : list Z; q_in : list Z }.

(** What an event with the result [r] may do to them: buffers leave both queues
    at the front, and come at the end. *)
Inductive queue_step : event → Z → relation queues :=
  | step_accept p l k out inq :
      queue_step (Output p l) ERR_OK (Queues out inq) (Queues (drop k out ++ l) inq)
  | step_refuse p l k out inq :
      queue_step (Output p l) ERR_MEM (Queues out inq) (Queues (drop k out) inq)
  | step_take p out inq : p ≠ NULL → queue_step Input p (Queues out (p :: inq)) (Queues out inq)
  | step_empty out : queue_step Input NULL (Queues out []) (Queues out [])
  | step_sent r k out inq : queue_step SendIrq r (Queues out inq) (Queues (drop k out) inq)
  | step_received r fuel ps out inq :
      queue_step (RecvIrq fuel) r (Queues out inq) (Queues out (inq ++ ps))
  | step_tx_discard r out inq : queue_step TxErrors r (Queues out inq) (Queues [] inq)
  | step_discard r out inq : queue_step EmacError r (Queues out inq) (Queues [] inq)
  | step_filter r a b0 b1 b2 b3 q : queue_step (Filter a b0 b1 b2 b3) r q q
  | step_alloc r layer len type q : queue_step (Alloc layer len type) r q q
  | step_free r p q : queue_step (Free p) r q q.

Section Events.
Context {N G : Type} `{Board} `{LwipLaws N} `{EmacPsLaws G} `{!RingsCreated G}.
Context `{!Arrivals G, !ArrivalsLaws G}.
Implicit Types s : nic N G.

(** The result is the code of the output, or a new buffer of the program. *)
Definition run (e : event) : M (nic N G) Z :=
  match e with
  | Output p _ => low_level_output p
  | Input => low_level_input
  | SendIrq => emacps_send_handler ;; mret NULL
  | RecvIrq fuel => emacps_recv_handler fuel ;; mret NULL
  | TxErrors => HandleTxErrors ;; mret NULL
  | EmacError => HandleEmacPsError ;; mret NULL
  | Filter action b0 b1 b2 b3 => xemacpsif_mac_filter_update (mret tt) [b0; b1; b2; b3] action
  | Alloc layer len type => on_stack (call (pbuf_alloc layer len type))
  | Free p => on_stack (modify (pbuf_free p)) ;; mret NULL
  end.

(** A buffer that stays when the buffers sent before are released: the program
    has a reference to it, be it still queued or not, or it is in no chain that
    is still queued. *)
Definition outlives (ti ri : nat) s (q : Z) : Prop :=
  0 < app_refs ti ri q s ∨ ∀ p, p ∈ queued_tx ti s → ¬ in_chain (nic_net s) q p.

(** A chain that the program may send: none of its buffers is one of reception,
    and all of them stay. *)
Definition sendable (ti ri : nat) (p : Z) (l : list Z) s : Prop :=
  chain (nic_net s) p l ∧ l ≠ [] ∧ (length l ≤ max_chain)%nat ∧
  Forall (λ q, (q ∉ owned ri s) ∧ outlives ti ri s q) l.

Lemma outlives_spared ti ri q k s : nic_inv ti ri s → outlives ti ri s q →
  spared (entries ti (take k (r_hw (tx_ring s))) (v_txst (nic_vars s))) (nic_net s) q.
Proof.
  intros Hinv [Hq|Hq].
  - right. fold (net_view s). set (gone := entries ti (take k _) _).
    assert (count q gone ≤ count q (queued_tx ti s)) as Hc.
    { unfold queued_tx. rewrite <-(take_drop k (r_hw (tx_ring s))) at 1. rewrite entries_app, count_app.
      pose proof (count_nonneg q (entries ti (drop k (r_hw (tx_ring s))) (v_txst (nic_vars s)))). unfold gone. lia. }
    assert (count q (queued_tx ti s) < nrefs q (net_view s)) as Hn
      by (unfold app_refs in Hq; destruct (decide (q ∈ owned ri s)); lia).
    eexists. apply nrefs_some. rewrite nrefs_dropped; lia.
  - left. intros p Hp. apply Hq. unfold queued_tx, entries in *.
    rewrite <-(take_drop k (r_hw (tx_ring s))), fmap_app. apply elem_of_app. by left.
Qed.

(** Where a recovery restores the driver: every receive descriptor is with the
    hardware, so that no refill failed before, and four blocks of [bd_space] are
    left.  The sources do not check either: what happens otherwise is the
    subject of [recovery_frees_queued] and of [recoveries_bounded]. *)
Definition recoverable s : Prop :=
  r_free (rx_ring s) = [] ∧ 0 < bd_space ∧ 0 ≤ v_space (nic_vars s) ∧
  v_space (nic_vars s) + 0x40000 ≤ BD_SPACE_SIZE.

(** Where an event is considered.  The program sends chains that it has, and
    frees only what it has a reference to; a receive interrupt finds finitely
    many frames; a recovery happens only where it restores the driver, and a
    change of the filter only at rest: nothing is being sent and every receive
    descriptor is with the hardware.  Inputs, allocations, and the interrupts and
    errors of transmission are considered always. *)
Definition allowed (ti ri : nat) (e : event) s : Prop :=
  match e with
  | Output p l => sendable ti ri p l s
  | RecvIrq fuel => (arrivals (nic_gem s) < fuel)%nat
  | EmacError => recoverable s
  | Filter action _ _ _ _ => at_rest s ∧ (XEMACPS_MAX_MAC_ADDR ≤ 8)%nat ∧
      (action = IGMP_ADD_MAC_FILTER ∨ action = IGMP_DEL_MAC_FILTER)
  | Free p => 0 < app_refs ti ri p s
  | _ => True
  end.

(** By how much the references of the program change. *)
Definition gain (e : event) (r p : Z) : Z :=
  match e with
  | Input | Alloc _ _ _ => if decide (r = p ∧ r ≠ NULL) then 1 else 0
  | Free q => if decide (q = p) then (-1) else 0
  | _ => 0
  end.

Definition accounted (ti ri : nat) (e : event) (r : Z) s s' : Prop :=
  nic_inv ti ri s' ∧ ∀ p, app_refs ti ri p s' = app_refs ti ri p s + gain e r p.

Definition queues_of (ti : nat) s : queues := Queues (queued_tx ti s) (rx_queue s).

(** An event that returned: the accounts and the queues. *)
Definition done_event (ti ri : nat) (e : event) (r : Z) s s' : Prop :=
  accounted ti ri e r s s' ∧ queue_step e r (queues_of ti s) (queues_of ti s').

Lemma rx_same_queues ti s s' : rx_same s s' → queues_of ti s' = queues_of ti s.
Proof. intros [_ Hq _ _ (Ht & Hs & _)]. unfold queues_of, queued_tx. by rewrite Hq, Ht, Hs. Qed.

Lemma accounted_none ti ri e r s s' : (∀ p, gain e r p = 0) → conserved ti ri s s' →
  accounted ti ri e r s s'.
Proof. intros Hg [Hi Ha]. split; [done|]. intros p. rewrite Ha, Hg. lia. Qed.

(** *** Output *)

(** The queue after an output: the oldest buffers are gone, and the chain is at
    the end if it was accepted, as it is if there are descriptors for it. *)
Record output_done (ti ri : nat) (l : list Z) (r : Z) s s' : Prop := {
  out_conserved : conserved ti ri s s';
  out_kept : rx_kept s s';
  out_queue : ∃ k, queued_tx ti s' = drop k (queued_tx ti s) ++ if decide (r = ERR_OK) then l else [];
  out_room : (length l ≤ length (r_free (tx_ring s)))%nat → r = ERR_OK;
  out_result : r = ERR_OK ∨ r = ERR_MEM;
  out_buffers q b : r = ERR_OK → outlives ti ri s q → pbuf_get q (nic_net s) = Some b →
    pbuf_get q (nic_net s') = Some b
}.

Lemma sent_queue ti k s s' : sent ti k s s' → queued_tx ti s' = drop k (queued_tx ti s).
Proof.
  intros Hs. pose proof (sent_ring _ _ _ _ Hs) as Hr. destruct Hs as [_ Hv _ _].
  unfold queued_tx. rewrite Hr, Hv. cbn [r_hw ring_sent v_txst with_v_txst]. rewrite entries_cleared.
  - unfold entries. by rewrite fmap_drop.
  - intros i Hi Hi'. by apply (hw_take_drop s k i).
Qed.

Lemma output_conserves ti ri p l s : nic_inv ti ri s → sendable ti ri p l s →
  ∃ r s', low_level_output p s = Ok (r, s') ∧ output_done ti ri l r s s'.
Proof.
  intros Hinv (Hc & Hne & Hm & Hl). rewrite list.Forall_forall in Hl.
  destruct (output_run ti p l s) as (k & s1 & r & s' & Hk & Hs & E & Ht' & Hres);
    [apply Hinv|done..|intros k; apply list.Forall_forall; intros q Hq; by eapply outlives_spared, Hl|].
  exists r, s'. split; [done|].
  destruct (sent_conserved ti ri k s s1 Hinv Hs) as [Hc1 Hk1].
  { eapply tx_inv_sent; [apply Hinv|exact Hs]. }
  pose proof (sent_queue _ _ _ _ Hs) as Hq1. pose proof (sent_ring _ _ _ _ Hs) as Hr1.
  pose proof (proj1 Hc1) as Hinv1. case_decide as Hroom.
  - destruct Hres as (-> & bufs & _ & Hq).
    destruct (queued_conserved ti ri l bufs s1 s') as (Hc2 & Hk2 & Hq2); [done..| |].
    { intros q Hq'. rewrite (kept_owned ri s s1) by done. by apply Hl. }
    split.
    + by eapply conserved_trans.
    + by eapply kept_trans.
    + exists k. by rewrite decide_True, Hq2, Hq1.
    + done.
    + by left.
    + intros q b _ Hqq Hb. rewrite (queued_get _ _ _ _ _ Hq).
      apply (spared_kept _ _ _ (sent_others _ _ _ _ Hs)); [by eapply outlives_spared|done].
  - destruct Hres as (-> & Hn & Hv & Hg). split.
    + eapply conserved_trans; [exact Hc1|]. apply same_conserved; [done|].
      split; [unfold rx_ring|unfold rx_queue|..]; rewrite ?Hg, ?Hv; [done..|].
      split_and!; [unfold tx_ring|..]; by rewrite ?Hg.
    + eapply kept_trans; [exact Hk1|]. split; [unfold rx_ring|unfold rx_queue|..]; by rewrite ?Hg, ?Hv.
    + exists k. rewrite decide_False, app_nil_r by done. rewrite <-Hq1. unfold queued_tx, tx_ring. by rewrite Hg, Hv.
    + intros Hl'. exfalso. apply Hroom. rewrite Hr1. cbn. rewrite length_app. lia.
    + by right.
    + done.
Qed.

Lemma output_event ti ri p l s : nic_inv ti ri s → allowed ti ri (Output p l) s →
  ∃ r s', low_level_output p s = Ok (r, s') ∧ conserved ti ri s s' ∧
    queue_step (Output p l) r (queues_of ti s) (queues_of ti s').
Proof.
  intros Hinv He. destruct (output_conserves ti ri p l s Hinv He) as (r & s' & E & Ho).
  exists r, s'. split; [done|]. split; [apply Ho|]. unfold queues_of.
  rewrite (kept_queue _ _ (out_kept _ _ _ _ _ _ Ho)).
  destruct (out_queue _ _ _ _ _ _ Ho) as [k ->], (out_result _ _ _ _ _ _ Ho) as [-> | ->].
  - rewrite decide_True by done. constructor.
  - rewrite decide_False, app_nil_r by done. constructor.
Qed.

(** *** The interrupts *)

Lemma send_event ti ri s : nic_inv ti ri s →
  ∃ s', emacps_send_handler s = Ok (tt, s') ∧ conserved ti ri s s' ∧
    ∀ r, queue_step SendIrq r (queues_of ti s) (queues_of ti s').
Proof.
  intros Hinv. unfold emacps_send_handler.
  destruct (ReadReg_harmless XEMACPS_TXSR_OFFSET s) as (w & s1 & E1 & Hs1). rewrite run_bind, E1, bind_Ok_l.
  destruct (WriteReg_harmless XEMACPS_TXSR_OFFSET w s1) as ([] & s2 & E2 & Hs2). rewrite run_bind, E2, bind_Ok_l.
  pose proof (same_conserved ti ri s s2 Hinv (rx_same_trans _ _ _ Hs1 Hs2)) as Hc2.
  pose proof (inv_tx _ _ _ (proj1 Hc2)) as Ht2.
  destruct (process_sent_bds_run ti s2 Ht2) as (k & s' & E & _ & Hs). exists s'. split; [done|].
  destruct (sent_conserved ti ri k s2 s') as [Hc Hk]; [apply Hc2|done|by eapply tx_inv_sent|].
  split; [by eapply conserved_trans|]. intros r.
  rewrite <-(rx_same_queues ti s s2) by (by eapply rx_same_trans).
  unfold queues_of. rewrite (sent_queue _ _ _ _ Hs), (kept_queue _ _ Hk). constructor.
Qed.

Lemma recv_event ti ri fuel s : nic_inv ti ri s → allowed ti ri (RecvIrq fuel) s →
  ∃ s', emacps_recv_handler fuel s = Ok (tt, s') ∧ conserved ti ri s s' ∧
    ∀ r, queue_step (RecvIrq fuel) r (queues_of ti s) (queues_of ti s').
Proof.
  intros Hinv Hf. destruct (recv_handler_run ri fuel s) as (s' & E & Hr & Hstep); [apply Hinv|done|].
  exists s'. split; [done|]. split; [by apply rx_conserved|]. intros r.
  destruct Hstep as [_ _ _ [ps Hq] (Ht & Hs & _)]. unfold queues_of, queued_tx. rewrite Hq, Ht, Hs. constructor.
Qed.

(** *** The recoveries *)

(** The entries of the transmit array: the buffers that are queued, and NULL. *)
Lemma tx_entries_queued ti s : tx_inv ti s →
  ∃ n, tx_entries_all ti s ≡ₚ queued_tx ti s ++ replicate n NULL.
Proof.
  intros Ht. exists (length (r_free (tx_ring s))). unfold tx_entries_all, queued_tx.
  assert (entries ti (r_free (tx_ring s)) (v_txst (nic_vars s)) = replicate (length (r_free (tx_ring s))) NULL) as <-.
  { pose proof (free_entries ti s (length (r_free (tx_ring s))) Ht) as Hf. rewrite firstn_all in Hf.
    unfold entries. induction Hf as [|i l [_ Hi] _ IH]; [done|]. cbn.
    by rewrite (list_lookup_total_correct _ _ _ Hi), IH. }
  rewrite <-entries_app. unfold entries. apply fmap_Permutation.
  rewrite <-(tx_all _ _ Ht), <-(ring_order_perm _ (tx_ring_ok s)). unfold ring_order.
  by rewrite (tx_pre _ _ Ht), (tx_post _ _ Ht).
Qed.

Lemma dropped_null k (n : N) : dropped (replicate k NULL) (view_of_stack n) = view_of_stack n.
Proof.
  induction k as [|k IH]; [done|]. cbn [replicate].
  change (dropped (NULL :: replicate k NULL) (view_of_stack n)) with
    (dropped (replicate k NULL) (drop_ref NULL (view_of_stack n))).
  by rewrite <-free_view, free_null.
Qed.

Lemma dropped_entries ti l s : tx_inv ti s →
  dropped (tx_entries_all ti s ++ l) (net_view s) = dropped (queued_tx ti s ++ l) (net_view s).
Proof.
  intros Ht. destruct (tx_entries_queued ti s Ht) as [n Hn].
  rewrite (dropped_perm _ (replicate n NULL ++ queued_tx ti s ++ l)).
  - rewrite (dropped_app (replicate n NULL)). unfold net_view. by rewrite dropped_null.
  - rewrite Hn, (Permutation_app_comm (queued_tx ti s)). by rewrite <-app_assoc.
Qed.

Lemma tx_errors_event ti ri s : nic_inv ti ri s →
  ∃ s', HandleTxErrors s = Ok (tt, s') ∧ conserved ti ri s s' ∧
    ∀ r, queue_step TxErrors r (queues_of ti s) (queues_of ti s').
Proof.
  intros Hinv. pose proof (inv_tx _ _ _ Hinv) as Ht.
  destruct (tx_errors_recovered ti s Ht) as (s' & E & Ht' & Hhw & Hn & Hr & Hq & Hs & Hb).
  exists s'. split; [done|]. split; [|intros r; unfold queues_of, queued_tx; rewrite Hhw, Hq; constructor].
  apply (tx_conserved ti ri s s' (queued_tx ti s) [] []); try done.
  - by rewrite app_nil_r.
  - unfold queued_tx. by rewrite Hhw.
  - pose proof (dropped_entries ti [] s Ht) as Hd. rewrite !app_nil_r in Hd. by rewrite Hn, Hd.
  - by intros p ?%elem_of_nil.
Qed.

Lemma emac_error_event ti ri s : nic_inv ti ri s → allowed ti ri EmacError s →
  ∃ s', HandleEmacPsError s = Ok (tt, s') ∧ conserved ti ri s s' ∧
    ∀ r, queue_step EmacError r (queues_of ti s) (queues_of ti s').
Proof.
  intros Hinv (Hfree & Hb & Hlo & Hhi). pose proof (inv_tx _ _ _ Hinv) as Ht. pose proof (inv_rx _ _ _ Hinv) as Hr.
  destruct (recovery_run ti ri s) as (ps & s' & E & Ht' & Hr' & Hn & Hq & Hhw & _ & _ & Ho & Hf); [done|done|done| |done|done|done|].
  { intros p Hp Hin. destruct (tx_entries_queued ti s Ht) as [n Hperm]. rewrite Hperm, elem_of_app in Hin.
    assert (p ∈ owned ri s) as Hown by (unfold owned; rewrite elem_of_app; by right).
    destruct Hin as [Hin|Hin]; [by apply (inv_apart _ _ _ Hinv p)|].
    apply elem_of_replicate in Hin as [-> _]. pose proof (rx_held _ _ Hr _ Hown) as Hh.
    unfold net_view in Hh. by rewrite null_not_held in Hh. }
  rewrite dropped_entries in Hn, Hf by done.
  assert (queued_tx ti s' = []) as Hq' by (unfold queued_tx; by rewrite Hhw).
  set (D := dropped (queued_tx ti s ++ armed ri s) (net_view s)) in *.
  pose proof (rx_distinct _ _ Hr) as Hnd. pose proof (rx_distinct _ _ Hr') as Hnd'.
  assert (∀ p, count p (armed ri s) + count p (rx_queue s) = if decide (p ∈ owned ri s) then 1 else 0) as Hown.
  { intros p. rewrite <-count_nodup, <-count_app by done. done. }
  assert (∀ p, nrefs p D = nrefs p (net_view s) - count p (queued_tx ti s) - count p (armed ri s)) as Hd.
  { intros p. pose proof (inv_counted _ _ _ Hinv p) as Hc. specialize (Hown p).
    pose proof (count_nonneg p (rx_queue s)). unfold D. rewrite nrefs_dropped; rewrite count_app; [lia|].
    destruct (decide (p ∈ owned ri s)) as [Hp|Hp]; [|lia].
    rewrite (owned_nrefs ri) by done. rewrite (count_not_in p (queued_tx _ _)); [lia|].
    intros Hx. by apply (inv_apart _ _ _ Hinv p). }
  assert (∀ p, nrefs p (net_view s') = nrefs p D + count p ps) as Hgot.
  { intros p. rewrite Ho in Hnd'. apply list.NoDup_app in Hnd' as (Hps & _ & _).
    rewrite count_nodup by done. rewrite Hn. unfold nrefs. rewrite got_lookup.
    destruct (decide (p ∈ ps)) as [Hp|Hp]; [|lia]. rewrite list.Forall_forall in Hf. by rewrite Hf. }
  exists s'. split; [done|]. split; [|intros r; unfold queues_of; rewrite Hq', Hq; constructor].
  split; [split; rewrite ?Hq'; [done..| |]|].
  - by intros p ?%elem_of_nil.
  - intros p. rewrite Hgot, Hd. pose proof (count_nonneg p ps). specialize (Hown p).
    pose proof (inv_counted _ _ _ Hinv p) as Hc. pose proof (count_nonneg p (rx_queue s)).
    change (count p []) with 0. destruct (decide (p ∈ owned ri s)) as [Hp|Hp]; [|lia].
    rewrite (owned_nrefs ri) by done. rewrite (count_not_in p (queued_tx _ _)); [lia|].
    intros Hx. by apply (inv_apart _ _ _ Hinv p).
  - intros p. unfold app_refs. rewrite <-!count_nodup, (count_perm p _ _ Ho), !count_app by done.
    rewrite Hq', Hgot, Hd. change (count p []) with 0.
    change (owned ri s) with (armed ri s ++ rx_queue s). rewrite count_app. lia.
Qed.

(** *** The filter *)

(** Nothing waits for transmission. *)
Lemma reset_queued_tx ti ri s s' : nic_inv ti ri s → at_rest s →
  tx_ring s' = ring_ptr_reset (tx_ring s) →
  r_hw (tx_ring s') = [] ∧ queued_tx ti s' = [] ∧ queued_tx ti s = [].
Proof.
  intros Hinv [Hhw _ _ _] Et. pose proof (inv_tx _ _ _ Hinv) as Ht.
  assert (r_hw (tx_ring s') = []) as Hhw'; [|unfold queued_tx; by rewrite Hhw', Hhw].
  rewrite Et. unfold ring_ptr_reset. cbn. destruct (decide (r_free (tx_ring s) = [])) as [Hf|]; [|done].
  pose proof (ring_order_perm _ (tx_ring_ok s)) as Hp. unfold ring_order in Hp.
  rewrite (tx_pre _ _ Ht), (tx_post _ _ Ht), Hhw, Hf in Hp. cbn in Hp. by apply Permutation_nil_l in Hp.
Qed.

(** The rings start again at their first descriptors: the descriptors of the
    hardware are the same ones in another order. *)
Lemma rings_reset_conserved ti ri m g s : nic_inv ti ri s → at_rest s →
  g_tx (gem_view g) = ring_ptr_reset (tx_ring s) → g_rx (gem_view g) = ring_ptr_reset (rx_ring s) →
  g_queue (gem_view g) = rx_queue s →
  conserved ti ri s (Nic (nic_net s) g (with_v_mask m (nic_vars s))).
Proof.
  intros Hinv Hrest Htx Hrx Hqu. pose proof Hrest as [Hhw Hfree _ _]. set (s' := Nic _ _ _).
  pose proof (inv_tx _ _ _ Hinv) as Ht. pose proof (inv_rx _ _ _ Hinv) as Hr.
  assert (tx_ring s' = ring_ptr_reset (tx_ring s)) as Et by exact Htx.
  assert (rx_ring s' = ring_ptr_reset (rx_ring s)) as Er by exact Hrx.
  assert (rx_queue s' = rx_queue s) as Eq by exact Hqu.
  destruct (reset_queued_tx ti ri s s') as (Hhw' & Hq' & Hq); [done..|].
  assert (r_hw (rx_ring s') = seq 0 (r_all (rx_ring s))) as Hrhw
    by (rewrite Er; unfold ring_ptr_reset; cbn; by rewrite decide_True).
  assert (owned ri s' ≡ₚ owned ri s) as Ho.
  { unfold owned. rewrite Eq. f_equiv. rewrite <-(rx_entries_armed ri s Hr Hfree). unfold armed, rx_entries_all.
    by rewrite Hrhw, (rx_all _ _ Hr). }
  pose proof (rx_distinct _ _ Hr) as Hnd. rewrite <-Ho in Hnd.
  split; [split|]; rewrite ?Hq'.
  - destruct Ht as [Hi Ha Hpre Hpost Hroom Hent Hmem]. split; rewrite ?Et; try done.
    intros i Hlt. rewrite <-Et, Hhw'. destruct (Hent i Hlt) as (p & Hp & Hpn). exists p. split; [done|].
    by rewrite Hhw in Hpn.
  - destruct Hr as [Hi Ha Hpre Hpost Hroom _ Hh]. split; rewrite ?Er; try done.
    intros p. rewrite Ho. apply Hh.
  - by intros p ?%elem_of_nil.
  - intros p. rewrite <-Hq. apply (inv_counted _ _ _ Hinv).
  - intros p. unfold app_refs. rewrite Hq, Hq'. pose proof (rx_distinct _ _ Hr) as Hnd0.
    rewrite <-!count_nodup by done. by rewrite (count_perm p _ _ Ho).
Qed.

Lemma reprogrammed_conserved ti ri op q m g s : nic_inv ti ri s → at_rest s →
  gem_view g = reprogrammed op q (gem_view (nic_gem s)) →
  let s' := Nic (nic_net s) g (with_v_mask m (nic_vars s)) in
  conserved ti ri s s' ∧ queues_of ti s' = queues_of ti s.
Proof.
  intros Hinv Hrest Hg s'. split; [by apply rings_reset_conserved; rewrite ?Hg|].
  destruct (reset_queued_tx ti ri s s') as (_ & Hq' & Hq); [done..|unfold tx_ring at 1; cbn; by rewrite Hg|].
  unfold queues_of. rewrite Hq', Hq. f_equal. unfold rx_queue at 1. cbn. by rewrite Hg.
Qed.

Lemma filter_event ti ri action b0 b1 b2 b3 s : nic_inv ti ri s →
  allowed ti ri (Filter action b0 b1 b2 b3) s →
  ∃ r s', run (Filter action b0 b1 b2 b3) s = Ok (r, s') ∧ conserved ti ri s s' ∧
    queues_of ti s' = queues_of ti s.
Proof.
  intros Hinv (Hrest & Hmax & Hact). cbn [run]. rewrite filter_update_loops.
  assert (∀ m a op, (a = NETIF_ADD_MAC_FILTER ∧ op = MacSetHash (group_mac b1 b2 b3) ∨
      a = NETIF_DEL_MAC_FILTER ∧ op = MacDeleteHash (group_mac b1 b2 b3)) →
    ∃ r s', (xemacpsif_mac_hash_update (mret tt) [b0; b1; b2; b3] a ;; mret ERR_OK)
      (Nic (nic_net s) (nic_gem s) (with_v_mask m (nic_vars s))) = Ok (r, s') ∧ conserved ti ri s s' ∧
      queues_of ti s' = queues_of ti s) as Hup.
  { intros m a op Hop.
    destruct (mac_hash_update_run (mret tt) b0 b1 b2 b3 [] a
      (Nic (nic_net s) (nic_gem s) (with_v_mask m (nic_vars s))) op) as (g & q & E & Hg);
      [by apply rest_vars|done|].
    rewrite run_bind, E, bind_Ok_l. do 2 eexists. split; [reflexivity|].
    by apply (reprogrammed_conserved ti ri op q m g s). }
  assert (∃ r s', Ok (ERR_MEM, s) = Ok (r, s') ∧ conserved ti ri s s' ∧
    queues_of ti s' = queues_of ti s) as Hnone
    by (exists ERR_MEM, s; by split).
  destruct Hact as [-> | ->].
  - change (IGMP_ADD_MAC_FILTER =? IGMP_ADD_MAC_FILTER) with true. cbv iota zeta.
    rewrite add_loop_run by lia. case_match; [|exact Hnone]. eapply Hup. by left.
  - change (IGMP_DEL_MAC_FILTER =? IGMP_ADD_MAC_FILTER) with false.
    change (IGMP_DEL_MAC_FILTER =? IGMP_DEL_MAC_FILTER) with true. cbv iota zeta.
    rewrite del_loop_run by lia. case_match; [|exact Hnone]. eapply Hup. by right.
Qed.

(** *** The program *)

(** A change of the references to one buffer that is not the driver's. *)
Lemma stack_conserved ti ri p d n s : nic_inv ti ri s → p ∉ owned ri s →
  count p (queued_tx ti s) ≤ nrefs p (net_view s) + d →
  (∀ q, q ≠ p → refs (view_of_stack n) !! q = refs (net_view s) !! q) →
  nrefs p (view_of_stack n) = nrefs p (net_view s) + d →
  let s' := Nic n (nic_gem s) (nic_vars s) in
  nic_inv ti ri s' ∧ ∀ q, app_refs ti ri q s' = app_refs ti ri q s + if decide (p = q) then d else 0.
Proof.
  intros Hinv Hp Hc Hne Heq s'.
  assert (∀ q, nrefs q (net_view s') = nrefs q (net_view s) + if decide (p = q) then d else 0) as Hr.
  { intros q. destruct (decide (p = q)) as [<-|Hpq]; [done|]. unfold nrefs.
    change (net_view s') with (view_of_stack n). rewrite Hne by done. lia. }
  split; [|intros q; unfold app_refs; rewrite Hr; change (queued_tx ti s') with (queued_tx ti s);
    change (owned ri s') with (owned ri s); lia].
  split.
  - apply (tx_inv_ext _ s); [apply Hinv|done..].
  - apply (kept_inv ri s); [done|apply Hinv|]. intros q Hq. apply Hne. by intros ->.
  - exact (inv_apart _ _ _ Hinv).
  - intros q. rewrite Hr. change (queued_tx ti s') with (queued_tx ti s). destruct (decide (p = q)) as [<-|]; [done|].
    pose proof (inv_counted _ _ _ Hinv q). lia.
Qed.

Lemma alloc_event ti ri layer len type s : nic_inv ti ri s →
  ∃ r s', run (Alloc layer len type) s = Ok (r, s') ∧ done_event ti ri (Alloc layer len type) r s s'.
Proof.
  intros Hinv. destruct (pbuf_alloc layer len type (nic_net s)) as [p n] eqn:E.
  exists p, (Nic n (nic_gem s) (nic_vars s)). split.
  { cbn [run]. unfold on_stack, call, zoom. cbn. by rewrite E. }
  split; [|constructor]. destruct (alloc_spec _ _ _ _ _ _ E) as [[-> Hv]|(Hp & Hnone & Hv & _)].
  - apply accounted_none; [intros q; cbn; by rewrite decide_False by by intros []|].
    by apply same_conserved.
  - assert (nrefs p (net_view s) = 0) as H0' by (unfold nrefs, net_view; by rewrite Hnone).
    destruct (stack_conserved ti ri p 1 n s) as [Hi Ha]; [done|..].
    + intros Ho. pose proof (owned_nrefs ri p s (inv_rx _ _ _ Hinv) Ho). lia.
    + pose proof (inv_counted _ _ _ Hinv p). lia.
    + intros q Hq. rewrite Hv. cbn. by rewrite lookup_insert_ne.
    + rewrite H0', Hv. unfold nrefs. cbn. by rewrite lookup_insert_eq.
    + split; [exact Hi|]. intros q. rewrite Ha. cbn. f_equal.
      destruct (decide (p = q)); [by rewrite decide_True|by rewrite decide_False by by intros []].
Qed.

Lemma free_event ti ri p s : nic_inv ti ri s → allowed ti ri (Free p) s →
  ∃ r s', run (Free p) s = Ok (r, s') ∧ done_event ti ri (Free p) r s s'.
Proof.
  intros Hinv Hp. do 2 eexists. split; [reflexivity|]. split; [|constructor]. cbn [allowed] in Hp.
  assert (p ∉ owned ri s) as Ho by (intros Ho; rewrite (owned_app_refs _ _ _ _ Hinv Ho) in Hp; lia).
  unfold app_refs in Hp. rewrite decide_False in Hp by done. pose proof (count_nonneg p (queued_tx ti s)).
  destruct (stack_conserved ti ri p (-1) (pbuf_free p (nic_net s)) s) as [Hi Ha]; [done|done|lia|..].
  - intros q Hq. rewrite free_view, drop_ref_refs. by rewrite decide_False.
  - rewrite free_view. fold (net_view s). rewrite nrefs_drop, decide_True by done.
    rewrite (nrefs_some p (net_view s)) by lia. by rewrite decide_True.
  - split; [exact Hi|exact Ha].
Qed.

(** A frame of the queue goes to the program. *)
Lemma dequeued_accounted ti ri p q s s' : nic_inv ti ri s → rx_queue s = p :: q →
  gem_view (nic_gem s') = set_queue q (gem_view (nic_gem s)) → nic_vars s' = nic_vars s →
  net_view s' = net_view s → accounted ti ri Input p s s'.
Proof.
  intros Hinv Eq0 Hg Hv Hn. pose proof (inv_rx _ _ _ Hinv) as Hr.
  assert (rx_queue s' = q) as Eq' by (unfold rx_queue; by rewrite Hg).
  assert (tx_ring s' = tx_ring s ∧ rx_ring s' = rx_ring s) as [Et Er]
    by (unfold tx_ring, rx_ring; by rewrite Hg).
  assert (owned ri s ≡ₚ p :: owned ri s') as Ho.
  { unfold owned, armed. rewrite Eq0, Eq', Er, Hv. symmetry. apply Permutation_middle. }
  assert (queued_tx ti s' = queued_tx ti s) as Hq by (unfold queued_tx; by rewrite Et, Hv).
  pose proof (rx_distinct _ _ Hr) as Hnd. rewrite Ho in Hnd. apply list.NoDup_cons in Hnd as [Hp Hnd].
  assert (p ≠ NULL) as Hpn.
  { apply (held_live (nic_net s)). fold (net_view s). rewrite (rx_held _ _ Hr p); [done|]. rewrite Ho. by left. }
  split; [split|].
  - by apply (tx_inv_ext _ s); [apply Hinv|..].
  - destruct Hr as [Hi Ha Hpre Hpost Hroom _ Hh]. split; rewrite ?Er, ?Hv; try done.
    intros x Hx. rewrite Hn. apply Hh. rewrite Ho. by right.
  - intros x. rewrite Hq. intros Hx Hx'. apply (inv_apart _ _ _ Hinv x Hx). rewrite Ho. by right.
  - intros x. rewrite Hq, Hn. apply (inv_counted _ _ _ Hinv).
  - intros x. unfold app_refs. rewrite Hq, Hn. cbn [gain].
    pose proof (rx_distinct _ _ Hr) as Hnd0.
    rewrite <-!count_nodup, (count_perm x _ _ Ho), count_cons by done.
    destruct (decide (p = x)); [rewrite decide_True by done|rewrite (decide_False (P := p = x ∧ _)) by by intros []]; lia.
Qed.

Lemma input_event ti ri s : nic_inv ti ri s →
  ∃ r s', low_level_input s = Ok (r, s') ∧ done_event ti ri Input r s s'.
Proof.
  intros Hinv. unfold low_level_input. nic_run. rewrite qlength_law.
  destruct (g_queue (gem_view (nic_gem s))) as [|p q] eqn:Eq.
  { exists NULL, s. split; [done|]. split.
    - apply accounted_none; [|split; [done|by intros]].
      intros p. cbn. by rewrite decide_False by by intros [].
    - unfold queues_of, rx_queue. rewrite Eq. constructor. }
  change (Z.of_nat (length (p :: q)) =? 0) with false. cbv iota. rewrite gem_call_run.
  destruct (dequeue_law _ _ _ Eq) as [-> Hg]. do 2 eexists. split; [reflexivity|].
  split; [by apply (dequeued_accounted ti ri p q s)|].
  unfold queues_of, queued_tx, tx_ring, rx_queue. cbn. rewrite Hg, Eq. constructor.
  pose proof (inv_rx _ _ _ Hinv) as Hr. apply (held_live (nic_net s)). fold (net_view s).
  rewrite (rx_held _ _ Hr p); [done|]. unfold owned, rx_queue. rewrite Eq. apply elem_of_app. right. by left.
Qed.

(** *** Any order of events *)

Lemma event_run ti ri e s : nic_inv ti ri s → allowed ti ri e s →
  ∃ r s', run e s = Ok (r, s') ∧ done_event ti ri e r s s'.
Proof.
  intros Hinv He.
  assert (∀ m : M (nic N G) unit, run e = (m ;; mret NULL) → (∀ r p, gain e r p = 0) →
    (∃ s', m s = Ok (tt, s') ∧ conserved ti ri s s' ∧
      ∀ r, queue_step e r (queues_of ti s) (queues_of ti s')) →
    ∃ r s', run e s = Ok (r, s') ∧ done_event ti ri e r s s') as Hunit.
  { intros m -> Hg (s' & E & Hc & Hq). exists NULL, s'. rewrite run_bind, E. split; [done|].
    split; [|done]. apply accounted_none; [apply Hg|done]. }
  destruct e.
  - destruct (output_event ti ri p l s Hinv He) as (r & s' & E & Hc & Hq).
    exists r, s'. split; [done|]. split; [by apply accounted_none|done].
  - by apply input_event.
  - eapply Hunit; [done..|]. by apply send_event.
  - eapply Hunit; [done..|]. by apply recv_event.
  - eapply Hunit; [done..|]. by apply tx_errors_event.
  - eapply Hunit; [done..|]. by apply emac_error_event.
  - destruct (filter_event ti ri action b0 b1 b2 b3 s Hinv He) as (r & s' & E & Hc & Hq).
    exists r, s'. split; [done|]. split; [by apply accounted_none|rewrite Hq; constructor].
  - by apply alloc_event.
  - by apply free_event.
Qed.

(** The states after initialisation, with or without enough memory, and any
    events; the hardware may complete descriptors, and the stack change what is
    not counted, at any time. *)
Inductive reachable (ti ri : nat) : nic N G → Prop :=
  | reachable_init s r s' : ready ti ri s → (∀ p, 0 ≤ nrefs p (net_view s)) → 0 < bd_space →
      0 ≤ v_space (nic_vars s) → v_space (nic_vars s) + 0x40000 ≤ BD_SPACE_SIZE →
      init_dma s = Ok (r, s') → reachable ti ri s'
  | reachable_event e r s s' : reachable ti ri s → allowed ti ri e s → run e s = Ok (r, s') →
      reachable ti ri s'
  | reachable_hardware g s : reachable ti ri s → no_log (gem_view g) = no_log (gem_view (nic_gem s)) →
      reachable ti ri (Nic (nic_net s) g (nic_vars s))
  | reachable_stack n s : reachable ti ri s → view_of_stack n = net_view s →
      reachable ti ri (Nic n (nic_gem s) (nic_vars s)).

Lemma started_inv ti ri ps r s s' : started ti ri ps r s s' → (∀ p, 0 ≤ nrefs p (net_view s)) →
  nic_inv ti ri s'.
Proof.
  intros [_ _ Hn _ _ Hhw _ _ Ht Hr] Hnn.
  assert (queued_tx ti s' = []) as Hq by (unfold queued_tx; by rewrite Hhw).
  split; rewrite ?Hq; [done|done| |].
  - by intros p ?%elem_of_nil.
  - intros p. rewrite Hn. change (count p []) with 0. unfold nrefs. rewrite got_lookup.
    destruct (decide (p ∈ ps)); [cbn; lia|]. apply Hnn.
Qed.

Lemma driver_inv ti ri s : reachable ti ri s → nic_inv ti ri s.
Proof.
  induction 1 as [s r s' Hready Hnn Hb Hlo Hhi E|e r s s' _ Hinv He E|g s _ Hinv Hg|n s _ Hinv Hn].
  - destruct (init_dma_run ti ri s) as (ps & r' & s'' & E' & Hst); [done..|].
    rewrite E in E'. injection E' as -> ->. by eapply started_inv.
  - destruct (event_run ti ri e s Hinv He) as (r' & s'' & E' & Hacc).
    rewrite E in E'. injection E' as -> ->. by destruct Hacc as [[] _].
  - apply (same_conserved ti ri s); [done|]. by apply rx_same_gem.
  - by apply (same_conserved ti ri s).
Qed.

(** C11. The driver as a whole.  After initialisation, and after outputs,
    inputs, interrupts of both directions, recoveries, changes of the filter,
    allocations and releases by the program and progress of the hardware in any
    order in which each of them was allowed where it happened, every event that
    is allowed returns without a fault and keeps the invariants of both rings; a
    buffer is never in use in both directions.  Two events are not allowed
    everywhere: a recovery only with all receive descriptors armed and 256 KiB
    left in [bd_space], and a change of the filter only at rest.  The references
    of the program itself are conserved: they change only by what it allocates,
    frees, or takes from the queue, so that along such an order the driver leaks
    no buffer and frees none that is not its own. *)
Theorem driver_conserves_buffers ti ri e s : reachable ti ri s → allowed ti ri e s →
  ∃ r s', run e s = Ok (r, s') ∧ nic_inv ti ri s' ∧
    ∀ p, app_refs ti ri p s' = app_refs ti ri p s + gain e r p.
Proof.
  intros Hs He. destruct (event_run ti ri e s) as (r & s' & E & [Hi Ha] & _); [by apply driver_inv|done|].
  by exists r, s'.
Qed.
End Events.

(** ** A run of the driver *)

(** Before initialisation: a chain of two buffers of the program, memory for
    four more, and two frames about to arrive. *)
Definition nic_boot : nic net gemsim :=
  Nic (Net (n_bufs two_bufs) ∅ [] 4 2)
    (GemSim okring_none okring_none [] [] [] ∅ 0 2 60 8) vars_boot.

Definition after {A} (o : outcome (A * nic net gemsim)) : nic net gemsim :=
  match o with Ok (_, s) => s | Fault _ => nic_boot end.

Definition nic_started : nic net gemsim := after (init_dma nic_boot).
Definition nic_sending : nic net gemsim := after (run (Output 1 [1; 2]) nic_started).

Lemma nic_boot_ready : ready 0 0 nic_boot.
Proof.
  split; try reflexivity; try (cbn; lia).
  - intros i Hi. change (v_txst (nic_vars nic_boot)) with (replicate 16 NULL).
    apply lookup_replicate_2. cbn in Hi. lia.
  - constructor.
  - by intros p ?%elem_of_nil.
  - by split.
Qed.

Lemma nic_started_reachable : reachable 0 0 nic_started.
Proof.
  apply (reachable_init 0 0 nic_boot 0); [apply nic_boot_ready| |by_computation|by_computation|by_computation|vm_compute; reflexivity].
  intros p. unfold nrefs. change (refs (net_view nic_boot)) with (kmap Z.pos (fst <$> n_bufs two_bufs) : gmap Z Z).
  assert (map_Forall (λ _ z, 0 ≤ z) (kmap Z.pos (fst <$> n_bufs two_bufs) : gmap Z Z)) as Hall by by_computation.
  destruct (_ !! p) as [z|] eqn:E; [exact (Hall p z E)|done].
Qed.

(** The program has the chain of two buffers, in a given state. *)
Ltac two_bufs_sendable :=
  split_and!; [|done|by_computation|];
  [split; [done|]; split; [done|]; eexists; split; [vm_compute; reflexivity|];
   split; [done|]; split; [done|]; eexists; split; [vm_compute; reflexivity|reflexivity]
  |do 2 (apply Forall_cons_2; [split; [by_computation|left; vm_compute; reflexivity]|]); apply Forall_nil_2].

Lemma nic_sending_reachable : reachable 0 0 nic_sending.
Proof.
  apply (reachable_event 0 0 (Output 1 [1; 2]) 0 nic_started); [apply nic_started_reachable| |vm_compute; reflexivity].
  two_bufs_sendable.
Qed.

(** The chain is with the hardware.  Two frames arrive; or the program sends the
    same chain again. *)
Lemma driver_conserves_buffers_witness :
  queued_tx 0 nic_sending = [1; 2] ∧
  (∃ r s', run (RecvIrq 3) nic_sending = Ok (r, s') ∧ nic_inv 0 0 s' ∧
    ∀ p, app_refs 0 0 p s' = app_refs 0 0 p nic_sending + gain (RecvIrq 3) r p) ∧
  (∃ r s', run (Output 1 [1; 2]) nic_sending = Ok (r, s') ∧ nic_inv 0 0 s' ∧
    ∀ p, app_refs 0 0 p s' = app_refs 0 0 p nic_sending + 0).
Proof.
  split; [vm_compute; reflexivity|]. split.
  - apply (driver_conserves_buffers 0 0 (RecvIrq 3) nic_sending nic_sending_reachable).
    vm_compute. repeat constructor.
  - apply (driver_conserves_buffers 0 0 (Output 1 [1; 2]) nic_sending nic_sending_reachable).
    two_bufs_sendable.
Defined.
