(* ===== verification/Fifo.v ===== *)
(** * What the driver promises its client

    Runs of the driver, and the two bounded queues of buffers that they are to
    the program: what the outputs accepted, in this order, up to completion, and
    what the interrupts received, in this order, up to [low_level_input]. *)

From S2P Require Export Interleave.
From stdpp Require Import list gmap relations.

#[local] Open Scope Z_scope.

(** ** Traces *)

(** The events that returned, with their results. *)
Definition trace := list (event * Z).

(** The buffers of the chains that the outputs accepted. *)
Definition accepted (tr : trace) : list Z :=
  tr ≫= λ '(e, r), match e with Output _ l => if decide (r = ERR_OK) then l else [] | _ => [] end.

(** The buffers that the inputs gave out. *)
Definition delivered (tr : trace) : list Z :=
  tr ≫= λ '(e, r), match e with Input => if decide (r = NULL) then [] else [r] | _ => [] end.

Lemma accepted_cons e r tr : accepted ((e, r) :: tr) = accepted [(e, r)] ++ accepted tr.
Proof. unfold accepted. cbn. by rewrite app_nil_r. Qed.

Lemma delivered_cons e r tr : delivered ((e, r) :: tr) = delivered [(e, r)] ++ delivered tr.
Proof. unfold delivered. cbn. by rewrite app_nil_r. Qed.

Inductive queue_runs : trace → relation queues :=
  | queue_runs_nil q : queue_runs [] q q
  | queue_runs_cons e r q1 tr q2 q3 : queue_step e r q1 q2 → queue_runs tr q2 q3 →
      queue_runs ((e, r) :: tr) q1 q3.

(** What is in a queue or came into it is what left it or is still there, in the
    same order. *)
Definition fifo (tr : trace) (q q' : queues) : Prop :=
  ∃ gone come, q_out q ++ accepted tr = gone ++ q_out q' ∧ q_in q ++ come = delivered tr ++ q_in q'.

Lemma queue_step_fifo e r q q' : queue_step e r q q' → fifo [(e, r)] q q'.
Proof.
  assert (∀ k (l l' : list Z), l ++ l' = take k l ++ drop k l ++ l') as Hsplit
    by (intros; by rewrite app_assoc, take_drop).
  unfold fifo. destruct 1 as [p l k out inq|p l k out inq|p out inq Hp|out|r k out inq|r fuel ps out inq
    |r out inq|r out inq|r a b0 b1 b2 b3 q|r layer len type q|r p q]; cbn [q_out q_in].
  - exists (take k out), []. cbn. by rewrite !app_nil_r, <-Hsplit.
  - exists (take k out), []. cbn. rewrite !app_nil_r. by rewrite take_drop.
  - exists [], []. unfold delivered. cbn. rewrite decide_False by done. by rewrite !app_nil_r.
  - exists [], []. split; [apply app_nil_r|reflexivity].
  - exists (take k out), []. cbn. rewrite !app_nil_r. by rewrite take_drop.
  - exists [], ps. cbn. by rewrite !app_nil_r.
  - exists out, []. cbn. by rewrite !app_nil_r.
  - exists out, []. cbn. by rewrite !app_nil_r.
  - exists [], []. cbn. by rewrite !app_nil_r.
  - exists [], []. cbn. by rewrite !app_nil_r.
  - exists [], []. cbn. by rewrite !app_nil_r.
Qed.

Lemma queue_runs_fifo tr q q' : queue_runs tr q q' → fifo tr q q'.
Proof.
  induction 1 as [q|e r q1 tr q2 q3 Hstep _ (gone & come & Hout & Hin)]; [exists [], []; by rewrite !app_nil_r|].
  apply queue_step_fifo in Hstep as (gone1 & come1 & Hout1 & Hin1).
  exists (gone1 ++ gone), (come1 ++ come). rewrite accepted_cons, delivered_cons.
  rewrite !app_assoc, Hout1, Hin1, <-!app_assoc. by rewrite Hout, Hin.
Qed.

(** ** Runs of the driver *)

Section Fifo.
Context {N G : Type} `{Board} `{LwipLaws N} `{EmacPsLaws G} `{!RingsCreated G}.
Context `{!Arrivals G, !ArrivalsLaws G}.
Implicit Types s : nic N G.

(** Events that are allowed where they happen, and the progress of the hardware
    and the stack in between. *)
Inductive runs (ti ri : nat) : trace → relation (nic N G) :=
  | runs_nil s : runs ti ri [] s s
  | runs_event e r s s1 tr s' : allowed ti ri e s → run e s = Ok (r, s1) → runs ti ri tr s1 s' →
      runs ti ri ((e, r) :: tr) s s'
  | runs_hardware g s tr s' : no_log (gem_view g) = no_log (gem_view (nic_gem s)) →
      runs ti ri tr (Nic (nic_net s) g (nic_vars s)) s' → runs ti ri tr s s'
  | runs_stack n s tr s' : view_of_stack n = net_view s →
      runs ti ri tr (Nic n (nic_gem s) (nic_vars s)) s' → runs ti ri tr s s'.

Lemma runs_reachable ti ri tr s s' : runs ti ri tr s s' → reachable ti ri s → reachable ti ri s'.
Proof.
  induction 1 as [|e r s s1 tr s' He E _ IH|g s tr s' Hg _ IH|n s tr s' Hn _ IH]; intros Hs; [done|apply IH..].
  - by eapply reachable_event.
  - by apply reachable_hardware.
  - by apply reachable_stack.
Qed.

Lemma runs_queues ti ri tr s s' : runs ti ri tr s s' → nic_inv ti ri s →
  queue_runs tr (queues_of ti s) (queues_of ti s').
Proof.
  induction 1 as [|e r s s1 tr s' He E _ IH|g s tr s' Hg _ IH|n s tr s' Hn _ IH]; intros Hs; [constructor|..].
  - destruct (event_run ti ri e s Hs He) as (r' & s1' & E' & [[Hi _] Hq]).
    rewrite E in E'. injection E' as <- <-. by eapply queue_runs_cons; [|apply IH].
  - assert (rx_same s (Nic (nic_net s) g (nic_vars s))) as Hsame by by apply rx_same_gem.
    rewrite <-(rx_same_queues ti _ _ Hsame). apply IH. by apply (same_conserved ti ri s).
  - assert (rx_same s (Nic n (nic_gem s) (nic_vars s))) as Hsame by done.
    rewrite <-(rx_same_queues ti _ _ Hsame). apply IH. by apply (same_conserved ti ri s).
Qed.

(** No buffer is in both queues or twice in the one of reception, and the one of
    transmission is bounded. *)
Record queues_ok (q : queues) : Prop := {
  out_bounded : (length (q_out q) ≤ XLWIP_CONFIG_N_TX_DESC)%nat;
  in_distinct : NoDup (q_in q);
  queues_apart p : p ∈ q_out q → p ∉ q_in q
}.

Lemma inv_queues ti ri s : nic_inv ti ri s → queues_ok (queues_of ti s).
Proof.
  intros [Ht Hr Ha _]. split; cbn [queues_of q_out q_in].
  - unfold queued_tx, entries. rewrite length_fmap, <-(tx_all _ _ Ht).
    pose proof (Permutation_length (ring_order_perm _ (tx_ring_ok s))) as Hl.
    unfold ring_order in Hl. rewrite length_seq, !length_app in Hl. lia.
  - pose proof (rx_distinct _ _ Hr) as Hnd. unfold owned in Hnd. by apply list.NoDup_app in Hnd as (_ & _ & ?).
  - intros p Hp Hin. apply (Ha p Hp). unfold owned. apply elem_of_app. by right.
Qed.

(** C12. The driver refines two queues.  A run is any sequence of outputs,
    inputs, interrupts, recoveries, filter changes, allocations and releases,
    each allowed where it happens, with progress of the hardware in between; a
    recovery is allowed only with all receive descriptors armed and 256 KiB left
    in [bd_space], a change of the filter only at rest.  Such a run of the driver
    is a run of two queues of buffers with the same results: an output that is
    accepted appends its whole chain to the first one, and a refused one appends
    nothing; an input takes the oldest buffer of the second one, or NULL if and
    only if there is none.  So what the outputs accepted leaves in this order,
    and what arrived is given out in this order, each buffer once; the first
    queue has at most as many buffers as there are descriptors.  And the next
    event that is allowed returns, with a result that the queues allow. *)
Theorem driver_refines_queues ti ri tr s s' : reachable ti ri s → runs ti ri tr s s' →
  let q := queues_of ti s in
  let q' := queues_of ti s' in
  queue_runs tr q q' ∧ fifo tr q q' ∧ queues_ok q' ∧
  ∀ e, allowed ti ri e s' → ∃ r s'', run e s' = Ok (r, s'') ∧ queue_step e r q' (queues_of ti s'').
Proof.
  intros Hs Hr q q'. pose proof (driver_inv _ _ _ Hs) as Hi.
  pose proof (driver_inv _ _ _ (runs_reachable _ _ _ _ _ Hr Hs)) as Hi'.
  pose proof (runs_queues _ _ _ _ _ Hr Hi) as Hq. split_and!; [done|by apply queue_runs_fifo|by eapply inv_queues|].
  intros e He. destruct (event_run ti ri e s' Hi' He) as (r & s'' & E & _ & Hstep). by exists r, s''.
Qed.
End Fifo.

(** ** Two frames arrive, and one is taken, while a chain is sent again *)

Definition nic_arrived : nic net gemsim := after (run (RecvIrq 3) nic_sending).
Definition nic_taken : nic net gemsim := after (run Input nic_arrived).
Definition nic_resent : nic net gemsim := after (run (Output 1 [1; 2]) nic_taken).

Definition busy_trace : trace := [(RecvIrq 3, NULL); (Input, 3); (Output 1 [1; 2], ERR_OK)].

Lemma busy_runs : runs 0 0 busy_trace nic_sending nic_resent.
Proof.
  apply (runs_event 0 0 _ _ _ nic_arrived); [vm_compute; repeat constructor|vm_compute; reflexivity|].
  apply (runs_event 0 0 _ _ _ nic_taken); [done|vm_compute; reflexivity|].
  apply (runs_event 0 0 _ _ _ nic_resent); [|vm_compute; reflexivity|apply runs_nil].
  two_bufs_sendable.
Qed.

Lemma driver_refines_queues_witness :
  queues_of 0 nic_sending = Queues [1; 2] [] ∧ queues_of 0 nic_resent = Queues [1; 2; 1; 2] [4] ∧
  queue_runs busy_trace (queues_of 0 nic_sending) (queues_of 0 nic_resent) ∧
  fifo busy_trace (queues_of 0 nic_sending) (queues_of 0 nic_resent) ∧
  ∃ r s, run Input nic_resent = Ok (r, s) ∧ queue_step Input r (queues_of 0 nic_resent) (queues_of 0 s).
Proof.
  destruct (driver_refines_queues 0 0 busy_trace nic_sending nic_resent nic_sending_reachable busy_runs)
    as (Hq & Hf & _ & He).
  split_and!; [vm_compute; reflexivity|vm_compute; reflexivity|exact Hq|exact Hf|exact (He Input I)].
Defined.
