(* ===== verification/Link.v ===== *)
(** * The driver under the stack

    To the protocols the driver is a part of the stack: their packets go to
    [netif->linkoutput], which is [low_level_output].  The operations of lwIP
    act on the stack inside the state of the driver and obey the same laws;
    the output function is the one of the driver, and takes a reference to every
    buffer for as long as a descriptor holds it. *)

From S2P Require Export Lift Interleave.
From stdpp Require Import list gmap.

#[local] Open Scope Z_scope.

#[global] Instance stack_l_laws {N G} : LensLaws (@stack_l N G).
Proof. split; [done|by intros []|done]. Qed.

#[global] Instance nic_lwip {N G} `{Lwip N} : Lwip (nic N G) := lifted_lwip stack_l.
#[global] Instance nic_view {N G} `{LwipView N} : LwipView (nic N G) := lifted_view stack_l.
#[global] Instance nic_laws {N G} `{LwipLaws N} : LwipLaws (nic N G) := lifted_laws stack_l.
#[global] Instance nic_link {N G} `{Board} `{Lwip N} `{EmacPs G} : Link (nic N G) :=
  {| linkoutput := low_level_output |}.

Section Link.
Context {N G : Type} `{Board} `{LwipLaws N} `{EmacPsLaws G}.
Implicit Types s : nic N G.

Lemma app_refs_nonneg ti ri p s : nic_inv ti ri s → 0 ≤ app_refs ti ri p s.
Proof.
  intros Hinv. destruct (decide (p ∈ owned ri s)) as [Ho|Ho]; [by rewrite owned_app_refs|].
  unfold app_refs. rewrite decide_False by done. pose proof (inv_counted _ _ _ Hinv p). lia.
Qed.

Lemma null_unowned ti ri s : nic_inv ti ri s → NULL ∉ owned ri s.
Proof.
  intros Hinv Hn. pose proof (rx_held _ _ (inv_rx _ _ _ Hinv) _ Hn) as Hh.
  unfold net_view in Hh. by rewrite null_not_held in Hh.
Qed.

(** *** What the program does to the driver

    [Holds]: the invariants, how many references the program has to each
    buffer, and the frames that wait for it. *)
Record holds (ti ri : nat) (A : Z → Z) (q : list Z) s : Prop := {
  holds_inv : nic_inv ti ri s;
  holds_refs p : app_refs ti ri p s = A p;
  holds_queue : rx_queue s = q
}.

(** One reference more or less. *)
Definition adjusted (p d : Z) (A : Z → Z) : Z → Z := λ q, A q + if decide (p = q) then d else 0.

Lemma holds_now ti ri s : nic_inv ti ri s → holds ti ri (λ p, app_refs ti ri p s) (rx_queue s) s.
Proof. by split. Qed.

Lemma holds_ext ti ri A A' q s : (∀ p, A p = A' p) → holds ti ri A q s → holds ti ri A' q s.
Proof. intros HA []. split; [done| |done]. intros p. by rewrite <-HA. Qed.

Lemma holds_conserved ti ri A q s s' : holds ti ri A q s → conserved ti ri s s' →
  rx_queue s' = rx_queue s → holds ti ri A q s'.
Proof. intros [Hi Ha Hq] [Hi' Ha'] Hq'. split; [done| |congruence]. intros p. by rewrite Ha'. Qed.

(** The stack changes the references to one buffer by [d]. *)
Lemma holds_stack ti ri A q p d n s : holds ti ri A q s → 0 ≤ A p + d →
  p ∉ owned ri s → (∀ x, x ≠ p → refs (view_of_stack n) !! x = refs (net_view s) !! x) →
  nrefs p (view_of_stack n) = nrefs p (net_view s) + d →
  holds ti ri (adjusted p d A) q (Nic n (nic_gem s) (nic_vars s)).
Proof.
  intros [Hi Ha Hq] Hd Ho Hne Heq. specialize (Ha p) as Hp. unfold app_refs in Hp.
  rewrite decide_False in Hp by done.
  destruct (stack_conserved ti ri p d n s) as [Hi' Ha']; [done|done|lia|done|done|].
  split; [done| |done]. intros x. by rewrite Ha', Ha.
Qed.

(** Nothing that is counted changes. *)
Lemma holds_same ti ri A q n s : holds ti ri A q s →
  refs (view_of_stack n) = refs (net_view s) → holds ti ri A q (Nic n (nic_gem s) (nic_vars s)).
Proof.
  intros Hs Hr. apply (holds_ext _ _ (adjusted NULL 0 A)).
  - intros p. unfold adjusted. destruct (decide (NULL = p)); lia.
  - apply holds_stack; [done| | |by intros; rewrite Hr|unfold nrefs; rewrite Hr; lia].
    + rewrite <-(holds_refs _ _ _ _ _ Hs). pose proof (app_refs_nonneg ti ri NULL s (holds_inv _ _ _ _ _ Hs)). lia.
    + apply (null_unowned ti), Hs.
Qed.

(** A buffer of the program goes. *)
Lemma holds_drop ti ri A q p n s : holds ti ri A q s → 0 < A p →
  refs (view_of_stack n) = refs (drop_ref p (net_view s)) →
  holds ti ri (adjusted p (-1) A) q (Nic n (nic_gem s) (nic_vars s)).
Proof.
  intros Hs Hp Hr. destruct Hs as [Hi Ha Hq]. specialize (Ha p) as Hap.
  assert (p ∉ owned ri s) as Ho by (intros Ho; rewrite (owned_app_refs _ _ _ _ Hi Ho) in Hap; lia).
  unfold app_refs in Hap. rewrite decide_False in Hap by done.
  pose proof (count_nonneg p (queued_tx ti s)).
  apply holds_stack; [done|lia|done|..].
  - intros x Hx. rewrite Hr, drop_ref_refs. by rewrite decide_False.
  - unfold nrefs at 1. rewrite Hr. fold (nrefs p (drop_ref p (net_view s))).
    rewrite nrefs_drop, decide_True by done.
    rewrite (nrefs_some p (net_view s)) by lia. by rewrite decide_True.
Qed.

(** A new buffer comes. *)
Lemma holds_alloc ti ri A q layer len type p n s : holds ti ri A q s →
  pbuf_alloc layer len type (nic_net s) = (p, n) →
  holds ti ri (if decide (p = NULL) then A else adjusted p 1 A) q (Nic n (nic_gem s) (nic_vars s)).
Proof.
  intros Hs E. destruct (alloc_spec _ _ _ _ _ _ E) as [[-> Hv]|(Hp & Hnone & Hv & _)].
  - rewrite decide_True by done. apply holds_same; [done|by rewrite Hv].
  - rewrite decide_False by done. pose proof (holds_inv _ _ _ _ _ Hs) as Hi.
    assert (nrefs p (net_view s) = 0) as H0' by (unfold nrefs, net_view; by rewrite Hnone).
    assert (p ∉ owned ri s) as Ho
      by (intros Ho; pose proof (owned_nrefs ri p s (inv_rx _ _ _ Hi) Ho); lia).
    apply holds_stack; [done| |done|..].
    + rewrite <-(holds_refs _ _ _ _ _ Hs). pose proof (app_refs_nonneg ti ri p s Hi). lia.
    + intros x Hx. rewrite Hv. cbn. by rewrite lookup_insert_ne.
    + rewrite H0', Hv. unfold nrefs. cbn. by rewrite lookup_insert_eq.
Qed.

(** A single buffer of the program goes out. *)
Lemma holds_linkoutput ti ri A q p b s : holds ti ri A q s → pbuf_get p (nic_net s) = Some b →
  p_next b = NULL → p ≠ NULL → 0 < A p → (1 ≤ max_chain)%nat →
  ∃ e s', linkoutput p s = Ok (e, s') ∧ output_done ti ri [p] e s s' ∧ holds ti ri A q s'.
Proof.
  intros Hs Hb Hn Hp HA Hm. rewrite <-(holds_refs _ _ _ _ _ Hs) in HA. pose proof (holds_inv _ _ _ _ _ Hs) as Hi.
  destruct (output_conserves ti ri p [p] s Hi) as (e & s' & E & Hd).
  { split; [|split; [done|split; [exact Hm|]]].
    2: { constructor; [|constructor]. split; [|by left]. intros Ho. rewrite (owned_app_refs _ _ _ _ Hi Ho) in HA. lia. }
    split; [done|]. split; [done|]. by exists b. }
  exists e, s'. split; [done|]. split; [done|].
  apply (holds_conserved _ _ _ _ s); [done|apply Hd|]. apply (kept_queue _ _ (out_kept _ _ _ _ _ _ Hd)).
Qed.

(** *** Triples for the calls of the program *)

Lemma over_stable ti ri A q (f : N → N) : (∀ n, refs (view_of_stack (f n)) = refs (view_of_stack n)) →
  stable (holds ti ri A q) (modify (over stack_l f)).
Proof. intros Hf s a s' Hs [= <- <-]. apply holds_same; [done|apply Hf]. Qed.

Lemma over_call_stable {R} ti ri A q (f : N → R * N) :
  (∀ n, refs (view_of_stack (f n).2) = refs (view_of_stack n)) →
  stable (holds ti ri A q) (call (over_call stack_l f)).
Proof. intros Hf s a s' Hs [= <- <-]. apply holds_same; [done|apply Hf]. Qed.

Lemma over_drop ti ri A q p (f : N → N) : 0 < A p →
  (∀ n, refs (view_of_stack (f n)) = refs (drop_ref p (view_of_stack n))) →
  triple (holds ti ri A q) (modify (over stack_l f)) (λ _, holds ti ri (adjusted p (-1) A) q).
Proof. intros Hp Hf s a s' Hs [= <- <-]. apply holds_drop; [done..|apply Hf]. Qed.

Lemma pbuf_at_stable (P : nic N G → Prop) p : stable P (pbuf_at p).
Proof. intros s b s' Hs E. unfold pbuf_at in E. case_match; by simplify_eq. Qed.

Lemma stack_pbuf_at_stable (P : nic N G → Prop) p : stable P (on_stack (pbuf_at p)).
Proof.
  intros s b s' Hs E. unfold on_stack, pbuf_at in E. apply zoom_Ok in E as (n & E & ->).
  cbn in E. case_match; [|done]. injection E as _ <-. by destruct s.
Qed.

Lemma free_triple ti ri A q p : 0 < A p →
  triple (holds ti ri A q) (modify (pbuf_free p)) (λ _, holds ti ri (adjusted p (-1) A) q).
Proof. intros Hp. apply (over_drop ti ri A q p (pbuf_free p)); [done|]. intros n. by rewrite free_view. Qed.

Lemma put_stable ti ri A q p b : stable (holds ti ri A q) (modify (pbuf_put p b)).
Proof. apply (over_stable ti ri A q (pbuf_put p b)). intros n. by rewrite put_view. Qed.

Lemma stats_stable ti ri A q w : stable (holds ti ri A q) (modify (stats_inc w)).
Proof. apply (over_stable ti ri A q (stats_inc w)). intros n. by rewrite stats_view. Qed.

Lemma remove_header_stable ti ri A q p k : stable (holds ti ri A q) (call (pbuf_remove_header p k)).
Proof.
  apply (over_call_stable ti ri A q (pbuf_remove_header p k)). intros n.
  by destruct (header_view p k n) as [-> _].
Qed.

Lemma alloc_triple ti ri A q layer len type :
  triple (holds ti ri A q) (call (pbuf_alloc layer len type))
    (λ p, holds ti ri (if decide (p = NULL) then A else adjusted p 1 A) q).
Proof.
  intros s p s' Hs [= <- <-].
  eapply holds_alloc; [exact Hs|apply surjective_pairing].
Qed.

Lemma pbuf_store_stable ti ri A q p bytes : stable (holds ti ri A q) (pbuf_store p bytes).
Proof.
  unfold pbuf_store. apply stable_bind; [apply pbuf_at_stable|]. intros b.
  case_match; [apply put_stable|apply stable_fail].
Qed.

(** Control blocks are not counted. *)
Lemma udp_new_stable ti ri A q : stable (holds ti ri A q) (call udp_new).
Proof.
  apply (over_call_stable ti ri A q udp_new). intros n.
  by destruct (udp_new_spec n _ _ (surjective_pairing _)) as [[_ ->]|(_ & _ & ->)].
Qed.

Lemma udp_remove_stable ti ri A q c : stable (holds ti ri A q) (modify (udp_remove c)).
Proof.
  apply (over_stable ti ri A q (udp_remove c)). intros n. rewrite udp_remove_view. by case_match.
Qed.

Lemma held_buffer ti ri A q p s : holds ti ri A q s → 0 < A p → is_Some (pbuf_get p (nic_net s)).
Proof.
  intros [Hi Ha _] Hp. apply held_live. specialize (Ha p). unfold app_refs, nrefs in Ha.
  pose proof (count_nonneg p (queued_tx ti s)). unfold net_view in Ha.
  destruct (refs _ !! p); [done|]. cbn in Ha. case_decide; lia.
Qed.

Lemma sendto_stable ti ri A q c p a port : 0 < A p →
  stable (holds ti ri A q) (modify (udp_sendto c p a port)).
Proof.
  intros Hp s u s' Hs [= _ <-]. apply holds_same; [done|]. destruct (held_buffer _ _ _ _ _ _ Hs Hp) as [b Hb].
  destruct (decide (c = NULL)) as [->|Hc]; [by rewrite sendto_null|by erewrite sendto_view].
Qed.

(** The inputs of the layers above own the buffer. *)
Lemma passed_triple ti ri A q p (f : Z → nic N G → nic N G) :
  f = ip4_input ∨ f = ip6_input ∨ f = etharp_input → 0 < A p →
  triple (holds ti ri A q) (modify (f p)) (λ _, holds ti ri (adjusted p (-1) A) q).
Proof.
  intros [-> | [-> | ->]] Hp.
  - apply (over_drop ti ri A q p (ip4_input p)); [done|]. intros n. by rewrite ip4_view.
  - apply (over_drop ti ri A q p (ip6_input p)); [done|]. intros n. by rewrite ip6_view.
  - apply (over_drop ti ri A q p (etharp_input p)); [done|]. intros n. by rewrite arp_view.
Qed.

Lemma adjusted_cancel p d A x : adjusted p (- d) (adjusted p d A) x = A x.
Proof. unfold adjusted. case_decide; lia. Qed.

(** A frame leaves the queue of the driver and is the program's. *)
Lemma accounted_adjusted ti ri A p s s' : accounted ti ri Input p s s' → (∀ x, app_refs ti ri x s = A x) →
  ∀ x, app_refs ti ri x s' = (if decide (p = NULL) then A else adjusted p 1 A) x.
Proof.
  intros [_ Ha] HA x. rewrite Ha, HA. cbn [gain]. unfold adjusted.
  destruct (decide (p = NULL)) as [->|Hp]; [rewrite decide_False by naive_solver; lia|].
  do 2 case_decide; naive_solver lia.
Qed.

Lemma holds_dequeued ti ri A p q s s' : holds ti ri A (p :: q) s →
  gem_view (nic_gem s') = set_queue q (gem_view (nic_gem s)) → nic_vars s' = nic_vars s →
  net_view s' = net_view s → p ≠ NULL → holds ti ri (adjusted p 1 A) q s'.
Proof.
  intros [Hi Ha Hq] Hg Hv Hn Hp. pose proof (dequeued_accounted ti ri p q s s' Hi Hq Hg Hv Hn) as Hacc.
  split; [apply Hacc| |unfold rx_queue; by rewrite Hg]. intros x.
  rewrite (accounted_adjusted ti ri A p s s' Hacc Ha). by rewrite decide_False.
Qed.

Lemma input_triple ti ri A q : triple (holds ti ri A q) low_level_input
  (λ p, holds ti ri (if decide (p = NULL) then A else adjusted p 1 A) (tail q)).
Proof.
  intros s p s' Hs E. destruct (input_event ti ri s (holds_inv _ _ _ _ _ Hs)) as (r & s1 & E1 & Hacc & _).
  rewrite E in E1. injection E1 as <- <-. split; [apply Hacc| |].
  - apply (accounted_adjusted ti ri A p s s' Hacc), Hs.
  - rewrite <-(holds_queue _ _ _ _ _ Hs). revert E. unfold low_level_input, rx_queue. nic_run.
    rewrite qlength_law. destruct (g_queue (gem_view (nic_gem s))) as [|x l] eqn:Eq.
    + intros [= _ <-]. by rewrite Eq.
    + change (Z.of_nat (length (x :: l)) =? 0) with false. cbv iota. rewrite gem_call_run.
      intros [= _ <-]. cbn. by destruct (dequeue_law _ _ _ Eq) as [_ ->].
Qed.
End Link.

#[export] Hint Resolve put_stable stats_stable remove_header_stable pbuf_at_stable : stable.
