(* ===== verification/NetifInit.v ===== *)
(** * Initialisation of the interface
      ([xemacpsif_init] and [low_level_init] of [src/IEEE1588/netif/xemacpsif.c])

    The memory for the state of the driver, the fields of [struct netif], the
    set-up of the controller.  The results of [low_level_init], [init_dma] and
    [XEmacPs_CfgInitialize] are not looked at. *)

From S2P Require Export Xemacpsif.
From stdpp Require Import list gmap.

#[local] Open Scope Z_scope.

(** [netif->state] is the base address of the controller until the interface
    is initialised, and the [struct xemac_s] afterwards. *)
Inductive netif_state :=
  | BaseAddress (mac_address : Z)
  | Xemac (topology_index : Z).

Record netif := Netif {
  nf_state : netif_state;
  nf_name : string;
  nf_output : bool;          (* xemacpsif_output installed *)
  nf_linkoutput : bool;      (* low_level_output installed *)
  nf_mtu : Z;
  nf_flags : Z;
  nf_igmp_filter : bool;     (* xemacpsif_mac_filter_update installed *)
  nf_mld_filter : bool       (* xemacpsif_mld6_mac_filter_update installed *)
}.

(** Memory, the tables of the generated files, and the constants of lwIP and of
    the driver's headers. *)
Class InitEnv (G : Type) := {
  mem_malloc : string → G → bool * G;       (* false: NULL *)
  pq_create_queue : G → bool * G;
  xtopology_find_index : Z → Z;
  xemacps_lookup_config : Z → option Z;     (* the base address of the entry *)
  XEMACPS_MTU : Z;
  XEMACPS_HDR_SIZE : Z;
  NETIF_FLAG_BROADCAST : Z;
  NETIF_FLAG_ETHARP : Z;
  NETIF_FLAG_LINK_UP : Z;
  NETIF_FLAG_MLD6 : Z;
  NETIF_FLAG_IGMP : Z;
  LWIP_IGMP : bool;
  LWIP_IPV6_MLD : bool
}.

Record iface (N G : Type) := Iface { if_netif : netif; if_nic : nic N G }.
Arguments Iface {N G} _ _.
Arguments if_netif {N G} _.
Arguments if_nic {N G} _.

Section Init.
Context {N G : Type} `{Board} `{Lwip N} `{EmacPs G} `{!InitEnv G}.

Definition if_nic_l : lens (iface N G) (nic N G) := Lens if_nic (λ n s, Iface (if_netif s) n).
Definition on_nic {A} (m : M (nic N G) A) : M (iface N G) A := zoom if_nic_l m.
Definition netif_do (f : netif → netif) : M (iface N G) unit :=
  modify (λ s, Iface (f (if_netif s)) (if_nic s)).

Definition with_state (x : netif_state) (n : netif) : netif :=
  Netif x (nf_name n) (nf_output n) (nf_linkoutput n) (nf_mtu n) (nf_flags n) (nf_igmp_filter n)
    (nf_mld_filter n).

(** [netif->mtu], the filters and [netif->flags] *)
Definition netif_configured (n : netif) : netif :=
  Netif (nf_state n) (nf_name n) (nf_output n) (nf_linkoutput n) (XEMACPS_MTU - XEMACPS_HDR_SIZE)
    (Z.lor (Z.lor (Z.lor (Z.lor NETIF_FLAG_BROADCAST NETIF_FLAG_ETHARP) NETIF_FLAG_LINK_UP)
      (if LWIP_IPV6_MLD then NETIF_FLAG_MLD6 else 0)) (if LWIP_IGMP then NETIF_FLAG_IGMP else 0))
    (LWIP_IGMP || nf_igmp_filter n) (LWIP_IPV6_MLD || nf_mld_filter n).

(** [netif->name], [netif->output], [netif->linkoutput] *)
Definition netif_named (n : netif) : netif :=
  Netif (nf_state n) "te" true true (nf_mtu n) (nf_flags n) (nf_igmp_filter n) (nf_mld_filter n).

(** From [XEmacPs_CfgInitialize] to [start_emacps]. *)
Definition controller_init (config : Z) : M (nic N G) unit :=
  gem_call (CfgInitialize config) ;;
  vars_do (with_v_base config) ;;
  mac MacInit ;;
  dmacrreg ← ReadReg XEMACPS_DMACR_OFFSET;
  WriteReg_ XEMACPS_DMACR_OFFSET (Z.lor dmacrreg 0x00000010) ;;
  mac MacSetupIsr ;;
  init_dma ;;
  mac MacStartEmacps.

Definition low_level_init : M (iface N G) Z :=
  n ← gets if_netif;
  match nf_state n with
  | Xemac _ => fail (Indeterminate "netif->state")
  | BaseAddress mac_address =>
      ok ← on_nic (gem_call (mem_malloc "xemacpsif"));
      if negb ok then mret ERR_MEM
      else
      ok ← on_nic (gem_call (mem_malloc "xemac"));
      if negb ok then mret ERR_MEM
      else
      ok ← on_nic (gem_call pq_create_queue);
      if negb ok then mret ERR_MEM
      else
        netif_do netif_configured ;;
        match xemacps_lookup_config mac_address with
        | None => fail (NullDeref "mac_config")
        | Some config =>
            on_nic (controller_init config) ;;
            netif_do (with_state (Xemac (xtopology_find_index mac_address))) ;;
            mret ERR_OK
        end
  end.

Definition xemacpsif_init : M (iface N G) Z :=
  netif_do netif_named ;;
  low_level_init ;;
  mret ERR_OK.

(** ** Theorem *)

(** The three allocations, in order; whether all of them succeed. *)
Definition allocations (g : G) : bool * G :=
  let r1 := mem_malloc "xemacpsif" g in
  if r1.1 then
    let r2 := mem_malloc "xemac" r1.2 in
    if r2.1 then pq_create_queue r2.2 else r2
  else r1.

Implicit Types s : iface N G.

Definition with_gem (g : G) (n : nic N G) : nic N G := Nic (nic_net n) g (nic_vars n).

Lemma on_nic_gem_call {A B} (f : G → A * G) (k : A → M (iface N G) B) s :
  (on_nic (gem_call f) ≫= k) s =
  k (f (nic_gem (if_nic s))).1 (Iface (if_netif s) (with_gem (f (nic_gem (if_nic s))).2 (if_nic s))).
Proof. by rewrite run_bind. Qed.

(** C38. Initialisation reports success whatever happens.  If an allocation fails,
    the controller is not touched and [netif->state] is still the address of
    the controller, although the output functions are installed, which take it
    for the state of the driver.  If all succeed and the set-up returns, the
    state is there, also when the set-up of the descriptors failed. *)
Theorem xemacpsif_init_hides_failure a s : nf_state (if_netif s) = BaseAddress a →
  let '(ok, g) := allocations (nic_gem (if_nic s)) in
  if (ok : bool) then ∀ e s', xemacpsif_init s = Ok (e, s') →
    e = ERR_OK ∧ nf_state (if_netif s') = Xemac (xtopology_find_index a) ∧
    nf_linkoutput (if_netif s') = true ∧ is_Some (xemacps_lookup_config a)
  else ∃ s', xemacpsif_init s = Ok (ERR_OK, s') ∧ nf_state (if_netif s') = BaseAddress a ∧
    nf_linkoutput (if_netif s') = true ∧ if_nic s' = with_gem g (if_nic s).
Proof.
  intros Ha. unfold allocations, xemacpsif_init, low_level_init.
  set (s0 := Iface (netif_named (if_netif s)) (if_nic s)).
  assert (nf_state (if_netif s0) = BaseAddress a) as Ha0 by done.
  assert (∀ m : M (iface N G) Z, (netif_do netif_named ;; m ;; mret ERR_OK) s = (m ;; mret ERR_OK) s0) as Hm
    by (intros m; by rewrite run_bind).
  rewrite Hm, run_bind, run_bind, run_gets, bind_Ok_l, Ha0, on_nic_gem_call.
  change (nic_gem (if_nic s0)) with (nic_gem (if_nic s)).
  destruct (mem_malloc "xemacpsif" (nic_gem (if_nic s))) as [[|] g1]; cbn [fst snd negb];
    [|by eexists].
  rewrite on_nic_gem_call. cbn [if_nic nic_gem with_gem].
  destruct (mem_malloc "xemac" g1) as [[|] g2]; cbn [fst snd negb]; [|by eexists].
  rewrite on_nic_gem_call. cbn [if_nic nic_gem with_gem].
  destruct (pq_create_queue g2) as [[|] g3]; cbn [fst snd negb]; [|by eexists].
  intros e s' Hr. unfold netif_do in Hr. rewrite run_bind, run_modify, bind_Ok_l in Hr.
  destruct (xemacps_lookup_config a) as [config|]; [|done].
  apply bind_Ok in Hr as ([r s1] & Hr & [= <- <-]).
  apply run_bind_Ok in Hr as (u & s2 & Hc & Hr). unfold on_nic in Hc.
  apply zoom_Ok in Hc as (n & Hc & ->).
  rewrite run_bind, run_modify, bind_Ok_l, run_ret in Hr. injection Hr as _ <-.
  split_and!; [done..|by exists config].
Qed.
End Init.

(** ** A concrete interface, with memory for [n] allocations *)

#[global] Instance init_env (n : nat) : InitEnv gemsim := {
  mem_malloc what g := (match what with "xemac" => 2 <=? Z.of_nat n | _ => 1 <=? Z.of_nat n end, g);
  pq_create_queue g := (3 <=? Z.of_nat n, g);
  xtopology_find_index _ := 0;
  xemacps_lookup_config a := if a =? 0xff0b0000 then Some a else None;
  XEMACPS_MTU := 1500;
  XEMACPS_HDR_SIZE := 14;
  NETIF_FLAG_BROADCAST := 0x02;
  NETIF_FLAG_ETHARP := 0x08;
  NETIF_FLAG_LINK_UP := 0x04;
  NETIF_FLAG_MLD6 := 0x40;
  NETIF_FLAG_IGMP := 0x20;
  LWIP_IGMP := true;
  LWIP_IPV6_MLD := false
}.

Definition iface_boot : iface net gemsim :=
  Iface (Netif (BaseAddress 0xff0b0000) "" false false 0 0 false false) nic_idle.

(** With memory for everything the interface comes up. *)
Example init_comes_up :
  match xemacpsif_init (InitEnv0 := init_env 3) iface_boot with
  | Ok (e, s) => (e, nf_state (if_netif s), nf_flags (if_netif s), nf_mtu (if_netif s)) =
      (ERR_OK, Xemac 0, 0x2e, 1486)
  | Fault _ => False
  end.
Proof. vm_compute. reflexivity. Qed.

Lemma xemacpsif_init_hides_failure_witness :
  ∃ s', xemacpsif_init (InitEnv0 := init_env 1) iface_boot = Ok (ERR_OK, s') ∧
    nf_state (if_netif s') = BaseAddress 0xff0b0000 ∧ nf_linkoutput (if_netif s') = true ∧
    if_nic s' = with_gem (nic_gem (if_nic iface_boot)) (if_nic iface_boot).
Proof.
  exact (xemacpsif_init_hides_failure (InitEnv0 := init_env 1) 0xff0b0000 iface_boot eq_refl).
Defined.
