(* ===== verification/Crc.v ===== *)
(** * The CRC and the hash table of multicast addresses
      ([ethernet_crc32] and [mac_to_hash_table] of [src/IEEE1588/gptp.c])

    The table-driven CRC-32 with its lazily built table, and the hash table
    with one bit set.  The reference is the shift register that takes the
    message bit by bit. *)

From S2P Require Export Ints.
From stdpp Require Import list.

#[local] Open Scope Z_scope.

(** ** The functions *)

Definition CRC_POLY : Z := 0xEDB88320.

(** The static variables of [ethernet_crc32]. *)
Record crc_static := CrcStatic {
  crc_table : list Z;
  table_init : Z
}.

Definition crc_boot : crc_static := CrcStatic (replicate 256 0) 0.

(** [v = (v & 1) ? (0xEDB88320U ^ (v >> 1)) : (v >> 1)] *)
Definition crc_step (v : Z) : Z :=
  if negb (Z.land v 1 =? 0) then Z.lxor CRC_POLY (Z.shiftr v 1) else Z.shiftr v 1.

(** [for (int j = 0; j < 8; ++j)] *)
Definition crc_entry (i : nat) : Z := Nat.iter 8 crc_step (Z.of_nat i).

Definition crc_fill : M crc_static unit :=
  t ← gets table_init;
  when (t =? 0) (
    for_range 0 256 (λ i, modify (λ s, CrcStatic (<[i := crc_entry i]> (crc_table s)) (table_init s))) ;;
    modify (λ s, CrcStatic (crc_table s) 1)).

(** [for (size_t i = 0; i < len; ++i)]; an index beyond the data or the table
    is out of bounds. *)
Fixpoint crc_loop (table data : list Z) (n i : nat) (crc : Z) : outcome Z :=
  match n with
  | O => Ok crc
  | Datatypes.S n' =>
      b ← rd8 data i;
      t ← rd8 table (Z.to_nat (Z.land (Z.lxor crc b) 0xFF));
      crc_loop table data n' (Datatypes.S i) (Z.lxor t (Z.shiftr crc 8))
  end.

Definition ethernet_crc32 (data : list Z) (len : nat) : M crc_static Z :=
  crc_fill ;;
  table ← gets crc_table;
  crc ← lift (crc_loop table data len 0 0xFFFFFFFF);
  mret (Z.lxor crc 0xFFFFFFFF).

Definition mac_to_hash_table (mac : list Z) : M crc_static (list Z) :=
  let hash_table := replicate 8 0 in
  crc ← ethernet_crc32 mac 6;
  let index := to_u8 (Z.land (Z.shiftr crc 26) 0x3F) in
  let i := Z.to_nat (Z.shiftr index 3) in
  old ← lift (rd8 hash_table i);
  mret (<[i := to_u8 (Z.lor old (Z.shiftl 1 (Z.land index 7)))]> hash_table).

(** ** The reference *)

(** One clock of the shift register, with the next bit of the message. *)
Definition crc_clock (crc : Z) (b : bool) : Z :=
  Z.lxor (Z.shiftr crc 1) (if xorb (Z.odd crc) b then CRC_POLY else 0).

(** The bits of a byte, least significant first. *)
Fixpoint low_bits (n : nat) (b : Z) : list bool :=
  match n with
  | O => []
  | Datatypes.S n' => Z.odd b :: low_bits n' (Z.div2 b)
  end.

Definition message_bits (data : list Z) : list bool := data ≫= low_bits 8.

Definition crc32_of_bits (bits : list bool) : Z :=
  Z.lxor (foldl crc_clock 0xFFFFFFFF bits) 0xFFFFFFFF.

(** The published check value, of the string 123456789. *)
Example crc32_check : crc32_of_bits (message_bits (seqZ 0x31 9)) = 0xCBF43926.
Proof. vm_compute. reflexivity. Qed.

(** ** Lemmas *)

Lemma crc_step_clock v : crc_step v = crc_clock v false.
Proof.
  unfold crc_step, crc_clock. rewrite xorb_false_r.
  assert (Z.land v 1 = Z.b2z (Z.odd v)) as ->.
  { change 1 with (Z.ones 1). rewrite Z.land_ones by lia. rewrite Zmod_odd. by destruct (Z.odd v). }
  destruct (Z.odd v); cbn [Z.b2z negb Z.eqb]; [apply Z.lxor_comm|by rewrite Z.lxor_0_r].
Qed.

Lemma odd_lxor a b : Z.odd (Z.lxor a b) = xorb (Z.odd a) (Z.odd b).
Proof. by rewrite <-!Z.bit0_odd, Z.lxor_spec. Qed.

Lemma crc_clock_step crc b : crc_clock crc b = crc_step (Z.lxor crc (Z.b2z b)).
Proof.
  rewrite crc_step_clock. unfold crc_clock. rewrite odd_lxor, xorb_false_r, Z.shiftr_lxor.
  by destruct b; cbn [Z.b2z Z.odd]; rewrite ?Z.lxor_0_r.
Qed.

(** What is above the last bit is only shifted. *)
Lemma crc_step_lxor x y : crc_step (Z.lxor x (Z.shiftl y 1)) = Z.lxor (crc_step x) y.
Proof.
  rewrite !crc_step_clock. unfold crc_clock.
  rewrite odd_lxor, Z.shiftr_lxor, Z.shiftr_shiftl_l, Z.sub_diag, Z.shiftl_0_r by lia.
  assert (Z.odd (Z.shiftl y 1) = false) as -> by (rewrite <-Z.bit0_odd; by apply Z.shiftl_spec_low).
  rewrite xorb_false_r, !Z.lxor_assoc. f_equal. apply Z.lxor_comm.
Qed.

Lemma crc_iter_lxor n x y :
  Nat.iter n crc_step (Z.lxor x (Z.shiftl y (Z.of_nat n))) = Z.lxor (Nat.iter n crc_step x) y.
Proof.
  revert y. induction n as [|n IH]; intros y.
  - cbn. by rewrite Z.shiftl_0_r.
  - rewrite !Nat.iter_succ, Nat2Z.inj_succ, <-Z.add_1_l, <-Z.shiftl_shiftl by lia.
    by rewrite IH, crc_step_lxor.
Qed.

Lemma div2_shift b : b = Z.lxor (Z.b2z (Z.odd b)) (Z.shiftl (Z.div2 b) 1).
Proof.
  rewrite Z.div2_spec. apply Z.bits_inj'. intros n Hn. rewrite Z.lxor_spec, Z.shiftl_spec by lia.
  destruct (decide (n = 0)) as [->|Hne].
  - rewrite (Z.testbit_neg_r _ (0 - 1)), !Z.bit0_odd by lia. by destruct (Z.odd b).
  - rewrite Z.shiftr_spec, Z.sub_add by lia.
    assert (Z.testbit (Z.b2z (Z.odd b)) n = false) as ->; [|by destruct (Z.testbit b n)].
    destruct (Z.odd b); cbn [Z.b2z]; [|apply Z.bits_0].
    apply Z.bits_above_log2; [lia|]. cbn. lia.
Qed.

(** The bits of a number one after the other, or the number at once. *)
Lemma crc_clocks n b crc : 0 ≤ b < 2 ^ Z.of_nat n →
  foldl crc_clock crc (low_bits n b) = Nat.iter n crc_step (Z.lxor crc b).
Proof.
  revert b crc. induction n as [|n IH]; intros b crc Hb; cbn [low_bits foldl].
  - change (2 ^ Z.of_nat 0) with 1 in Hb. assert (b = 0) as -> by lia. cbn. by rewrite Z.lxor_0_r.
  - rewrite Nat2Z.inj_succ, Z.pow_succ_r in Hb by lia.
    rewrite IH by (rewrite Z.div2_div; lia).
    rewrite crc_clock_step, <-crc_step_lxor, Z.lxor_assoc, <-div2_shift, <-Nat.iter_succ_r. done.
Qed.

(** The entry of the table, and the rest of the register. *)
Lemma crc_byte crc b : is_byte b →
  Z.lxor (crc_entry (Z.to_nat (Z.land (Z.lxor crc b) 0xFF))) (Z.shiftr crc 8) =
  Nat.iter 8 crc_step (Z.lxor crc b).
Proof.
  unfold is_byte. intros Hb. unfold crc_entry. change 0xFF with (Z.ones 8). rewrite Z.land_ones by lia.
  rewrite Z2Nat.id by lia.
  set (x := Z.lxor crc b).
  assert (Z.shiftr crc 8 = Z.shiftr x 8) as ->.
  { unfold x. rewrite Z.shiftr_lxor. rewrite (Z.shiftr_div_pow2 b) by lia.
    change (2 ^ 8) with 256. rewrite Z.div_small by lia. by rewrite Z.lxor_0_r. }
  rewrite <-(crc_iter_lxor 8). f_equal. change (Z.of_nat 8) with 8.
  apply Z.bits_inj'. intros n Hn. rewrite Z.lxor_spec, Z.shiftl_spec by lia.
  destruct (decide (n < 8)).
  - rewrite Z.mod_pow2_bits_low, (Z.testbit_neg_r _ (n - 8)) by lia. by rewrite xorb_false_r.
  - rewrite Z.mod_pow2_bits_high, Z.shiftr_spec by lia. cbn. f_equal. lia.
Qed.

Definition full_table : list Z := crc_entry <$> seq 0 256.

(** The table is either still to be built or built. *)
Definition crc_ok (s : crc_static) : Prop :=
  if table_init s =? 0 then length (crc_table s) = 256%nat else crc_table s = full_table.

Lemma crc_boot_ok : crc_ok crc_boot.
Proof. reflexivity. Qed.

Lemma fill_loop n from s : (from + n ≤ length (crc_table s))%nat →
  for_range from n (λ i, modify (λ s, CrcStatic (<[i := crc_entry i]> (crc_table s)) (table_init s))) s =
  Ok (tt, CrcStatic (take from (crc_table s) ++ (crc_entry <$> seq from n) ++
    drop (from + n) (crc_table s)) (table_init s)).
Proof.
  revert from s. induction n as [|n IH]; intros from s Hn; cbn [for_range].
  - rewrite run_ret, Nat.add_0_r. cbn. rewrite take_drop. by destruct s.
  - rewrite run_bind, run_modify, bind_Ok_l, IH by (cbn; rewrite length_insert; lia).
    cbn [crc_table table_init]. do 3 f_equal.
    rewrite (take_S_r _ _ (crc_entry from)) by (apply list_lookup_insert_eq; lia).
    rewrite take_insert_ge, drop_insert_lt by lia. rewrite <-app_assoc. cbn.
    by rewrite <-Nat.add_succ_comm.
Qed.

Lemma crc_fill_run s : crc_ok s → ∃ s', crc_fill s = Ok (tt, s') ∧
  crc_table s' = full_table ∧ crc_ok s'.
Proof.
  unfold crc_ok. intros Hs. unfold crc_fill. rewrite run_bind, run_gets, bind_Ok_l.
  destruct (table_init s =? 0) eqn:E; cbn [when].
  - rewrite run_bind, (fill_loop 256 0 s) by lia. rewrite bind_Ok_l, run_modify.
    eexists. split; [reflexivity|]. cbn [crc_table table_init take app].
    rewrite drop_ge, app_nil_r by (rewrite Hs; done). done.
  - exists s. rewrite E. done.
Qed.

Lemma lookup_full i : (i < 256)%nat → full_table !! i = Some (crc_entry i).
Proof. intros Hi. unfold full_table. rewrite list_lookup_fmap, lookup_seq_lt by done. done. Qed.

Lemma crc_loop_run data n i crc : Forall is_byte data → (i + n ≤ length data)%nat →
  crc_loop full_table data n i crc =
  Ok (foldl crc_clock crc (message_bits (take n (drop i data)))).
Proof.
  intros Hd. revert i crc. induction n as [|n IH]; intros i crc Hi; cbn [crc_loop].
  - done.
  - destruct (lookup_lt_is_Some_2 data i) as [b Hb]; [lia|].
    assert (is_byte b) as Hbb by (by eapply Forall_lookup_1).
    rewrite (rd8_Ok _ _ _ Hb), bind_Ok_l.
    rewrite (rd8_Ok full_table _ (crc_entry (Z.to_nat (Z.land (Z.lxor crc b) 0xFF)))), bind_Ok_l.
    2:{ apply lookup_full. change 0xFF with (Z.ones 8). rewrite Z.land_ones by lia. lia. }
    rewrite IH by lia. rewrite (drop_S _ _ _ Hb). cbn [take message_bits].
    unfold message_bits. rewrite bind_cons, foldl_app.
    rewrite crc_clocks by (cbn; unfold is_byte in Hbb; lia). by rewrite crc_byte.
Qed.

Lemma crc_run data len s : crc_ok s → Forall is_byte data → (len ≤ length data)%nat →
  ∃ s', ethernet_crc32 data len s = Ok (crc32_of_bits (message_bits (take len data)), s') ∧ crc_ok s'.
Proof.
  intros Hs Hd Hl. destruct (crc_fill_run s Hs) as (s1 & E & Ht & Hs1).
  exists s1. split; [|done]. unfold ethernet_crc32.
  rewrite run_bind, E, bind_Ok_l, run_bind, run_gets, bind_Ok_l, Ht, run_bind,
    crc_loop_run by (done || lia).
  done.
Qed.

Lemma lxor_u32 x y : in_u32 x → in_u32 y → in_u32 (Z.lxor x y).
Proof.
  unfold in_u32. intros Hx Hy.
  assert (Z.lxor x y = Z.lxor x y mod 2 ^ 32) as ->; [|lia].
  apply Z.bits_inj'. intros n Hn. destruct (decide (n < 32)).
  - by rewrite Z.mod_pow2_bits_low by lia.
  - rewrite Z.mod_pow2_bits_high, Z.lxor_spec by lia.
    rewrite <-(Z.mod_small x (2 ^ 32)), <-(Z.mod_small y (2 ^ 32)) by lia.
    by rewrite !Z.mod_pow2_bits_high by lia.
Qed.

Lemma crc_clock_range crc b : in_u32 crc → in_u32 (crc_clock crc b).
Proof.
  intros Hc. unfold crc_clock. apply lxor_u32.
  - unfold in_u32 in *. rewrite Z.shiftr_div_pow2 by lia. lia.
  - unfold in_u32, CRC_POLY. destruct (xorb _ _); lia.
Qed.

Lemma crc32_range bits : in_u32 (crc32_of_bits bits).
Proof.
  unfold crc32_of_bits.
  assert (∀ l c, in_u32 c → in_u32 (foldl crc_clock c l)) as Hf.
  { induction l as [|b l IH]; cbn; intros c Hc; [done|]. by apply IH, crc_clock_range. }
  apply lxor_u32; [apply Hf|]; done.
Qed.

(** ** Theorems *)

(** C34. The table-driven CRC is the CRC-32 of the shift register, whether the
    table has been built before or is built by this call, and it leaves a
    table that is right for the next call. *)
Theorem ethernet_crc32_is_crc32 data s : crc_ok s → Forall is_byte data →
  ∃ s', ethernet_crc32 data (length data) s = Ok (crc32_of_bits (message_bits data), s') ∧ crc_ok s'.
Proof.
  intros Hs Hd. destruct (crc_run data (length data) s Hs Hd) as (s' & E & Hs'); [done|].
  exists s'. by rewrite firstn_all in E.
Qed.

Lemma ethernet_crc32_is_crc32_witness :
  ∃ s', ethernet_crc32 [0x31; 0x32; 0x33] 3 crc_boot = Ok (0x884863D2, s') ∧ crc_ok s'.
Proof.
  apply (ethernet_crc32_is_crc32 [0x31; 0x32; 0x33] crc_boot crc_boot_ok).
  repeat (apply Forall_cons_2; [split; lia|]). apply Forall_nil_2.
Defined.

(** The hash table of an address has exactly one bit set, the one that the
    upper six bits of the CRC of the address number. *)
Lemma hash_table_one_bit mac s : crc_ok s → Forall is_byte mac → length mac = 6%nat →
  let n := crc32_of_bits (message_bits mac) / 2 ^ 26 in
  0 ≤ n < 64 ∧ ∃ ht s', mac_to_hash_table mac s = Ok (ht, s') ∧ crc_ok s' ∧ length ht = 8%nat ∧
  ∀ i, 0 ≤ i < 8 → ht !! Z.to_nat i = Some (if i =? n / 8 then 2 ^ (n mod 8) else 0).
Proof.
  intros Hs Hd Hl n. destruct (crc_run mac 6 s Hs Hd) as (s' & E & Hs'); [lia|].
  rewrite take_ge in E by lia.
  pose proof (crc32_range (message_bits mac)) as Hr. unfold in_u32 in Hr.
  assert (0 ≤ n < 64) as Hn by (unfold n; lia). split; [done|].
  unfold mac_to_hash_table. rewrite run_bind, E, bind_Ok_l.
  rewrite (Z.shiftr_div_pow2 _ 26) by lia. fold n.
  change 0x3F with (Z.ones 6). rewrite Z.land_ones, (Z.mod_small n) by lia.
  unfold to_u8 at 1 2 3 4. rewrite (Z.mod_small n) by lia.
  change 7 with (Z.ones 3). rewrite Z.land_ones, Z.shiftr_div_pow2, Z.shiftl_1_l by lia.
  change (2 ^ 3) with 8.
  assert (rd8 (replicate 8 0) (Z.to_nat (n / 8)) = Ok 0) as ->
    by (apply rd8_Ok, lookup_replicate_2; lia).
  rewrite run_bind, run_lift_Ok, bind_Ok_l, run_ret. do 2 eexists. split; [reflexivity|].
  split; [done|]. split; [by rewrite length_insert|]. intros i Hi.
  destruct (Z.eqb_spec i (n / 8)) as [->|Hne].
  - rewrite list_lookup_insert_eq by (cbn; lia). rewrite Z.lor_0_l. f_equal. unfold to_u8.
    apply Z.mod_small. split; [by apply Z.pow_nonneg|].
    assert (2 ^ (n mod 8) ≤ 2 ^ 7) by (apply Z.pow_le_mono_r; lia). lia.
  - rewrite list_lookup_insert_ne by lia. apply lookup_replicate_2. lia.
Qed.

(** The address of the protocol. *)
Lemma hash_table_one_bit_witness :
  let mac := [0x01; 0x1B; 0x19; 0x00; 0x00; 0x00] in
  let n := crc32_of_bits (message_bits mac) / 2 ^ 26 in
  0 ≤ n < 64 ∧ ∃ ht s', mac_to_hash_table mac crc_boot = Ok (ht, s') ∧ crc_ok s' ∧
    length ht = 8%nat ∧
    ∀ i, 0 ≤ i < 8 → ht !! Z.to_nat i = Some (if i =? n / 8 then 2 ^ (n mod 8) else 0).
Proof.
  apply (hash_table_one_bit [0x01; 0x1B; 0x19; 0x00; 0x00; 0x00] crc_boot crc_boot_ok);
    [repeat (apply Forall_cons_2; [split; lia|]); apply Forall_nil_2|done].
Defined.
