(* ===== verification/Gptp.v ===== *)
(** * The gPTP transport ([src/IEEE1588/gptp.c])

    Delay requests as raw Ethernet frames, the registration of the callbacks,
    and the filter for the multicast address of the protocol.  Frames leave
    through [netif->linkoutput]; in the program that is the driver, a part of the
    state of the protocols. *)

From S2P Require Export Ptp Link.
From stdpp Require Import list gmap.

#[local] Open Scope Z_scope.

Definition ETHERNET_HEADER_LEN : Z := 14.

Definition gptp_eth_header : list Z :=
  [0x01; 0x1B; 0x19; 0x00; 0x00; 0x00;
   0x00; 0x0a; 0x35; 0x00; 0x01; 0x02;
   0x88; 0xF7].

(** The options of the controller, from the header of its driver. *)
Class GemOptions := {
  XEMACPS_MULTICAST_OPTION : Z;
  XEMACPS_PROMISC_OPTION : Z
}.

(** ** The functions *)

Section Task.
Context {T N D : Type} `{Xil D} `{!TsuClient T D} `{Lwip N} `{!Link N}.

(** [memcpy(p->payload, bytes, n)] *)
Definition pbuf_copy (p : Z) (bytes : list Z) : M N unit :=
  b ← pbuf_at p;
  if decide (length bytes ≤ length (p_payload b))%nat
  then modify (pbuf_put p (Pbuf (p_next b) (p_data b) (bytes ++ drop (length bytes) (p_payload b))
    (p_tot_len b) (p_if_idx b) (p_flags b)))
  else fail (OutOfBounds (p_len b)).

(** The result of [linkoutput] is not looked at.  The length is converted to
    [u16_t] on the way; the interpreter only sends 44 bytes. *)
Definition gptp_send_delay_request (msg : list Z) : M (ptp T N) unit :=
  let frame := gptp_eth_header ++ msg in
  p ← on_net (call (pbuf_alloc PBUF_RAW (ETHERNET_HEADER_LEN + Z.of_nat (length msg)) PBUF_RAM));
  when (negb (p =? NULL)) (
    on_net (pbuf_copy p frame) ;;
    on_net (linkoutput p) ;;
    on_net (modify (pbuf_free p))).

(** Not registered anywhere: [bind_raw_sock] is empty. *)
Definition gptp_msg_interpreter (p : Z) : M (world (ptp T N)) unit :=
  b ← on_ptp (on_net (pbuf_at p));
  stat ← ptp_sync_interpreter (Msg p (p_payload b));
  on_ptp (on_net (modify (pbuf_free p))) ;;
  when (negb (stat =? PTP_MSG_OK)) (on_ptp (print "Invalid GPTP message received!\r\n" [])).

Definition handle_gptp : M (ptp T N) unit := mret tt.
Definition bind_raw_sock : M (ptp T N) unit := mret tt.

Definition init_gptp_task (TSU_CLK_FREQ : Z) : M (world (ptp T N)) unit :=
  on_ptp (on_tsu (init_tsu TSU_CLK_FREQ)) ;;
  ptp_sync_register_gettime_cb get_systime ;;
  ptp_sync_register_report_diff_cb ptp_process_time_diff ;;
  ptp_sync_register_delay_req_cb gptp_send_delay_request ;;
  on_ptp (modify (with_group PTP_MULTICAST_IPV4_ADDR32)) ;;
  on_ptp ptp_start_sync.
End Task.

Definition ptp_multicast_mac : list Z := [0x01; 0x1B; 0x19; 0x00; 0x00; 0x00].

Section Filter.
Context {N G : Type} `{Board} `{GemOptions} `{Lwip N} `{EmacPs G}.

Definition enable_mac_multicast : M (nic N G) unit :=
  mac MacStop ;;
  mac (MacSetOptions XEMACPS_MULTICAST_OPTION) ;;
  mac (MacSetHash ptp_multicast_mac) ;;
  reset_dma ;;
  mac MacStart.

Definition open_xemacps_promiscuous : M (nic N G) unit :=
  err ← gem_call (mac_op (MacSetOptions XEMACPS_PROMISC_OPTION));
  if negb (err =? 0) then nic_print "open_xemacps_promiscuous failed :: %d\r\n" [err]
  else nic_print "open_xemacps_promiscuous success\r\n" [].

Definition close_xemacps_promiscuous : M (nic N G) unit :=
  mac (MacClearOptions XEMACPS_PROMISC_OPTION).
End Filter.

Section Init.
Context {T N D G : Type} `{Xil D} `{!TsuClient T D} `{Board} `{GemOptions} `{Lwip N} `{EmacPs G}.

(** The driver under the protocols. *)
Definition on_driver {A} (m : M (nic N G) A) : M (world (ptp T (nic N G))) A := on_ptp (on_net m).

Definition gptp_init (TSU_CLK_FREQ : Z) (init_param : timesync_init_param T) :
    M (world (ptp T (nic N G))) unit :=
  on_driver enable_mac_multicast ;;
  on_ptp (set_gptp_param init_param) ;;
  init_gptp_task TSU_CLK_FREQ.
End Init.

(** ** Delay requests *)

Section Requests.
Context {T N D : Type} `{Xil D} `{!TsuClient T D} `{LwipLaws N} `{!Link N}.
Implicit Types s : ptp T N.

Definition frame_pbuf (len : nat) (n : N) : Z * N :=
  pbuf_alloc PBUF_RAW (ETHERNET_HEADER_LEN + Z.of_nat len) PBUF_RAM n.

(** The frame goes to the output function in a single buffer, which is given
    back whatever the output says; without memory nothing happens. *)
Lemma gptp_send_run msg s p n : frame_pbuf (length msg) (p_net s) = (p, n) →
  if p =? NULL then gptp_send_delay_request msg s = Ok (tt, with_net n s)
  else ∃ b, p_payload b = gptp_eth_header ++ msg ∧ p_next b = NULL ∧
    pbuf_get p (pbuf_put p b n) = Some b ∧
    gptp_send_delay_request msg s =
      '(_, n') ← linkoutput p (pbuf_put p b n); Ok (tt, with_net (pbuf_free p n') s).
Proof.
  unfold frame_pbuf, gptp_send_delay_request, on_net. intros Ep.
  rewrite run_bind. unfold call. rewrite run_zoom. cbn [lget net_l]. cbv beta. rewrite Ep. cbn [fst snd].
  rewrite !bind_Ok_l. cbn [lput net_l].
  destruct (alloc_spec _ _ _ _ _ _ Ep) as [[-> _]|(Hp & _ & _ & b & Hb & Hram)]; [done|].
  apply Z.eqb_neq in Hp as ->. cbn [negb when]. destruct (Hram eq_refl) as [Hlen Hnext].
  assert (length (p_payload b) = length (gptp_eth_header ++ msg)) as Hl.
  { rewrite Hlen, length_app. unfold ETHERNET_HEADER_LEN. cbn. lia. }
  set (b' := Pbuf (p_next b) (p_data b) (gptp_eth_header ++ msg) (p_tot_len b) (p_if_idx b) (p_flags b)).
  exists b'. split; [done|]. split; [done|]. split; [apply put_get; by rewrite Hb|].
  assert (pbuf_copy p (gptp_eth_header ++ msg) n = Ok (tt, pbuf_put p b' n)) as Hc.
  { unfold pbuf_copy, pbuf_at. rewrite run_bind, Hb, bind_Ok_l, decide_True by lia.
    by rewrite drop_ge, app_nil_r by lia. }
  rewrite run_bind, run_zoom. cbn [lget lput net_l with_net p_net]. rewrite Hc, !bind_Ok_l.
  rewrite run_bind, run_zoom. cbn [lget lput net_l with_net p_net].
  destruct (linkoutput p _) as [[e n']|]; [|done]. rewrite !bind_Ok_l, run_zoom, run_modify.
  cbn [lget lput net_l with_net p_net]. by rewrite bind_Ok_l.
Qed.

(** The interpreter calls the functions of this file. *)
Definition gptp_registered (h : world (ptp T N)) : Prop :=
  registered h get_systime ptp_process_time_diff gptp_send_delay_request.
End Requests.

(** ** The requests at the driver *)

Section AtDriver.
Context {T N D G : Type} `{Xil D} `{!TsuClient T D} `{Board} `{LwipLaws N} `{EmacPsLaws G}.
Implicit Types (s : ptp T (nic N G)) (d : nic N G).

(** A frame is the last of the queue of transmission, alone in a new buffer that
    the queue keeps alive. *)
Definition frame_queued (ti : nat) (bytes : list Z) d d' : Prop :=
  ∃ k p b, queued_tx ti d' = drop k (queued_tx ti d) ++ [p] ∧ refs (net_view d) !! p = None ∧
    pbuf_get p (nic_net d') = Some b ∧ p_payload b = bytes ∧ p_next b = NULL.

Definition nothing_queued (ti : nat) d d' : Prop :=
  ∃ k, queued_tx ti d' = drop k (queued_tx ti d).

(** A frame that was accepted is still there after the program gave its own
    reference back: the queue has one. *)
Lemma accepted_frame_queued ti ri A q p b d0 d2 d3 : holds ti ri A q d2 → holds ti ri A q d3 → 0 < A p →
  queued_tx ti d2 = queued_tx ti d0 → refs (net_view d0) !! p = None →
  pbuf_get p (nic_net d2) = Some b → p_next b = NULL → output_done ti ri [p] ERR_OK d2 d3 →
  frame_queued ti (p_payload b) d0 (pbuf_free p d3).
Proof.
  intros Hs2 Hs3 HA Hq2 Hnone Hget Hnext Hd. destruct (out_queue _ _ _ _ _ _ Hd) as [k Hk].
  rewrite decide_True, Hq2 in Hk by done. exists k, p, b. split_and!; [exact Hk|done| |done|done].
  assert (outlives ti ri d2 p) as Hout by (left; by rewrite (holds_refs _ _ _ _ _ Hs2)).
  pose proof (out_buffers _ _ _ _ _ _ Hd p b eq_refl Hout Hget) as Hb.
  change (pbuf_get p (pbuf_free p (nic_net d3)) = Some b). apply free_get; [exact Hb|].
  right. exists (nrefs p (net_view d3)).
  assert (1 ≤ count p (queued_tx ti d3)) as Hc3.
  { rewrite Hk, count_app, count_cons, decide_True by done.
    pose proof (count_nonneg p (drop k (queued_tx ti d0))). pose proof (count_nonneg p []). lia. }
  pose proof (holds_refs _ _ _ _ _ Hs3 p) as Ha. unfold app_refs in Ha.
  assert (2 ≤ nrefs p (net_view d3)) by (destruct (decide (p ∈ owned ri d3)); lia).
  split; [apply nrefs_some; lia|lia].
Qed.

Lemma gptp_send_holds ti ri A q msg s : (1 ≤ max_chain)%nat → holds ti ri A q (p_net s) →
  ∃ d, gptp_send_delay_request msg s = Ok (tt, with_net d s) ∧ holds ti ri A q d ∧
    (frame_queued ti (gptp_eth_header ++ msg) (p_net s) d ∨ nothing_queued ti (p_net s) d) ∧
    ((frame_pbuf (length msg) (nic_net (p_net s))).1 ≠ NULL → r_free (tx_ring (p_net s)) ≠ [] →
      frame_queued ti (gptp_eth_header ++ msg) (p_net s) d).
Proof.
  intros Hm Hs. destruct (frame_pbuf (length msg) (nic_net (p_net s))) as [p n] eqn:Ep.
  set (d0 := p_net s) in *. set (d1 := Nic n (nic_gem d0) (nic_vars d0)).
  assert (frame_pbuf (length msg) d0 = (p, d1)) as Ed.
  { unfold frame_pbuf in *. cbn. unfold over_call. cbn. by rewrite Ep. }
  pose proof (gptp_send_run msg s p d1 Ed) as Hrun. cbn [fst].
  pose proof (holds_alloc ti ri A q _ _ _ p n d0 Hs Ep) as Hs1.
  destruct (Z.eqb_spec p NULL) as [->|Hp].
  { rewrite decide_True in Hs1 by done. exists d1. split; [done|]. split; [done|].
    split; [right; by exists 0%nat|done]. }
  rewrite decide_False in Hs1 by done.
  destruct Hrun as (b & Hpay & Hnext & Hget & Hrun).
  set (d2 := pbuf_put p b d1) in *.
  assert (holds ti ri (adjusted p 1 A) q d2)
    as Hs2 by exact (put_stable ti ri _ q p b d1 tt d2 Hs1 eq_refl).
  assert (0 < adjusted p 1 A p) as HA1.
  { unfold adjusted. rewrite decide_True, <-(holds_refs _ _ _ _ _ Hs) by done.
    pose proof (app_refs_nonneg ti ri p d0 (holds_inv _ _ _ _ _ Hs)). lia. }
  destruct (holds_linkoutput ti ri (adjusted p 1 A) q p b d2) as (e & d3 & E & Hd & Hs3); [done..|].
  rewrite E, bind_Ok_l in Hrun. exists (pbuf_free p d3). split; [exact Hrun|].
  assert (holds ti ri A q (pbuf_free p d3)) as Hs4.
  { apply (holds_ext _ _ (adjusted p (-1) (adjusted p 1 A))); [apply (adjusted_cancel p 1)|].
    by eapply free_triple; [|exact Hs3|reflexivity]. }
  split; [exact Hs4|]. destruct (out_queue _ _ _ _ _ _ Hd) as [k Hk].
  change (queued_tx ti d2) with (queued_tx ti d0) in Hk.
  assert (e = ERR_OK → frame_queued ti (gptp_eth_header ++ msg) d0 (pbuf_free p d3)) as Hsent.
  { intros ->. rewrite <-Hpay. apply (accepted_frame_queued ti ri (adjusted p 1 A) q p b d0 d2 d3); try done.
    by destruct (alloc_spec _ _ _ _ _ _ Ep) as [[? _]|(_ & Hnone & _)]. }
  split.
  - destruct (out_result _ _ _ _ _ _ Hd) as [He|He]; [left; auto|right].
    exists k. rewrite decide_False, app_nil_r in Hk by by rewrite He. exact Hk.
  - intros _ Hf. apply Hsent, (out_room _ _ _ _ _ _ Hd). change (tx_ring d2) with (tx_ring d0).
    destruct (r_free (tx_ring d0)); [done|cbn; lia].
Qed.

(** What the functions of the transports do to the driver. *)
Definition driver_kept (ti ri : nat) s s' : Prop :=
  ∀ A q, holds ti ri A q (p_net s) → holds ti ri A q (p_net s').

#[global] Instance driver_kept_preorder ti ri : PreOrder (driver_kept ti ri).
Proof. split; [by intros s A q|]. intros s1 s2 s3 H12 H23 A q Hs. auto. Qed.

Lemma same_net_driver ti ri s s' : same_net s s' → driver_kept ti ri s s'.
Proof. intros Hs A q. by rewrite Hs. Qed.

Lemma gptp_send_kept ti ri msg : (1 ≤ max_chain)%nat →
  keeps (driver_kept ti ri) (gptp_send_delay_request (T := T) (N := nic N G) msg).
Proof.
  intros Hm s u s' E A q Hs. destruct (gptp_send_holds ti ri A q msg s Hm Hs) as (d & E' & Hd & _).
  rewrite E in E'. by injection E' as _ ->.
Qed.

Lemma ptp_send_kept ti ri msg :
  keeps (driver_kept ti ri) (ptp_send_delay_request (T := T) (N := nic N G) msg).
Proof.
  intros s u s' E A q Hs. assert (∀ p, 0 < adjusted p 1 A p) as HA.
  { intros p. unfold adjusted. rewrite decide_True, <-(holds_refs _ _ _ _ _ Hs) by done.
    pose proof (app_refs_nonneg ti ri p _ (holds_inv _ _ _ _ _ Hs)). lia. }
  assert (∀ R (m : M (nic N G) R) (Q : R → nic N G → Prop) P, triple P m Q →
    triple (λ s, P (p_net s)) (on_net (T := T) m) (λ r s, Q r (p_net s))) as Hon.
  { intros R m Q P Hm t r t' Ht E'. apply zoom_Ok in E' as (d & E' & ->). by eapply Hm. }
  revert s u s' Hs E.
  change (triple (λ s, holds ti ri A q (p_net s)) (ptp_send_delay_request (T := T) (N := nic N G) msg)
    (λ _ s, holds ti ri A q (p_net s))).
  unfold ptp_send_delay_request.
  eapply triple_bind; [apply Hon, udp_new_stable|]. intros pcb.
  eapply triple_bind; [apply Hon, alloc_triple|]. intros p. cbv beta.
  case_decide as Hp.
  { intros s u s' _ E. apply run_bind_Ok in E as ([] & s1 & E & _).
    apply zoom_Ok in E as (d & E & _). unfold pbuf_store in E.
    apply run_bind_Ok in E as (b & d1 & E & _). unfold pbuf_at in E. by rewrite Hp, null_pbuf in E. }
  eapply triple_bind; [apply Hon, pbuf_store_stable|]. intros [].
  eapply triple_bind; [apply stable_gets|]. intros g.
  eapply triple_bind; [apply Hon, (sendto_stable _ _ _ _ _ _ _ _ (HA p))|]. intros [].
  eapply triple_bind; [apply Hon, (free_triple _ _ _ _ _ (HA p))|]. intros [].
  intros s u s' Hs E. eapply holds_ext; [apply (adjusted_cancel p 1)|].
  by eapply (Hon _ _ _ _ (udp_remove_stable _ _ _ _ pcb)).
Qed.

Lemma ptp_registered_driver ti ri h : ptp_registered (T := T) h → callbacks_keep (driver_kept ti ri) h.
Proof.
  intros [Hg Hr Hf _]. split.
  - intros g. rewrite Hg. intros [= <-] s a s' Hs. by eapply same_net_driver, get_systime_same_net.
  - intros f o sy d. rewrite Hr. intros [= <-] s a s' Hs.
    by eapply same_net_driver, process_time_diff_same_net.
  - intros f m. rewrite Hf. intros [= <-]. apply ptp_send_kept.
Qed.

Lemma gptp_registered_keep ti ri h : (1 ≤ max_chain)%nat → gptp_registered (T := T) h →
  callbacks_keep (driver_kept ti ri) h.
Proof.
  intros Hm [Hg Hr Hf _]. split.
  - intros g. rewrite Hg. intros [= <-] s a s' Hs. by eapply same_net_driver, get_systime_same_net.
  - intros f o sy d. rewrite Hr. intros [= <-] s a s' Hs.
    by eapply same_net_driver, process_time_diff_same_net.
  - intros f m. rewrite Hf. intros [= <-]. by apply gptp_send_kept.
Qed.
End AtDriver.

(** ** Initialisation *)

Section FilterRun.
Context {N G : Type} `{Board} `{GemOptions} `{LwipLaws N} `{EmacPsLaws G}.
Implicit Types s : nic N G.

(** The controller after [enable_mac_multicast]. *)
Definition multicast_enabled (q : Z) (v : gem) : gem :=
  Gem (ring_ptr_reset (g_tx v)) (ring_ptr_reset (g_rx v)) (g_queue v) (g_bds v)
    (MacStart :: MacSetQueuePtr (r_base (g_tx v)) q XEMACPS_SEND ::
     MacSetQueuePtr (r_base (g_rx v)) 0 XEMACPS_RECV :: MacSetHash ptp_multicast_mac ::
     MacSetOptions XEMACPS_MULTICAST_OPTION :: MacStop :: g_macs v).

Lemma enable_mac_multicast_run s : at_rest s → ∃ g q,
  enable_mac_multicast s = Ok (tt, Nic (nic_net s) g (nic_vars s)) ∧
  gem_view g = multicast_enabled q (gem_view (nic_gem s)).
Proof.
  intros Hrest. unfold enable_mac_multicast. nic_run.
  match goal with |- context [reset_dma ?t] => set (s1 := t) end.
  assert (gem_view (nic_gem s1) = mac_done (MacSetHash ptp_multicast_mac)
    (mac_done (MacSetOptions XEMACPS_MULTICAST_OPTION) (mac_done MacStop (gem_view (nic_gem s))))) as Hg
    by (cbn; by rewrite !mac_op_law).
  destruct (reset_dma_run s1) as (g2 & q & E2 & Hg2).
  { destruct Hrest as [Htx Hrx Hts Hrs]. split; unfold tx_ring in *; rewrite ?Hg; done. }
  rewrite E2. nic_run. eexists _, q. split; [reflexivity|].
  cbn [nic_gem]. rewrite mac_op_law, Hg2, Hg. done.
Qed.
End FilterRun.

(** ** Theorems *)

Section Theorems.
Context {T N D G : Type} `{Xil D} `{!TsuClient T D} `{Board} `{LwipLaws N} `{EmacPsLaws G}.
Implicit Types s : ptp T (nic N G).

(** C28. A delay request of gPTP, from the protocol to the descriptor.  It always
    returns, keeps the invariants of the driver, and takes no reference and
    gives none away: no leak, whatever happens.  If there is memory for the
    frame and a free descriptor, the frame is the last in the queue of
    transmission, in a buffer that stays alive there: the header with the
    multicast address and the type 0x88F7, and the message byte for byte.
    Otherwise the frame may be dropped, and nothing is queued; unlike over UDP,
    no null buffer is followed. *)
Theorem gptp_delay_request_frame ti ri msg s :
  (1 ≤ max_chain)%nat → nic_inv ti ri (p_net s) →
  let frame := gptp_eth_header ++ msg in
  ∃ d, gptp_send_delay_request msg s = Ok (tt, with_net d s) ∧
    conserved ti ri (p_net s) d ∧ rx_queue d = rx_queue (p_net s) ∧
    (frame_queued ti frame (p_net s) d ∨ nothing_queued ti (p_net s) d) ∧
    ((frame_pbuf (length msg) (nic_net (p_net s))).1 ≠ NULL → r_free (tx_ring (p_net s)) ≠ [] →
      frame_queued ti frame (p_net s) d) ∧
    frame_type frame = Ok ETHTYPE_PTP ∧ take 6 frame = ptp_multicast_mac.
Proof.
  intros Hm Hinv frame.
  destruct (gptp_send_holds ti ri _ _ msg s Hm (holds_now ti ri _ Hinv)) as (d & E & [Hi Ha Hq] & Hf & Hs).
  exists d. split_and!; try done.
Qed.

Lemma init_gptp_task_run freq ns sub (h : world (ptp T (nic N G))) :
  tsu_increments freq = Ok (ns, sub) → delay_req_buf (delay_req_msg (own h)) → ∃ n h',
  let d := p_net (env h) in
  init_gptp_task freq h = Ok (tt, h') ∧ gptp_registered h' ∧
  init_params (env h') = init_params (env h) ∧ group (env h') = PTP_MULTICAST_IPV4_ADDR32 ∧
  p_net (env h') = Nic n (nic_gem d) (nic_vars d) ∧
  view_of_stack n = request_made (JoinGroup PTP_MULTICAST_IPV4_ADDR32) (net_view d).
Proof.
  intros Hinc Hbuf. unfold init_gptp_task.
  assert (∃ h1, on_ptp (on_tsu (init_tsu freq)) h = Ok (tt, h1) ∧ own h1 = own h ∧
    init_params (env h1) = init_params (env h) ∧ p_net (env h1) = p_net (env h)) as (h1 & E1 & Ho & Hp & Hn).
  { unfold on_ptp, on_tsu, zoom. rewrite (init_tsu_run freq ns sub) by done.
    eexists. split; [reflexivity|]. done. }
  rewrite run_bind, E1, bind_Ok_l.
  eexists _, _. split; [unfold on_ptp, ptp_start_sync, on_net, print, on_tsu; mexec; reflexivity|].
  split; [by split; cbn; rewrite ?Ho|]. cbn. split; [done|]. split; [done|].
  unfold over. cbn. rewrite Hn. split; [reflexivity|]. by rewrite join_view.
Qed.

Implicit Types h : world (ptp T (nic N G)).
Context `{GemOptions}.

Lemma gptp_init_run mhz ns sub param h :
  tsu_increments (mhz * 1000000) = Ok (ns, sub) → at_rest (p_net (env h)) →
  delay_req_buf (delay_req_msg (own h)) → ∃ g q n h',
  let d := p_net (env h) in
  gptp_init (mhz * 1000000) param h = Ok (tt, h') ∧
  init_gptp_task (mhz * 1000000) (World (own h)
    (with_params (Some param) (with_net (Nic (nic_net d) g (nic_vars d)) (env h)))) = Ok (tt, h') ∧
  gem_view g = multicast_enabled q (gem_view (nic_gem d)) ∧
  p_net (env h') = Nic n g (nic_vars d) ∧
  view_of_stack n = request_made (JoinGroup PTP_MULTICAST_IPV4_ADDR32) (net_view d) ∧
  gptp_registered h' ∧ init_params (env h') = Some param ∧
  group (env h') = PTP_MULTICAST_IPV4_ADDR32.
Proof.
  intros Hinc Hrest Hbuf.
  destruct (enable_mac_multicast_run (p_net (env h)) Hrest) as (g & q & E & Hg).
  set (d1 := Nic _ g _) in E.
  destruct (init_gptp_task_run (mhz * 1000000) ns sub
    (World (own h) (with_params (Some param) (with_net d1 (env h)))) Hinc Hbuf)
    as (n & h' & E' & Hreg & Hp & Hgr & Hd & Hv).
  exists g, q, n, h'. cbn zeta. split.
  { unfold gptp_init, on_driver, on_ptp, on_net, set_gptp_param.
    rewrite run_bind, run_zoom, run_zoom. cbn [lget env_l net_l]. rewrite E, !bind_Ok_l.
    rewrite run_bind, run_zoom, run_modify, !bind_Ok_l. exact E'. }
  split_and!; [exact E'|done..|by rewrite Hp|done].
Qed.

(** C30. Start of gPTP on an interface at rest, for every timer clock of 1 to
    1000 MHz: the controller is stopped, given the multicast address, its rings
    reset and started again; the callbacks of this transport are installed, the
    parameters kept, and the group 224.0.1.129 is joined.  No receiver is
    bound: messages arrive through the Ethernet hook. *)
Theorem gptp_init_starts mhz param h :
  1 ≤ mhz ≤ 1000 → at_rest (p_net (env h)) → delay_req_buf (delay_req_msg (own h)) →
  ∃ h' q, gptp_init (mhz * 1000000) param h = Ok (tt, h') ∧
    let d := p_net (env h) in let d' := p_net (env h') in
    gem_view (nic_gem d') = multicast_enabled q (gem_view (nic_gem d)) ∧
    nic_vars d' = nic_vars d ∧ gptp_registered h' ∧
    init_params (env h') = Some param ∧
    IPV4_BYTE (group (env h')) <$> [0; 1; 2; 3] = [224; 0; 1; 129] ∧
    net_view d' = request_made (JoinGroup (group (env h'))) (net_view d).
Proof.
  intros Hmhz Hrest Hbuf. destruct (tsu_increments_run mhz Hmhz) as (ns & sub & Hinc & _).
  destruct (gptp_init_run mhz ns sub param h Hinc Hrest Hbuf)
    as (g & q & n & h' & E & _ & Hg & Hd & Hv & Hreg & Hp & Hgr).
  exists h', q. split; [exact E|]. cbn zeta. rewrite Hd, Hgr. split_and!; done.
Qed.
End Theorems.

#[global] Instance gem_options : GemOptions := {
  XEMACPS_MULTICAST_OPTION := 0x80;
  XEMACPS_PROMISC_OPTION := 0x1
}.

(** The protocols at power-up over an interface. *)
Definition gptp_host (d : nic net gemsim) : world (ptp (tsu sim) (nic net gemsim)) :=
  World (ptp_sync_boot _) (ptp_boot (tsu_boot (Sim 0 [])) d).

Lemma gptp_init_starts_witness :
  let h := gptp_host (Nic (net_with [] 2 2) (nic_gem nic_rest) vars_boot) in
  let param := InitParam 300 20 None None None None None None None in
  ∃ h' q, gptp_init (333 * 1000000) param h = Ok (tt, h') ∧
    gem_view (nic_gem (p_net (env h'))) = multicast_enabled q (gem_view (nic_gem (p_net (env h)))).
Proof.
  intros h param. destruct (gptp_init_starts 333 param h) as (h' & q & E & Hg & _).
  - by_computation.
  - split; vm_compute; reflexivity.
  - apply delay_req_init_buf.
  - exists h', q. split; [exact E|exact Hg].
Defined.

(** After the initialisation of the driver there are four free descriptors, and
    memory for four more buffers. *)
Definition nic_ready : nic net gemsim :=
  Nic (Net (n_bufs (nic_net nic_started)) (n_pcbs (nic_net nic_started)) [] 4 2)
    (nic_gem nic_started) (nic_vars nic_started).

Lemma nic_ready_reachable : reachable 0 0 nic_ready.
Proof.
  unfold nic_ready. set (n := Net _ _ _ _ _).
  apply (reachable_stack 0 0 n nic_started); [apply nic_started_reachable|].
  vm_compute. reflexivity.
Qed.

Lemma gptp_delay_request_frame_witness :
  ∃ d, gptp_send_delay_request [1; 2; 3] (env (gptp_host nic_ready)) =
      Ok (tt, with_net d (env (gptp_host nic_ready))) ∧
    frame_queued 0 (gptp_eth_header ++ [1; 2; 3]) nic_ready d.
Proof.
  destruct (gptp_delay_request_frame 0 0 [1; 2; 3] (env (gptp_host nic_ready))) as (d & E & _ & _ & _ & Hf & _).
  - by_computation.
  - apply driver_inv, nic_ready_reachable.
  - exists d. split; [exact E|]. apply Hf; vm_compute; discriminate.
Defined.
