(* ===== verification/Ethernet.v ===== *)
(** * Ethernet input and output, and the hook for gPTP
      ([src/IEEE1588/netif/ethernet.c], [src/IEEE1588/gptp_hook.c])

    The dispatch of received frames, with [gptp_protocol_hook] as the hook for
    types the stack does not know, and the header of frames sent.  IPv4 and ARP
    are on, PPPoE is off; IPv6 and VLAN support are parameters.  The counters
    of the MIB are off. *)

From S2P Require Export Gptp NicTheorems.
From stdpp Require Import list gmap.

#[local] Open Scope Z_scope.

Definition SIZEOF_ETH_HDR : Z := 14.
Definition SIZEOF_VLAN_HDR : Z := 4.
Definition ETHTYPE_VLAN : Z := 0x8100.

(** What the options of the stack and the interface fix. *)
Class EthConfig := {
  LWIP_IPV6 : bool;
  ETHARP_SUPPORT_VLAN : bool;
  vlan_check : list Z → bool;        (* LWIP_HOOK_VLAN_CHECK and the like *)
  netif_etharp : bool;               (* netif->flags & NETIF_FLAG_ETHARP *)
  netif_get_index : Z;
  NETIF_NO_INDEX : Z;
  netif_hwaddr_len : Z;
  PBUF_FLAG_LLMCAST : Z;
  PBUF_FLAG_LLBCAST : Z
}.

Section Input.
Context {T N D : Type} `{EthConfig} `{Xil D} `{!TsuClient T D} `{Lwip N}.

Definition on_lwip {A} (m : M N A) : M (world (ptp T N)) A := on_ptp (on_net m).
Definition eth_stat (what : string) : M (world (ptp T N)) unit := on_lwip (modify (stats_inc what)).

(** ** The hook *)

(** [ptp_sync] of [gptp_hook.c] *)
Definition hook_ptp_sync (p : Z) : M (world (ptp T N)) unit :=
  b ← on_lwip (pbuf_at p);
  stat ← ptp_sync_interpreter (Msg (p_data b + ETHERNET_HEADER_LEN)
    (drop (Z.to_nat ETHERNET_HEADER_LEN) (p_payload b)));
  when (negb (stat =? PTP_MSG_OK)) (on_ptp (print "Invalid GPTP message received!\r\n" [])).

Definition gptp_protocol_hook (p : Z) : M (world (ptp T N)) Z :=
  b ← on_lwip (pbuf_at p);
  ty ← lift (frame_type (p_payload b));
  (if ty =? ETHTYPE_PTP then hook_ptp_sync p
   else on_ptp (print "PTP packet protocol unknow \r\n" [])) ;;
  on_lwip (modify (pbuf_free p)) ;;
  mret ERR_OK.

(** ** [ethernet_input] *)

(** The type of a frame and the length of its header, or why it is dropped. *)
Inductive eth_type :=
  | VlanShort
  | VlanNotOurs
  | EthType (ty next_hdr_offset : Z).

Definition eth_vlan (payload : list Z) : outcome eth_type :=
  ty ← frame_type payload;
  if ETHARP_SUPPORT_VLAN && (ty =? ETHTYPE_VLAN) then
    if Z.of_nat (length payload) <=? SIZEOF_ETH_HDR + SIZEOF_VLAN_HDR then Ok VlanShort
    else if negb (vlan_check payload) then Ok VlanNotOurs
    else
      hi ← rd8 payload 16;
      lo ← rd8 payload 17;
      Ok (EthType (hi * 256 + lo) (SIZEOF_ETH_HDR + SIZEOF_VLAN_HDR))
  else Ok (EthType ty SIZEOF_ETH_HDR).

Definition ethbroadcast : list Z := replicate 6 0xff.

(** The link-layer flag for a multicast or broadcast destination. *)
Definition eth_ll_flag (payload : list Z) : outcome Z :=
  d0 ← rd8 payload 0;
  if Z.land d0 1 =? 0 then Ok 0
  else
    d1 ← rd8 payload 1;
    d2 ← rd8 payload 2;
    Ok (if d0 =? 0x01 then
          if (d1 =? 0x00) && (d2 =? 0x5e) then PBUF_FLAG_LLMCAST else 0
        else if LWIP_IPV6 && (d0 =? 0x33) && (d1 =? 0x33) then PBUF_FLAG_LLMCAST
        else if bool_decide (take 6 payload = ethbroadcast) then PBUF_FLAG_LLBCAST
        else 0).

Definition pbuf_set (p : Z) (f : pbuf → pbuf) : M N unit :=
  b ← pbuf_at p; modify (pbuf_put p (f b)).
Definition with_if_idx (i : Z) (b : pbuf) : pbuf :=
  Pbuf (p_next b) (p_data b) (p_payload b) (p_tot_len b) i (p_flags b).
Definition or_flags (f : Z) (b : pbuf) : pbuf :=
  Pbuf (p_next b) (p_data b) (p_payload b) (p_tot_len b) (p_if_idx b) (Z.lor (p_flags b) f).

Definition free_and_return (p : Z) : M (world (ptp T N)) Z :=
  on_lwip (modify (pbuf_free p)) ;;
  mret ERR_OK.

(** [switch (type)] *)
Definition eth_dispatch (p ty next_hdr_offset : Z) : M (world (ptp T N)) Z :=
  if ty =? ETHTYPE_IP then
    if negb netif_etharp then free_and_return p
    else
      err ← on_lwip (call (pbuf_remove_header p next_hdr_offset));
      if (err : bool) then free_and_return p
      else on_lwip (modify (ip4_input p)) ;; mret ERR_OK
  else if ty =? ETHTYPE_ARP then
    if negb netif_etharp then free_and_return p
    else
      err ← on_lwip (call (pbuf_remove_header p next_hdr_offset));
      if (err : bool) then
        eth_stat "etharp.lenerr" ;; eth_stat "etharp.drop" ;; free_and_return p
      else on_lwip (modify (etharp_input p)) ;; mret ERR_OK
  else if LWIP_IPV6 && (ty =? ETHTYPE_IPV6) then
    b ← on_lwip (pbuf_at p);
    if p_len b <? next_hdr_offset then free_and_return p
    else
      err ← on_lwip (call (pbuf_remove_header p next_hdr_offset));
      if (err : bool) then free_and_return p
      else on_lwip (modify (ip6_input p)) ;; mret ERR_OK
  else
    e ← gptp_protocol_hook p;
    if e =? ERR_OK then mret ERR_OK
    else eth_stat "etharp.proterr" ;; eth_stat "etharp.drop" ;; free_and_return p.

Definition ethernet_input (p : Z) : M (world (ptp T N)) Z :=
  b ← on_lwip (pbuf_at p);
  if p_len b <=? SIZEOF_ETH_HDR then
    eth_stat "etharp.proterr" ;; eth_stat "etharp.drop" ;; free_and_return p
  else
    when (p_if_idx b =? NETIF_NO_INDEX) (on_lwip (pbuf_set p (with_if_idx netif_get_index))) ;;
    v ← lift (eth_vlan (p_payload b));
    match v with
    | VlanShort => eth_stat "etharp.proterr" ;; eth_stat "etharp.drop" ;; free_and_return p
    | VlanNotOurs => on_lwip (modify (pbuf_free p)) ;; mret ERR_OK
    | EthType ty next =>
        flag ← lift (eth_ll_flag (p_payload b));
        on_lwip (pbuf_set p (or_flags flag)) ;;
        eth_dispatch p ty next
    end.
End Input.

(** ** [ethernet_output] *)

Section Output.
Context {N : Type} `{EthConfig} `{Lwip N} `{!Link N}.

(** [SMEMCPY(&ethhdr->...)]: bytes written at an offset of the payload. *)
Definition eth_header (dst src : list Z) (ty : Z) : list Z :=
  dst ++ src ++ [Z.shiftr ty 8; Z.land ty 0xFF].

Definition ethernet_output (p : Z) (src dst : list Z) (ty : Z) : M N Z :=
  err ← call (pbuf_add_header p SIZEOF_ETH_HDR);
  if (err : bool) then
    modify (stats_inc "link.lenerr") ;;
    mret ERR_BUF
  else
    pbuf_copy p (eth_header dst src ty) ;;
    c_assert "netif->hwaddr_len must be 6 for ethernet_output!" (netif_hwaddr_len =? 6) ;;
    linkoutput p.
End Output.

(** ** Lemmas *)

Section Runs.
Context {T N D : Type} `{EthConfig} `{Xil D} `{!TsuClient T D} `{LwipLaws N}.
Implicit Types (h : world (ptp T N)) (n : N).

(** The world with another state of the stack. *)
Definition at_net h n : world (ptp T N) := World (own h) (with_net n (env h)).
Definition net_of h : N := p_net (env h).

Lemma at_net_self h : at_net h (net_of h) = h.
Proof. by destruct h as [o [? ? ? ? ? ? ?]]. Qed.

Lemma on_lwip_bind {A B} (m : M N A) (k : A → M (world (ptp T N)) B) h n :
  (on_lwip m ≫= k) (at_net h n) = '(a, n') ← m n; k a (at_net h n').
Proof.
  rewrite run_bind. unfold on_lwip, on_ptp, on_net, zoom. cbn. by destruct (m n) as [[a n']|].
Qed.

Lemma pbuf_at_bind {B} p b (k : pbuf → M (world (ptp T N)) B) h n : pbuf_get p n = Some b →
  (on_lwip (pbuf_at p) ≫= k) (at_net h n) = k b (at_net h n).
Proof. intros Hb. rewrite on_lwip_bind. unfold pbuf_at. by rewrite Hb. Qed.

Lemma modify_bind {B} f (k : unit → M (world (ptp T N)) B) h n :
  (on_lwip (modify f) ≫= k) (at_net h n) = k tt (at_net h (f n)).
Proof. by rewrite on_lwip_bind. Qed.

Lemma call_bind {A B} f (k : A → M (world (ptp T N)) B) h n :
  (on_lwip (call f) ≫= k) (at_net h n) = k (f n).1 (at_net h (f n).2).
Proof. by rewrite on_lwip_bind. Qed.

Lemma pbuf_set_bind {B} p b f (k : unit → M (world (ptp T N)) B) h n : pbuf_get p n = Some b →
  (on_lwip (pbuf_set p f) ≫= k) (at_net h n) = k tt (at_net h (pbuf_put p (f b) n)).
Proof.
  intros Hb. rewrite on_lwip_bind. unfold pbuf_set, pbuf_at. by rewrite run_bind, Hb, !bind_Ok_l.
Qed.

Lemma free_run p h n : free_and_return p (at_net h n) = Ok (ERR_OK, at_net h (pbuf_free p n)).
Proof. unfold free_and_return. by rewrite modify_bind. Qed.

Lemma eth_stat_bind {B} w (k : unit → M (world (ptp T N)) B) h n :
  (eth_stat w ≫= k) (at_net h n) = k tt (at_net h (stats_inc w n)).
Proof. apply modify_bind. Qed.

(** Printing changes the console only. *)
Lemma print_bind {B} fmt args (k : unit → M (world (ptp T N)) B) h :
  ∃ h', (on_ptp (print fmt args) ≫= k) h = k tt h' ∧ own h' = own h ∧ net_of h' = net_of h.
Proof. eexists. split; [by unfold on_ptp, print, on_tsu; rewrite run_bind; mexec|]. done. Qed.

(** *** The hook *)

(** The message in a frame. *)
Definition ptp_of_frame (b : pbuf) : message := Msg (p_data b + 14) (drop 14 (p_payload b)).

Lemma hook_other_run p b ty h n : pbuf_get p n = Some b → frame_type (p_payload b) = Ok ty →
  ty ≠ ETHTYPE_PTP → ∃ h', gptp_protocol_hook p (at_net h n) = Ok (ERR_OK, h') ∧
    own h' = own h ∧ net_of h' = pbuf_free p n.
Proof.
  intros Hb Hty Hne. unfold gptp_protocol_hook. rewrite (pbuf_at_bind p b) by done.
  rewrite run_bind, Hty, run_lift_Ok, bind_Ok_l. apply Z.eqb_neq in Hne as ->.
  edestruct (print_bind (B := Z)) as (h1 & -> & Ho & Hn).
  rewrite <-(at_net_self h1), modify_bind, run_ret. eexists. split; [reflexivity|].
  split; [done|]. by rewrite Hn.
Qed.

Lemma hook_ptp_run p b h n : pbuf_get p n = Some b →
  frame_type (p_payload b) = Ok ETHTYPE_PTP → ∃ (k : Z → world (ptp T N) → world (ptp T N)),
    gptp_protocol_hook p (at_net h n) =
      ('(stat, h1) ← ptp_sync_interpreter (ptp_of_frame b) (at_net h n); Ok (ERR_OK, k stat h1)) ∧
    ∀ stat h1, own (k stat h1) = own h1 ∧ net_of (k stat h1) = pbuf_free p (net_of h1) ∧
      (stat = PTP_MSG_OK → k stat h1 = at_net h1 (pbuf_free p (net_of h1))).
Proof.
  intros Hb Hty.
  exists (λ stat h1, match (when (negb (stat =? PTP_MSG_OK))
    (on_ptp (print "Invalid GPTP message received!\r\n" [])) ;; on_lwip (modify (pbuf_free p))) h1
    with Ok (_, h2) => h2 | Fault _ => h1 end). split.
  - unfold gptp_protocol_hook. rewrite (pbuf_at_bind p b) by done.
    rewrite run_bind, Hty, run_lift_Ok, bind_Ok_l. change (ETHTYPE_PTP =? ETHTYPE_PTP) with true. cbv iota.
    rewrite run_bind. unfold hook_ptp_sync. rewrite (pbuf_at_bind p b) by done. rewrite run_bind.
    change (Msg _ _) with (ptp_of_frame b).
    destruct (ptp_sync_interpreter _ _) as [[stat h1]|]; [|done]. rewrite !bind_Ok_l.
    by destruct (stat =? PTP_MSG_OK).
  - intros stat h1. destruct (Z.eqb_spec stat PTP_MSG_OK) as [->|]; done.
Qed.
End Runs.

(** *** The frame up to the dispatch *)

(** A state of the stack after writes to the buffer [p] and counting. *)
Inductive touched {N} `{Lwip N} (p : Z) (n : N) : N → Prop :=
  | touched_refl : touched p n n
  | touched_put b n' : touched p n n' → touched p n (pbuf_put p b n')
  | touched_stats w n' : touched p n n' → touched p n (stats_inc w n').

Create HintDb touched.
#[export] Hint Resolve touched_refl touched_put touched_stats : touched.

Lemma touched_view {N} `{LwipLaws N} p (n n' : N) : touched p n n' →
  view_of_stack n' = view_of_stack n.
Proof. induction 1; rewrite ?put_view, ?stats_view; done. Qed.

Section Theorems.
Context {T N D : Type} `{EthConfig} `{Xil D} `{!TsuClient T D} `{LwipLaws N}.
Implicit Types (h : world (ptp T N)) (n : N).

(** A frame for the interpreter: one with a payload and, without a tag, the
    type of the protocol. *)
Definition is_ptp (payload : list Z) : bool :=
  (14 <? Z.of_nat (length payload)) &&
  bool_decide (frame_type payload = Ok ETHTYPE_PTP).

(** The one effect of a frame on the layers above, if any. *)
Definition passed_to (p : Z) (payload : list Z) : list request :=
  if Z.of_nat (length payload) <=? SIZEOF_ETH_HDR then []
  else match eth_vlan payload with
  | Ok (EthType ty _) =>
      if ty =? ETHTYPE_IP then if netif_etharp then [ToIp p] else []
      else if ty =? ETHTYPE_ARP then if netif_etharp then [ToArp p] else []
      else if LWIP_IPV6 && (ty =? ETHTYPE_IPV6) then [ToIp6 p]
      else []
  | _ => []
  end.

(** The result for a frame that is not interpreted: what was asked of the stack,
    and the reference given back. *)
Definition disposed (p : Z) (l : list request) h h' : Prop :=
  own h' = own h ∧
  view_of_stack (net_of h') =
    drop_ref p (foldr request_made (view_of_stack (net_of h)) l).

Lemma disposed_free p h n : view_of_stack n = view_of_stack (net_of h) →
  disposed p [] h (at_net h (pbuf_free p n)).
Proof. intros Hv. split; [done|]. cbn. by rewrite free_view, Hv. Qed.

Lemma header_removed p b k n : pbuf_get p n = Some b → k ≤ p_len b →
  (pbuf_remove_header p k n).1 = false ∧
  view_of_stack (pbuf_remove_header p k n).2 = view_of_stack n.
Proof.
  intros Hb Hk. split; [|apply header_view].
  rewrite (remove_header_get _ _ _ _ Hb). by apply bool_decide_eq_false_2; lia.
Qed.

(** The dispatch of a live buffer whose header is there. *)
Lemma dispatch_run p b ty next h n :
  pbuf_get p n = Some b → view_of_stack n = view_of_stack (net_of h) →
  next ≤ p_len b →
  if (ty =? ETHTYPE_IP) || (ty =? ETHTYPE_ARP) || (LWIP_IPV6 && (ty =? ETHTYPE_IPV6))
  then ∃ h', eth_dispatch p ty next (at_net h n) = Ok (ERR_OK, h') ∧
    disposed p (if ty =? ETHTYPE_IP then if netif_etharp then [ToIp p] else []
      else if ty =? ETHTYPE_ARP then if netif_etharp then [ToArp p] else [] else [ToIp6 p]) h h'
  else eth_dispatch p ty next (at_net h n) = gptp_protocol_hook p (at_net h n) ∨
    ∃ e, gptp_protocol_hook p (at_net h n) = Ok e ∧ e.1 ≠ ERR_OK.
Proof.
  intros Hb Hv Hnext. destruct (header_removed p b next n Hb Hnext) as [Hr Hrv].
  unfold eth_dispatch. destruct (ty =? ETHTYPE_IP); cbn [orb].
  { destruct netif_etharp; cbn [negb].
    - rewrite call_bind, Hr, modify_bind. eexists. split; [reflexivity|]. split; [done|].
      cbn. by rewrite ip4_view, Hrv, Hv.
    - rewrite free_run. eexists. split; [reflexivity|]. by apply disposed_free. }
  destruct (ty =? ETHTYPE_ARP); cbn [orb].
  { destruct netif_etharp; cbn [negb].
    - rewrite call_bind, Hr, modify_bind. eexists. split; [reflexivity|]. split; [done|].
      cbn. by rewrite arp_view, Hrv, Hv.
    - rewrite free_run. eexists. split; [reflexivity|]. by apply disposed_free. }
  destruct (LWIP_IPV6 && (ty =? ETHTYPE_IPV6)).
  { rewrite (pbuf_at_bind p b) by done. apply Z.ltb_ge in Hnext as ->.
    rewrite call_bind, Hr, modify_bind. eexists. split; [reflexivity|]. split; [done|].
    cbn. by rewrite ip6_view, Hrv, Hv. }
  rewrite run_bind. destruct (gptp_protocol_hook p _) as [[e h1]|]; [|by left].
  rewrite bind_Ok_l. destruct (Z.eqb_spec e ERR_OK) as [->|He]; [by left|].
  right. eexists. split; [done|]. done.
Qed.

(** The hook never reports an error. *)
Lemma hook_result p b ty h n : pbuf_get p n = Some b → frame_type (p_payload b) = Ok ty →
  ∀ e h', gptp_protocol_hook p (at_net h n) = Ok (e, h') → e = ERR_OK.
Proof.
  intros Hb Hty e h'. destruct (decide (ty = ETHTYPE_PTP)) as [->|Hne].
  - destruct (hook_ptp_run p b h n Hb Hty) as (k & -> & _).
    destruct (ptp_sync_interpreter _ _) as [[]|]; by intros [= <- _].
  - destruct (hook_other_run p b ty h n Hb Hty Hne) as (h1 & -> & _). by intros [= <- _].
Qed.

(** The bytes that are looked at are there. *)
Lemma frame_readable payload : SIZEOF_ETH_HDR < Z.of_nat (length payload) → ∃ ty v flag,
  frame_type payload = Ok ty ∧ eth_vlan payload = Ok v ∧ eth_ll_flag payload = Ok flag ∧
  match v with
  | EthType ty' next => next ≤ Z.of_nat (length payload) ∧ (ty = ETHTYPE_PTP → ty' = ETHTYPE_PTP)
  | _ => ty = ETHTYPE_VLAN
  end.
Proof.
  unfold SIZEOF_ETH_HDR. intros Hl.
  assert (∀ i, (i < 14)%nat → ∃ x, rd8 payload i = Ok x) as Hrd.
  { intros i Hi. destruct (lookup_lt_is_Some_2 payload i) as [x Hx]; [lia|].
    exists x. by apply rd8_Ok. }
  destruct (Hrd 0%nat) as [d0 E0], (Hrd 1%nat) as [d1 E1], (Hrd 2%nat) as [d2 E2],
    (Hrd 12%nat) as [hi Ehi], (Hrd 13%nat) as [lo Elo]; [lia..|].
  assert (∃ flag, eth_ll_flag payload = Ok flag) as [flag Hflag].
  { unfold eth_ll_flag. rewrite E0, bind_Ok_l. destruct (_ =? 0); [eauto|].
    rewrite E1, bind_Ok_l, E2, bind_Ok_l. eauto. }
  assert (frame_type payload = Ok (hi * 256 + lo)) as Hty by (unfold frame_type; by rewrite Ehi, bind_Ok_l, Elo).
  exists (hi * 256 + lo). unfold eth_vlan, SIZEOF_ETH_HDR, SIZEOF_VLAN_HDR. rewrite Hty, bind_Ok_l.
  destruct (ETHARP_SUPPORT_VLAN && (hi * 256 + lo =? ETHTYPE_VLAN)) eqn:Ev.
  - apply andb_true_iff in Ev as [_ Ev]. apply Z.eqb_eq in Ev.
    destruct (Z.leb_spec (Z.of_nat (length payload)) (14 + 4)); [by exists VlanShort, flag|].
    destruct (negb (vlan_check payload)); [by exists VlanNotOurs, flag|].
    destruct (lookup_lt_is_Some_2 payload 16) as [x Hx]; [lia|].
    destruct (lookup_lt_is_Some_2 payload 17) as [y Hy]; [lia|].
    rewrite (rd8_Ok _ _ _ Hx), bind_Ok_l, (rd8_Ok _ _ _ Hy), bind_Ok_l.
    eexists _, flag. split_and!; [done..|]. split; [lia|]. rewrite Ev. intros E; discriminate E.
  - eexists _, flag. split_and!; [done..|]. split; [lia|done].
Qed.

(** From the beginning to the dispatch: the buffer is the same but for its
    flags and its index. *)
Lemma input_prefix p b h n : pbuf_get p n = Some b →
  ∃ n' b', touched p n n' ∧ pbuf_get p n' = Some b' ∧
    p_payload b' = p_payload b ∧ p_data b' = p_data b ∧
    ethernet_input p (at_net h n) =
      if p_len b <=? SIZEOF_ETH_HDR then Ok (ERR_OK, at_net h (pbuf_free p n'))
      else match eth_vlan (p_payload b) with
      | Ok (EthType ty next) => eth_dispatch p ty next (at_net h n')
      | Ok _ => Ok (ERR_OK, at_net h (pbuf_free p n'))
      | Fault e => Fault e
      end.
Proof.
  intros Hb. unfold ethernet_input. rewrite (pbuf_at_bind p b) by done.
  destruct (Z.leb_spec (p_len b) SIZEOF_ETH_HDR) as [Hl|Hl].
  - rewrite !eth_stat_bind, free_run. eexists _, b. split; [|split; [|split; [done|split; [done|reflexivity]]]].
    + auto with touched.
    + by rewrite !stats_get.
  - destruct (frame_readable (p_payload b) Hl) as (ty & v & flag & Hty & Hvl & Hfl & Hcase).
    assert (∃ n1 b1, touched p n n1 ∧ pbuf_get p n1 = Some b1 ∧
      p_payload b1 = p_payload b ∧ p_data b1 = p_data b ∧
      ∀ B (k : unit → M (world (ptp T N)) B),
        (when (p_if_idx b =? NETIF_NO_INDEX) (on_lwip (pbuf_set p (with_if_idx netif_get_index))) ≫= k)
          (at_net h n) = k tt (at_net h n1)) as (n1 & b1 & Hv1 & Hb1 & Hp1 & Hd1 & Hk).
    { destruct (p_if_idx b =? NETIF_NO_INDEX).
      - exists (pbuf_put p (with_if_idx netif_get_index b) n), (with_if_idx netif_get_index b).
        rewrite put_get by (by rewrite Hb). split_and!; [auto with touched|done..|].
        intros B k. cbn [when]. by rewrite (pbuf_set_bind p b).
      - exists n, b. split_and!; [auto with touched|done..]. }
    rewrite Hk, run_bind, Hvl, run_lift_Ok, bind_Ok_l. destruct v as [| |ty' next].
    + rewrite !eth_stat_bind, free_run. eexists _, b1.
      split; [|split; [|split; [done|split; [done|reflexivity]]]]; [auto with touched|by rewrite !stats_get].
    + rewrite modify_bind, run_ret. by exists n1, b1.
    + rewrite run_bind, Hfl, run_lift_Ok, bind_Ok_l, (pbuf_set_bind p b1) by done.
      exists (pbuf_put p (or_flags flag b1) n1), (or_flags flag b1).
      rewrite put_get by (by rewrite Hb1). split_and!; [auto with touched|done..].
Qed.

Lemma ethernet_input_run p b h :
  pbuf_get p (net_of h) = Some b →
  if is_ptp (p_payload b)
  then ∃ n b' k, touched p (net_of h) n ∧ p_payload b' = p_payload b ∧ p_data b' = p_data b ∧
    ethernet_input p h = ('(stat, h1) ← ptp_sync_interpreter (ptp_of_frame b') (at_net h n);
      Ok (ERR_OK, k stat h1)) ∧
    ∀ stat h1, own (k stat h1) = own h1 ∧ net_of (k stat h1) = pbuf_free p (net_of h1) ∧
      (stat = PTP_MSG_OK → k stat h1 = at_net h1 (pbuf_free p (net_of h1)))
  else ∃ h', ethernet_input p h = Ok (ERR_OK, h') ∧ disposed p (passed_to p (p_payload b)) h h'.
Proof.
  intros Hb. destruct (input_prefix p b h (net_of h) Hb) as (n & b' & Ht & Hb' & Hp & Hd & E).
  pose proof (touched_view _ _ _ Ht) as Hv.
  rewrite at_net_self in E. rewrite E. unfold is_ptp, passed_to, p_len.
  change SIZEOF_ETH_HDR with 14. change (Z.of_nat (length (p_payload b))) with (p_len b).
  destruct (Z.leb_spec (p_len b) 14) as [Hl|Hl].
  { assert ((14 <? p_len b) = false) as -> by lia. cbn [andb].
    eexists. split; [done|]. by apply disposed_free. }
  assert ((14 <? p_len b) = true) as -> by lia. cbn [andb].
  destruct (frame_readable (p_payload b) Hl) as (ty & v & flag & Hty & Hvl & _ & Hcase).
  rewrite Hvl, Hty.
  destruct v as [| |ty' next].
  1,2: rewrite bool_decide_false by (rewrite Hcase; discriminate);
    eexists; (split; [done|by apply disposed_free]).
  destruct Hcase as [Hnext Hptp].
  pose proof (dispatch_run p b' ty' next h n Hb' Hv) as Hdisp.
  assert (p_len b' = p_len b) as Hlb by (unfold p_len; by rewrite Hp).
  specialize (Hdisp ltac:(rewrite Hlb; exact Hnext)).
  case_bool_decide as Ep.
  - injection Ep as ->. specialize (Hptp eq_refl) as ->.
    change (ETHTYPE_PTP =? ETHTYPE_IP) with false in Hdisp.
    change (ETHTYPE_PTP =? ETHTYPE_ARP) with false in Hdisp.
    change (ETHTYPE_PTP =? ETHTYPE_IPV6) with false in Hdisp. rewrite andb_false_r in Hdisp.
    cbn [orb] in Hdisp. rewrite <-Hp in Hty.
    destruct (hook_ptp_run p b' h n Hb' Hty) as (k & Ek & Hk).
    exists n, b', k. split; [done|]. split; [done|]. split; [done|]. split; [|done].
    destruct Hdisp as [->|([e h1] & Eh & He)]; [done|].
    exfalso. apply He. by eapply hook_result.
  - assert (ty ≠ ETHTYPE_PTP) as Hne by (intros ->; by apply Ep). rewrite <-Hp in Hty.
    destruct (hook_other_run p b' ty h n Hb' Hty Hne) as (h1 & Eh & Ho & Hn).
    destruct (ty' =? ETHTYPE_IP); [exact Hdisp|].
    destruct (ty' =? ETHTYPE_ARP); [exact Hdisp|].
    destruct (LWIP_IPV6 && (ty' =? ETHTYPE_IPV6)); [exact Hdisp|]. cbn [orb] in Hdisp.
    destruct Hdisp as [->|([e h2] & Eh' & He)].
    + exists h1. split; [done|]. split; [done|]. cbn. by rewrite Hn, free_view, Hv.
    + rewrite Eh in Eh'. injection Eh' as <- <-. by exfalso.
Qed.

(** C18. Received frames.  [ethernet_input] reports success for every live
    buffer, so its caller never frees the buffer again, and disposes of it
    exactly once.  A frame with the type of the protocol and no tag is
    interpreted, header skipped; every other frame is passed to at most one
    layer, according to its type, or dropped, without a fault and without any
    effect on the protocol.  A tagged message is dropped. *)
Theorem ethernet_input_disposes_once p b h :
  pbuf_get p (net_of h) = Some b →
  if is_ptp (p_payload b)
  then ∃ n b' k, touched p (net_of h) n ∧ p_payload b' = p_payload b ∧ p_data b' = p_data b ∧
    ethernet_input p h = ('(stat, h1) ← ptp_sync_interpreter (ptp_of_frame b') (at_net h n);
      Ok (ERR_OK, k stat h1)) ∧
    ∀ stat h1, own (k stat h1) = own h1 ∧ net_of (k stat h1) = pbuf_free p (net_of h1) ∧
      (stat = PTP_MSG_OK → k stat h1 = at_net h1 (pbuf_free p (net_of h1)))
  else ∃ h', ethernet_input p h = Ok (ERR_OK, h') ∧ disposed p (passed_to p (p_payload b)) h h'.
Proof. apply ethernet_input_run. Qed.
End Theorems.

(** ** Frames sent *)

Section OutputTheorem.
Context {N : Type} `{EthConfig} `{LwipLaws N} `{!Link N}.
Implicit Types n : N.

Lemma eth_header_length dst src ty : length dst = 6%nat → length src = 6%nat →
  length (eth_header dst src ty) = 14%nat.
Proof. intros Hd Hs. unfold eth_header. rewrite !length_app, Hd, Hs. done. Qed.

Lemma eth_header_type dst src ty payload : length dst = 6%nat → length src = 6%nat →
  0 ≤ ty < 2 ^ 16 → frame_type (eth_header dst src ty ++ payload) = Ok ty.
Proof.
  intros Hd Hs Hty. do 6 (destruct dst as [|? dst]; [discriminate Hd|]).
  destruct dst; [|discriminate Hd]. do 6 (destruct src as [|? src]; [discriminate Hs|]).
  destruct src; [|discriminate Hs]. cbn.
  f_equal. rewrite land_255, Z.shiftr_div_pow2 by lia. change (2 ^ 8) with 256. lia.
Qed.

(** C33. Frames sent.  What is handed to the interface is the destination, the
    source and the type in network order, which reads back as the type, and
    the packet, in the same buffer; the result is the one of the interface.
    If there is no room for the header, [ERR_BUF] is returned and nothing is
    sent. *)
Theorem ethernet_output_frame p b src dst ty n :
  pbuf_get p n = Some b → length src = 6%nat → length dst = 6%nat → 0 ≤ ty < 2 ^ 16 →
  netif_hwaddr_len = 6 →
  if (pbuf_add_header p SIZEOF_ETH_HDR n).1
  then ∃ n', ethernet_output p src dst ty n = Ok (ERR_BUF, n') ∧ view_of_stack n' = view_of_stack n
  else ∃ n' b', ethernet_output p src dst ty n = linkoutput p n' ∧
    view_of_stack n' = view_of_stack n ∧ pbuf_get p n' = Some b' ∧
    p_payload b' = eth_header dst src ty ++ p_payload b ∧
    frame_type (p_payload b') = Ok ty.
Proof.
  intros Hb Hsrc Hdst Hty Hhw. unfold ethernet_output.
  rewrite run_bind. unfold call. rewrite bind_Ok_l.
  pose proof (header_view p SIZEOF_ETH_HDR n) as [_ Hv].
  destruct (pbuf_add_header p SIZEOF_ETH_HDR n).1 eqn:Ea.
  - eexists. split; [reflexivity|]. by rewrite stats_view.
  - destruct (add_header_get _ _ _ Ea b Hb) as (pre & b1 & Hpre & Hpay & Hb1).
    set (n1 := (pbuf_add_header p SIZEOF_ETH_HDR n).2) in *.
    pose proof (eth_header_length dst src ty Hdst Hsrc) as Hlen. set (hdr := eth_header dst src ty) in *.
    assert (drop 14 (p_payload b1) = p_payload b) as Hdrop.
    { rewrite Hpay. change (Z.to_nat SIZEOF_ETH_HDR) with 14%nat in Hpre. rewrite <-Hpre. apply drop_app_length. }
    assert (length (p_payload b1) = (14 + length (p_payload b))%nat) as Hl1.
    { rewrite Hpay, length_app, Hpre. done. }
    set (b2 := Pbuf (p_next b1) (p_data b1) (hdr ++ p_payload b) (p_tot_len b1) (p_if_idx b1) (p_flags b1)).
    assert (pbuf_copy p hdr n1 = Ok (tt, pbuf_put p b2 n1)) as Hc.
    { unfold pbuf_copy, pbuf_at. rewrite run_bind, Hb1, bind_Ok_l, decide_True by lia.
      by rewrite Hlen, Hdrop. }
    assert (pbuf_get p (pbuf_put p b2 n1) = Some b2) as Hb2 by (apply put_get; by rewrite Hb1).
    exists (pbuf_put p b2 n1), b2. split.
    { rewrite run_bind, Hc, bind_Ok_l, Hhw, run_bind. cbn [c_assert Z.eqb Pos.eqb].
      by rewrite run_ret, bind_Ok_l. }
    rewrite put_view. split_and!; [done..|by apply eth_header_type].
Qed.
End OutputTheorem.

(** ** Concrete frames *)

#[global] Instance eth_config : EthConfig := {
  LWIP_IPV6 := false;
  ETHARP_SUPPORT_VLAN := true;
  vlan_check := λ _, true;
  netif_etharp := true;
  netif_get_index := 1;
  NETIF_NO_INDEX := 0;
  netif_hwaddr_len := 6;
  PBUF_FLAG_LLMCAST := 0x10;
  PBUF_FLAG_LLBCAST := 0x08
}.

(** A Sync message in a frame, and the same frame with a tag. *)
Definition sync_frame : list Z := gptp_eth_header ++ m_bytes sync_message.
Definition tagged_frame : list Z :=
  take 12 gptp_eth_header ++ [0x81; 0x00; 0x00; 0x05; 0x88; 0xF7] ++ m_bytes sync_message.

Definition frame_buf (bytes : list Z) : pbuf :=
  Pbuf NULL 65536 bytes (Z.of_nat (length bytes)) 0 0.

(** The host with two frames received, the first one given, and the transport of
    gPTP installed. *)
Definition nic_received : nic net gemsim := after (run (RecvIrq 3) nic_ready).
Definition frame_nic (bytes : list Z) : nic net gemsim := pbuf_put 3 (frame_buf bytes) nic_received.
Definition frame_host (bytes : list Z) : world (ptp (tsu sim) (nic net gemsim)) :=
  World (registered_boot get_systime ptp_process_time_diff gptp_send_delay_request)
    (ptp_boot (tsu_boot (Sim 0 [])) (frame_nic bytes)).

Lemma frame_host_registered bytes : gptp_registered (frame_host bytes).
Proof. split; [done..|apply delay_req_init_buf]. Qed.

Lemma nic_received_reachable : reachable 0 0 nic_received.
Proof.
  apply (reachable_event 0 0 (RecvIrq 3) NULL nic_ready); [apply nic_ready_reachable| |vm_compute; reflexivity].
  vm_compute. repeat constructor.
Qed.

Lemma frame_nic_inv bytes : nic_inv 0 0 (frame_nic bytes).
Proof.
  apply driver_inv. unfold frame_nic. generalize nic_received nic_received_reachable. intros d Hd.
  apply (reachable_stack 0 0 _ d); [exact Hd|]. apply (put_view (N := net)).
Qed.

(** The tag hides the message: the time of its arrival is not taken. *)
Example tagged_not_interpreted :
  is_ptp sync_frame = true ∧ is_ptp tagged_frame = false ∧ passed_to 1 tagged_frame = [].
Proof. vm_compute. done. Qed.

Lemma frame_host_queue bytes : rx_queue (net_of (frame_host bytes)) = [3; 4].
Proof. vm_compute. reflexivity. Qed.
Lemma frame_host_buf bytes : pbuf_get 3 (net_of (frame_host bytes)) = Some (frame_buf bytes).
Proof. vm_compute. reflexivity. Qed.

Lemma ethernet_input_disposes_once_witness :
  let h := frame_host tagged_frame in
  ∃ h', ethernet_input 3 h = Ok (ERR_OK, h') ∧ disposed 3 [] h h'.
Proof. exact (ethernet_input_disposes_once 3 (frame_buf tagged_frame)
  (frame_host tagged_frame) (frame_host_buf _)). Defined.

Lemma ethernet_output_frame_witness :
  let d := frame_nic [1; 2; 3] in
  ∃ n b', ethernet_output 3 (replicate 6 2) (replicate 6 3) ETHTYPE_PTP d = low_level_output 3 n ∧
    pbuf_get 3 n = Some b' ∧
    p_payload b' = eth_header (replicate 6 3) (replicate 6 2) ETHTYPE_PTP ++ [1; 2; 3].
Proof.
  destruct (ethernet_output_frame 3 (frame_buf [1; 2; 3]) (replicate 6 2) (replicate 6 3) ETHTYPE_PTP
    (frame_nic [1; 2; 3]) (frame_host_buf _) eq_refl eq_refl ltac:(by_computation) eq_refl)
    as (n & b' & E & _ & Hb & Hp & _).
  exists n, b'. split; [exact E|]. split; [exact Hb|exact Hp].
Defined.
