(* ===== verification/Reception.v ===== *)
(** * Reception, from the queue of the driver to the interpreter

    [xemacpsif_input] takes a frame from the queue and gives it to
    [ethernet_input], which gives messages to the interpreter, whose delay
    requests go back to the driver.  What happens to the references to
    buffers on the way, and the answer to a follow-up message. *)

From S2P Require Export Ethernet.
From stdpp Require Import list gmap.

#[local] Open Scope Z_scope.

Section EndToEnd.
Context {T N D G : Type} `{EthConfig} `{Xil D} `{!TsuClient T D} `{Board} `{LwipLaws N}
  `{EmacPsLaws G}.
Implicit Types h : world (ptp T (nic N G)).

(** The interface in the state of the program, whose input function is
    [ethernet_input]. *)
Definition driver_l : lens (world (ptp T (nic N G))) (nic N G) :=
  Lens net_of (λ d h, at_net h d).

#[global] Instance driver_l_laws : LensLaws driver_l.
Proof. split; [done|apply at_net_self|done]. Qed.

Definition receive (ipv6 : bool) : M (world (ptp T (nic N G))) Z :=
  xemacpsif_input driver_l ipv6 ethernet_input.

(** *** References on the way *)

Section References.
Context (ti ri : nat).

(** The callbacks that are installed keep what the program holds. *)
Context (installed : world (ptp T (nic N G)) → Prop).
Context (installed_keep : ∀ h, installed h → callbacks_keep (driver_kept ti ri) h).
Context (kept_installed : ∀ h h', kept h h' → installed h → installed h').

Definition running (q : list Z) (A : Z → Z) h : Prop := installed h ∧ holds ti ri A q (net_of h).

Lemma same_own h h' : own h' = own h → kept h h'.
Proof. intros Ho. unfold kept. by rewrite Ho. Qed.

Lemma driver_triple {R} q q' A (m : M (nic N G) R) (A' : R → Z → Z) :
  triple (holds ti ri A q) m (λ r, holds ti ri (A' r) q') →
  triple (running q A) (zoom driver_l m) (λ r, running q' (A' r)).
Proof.
  intros Hm h r h' [Hc Hs] E. apply zoom_Ok in E as (d & E & ->).
  split; [|by eapply Hm]. by eapply kept_installed, Hc; apply same_own.
Qed.

Lemma on_lwip_zoom {R} (m : M (nic N G) R) h : on_lwip m h = zoom driver_l m h.
Proof.
  unfold on_lwip, on_ptp, on_net. rewrite !run_zoom. cbn [lget lput env_l net_l driver_l].
  change (p_net (env h)) with (net_of h). by destruct (m (net_of h)) as [[r d]|].
Qed.

Lemma on_lwip_triple {R} q A (m : M (nic N G) R) (A' : R → Z → Z) :
  triple (holds ti ri A q) m (λ r, holds ti ri (A' r) q) →
  triple (running q A) (on_lwip (T := T) m) (λ r, running q (A' r)).
Proof.
  intros Hm h r h' Hh E. rewrite on_lwip_zoom in E. by eapply (driver_triple q q A m A').
Qed.

Lemma on_lwip_stable {R} q A (m : M (nic N G) R) : stable (holds ti ri A q) m →
  stable (running q A) (on_lwip (T := T) m).
Proof. intros Hm. by apply (on_lwip_triple q A m (λ _, A)). Qed.

Lemma print_running q A fmt args : stable (running q A) (on_ptp (print fmt args)).
Proof.
  intros h u h' [Hc Hs] E. unfold on_ptp, print, on_tsu in E.
  apply zoom_Ok in E as (s & E & ->). apply zoom_Ok in E as (t & E & ->).
  split; [|exact Hs]. by eapply kept_installed, Hc; apply same_own.
Qed.

Lemma eth_stat_running q A w : stable (running q A) (eth_stat w).
Proof. apply on_lwip_stable, stats_stable. Qed.

Lemma interpreter_running q A msg : stable (running q A) (ptp_sync_interpreter msg).
Proof.
  intros h stat h' [Hc Hs] E. pose proof (interpreter_kept _ _ _ _ E) as Hk.
  split; [by eapply kept_installed|]. by eapply (interpreter_env (driver_kept ti ri)); [|apply installed_keep|].
Qed.
#[local] Hint Resolve on_lwip_stable print_running eth_stat_running interpreter_running : stable.

(** What gives the buffer [p] away; a function that does so and succeeds. *)
Definition gives (p : Z) (m : M (world (ptp T (nic N G))) unit) : Prop :=
  ∀ q A, 0 < A p → triple (running q A) m (λ _, running q (adjusted p (-1) A)).
Definition disposes (p : Z) (m : M (world (ptp T (nic N G))) Z) : Prop :=
  ∀ q A, 0 < A p → triple (running q A) m (λ e h, e = ERR_OK ∧ running q (adjusted p (-1) A) h).

Lemma disposes_return p m : gives p m → disposes p (m ;; mret ERR_OK).
Proof.
  intros Hm q A HA. eapply triple_bind; [by apply Hm|]. intros _ h e h' Hh [= <- <-]. by split.
Qed.

Lemma disposes_after {R} p (m : M (world (ptp T (nic N G))) R) (k : R → M _ Z) :
  (∀ q A, stable (running q A) m) → (∀ r, disposes p (k r)) → disposes p (m ≫= k).
Proof. intros Hm Hk q A HA. eapply triple_bind; [apply Hm|]. intros r. by apply Hk. Qed.

Lemma free_gives p : gives p (on_lwip (modify (pbuf_free p))).
Proof. intros q A HA. apply (on_lwip_triple q A _ (λ _, adjusted p (-1) A)). by apply free_triple. Qed.

Lemma passed_gives p f : f = ip4_input ∨ f = ip6_input ∨ f = etharp_input →
  gives p (on_lwip (modify (f p))).
Proof.
  intros Hf q A HA. apply (on_lwip_triple q A _ (λ _, adjusted p (-1) A)). by apply passed_triple.
Qed.

Lemma free_disposes p : disposes p (free_and_return p).
Proof. apply disposes_return, free_gives. Qed.

Lemma hook_disposes p : disposes p (gptp_protocol_hook p).
Proof.
  unfold gptp_protocol_hook. apply disposes_after; [intros; stable_tac|]. intros b.
  apply disposes_after; [intros; stable_tac|]. intros ty.
  apply disposes_after; [|intros _; apply disposes_return, free_gives].
  intros q A. case_match; [unfold hook_ptp_sync|]; stable_tac.
Qed.

Lemma pbuf_set_stable q A p f : stable (holds ti ri A q) (pbuf_set p f).
Proof. unfold pbuf_set. stable_tac. Qed.
#[local] Hint Resolve pbuf_set_stable : stable.

Ltac disposes_tac := repeat match goal with
  | |- disposes _ (free_and_return _) => apply free_disposes
  | |- disposes _ (on_lwip (modify (_ _)) ;; mret ERR_OK) =>
      apply disposes_return; first [apply free_gives | apply passed_gives; tauto]
  | |- disposes _ (_ ≫= _) => apply disposes_after; [intros; stable_tac|intros]
  | |- disposes _ (if ?b then _ else _) => destruct b
  | |- disposes _ (match ?v with _ => _ end) => destruct v
  end.

Lemma dispatch_disposes p ty next : disposes p (eth_dispatch p ty next).
Proof.
  unfold eth_dispatch. do 3 (case_match; [disposes_tac|]).
  intros q A HA. eapply triple_bind; [by apply hook_disposes|].
  intros e h e' h' [-> Hh] [= <- <-]. by split.
Qed.

Lemma ethernet_input_disposes p : disposes p (ethernet_input p).
Proof.
  unfold ethernet_input. apply disposes_after; [intros; stable_tac|]. intros b.
  case_match; [disposes_tac|]. disposes_tac. apply dispatch_disposes.
Qed.

(** A frame is received: it leaves the queue, and nothing else is held or given
    away. *)
Lemma release_running p q A : 0 ≤ A p →
  triple (running q (adjusted p 1 A)) (zoom driver_l (on_stack (modify (pbuf_free p))))
    (λ _, running q A).
Proof.
  intros HA h u h' Hh E.
  eapply (driver_triple q q (adjusted p 1 A) _ (λ _, adjusted p (-1) (adjusted p 1 A))) in E as [Hi Hs]; [|..].
  - split; [exact Hi|]. eapply holds_ext; [|exact Hs]. apply (adjusted_cancel p 1).
  - apply free_triple. unfold adjusted. rewrite decide_True by done. lia.
  - exact Hh.
Qed.

Lemma receive_running ipv6 q A : triple (running q A) (receive ipv6) (λ _, running (tail q) A).
Proof.
  intros h r h' Hh. assert (∀ p, 0 ≤ A p) as HA.
  { intros p. rewrite <-(holds_refs _ _ _ _ _ (proj2 Hh) p). apply app_refs_nonneg, Hh. }
  revert h r h' Hh. unfold receive, xemacpsif_input.
  eapply triple_bind; [apply driver_triple, input_triple|]. intros p. cbv beta.
  case_decide as Hp; [subst p; apply stable_ret|]. apply Z.eqb_neq in Hp as ->.
  assert (∀ B, stable (running (tail q) B) (zoom driver_l (on_stack (pbuf_at p)))) as Hat.
  { intros B. apply (driver_triple _ _ B _ (λ _, B)), (stack_pbuf_at_stable _ p). }
  assert (∀ B w, stable (running (tail q) B) (zoom driver_l (link_stat w))) as Hstat.
  { intros B w. apply (driver_triple _ _ B _ (λ _, B)), (stats_stable _ _ _ _ w). }
  eapply triple_bind; [apply Hat|]. intros b. eapply triple_bind; [apply stable_lift|]. intros ty.
  eapply triple_bind; [apply Hstat|]. intros [].
  eapply (triple_bind _ _ _ (λ _, running (tail q) A)); [|intros []; apply stable_ret].
  case_match; [|by apply release_running].
  eapply triple_bind.
  - apply ethernet_input_disposes. unfold adjusted. rewrite decide_True by done. specialize (HA p). lia.
  - intros e h u h' [-> [Hi Hs]] [= _ <-]. split; [exact Hi|].
    eapply holds_ext; [|exact Hs]. apply (adjusted_cancel p 1).
Qed.
End References.

(** The functions of one of the two transports are installed. *)
Definition transport_registered h : Prop := gptp_registered h ∨ ptp_registered h.

Lemma transport_keeps ti ri h : (1 ≤ max_chain)%nat → transport_registered h →
  callbacks_keep (driver_kept ti ri) h.
Proof. intros Hm [Hr|Hr]; [by apply gptp_registered_keep|by apply ptp_registered_driver]. Qed.

Lemma transport_kept h h' : kept h h' → transport_registered h → transport_registered h'.
Proof. intros Hk [Hr|Hr]; [left|right]; by eapply registered_kept. Qed.

Lemma receive_conserves ipv6 ti ri h r h' : transport_registered h → (1 ≤ max_chain)%nat →
  nic_inv ti ri (net_of h) → receive ipv6 h = Ok (r, h') →
  transport_registered h' ∧ conserved ti ri (net_of h) (net_of h') ∧
  rx_queue (net_of h') = tail (rx_queue (net_of h)).
Proof.
  intros Hreg Hm Hinv E.
  destruct (receive_running ti ri transport_registered (λ h, transport_keeps ti ri h Hm) transport_kept
    ipv6 (rx_queue (net_of h)) (λ p, app_refs ti ri p (net_of h)) h r h') as [Hreg' [Hi Ha Hq]]; [|done|].
  - split; [done|]. by apply holds_now.
  - done.
Qed.

(** C17. A received frame is released exactly once on its way from the queue of
    the driver through [ethernet_input], the hook and the interpreter,
    whatever the frame is and whatever the interpreter sends meanwhile: the
    frame is taken from the queue, the invariants of both rings hold again,
    and no buffer has a reference more or less than before but for those of
    the driver itself.  Every frame that is not for the interpreter is processed
    without a fault; without a frame nothing happens. *)
Theorem received_frame_released_once ipv6 ti ri h :
  transport_registered h → (1 ≤ max_chain)%nat → nic_inv ti ri (net_of h) →
  (∀ r h', receive ipv6 h = Ok (r, h') →
    transport_registered h' ∧ conserved ti ri (net_of h) (net_of h') ∧
    rx_queue (net_of h') = tail (rx_queue (net_of h))) ∧
  match rx_queue (net_of h) with
  | [] => receive ipv6 h = Ok (0, h)
  | p :: _ => ∀ b, pbuf_get p (net_of h) = Some b → (14 ≤ length (p_payload b))%nat →
      is_ptp (p_payload b) = false → is_Ok (receive ipv6 h) = true
  end.
Proof.
  intros Hreg Hm Hinv. split; [intros r h'; by apply receive_conserves|].
  pose proof (input_takes_oldest driver_l ipv6 ethernet_input h) as Hin. unfold rx_queue.
  change (lget driver_l h) with (net_of h) in Hin.
  destruct (g_queue (gem_view (nic_gem (net_of h)))) as [|p q] eqn:Eq; [done|].
  intros b Hb Hlen Hnp.
  assert (p ≠ NULL) as Hp by (intros ->; cbn in Hb; by rewrite null_pbuf in Hb).
  destruct (input_run driver_l ipv6 ethernet_input p q b h Eq Hp Hb Hlen)
    as (s1 & ty & _ & _ & Hn & _ & E).
  fold receive in E. unfold receive. rewrite E. destruct (passed_up ipv6 ty); [|done].
  assert (pbuf_get p (net_of (lput driver_l s1 h)) = Some b) as Hb1.
  { cbn. rewrite Hn, stats_get. exact Hb. }
  pose proof (ethernet_input_run p b _ Hb1) as Hrun. rewrite Hnp in Hrun.
  by destruct Hrun as (h1 & -> & _).
Qed.

(** *** A follow-up message is answered *)

(** A driver whose stack was touched, and nothing else. *)
Lemma touched_driver p (d d' : nic N G) : touched p d d' →
  touched p (nic_net d) (nic_net d') ∧ nic_gem d' = nic_gem d ∧ nic_vars d' = nic_vars d.
Proof.
  induction 1 as [|b d' _ (Ht & Hg & Hv)|w d' _ (Ht & Hg & Hv)]; [by auto with touched|..];
    (split; [|done]); cbn; auto with touched.
Qed.

Lemma touched_trans p (n1 n2 n3 : N) : touched p n1 n2 → touched p n2 n3 → touched p n1 n3.
Proof. induction 2; auto with touched. Qed.

(** The frame stays queued when another buffer of the program is freed. *)
Lemma frame_queued_free ti ri bytes p d d1 : nic_inv ti ri d1 → frame_queued ti bytes d d1 →
  is_Some (refs (net_view d) !! p) → frame_queued ti bytes d (pbuf_free p d1).
Proof.
  intros Hi (k & q & b & Hq & Hnew & Hb & Hp & Hn) Hs. exists k, q, b. split_and!; [done..| |done|done].
  change (pbuf_get q (pbuf_free p (nic_net d1)) = Some b). apply free_get; [done|]. right.
  exists (nrefs q (net_view d1)). split.
  - apply nrefs_some. pose proof (inv_counted _ _ _ Hi q) as Hc. enough (0 < count q (queued_tx ti d1)) by lia.
    apply count_in. rewrite Hq, elem_of_app. right. by left.
  - intros ->. rewrite Hnew in Hs. by destruct Hs.
Qed.

Lemma get_systime_returns (s : ptp T (nic N G)) : ∃ t c, get_systime s = Ok (t, with_client c s).
Proof. unfold get_systime, on_tsu. mexec. do 2 eexists. reflexivity. Qed.

(** The answer to a follow-up message in a buffer that the program has. *)
Lemma follow_up_sends ti ri A q b b0 b1 h : (1 ≤ max_chain)%nat → gptp_registered h →
  holds ti ri A q (net_of h) → timed_message (ptp_of_frame b) FollowUpMsg_e b0 b1 →
  ∃ t c h', get_systime (env h) = Ok (t, with_client c (env h)) ∧
    ptp_sync_interpreter (ptp_of_frame b) h = Ok (PTP_MSG_OK, h') ∧
    t1 (own h') = wire_ts (m_bytes (ptp_of_frame b)) (dts (t1 (own h))) ∧
    t2 (own h') = t2 (own h) ∧ t3 (own h') = t ∧ holds ti ri A q (net_of h') ∧
    let frame := gptp_eth_header ++ delay_req_bytes b0 b1 t in
    (frame_queued ti frame (net_of h) (net_of h') ∨ nothing_queued ti (net_of h) (net_of h')) ∧
    ((frame_pbuf 44 (nic_net (net_of h))).1 ≠ NULL → r_free (tx_ring (net_of h)) ≠ [] →
      frame_queued ti frame (net_of h) (net_of h')).
Proof.
  intros Hm [Hg _ Hf Hbuf] Hs [Hty (b2 & b3 & x & Hx) Hlen Hb].
  rewrite interpreter_follow_up by done.
  rewrite (handle_follow_up_run (ptp_of_frame b) h get_systime gptp_send_delay_request b0 b1 b2 b3 x) by done.
  destruct (get_systime_returns (env h)) as (t & c & Ec). rewrite Ec, bind_Ok_l.
  destruct (gptp_send_holds ti ri A q (delay_req_bytes b0 b1 t) (with_client c (env h)) Hm Hs)
    as (d & E & Hd & Hsent). rewrite E, !bind_Ok_l.
  exists t, c. eexists. split; [done|]. split; [reflexivity|]. do 3 (split; [done|]).
  split; [exact Hd|]. exact Hsent.
Qed.

Lemma ptp_passed_up ipv6 : passed_up ipv6 ETHTYPE_PTP = true.
Proof. done. Qed.

(** A message at the head of the queue. *)
Record message_waits (ti ri : nat) (p : Z) (q : list Z) (b : pbuf) h : Prop := {
  waits_transport : gptp_registered h;
  waits_inv : nic_inv ti ri (net_of h);
  waits_queue : rx_queue (net_of h) = p :: q;
  waits_buffer : pbuf_get p (net_of h) = Some b;
  waits_type : frame_type (p_payload b) = Ok ETHTYPE_PTP;
  waits_long : (14 < length (p_payload b))%nat
}.

(** The message reaches the interpreter with the frame out of the queue and in
    the hands of the program, and is freed afterwards. *)
Lemma receive_message ipv6 ti ri p q b h : message_waits ti ri p q b h → ∃ d,
  touched p (nic_net (net_of h)) (nic_net d) ∧ queued_tx ti d = queued_tx ti (net_of h) ∧
  tx_ring d = tx_ring (net_of h) ∧
  holds ti ri (adjusted p 1 (λ x, app_refs ti ri x (net_of h))) q d ∧
  ∀ h', ptp_sync_interpreter (ptp_of_frame b) (at_net h d) = Ok (PTP_MSG_OK, h') →
    receive ipv6 h = Ok (1, at_net h' (pbuf_free p (net_of h'))).
Proof.
  intros [Hreg Hinv Eq Hb Hty Hlen]. set (d := net_of h) in *.
  assert (p ≠ NULL) as Hp by (intros ->; cbn in Hb; by rewrite null_pbuf in Hb).
  destruct (input_run driver_l ipv6 ethernet_input p q b h Eq Hp Hb ltac:(lia))
    as (d1 & ty & Hty1 & Hg1 & Hn1 & Hv1 & E).
  rewrite Hty in Hty1. injection Hty1 as <-. rewrite ptp_passed_up in E.
  change (lget driver_l h) with d in *. set (h1 := lput driver_l d1 h) in *.
  assert (pbuf_get p (net_of h1) = Some b) as Hb1 by (cbn; rewrite Hn1, stats_get; exact Hb).
  pose proof (ethernet_input_run p b h1 Hb1) as Hrun.
  assert (is_ptp (p_payload b) = true) as Hptp.
  { unfold is_ptp. rewrite bool_decide_true by done. apply andb_true_iff. split; [|done].
    apply Z.ltb_lt. lia. }
  rewrite Hptp in Hrun. destruct Hrun as (d2 & b' & k & Ht & Hpay & Hdat & Erun & Hk).
  destruct (touched_driver p (net_of h1) d2 Ht) as (Ht2 & Hg2 & Hv2).
  change (net_of h1) with d1 in *. rewrite Hn1 in Ht2.
  assert (ptp_of_frame b' = ptp_of_frame b) as Hmb by (unfold ptp_of_frame; by rewrite Hpay, Hdat).
  rewrite Hmb in Erun.
  assert (touched p (nic_net d) (nic_net d2)) as Ht3
    by (eapply touched_trans; [|exact Ht2]; auto with touched).
  exists d2. split; [exact Ht3|].
  split; [unfold queued_tx, tx_ring; by rewrite Hg2, Hv2, Hg1, Hv1|].
  split; [unfold tx_ring; by rewrite Hg2, Hg1|]. split.
  { apply (holds_dequeued ti ri (λ x, app_refs ti ri x d) p q d); [rewrite <-Eq; by apply holds_now|..|done].
    - by rewrite Hg2, Hg1.
    - by rewrite Hv2, Hv1.
    - exact (touched_view _ _ _ Ht3). }
  intros h3 E3. change (at_net h1 d2) with (at_net h d2) in Erun. rewrite E3, bind_Ok_l in Erun.
  unfold receive. rewrite E, Erun, bind_Ok_l.
  change (ERR_OK =? ERR_OK) with true. cbv iota. by destruct (Hk PTP_MSG_OK h3) as (_ & _ & ->).
Qed.

(** A follow-up message at the head of the queue: the variables of the
    interpreter, the buffers and the answer. *)
Lemma follow_up_received ipv6 ti ri p q b b0 b1 h :
  (1 ≤ max_chain)%nat → message_waits ti ri p q b h →
  timed_message (ptp_of_frame b) FollowUpMsg_e b0 b1 →
  ∃ h' n t c, receive ipv6 h = Ok (1, h') ∧ kept h h' ∧
    conserved ti ri (net_of h) (net_of h') ∧ rx_queue (net_of h') = q ∧
    touched p (nic_net (net_of h)) n ∧
    (∃ d, get_systime (env (at_net h d)) = Ok (t, with_client c (env (at_net h d)))) ∧
    t1 (own h') = wire_ts (m_bytes (ptp_of_frame b)) (dts (t1 (own h))) ∧
    t2 (own h') = t2 (own h) ∧ t3 (own h') = t ∧
    let frame := gptp_eth_header ++ delay_req_bytes b0 b1 t in
    (frame_queued ti frame (net_of h) (net_of h') ∨ nothing_queued ti (net_of h) (net_of h')) ∧
    ((frame_pbuf 44 n).1 ≠ NULL → r_free (tx_ring (net_of h)) ≠ [] →
      frame_queued ti frame (net_of h) (net_of h')).
Proof.
  intros Hm Hw Hmsg. destruct (receive_message ipv6 ti ri p q b h Hw) as (d2 & Ht & Hq2 & Hr2 & Hs2 & Hrec).
  destruct Hw as [Hreg Hinv Eq Hb _ _].
  destruct (follow_up_sends ti ri (adjusted p 1 (λ x, app_refs ti ri x (net_of h))) q b b0 b1
    (at_net h d2) Hm) as (t & c & h3 & Et & E3 & H1' & H2' & H3' & Hs3 & Hsent);
    [by destruct Hreg; split|done|done|].
  specialize (Hrec h3 E3). set (h4 := at_net h3 _) in *.
  destruct (receive_conserves ipv6 ti ri h 1 h4) as (_ & Hcons & Hq4); [by left|done..|].
  exists h4, (nic_net d2), t, c. split; [exact Hrec|]. split; [exact (interpreter_kept _ _ _ _ E3)|].
  split; [exact Hcons|]. split; [by rewrite Hq4, Eq|]. split; [exact Ht|].
  split; [by exists d2|]. do 3 (split; [done|]). cbn zeta.
  assert (∀ f, frame_queued ti f d2 (net_of h3) → frame_queued ti f (net_of h) (net_of h4)) as Hfr.
  { intros f Hf. apply (frame_queued_free ti ri); [apply Hs3| |].
    - unfold frame_queued in *. change (net_view d2) with (view_of_stack (nic_net d2)) in Hf.
      rewrite (touched_view _ _ _ Ht), Hq2 in Hf. exact Hf.
    - rewrite (rx_held _ _ (inv_rx _ _ _ Hinv) p); [done|]. unfold owned. rewrite Eq.
      apply elem_of_app. right. by left. }
  change (net_of (at_net h d2)) with d2 in Hsent. destruct Hsent as [[Hf|[kk Hf]] Hroom].
  - split; [left; by apply Hfr|]. intros Ha Hb'. by apply Hfr.
  - split; [right; exists kk; rewrite <-Hq2; exact Hf|]. intros Ha Hb'. apply Hfr, Hroom; [done|by rewrite Hr2].
Qed.

(** C9. From a descriptor of reception to a descriptor of transmission.  A
    follow-up message at the head of the queue of the driver: the reception of
    the main loop returns, whatever the state of the rings and of the memory,
    the frame leaves the queue and is released, and the invariants of the
    driver and the references of the program are as before.  With memory for
    the frame and a free descriptor, the delay request with the version of
    the message and the time read is the last frame in the queue of
    transmission, under the header of the protocol; otherwise it may be
    dropped, and nothing else is queued. *)
Theorem follow_up_answered ipv6 ti ri p q b b0 b1 h :
  (1 ≤ max_chain)%nat → message_waits ti ri p q b h →
  timed_message (ptp_of_frame b) FollowUpMsg_e b0 b1 →
  ∃ h' n, receive ipv6 h = Ok (1, h') ∧ gptp_registered h' ∧
    conserved ti ri (net_of h) (net_of h') ∧ rx_queue (net_of h') = q ∧
    touched p (nic_net (net_of h)) n ∧
    let frame := gptp_eth_header ++ delay_req_bytes b0 b1 (t3 (own h')) in
    (frame_queued ti frame (net_of h) (net_of h') ∨ nothing_queued ti (net_of h) (net_of h')) ∧
    ((frame_pbuf 44 n).1 ≠ NULL → r_free (tx_ring (net_of h)) ≠ [] →
      frame_queued ti frame (net_of h) (net_of h')).
Proof.
  intros Hm Hw Hmsg.
  destruct (follow_up_received ipv6 ti ri p q b b0 b1 h Hm Hw Hmsg)
    as (h' & n & t & c & E & Hk & Hc & Hq & Ht & _ & _ & _ & <- & Hsent).
  exists h', n. split; [done|]. split; [|by auto].
  eapply registered_kept; [exact Hk|by destruct Hw].
Qed.
End EndToEnd.
(** ** Concrete frames *)

Lemma tagged_received : is_Ok (receive false (frame_host tagged_frame)) = true.
Proof. vm_compute. reflexivity. Qed.

Lemma received_frame_released_once_witness :
  ∃ r h', receive false (frame_host tagged_frame) = Ok (r, h') ∧
    conserved 0 0 (frame_nic tagged_frame) (net_of h') ∧ rx_queue (net_of h') = [4].
Proof.
  pose proof tagged_received as Hok.
  destruct (received_frame_released_once false 0 0 (frame_host tagged_frame)
    (or_introl (frame_host_registered _)) ltac:(by_computation) (frame_nic_inv _)) as [Hr _].
  destruct (receive false (frame_host tagged_frame)) as [[r h']|]; [|discriminate Hok].
  destruct (Hr r h' eq_refl) as (_ & Hc & Hq). rewrite frame_host_queue in Hq.
  exists r, h'. split; [reflexivity|]. split; [exact Hc|exact Hq].
Defined.

Definition follow_up_frame : list Z := gptp_eth_header ++ m_bytes (follow_up_message 1000 7).

Lemma follow_up_answered_witness :
  ∃ h', receive false (frame_host follow_up_frame) = Ok (1, h') ∧ rx_queue (net_of h') = [4] ∧
    frame_queued 0 (gptp_eth_header ++ delay_req_bytes 8 2 (t3 (own h')))
      (frame_nic follow_up_frame) (net_of h').
Proof.
  destruct (follow_up_answered false 0 0 3 [4] (frame_buf follow_up_frame) 8 2 (frame_host follow_up_frame)
    ltac:(by_computation)) as (h' & n & E & _ & _ & Hq & Ht & _ & Hf).
  - split; [apply frame_host_registered|apply frame_nic_inv|apply frame_host_queue|apply frame_host_buf
      |reflexivity|by_computation].
  - concrete_message.
  - exists h'. split; [exact E|]. split; [exact Hq|]. apply Hf.
    + intros Hn. assert (n_mem n = 2%nat) as Hmem.
      { clear -Ht. remember (nic_net (net_of (frame_host follow_up_frame))) as n0 eqn:E0.
        assert (n_mem n0 = 2%nat) as <- by (subst; vm_compute; reflexivity). clear E0.
        induction Ht as [|b n' _ IH|w n' _ IH]; [reflexivity|exact IH|exact IH]. }
      unfold frame_pbuf in Hn. cbn in Hn. unfold net_alloc in Hn. rewrite Hmem in Hn. discriminate Hn.
    + vm_compute. discriminate.
Defined.
