(* ===== verification/System.v ===== *)
(** * The whole program ([src/IEEE1588/timesync.c], [src/IEEE1588/ptp.c])

    The structure of callbacks that [timesync.c] gives to the transports, its
    initialisation, and the loop that the parts form: reports of the
    interpreter to the servo of [ptp.c], and from there to the timer and the
    synchronisation state machine. *)

From S2P Require Export Reception Timesync.
From stdpp Require Import list gmap.

#[local] Open Scope Z_scope.

Definition COARSE_TIMEOUT_SEC : Z := 300.
Definition FINE_TIMEOUT_SEC : Z := 20.

(** The client of the transports is [timesync.c], with the timer in it. *)
#[global] Instance tsu_client_timesync {D} : TsuClient (timesync D) D := { client_tsu := tsu_l }.

Section Program.
Context {N D G : Type} `{Xil D} `{Board} `{GemOptions} `{Lwip N} `{EmacPs G}.

Definition program : Type := world (ptp (timesync D) (nic N G)).

(** [init_param]; the cleanup function is a variable of [timesync.c]. *)
Definition init_param : timesync_init_param (timesync D) :=
  InitParam COARSE_TIMEOUT_SEC FINE_TIMEOUT_SEC
    (Some coarse_time_received) (Some fine_time_received) (Some pps_received)
    (Some coarse_timeout) (Some fine_timeout) (Some housekeeping) (Some update_error).

Definition on_timesync {A} (m : M (timesync D) A) : M program A :=
  on_ptp (zoom client_l m).

Definition start_timesync (TSU_CLK_FREQ : Z) : M program unit :=
  source ← on_timesync (gets clock_source);
  match source with
  | CLOCK_TYPE_PTP => ptp_init TSU_CLK_FREQ init_param
  | CLOCK_TYPE_GPTP => gptp_init TSU_CLK_FREQ init_param
  | CLOCK_TYPE_NONE => mret tt
  | CLOCK_TYPE_GENERAL_NMEA_GPS => mret tt
  end ;;
  on_timesync (modify (with_cleanup true)).

Definition timesync_init (TSU_CLK_FREQ : Z) (type : clock_type) : M program unit :=
  i ← on_timesync (gets isInitialized);
  c_assert "!isInitialized" (negb i) ;;
  on_timesync (modify (with_source type)) ;;
  start_timesync TSU_CLK_FREQ ;;
  on_timesync (modify (with_initialized true)).
End Program.
Arguments program : clear implicits.

(** ** The servo *)

Section Servo.
Context {N D : Type} `{Xil D} `{Lwip N}.
Implicit Types (s : ptp (timesync D) N) (t : timesync D).

(** The correction register after a report, and so what the tick applies. *)
Definition servo_word (e i w : Z) : Z :=
  let f := e + i ÷ 20 in
  if decide (in_dead_band f e PTP_MAX_ERR_NS) then w else correction f w.

Definition report_fmt : string := "diff(%-10d) :: %-2d  %-10d \r\n".

(** The timer after a report of [e] nanoseconds with the integral [i]. *)
Definition servo_timer (e i : Z) (u : tsu D) : tsu D :=
  let w := servo_word e i (fine_tune_register u) in
  with_dev (xil_printf report_fmt [i; 0; e] (Xil_Out32 TSU_TIMER_ADJUST w (dev u)))
    (with_uptime (to_u32 (sUptime_mS u + 1)) (with_register w u)).

Definition fine_reported (e i : Z) s : ptp (timesync D) N :=
  with_integrated_ns i (with_client
    (with_integrated i (with_diff e (with_status TS_FINE
      (with_tsu (servo_timer e i (tsu_of (p_client s))) (p_client s))))) s).

Lemma report_fine_run o sy d s : init_params s = Some init_param → seconds d = 0 →
  let e := nanosec d in let i := integrated_ns s + e in
  in_i32 i → - 2 ^ 31 < e + i ÷ 20 < 2 ^ 31 →
  ptp_process_time_diff o sy d s = Ok (tt, fine_reported e i s).
Proof.
  intros Hp Hd e i Hi Hf. unfold ptp_process_time_diff. rewrite Hd. cbn [negb Z.eqb].
  destruct s as [t n ps st gr ig ub]. cbn in Hp, i. subst ps.
  unfold on_tsu, params, print.
  pose proof (tsu_clock_fine_tune_run e i PTP_MAX_ERR_NS (tsu_of t) Hf) as Ht.
  mexec. fold e i. rewrite i32_Ok by done. cbn. fold e i. rewrite Ht. cbn.
  unfold fine_reported, servo_timer, servo_word. fold e i.
  case_decide; cbn; [|done]. by destruct t as [[] ? ? ? ? ? ? ? ? ? ? ? ? ?].
Qed.

(** A report with a difference of whole seconds. *)
Definition printed (args : list Z) t : timesync D :=
  with_tsu (with_dev (xil_printf report_fmt args (dev (tsu_of t))) (tsu_of t)) t.

Definition coarse_reported (sy d : ptp_timestamp_t) s : ptp (timesync D) N :=
  with_integrated_ns 0 (with_client (printed [0; seconds d; nanosec d]
    (coarse_result (seconds sy) (to_u32 (nanosec sy)) (p_client s))) s).

Lemma report_coarse_run o sy d s : init_params s = Some init_param → seconds d ≠ 0 →
  (status (p_client s) = TS_COARSE → in_i32 (receive_counter (p_client s) + 1)) →
  ptp_process_time_diff o sy d s = Ok (tt, coarse_reported sy d s).
Proof.
  intros Hp Hd Hc. unfold ptp_process_time_diff. apply Z.eqb_neq in Hd as ->. cbn [negb].
  destruct s as [t n ps st gr ig ub]. cbn in Hp, Hc. subst ps.
  unfold on_tsu, params, print.
  pose proof (coarse_time_received_run (seconds sy) (to_u32 (nanosec sy)) t Hc) as Ht.
  mexec. by rewrite Ht.
Qed.

Lemma report_overflow o sy d s : init_params s = Some init_param → seconds d = 0 →
  ¬ in_i32 (integrated_ns s + nanosec d) →
  ptp_process_time_diff o sy d s = Fault SignedOverflow.
Proof.
  intros Hp Hd Hi. unfold ptp_process_time_diff. rewrite Hd. cbn [negb Z.eqb].
  mexec. by rewrite i32_overflow.
Qed.
End Servo.

(** ** Sequences of reports *)

Section Reports.
Context {N D : Type} `{Xil D} `{Lwip N}.
Implicit Types (s : ptp (timesync D) N) (t : timesync D).

Definition report : Type := ptp_timestamp_t * ptp_timestamp_t.

(** What reaches the transport between two messages. *)
Inductive servo_event :=
  | Report (r : report)
  | Housekeep.

Definition servo (e : servo_event) : M (ptp (timesync D) N) unit :=
  match e with
  | Report (sy, d) => ptp_process_time_diff 0 sy d
  | Housekeep => handle_ptp
  end.

Fixpoint servo_all (l : list servo_event) : M (ptp (timesync D) N) unit :=
  match l with
  | [] => mret tt
  | e :: l' => servo e ;; servo_all l'
  end.

Lemma servo_all_app l l' s : servo_all (l ++ l') s = (servo_all l ;; servo_all l') s.
Proof.
  revert s. induction l as [|e l IH]; intros s; [done|].
  cbn. rewrite !run_bind. destruct (servo e s) as [[[] s1]|]; cbn; [|done].
  by rewrite IH, run_bind.
Qed.

(** A report of [e] nanoseconds within the second. *)
Definition ns_report (e : Z) : servo_event := Report (ts_zero, Ts 0 e None).

Definition in_fine s : Prop := init_params s = Some init_param ∧ status (p_client s) = TS_FINE.

Lemma fine_tune_fails o sy d s : init_params s = Some init_param → seconds d = 0 →
  let i := integrated_ns s + nanosec d in
  in_i32 i → ¬ (- 2 ^ 31 < nanosec d + i ÷ 20 < 2 ^ 31) →
  ptp_process_time_diff o sy d s = Fault SignedOverflow.
Proof.
  intros Hp Hd i Hi Hf. unfold ptp_process_time_diff. rewrite Hd. cbn [negb Z.eqb].
  destruct s as [t n ps st gr ig ub]. cbn in Hp, i. subst ps. unfold on_tsu.
  pose proof (tsu_clock_fine_tune_overflow (nanosec d) i PTP_MAX_ERR_NS (tsu_of t) Hf) as Ht.
  mexec. fold i. rewrite i32_Ok by done. cbn. fold i. by rewrite Ht.
Qed.

(** A report that returns in fine synchronisation did one of two things. *)
Lemma report_in_fine sy d s s' : in_fine s → ptp_process_time_diff 0 sy d s = Ok (tt, s') →
  s' = coarse_reported sy d s ∧ seconds d ≠ 0 ∨
  s' = fine_reported (nanosec d) (integrated_ns s + nanosec d) s ∧ seconds d = 0.
Proof.
  intros [Hp Hst] Hr. destruct (decide (seconds d = 0)) as [Hd|Hd]; [right|left].
  - destruct (decide (in_i32 (integrated_ns s + nanosec d))) as [Hi|Hi].
    + destruct (decide (- 2 ^ 31 < nanosec d + (integrated_ns s + nanosec d) ÷ 20 < 2 ^ 31)) as [Hf|Hf].
      * rewrite (report_fine_run 0 sy d s Hp Hd Hi Hf) in Hr. by injection Hr as <-.
      * by rewrite (fine_tune_fails 0 sy d s Hp Hd Hi Hf) in Hr.
    + by rewrite (report_overflow 0 sy d s Hp Hd Hi) in Hr.
  - rewrite report_coarse_run in Hr by (done || congruence). by injection Hr as <-.
Qed.

Lemma coarse_reported_fine sy d s : status (p_client s) = TS_FINE →
  p_client (coarse_reported sy d s) =
    printed [0; seconds d; nanosec d] (coarse_noted (seconds sy) (p_client s)).
Proof. intros Hst. unfold coarse_reported, coarse_result. cbn. by rewrite Hst. Qed.

Lemma housekeep_run s : init_params s = Some init_param → ∃ t,
  handle_ptp s = Ok (tt, with_client t s) ∧ view_of t = view_of (p_client s).
Proof.
  intros Hp. unfold handle_ptp, params. rewrite run_bind, run_bind, run_gets, bind_Ok_l, Hp, run_ret, bind_Ok_l.
  cbn [call_client init_param ip_housekeeping]. unfold zoom. cbn [lget client_l].
  destruct (handle_returns_housekeeping (p_client s)) as [t E].
  exists t. rewrite E. split; [done|]. by apply (housekeeping_view _ tt).
Qed.

Lemma in_fine_step e s s' : in_fine s → servo e s = Ok (tt, s') → in_fine s'.
Proof.
  intros Hf Hr. destruct e as [[sy d]|]; cbn [servo] in Hr.
  - destruct (report_in_fine sy d s s' Hf Hr) as [[-> _]|[-> _]]; destruct Hf as [Hp Hst]; split; try done.
    rewrite coarse_reported_fine by done. exact Hst.
  - destruct Hf as [Hp Hst]. destruct (housekeep_run s Hp) as (t & E & Hv). rewrite E in Hr.
    injection Hr as <-. split; [done|]. cbn. unfold view_of in Hv. congruence.
Qed.

Lemma in_fine_all l s s' : in_fine s → servo_all l s = Ok (tt, s') → in_fine s'.
Proof.
  revert s. induction l as [|e l IH]; cbn; intros s Hf Hr.
  - by injection Hr as <-.
  - apply run_bind_Ok in Hr as ([] & s1 & Hs1 & Hr). eapply IH; [by eapply in_fine_step|done].
Qed.
End Reports.

(** ** Theorems on the servo *)

Section ServoTheorems.
Context {N D : Type} `{TsuHwLaws D} `{Lwip N}.
Implicit Types (s : ptp (timesync D) N) (t : timesync D).

Definition timer s : tsu D := tsu_of (p_client s).

(** By how much a report of [e] with the integral [i] moves the timer. *)
Definition servo_move (e i w : Z) : Z :=
  if decide (in_dead_band (e + i ÷ 20) e PTP_MAX_ERR_NS) then adjust_amount w else e + i ÷ 20.

Lemma servo_word_range e i w : in_u32 w → in_u32 (servo_word e i w).
Proof. intros Hw. unfold servo_word. case_decide; [done|]. by apply correction_range. Qed.

Lemma servo_word_amount e i w : in_u32 w → - 2 ^ 30 < e + i ÷ 20 < 2 ^ 30 →
  adjust_amount (servo_word e i w) = servo_move e i w.
Proof.
  intros Hw Hf. unfold servo_word, servo_move. case_decide; [done|].
  rewrite correction_amount by done. lia.
Qed.

(** The timer is moved in one access; printing takes the rest of the time. *)
Definition moved (by_ns : Z) s s' : Prop :=
  ∃ d args, takes (tsu_clock (dev (timer s)) + by_ns) d ∧
    dev (timer s') = xil_printf report_fmt args d.

Lemma fine_reported_moves e i s : in_u32 (fine_tune_register (timer s)) →
  - 2 ^ 30 < e + i ÷ 20 < 2 ^ 30 →
  moved (servo_move e i (fine_tune_register (timer s))) s (fine_reported e i s).
Proof.
  intros Hw Hf. eexists _, _. split; [|reflexivity].
  rewrite <-servo_word_amount by done. by apply out32_adjust, servo_word_range.
Qed.

(** C4. The servo.  A report of a difference below a second whose integral does
    not overflow: the integral grows by the difference, the synchronisation is
    fine, and the timer is moved at once by the difference plus a twentieth of
    the integral; within the dead band it is moved by whatever the correction
    register still holds. *)
Theorem servo_moves_timer sy d s :
  init_params s = Some init_param → seconds d = 0 → in_u32 (fine_tune_register (timer s)) →
  let e := nanosec d in let i := integrated_ns s + e in
  in_i32 i → - 2 ^ 30 < e + i ÷ 20 < 2 ^ 30 →
  ∃ s', ptp_process_time_diff 0 sy d s = Ok (tt, s') ∧
    integrated_ns s' = i ∧ status (p_client s') = TS_FINE ∧ sync_diff_ns (p_client s') = e ∧
    moved (servo_move e i (fine_tune_register (timer s))) s s' ∧
    adjust_amount (fine_tune_register (timer s')) = servo_move e i (fine_tune_register (timer s)) ∧
    in_u32 (fine_tune_register (timer s')).
Proof.
  intros Hp Hd Hw e i Hi Hf. exists (fine_reported e i s).
  split; [apply report_fine_run; [done..|lia]|].
  split; [done|]. split; [done|]. split; [done|].
  split; [by apply fine_reported_moves|].
  split; [by apply servo_word_amount|by apply servo_word_range].
Qed.

(** A report of exactly no difference that moves the timer nevertheless. *)
Definition strays (by_ns : Z) s s' : Prop := servo (ns_report 0) s = Ok (tt, s') ∧ moved by_ns s s'.

Lemma zero_report_run f s : init_params s = Some init_param →
  in_u32 (fine_tune_register (timer s)) → in_i32 (integrated_ns s) →
  Z.abs (integrated_ns s ÷ 20) < PTP_MAX_ERR_NS → adjust_amount (fine_tune_register (timer s)) = f →
  ∃ s', strays f s s' ∧ init_params s' = Some init_param ∧ integrated_ns s' = integrated_ns s ∧
    fine_tune_register (timer s') = fine_tune_register (timer s).
Proof.
  unfold PTP_MAX_ERR_NS. intros Hp Hw Hi Hb Hf.
  assert (integrated_ns s + 0 = integrated_ns s) as Hz by lia.
  assert (in_dead_band (0 + integrated_ns s ÷ 20) 0 PTP_MAX_ERR_NS) as Hdead
    by (unfold in_dead_band, PTP_MAX_ERR_NS; lia).
  exists (fine_reported 0 (integrated_ns s) s). split; [split|split; [done|split; [done|]]].
  - cbn [servo ns_report]. rewrite report_fine_run; cbn [nanosec seconds]; rewrite ?Hz; [done|done|done|done|lia].
  - rewrite <-Hf. replace (adjust_amount _) with (servo_move 0 (integrated_ns s) (fine_tune_register (timer s)))
      by (unfold servo_move; by rewrite decide_True).
    apply fine_reported_moves; [done|lia].
  - change (servo_word 0 (integrated_ns s) (fine_tune_register (timer s)) = fine_tune_register (timer s)).
    unfold servo_word. by rewrite decide_True.
Qed.

Lemma zero_reports_run n f s : init_params s = Some init_param →
  in_u32 (fine_tune_register (timer s)) → in_i32 (integrated_ns s) →
  Z.abs (integrated_ns s ÷ 20) < PTP_MAX_ERR_NS → adjust_amount (fine_tune_register (timer s)) = f →
  ∃ s', nsteps (strays f) n s s' ∧ fine_tune_register (timer s') = fine_tune_register (timer s).
Proof.
  revert s. induction n as [|n IH]; intros s Hp Hw Hi Hb Hf; [exists s; by repeat constructor|].
  destruct (zero_report_run f s) as (s1 & Hs & Hp1 & Hi1 & Hw1); [done..|].
  destruct (IH s1) as (s' & Hn & Hw'); [done|by rewrite Hw1|by rewrite Hi1|by rewrite Hi1|by rewrite Hw1|].
  exists s'. split; [by eapply nsteps_l|congruence].
Qed.

Lemma strays_run f n s s' : nsteps (strays f) n s s' →
  servo_all (replicate n (ns_report 0)) s = Ok (tt, s') ∧
  tsu_clock (dev (timer s)) + Z.of_nat n * f ≤ tsu_clock (dev (timer s')).
Proof.
  induction 1 as [s|n s s1 s' [E (d & args & [Hd _] & Hdev)] _ [IH Hc]]; [split; [done|lia]|].
  cbn [replicate servo_all]. rewrite run_bind, E, bind_Ok_l. split; [exact IH|].
  pose proof (printf_time report_fmt args d). rewrite Hdev in Hc. lia.
Qed.


(** C27. The integral.  From an integral of zero, [n] reports of the same
    difference give exactly [n] times the difference as long as that is an
    [int]; the report after the last such one overflows.  Nothing bounds the
    integral before. *)
Theorem integral_overflows e n s :
  init_params s = Some init_param → integrated_ns s = 0 → Z.abs e < 2 ^ 30 →
  in_i32 (Z.of_nat n * e) →
  ∃ s', servo_all (replicate n (ns_report e)) s = Ok (tt, s') ∧
    integrated_ns s' = Z.of_nat n * e ∧
    (¬ in_i32 (Z.of_nat (S n) * e) →
      servo_all (replicate (S n) (ns_report e)) s = Fault SignedOverflow).
Proof.
  intros Hp Hz He. assert (∀ n, in_i32 (Z.of_nat n * e) →
    ∃ s', servo_all (replicate n (ns_report e)) s = Ok (tt, s') ∧
      init_params s' = Some init_param ∧ integrated_ns s' = Z.of_nat n * e) as Hrun.
  { clear n. unfold in_i32. induction n as [|n IH]; intros Hn; [by exists s|].
    destruct IH as (s1 & E & Hp1 & Hi1); [nia|].
    rewrite replicate_S_end, servo_all_app, run_bind, E, bind_Ok_l.
    cbn [servo_all servo ns_report]. rewrite run_bind, report_fine_run;
      cbn [nanosec seconds]; rewrite ?Hi1; unfold in_i32; [|done|done|nia|nia].
    rewrite bind_Ok_l. eexists. split; [done|]. split; [done|].
    cbn [integrated_ns fine_reported with_integrated_ns]. nia. }
  intros Hn. destruct (Hrun n Hn) as (s1 & E & Hp1 & Hi1). exists s1. split_and!; [done..|].
  intros Hov. rewrite replicate_S_end, servo_all_app, run_bind, E, bind_Ok_l.
  cbn [servo_all servo ns_report]. rewrite run_bind, report_overflow; [done..|].
  rewrite Hi1. cbn [nanosec]. intros Hin. apply Hov. unfold in_i32 in *. nia.
Qed.

(** C3. No way back.  In fine synchronisation, whatever reports arrive and
    however often [handle_ptp] runs, the state stays fine: the timeouts are
    never called.  And reports of whole seconds are then without effect: the
    timer and the correction register are not written, only the log is. *)
Theorem fine_is_final l s :
  in_fine s →
  (∀ s', servo_all l s = Ok (tt, s') → status (p_client s') = TS_FINE) ∧
  (∀ rs, l = Report <$> rs → Forall (λ r, seconds r.2 ≠ 0) rs →
    ∃ s' log, servo_all l s = Ok (tt, s') ∧ length log = length rs ∧
      timer s' = with_dev (foldl (λ d args, xil_printf report_fmt args d) (dev (timer s)) log) (timer s)).
Proof.
  intros Hf. split; [intros s' Hr; by eapply in_fine_all|].
  intros rs ->. revert s Hf. induction rs as [|[sy d] rs IH]; intros s Hf Hrs; cbn [fmap list_fmap servo_all servo].
  - exists s, []. split_and!; [done..|]. by destruct (timer s).
  - apply Forall_cons_iff in Hrs as [Hd Hrs]. cbn [snd] in Hd.
    rewrite run_bind, report_coarse_run by (try apply Hf; try done; destruct Hf as [_ ->]; done).
    rewrite bind_Ok_l. set (s1 := coarse_reported sy d s).
    assert (servo (Report (sy, d)) s = Ok (tt, s1)) as E1
      by (apply report_coarse_run; [apply Hf|done|destruct Hf as [_ ->]; done]).
    pose proof (in_fine_step _ _ _ Hf E1) as Hf1.
    destruct (IH s1 Hf1 Hrs) as (s' & log & E & Hlen & Ht).
    exists s', ([0; seconds d; nanosec d] :: log). split; [done|]. split; [cbn; lia|].
    rewrite Ht. unfold timer, s1. rewrite coarse_reported_fine by apply Hf. done.
Qed.
End ServoTheorems.

(** ** Initialisation *)

Section Initialisation.
Context {N D : Type} `{Xil D} `{LwipLaws N}.
Implicit Types (s : ptp (timesync D) N) (h : world (ptp (timesync D) N)).

(** The transports and the timer leave the variables of [timesync.c] alone. *)
Definition same_sync (t t' : timesync D) : Prop := t' = with_tsu (tsu_of t') t.

#[local] Instance same_sync_preorder : PreOrder same_sync.
Proof.
  split; [by intros []|]. intros t1 t2 t3 E1 E2. unfold same_sync in *. rewrite E2, E1. by destruct t1.
Qed.

Definition same_sync_ptp s s' : Prop := same_sync (p_client s) (p_client s').
#[local] Instance same_sync_ptp_preorder : PreOrder same_sync_ptp.
Proof. split; [intros s; apply same_sync_preorder|]. intros s1 s2 s3 Ha Hb. unfold same_sync_ptp in *. by etrans. Qed.

Lemma on_tsu_same {A} (m : M (tsu D) A) : keeps same_sync_ptp (on_tsu (N := N) m).
Proof.
  unfold on_tsu. apply (keeps_zoom _ same_sync).
  - intros s t Ht. exact Ht.
  - apply (keeps_zoom _ (λ _ _, True)); [|done]. intros t u _. by destruct t.
Qed.
Lemma on_net_same {A} (m : M N A) : keeps same_sync_ptp (on_net (T := timesync D) m).
Proof.
  apply (keeps_zoom _ (λ _ _, True)); [|done]. intros s n _. unfold same_sync_ptp. cbn.
  apply same_sync_preorder.
Qed.
Lemma modify_same f : (∀ s, p_client (f s) = p_client s) → keeps same_sync_ptp (modify f).
Proof. intros Hf. apply keeps_modify. intros s. unfold same_sync_ptp. rewrite Hf. apply same_sync_preorder. Qed.
#[local] Hint Resolve on_tsu_same on_net_same : keeps.
#[local] Hint Extern 1 (keeps same_sync_ptp (modify _)) => apply modify_same; done : keeps.

Lemma listen_same port : keeps same_sync_ptp (listen port).
Proof. unfold listen, print. keeps_tac. Qed.
#[local] Hint Resolve listen_same : keeps.
Lemma bind_same : keeps same_sync_ptp bind_udp_receiver.
Proof. unfold bind_udp_receiver. keeps_tac. Qed.
Lemma start_sync_same : keeps same_sync_ptp ptp_start_sync.
Proof. unfold ptp_start_sync, print. keeps_tac. Qed.

Lemma bind_run s : udp_bound s = false →
  ∃ t n, bind_udp_receiver s = Ok (tt, with_net n (with_client t (with_bound true s))) ∧
    same_sync (p_client s) t.
Proof.
  intros Hb. destruct (listen_run PTP_EVENT_MSG_PORT (with_bound true s)) as (t1 & n1 & E1 & _).
  destruct (listen_run PTP_GEN_MSG_PORT (with_net n1 (with_client t1 (with_bound true s))))
    as (t2 & n2 & E2 & _).
  assert (bind_udp_receiver s = Ok (tt, with_net n2 (with_client t2 (with_bound true s)))) as E.
  { unfold bind_udp_receiver. rewrite run_bind, run_gets, bind_Ok_l, Hb.
    rewrite run_bind, run_modify, bind_Ok_l, run_bind, E1, bind_Ok_l, E2. reflexivity. }
  exists t2, n2. split; [exact E|]. exact (bind_same _ _ _ E).
Qed.

Lemma start_sync_run s : ∃ t n, ptp_start_sync s = Ok (tt, with_net n (with_client t s)) ∧
  same_sync (p_client s) t.
Proof.
  assert (∃ t n, ptp_start_sync s = Ok (tt, with_net n (with_client t s))) as (t & n & E).
  { unfold ptp_start_sync, on_net, print, on_tsu. mexec. by eexists _, _. }
  exists t, n. split; [exact E|]. exact (start_sync_same _ _ _ E).
Qed.

Lemma init_ptp_run freq ns sub p h : tsu_increments freq = Ok (ns, sub) →
  delay_req_buf (delay_req_msg (own h)) → udp_bound (env h) = false →
  ∃ h', ptp_init freq p h = Ok (tt, h') ∧ ptp_registered h' ∧ init_params (env h') = Some p ∧
    group (env h') = IP4_ADDR 224 0 1 129 ∧ udp_bound (env h') = true ∧
    same_sync (p_client (env h)) (p_client (env h')).
Proof.
  intros Hinc Hbuf Hb. unfold ptp_init, init_ptp_task.
  set (s0 := with_params (Some p) (env h)).
  assert (∃ t, on_tsu (init_tsu freq) s0 = Ok (tt, with_client t s0) ∧ same_sync (p_client s0) t)
    as (t0 & E0 & Hs0).
  { unfold on_tsu, zoom. rewrite (init_tsu_run freq ns sub) by done. eexists. split; [reflexivity|].
    unfold same_sync. done. }
  set (s1 := with_client t0 s0) in *.
  destruct (bind_run s1 Hb) as (t1 & n1 & E1 & Hs1).
  destruct (start_sync_run (with_group (IP4_ADDR 224 0 1 129) (with_net n1 (with_client t1 (with_bound true s1)))))
    as (t2 & n2 & E2 & Hs2).
  set (o' := with_send_cb (Some ptp_send_delay_request)
    (with_report_cb (Some ptp_process_time_diff) (with_gettime_cb (Some get_systime) (own h)))).
  eexists (World o' _). split.
  { unfold on_ptp, ptp_sync_register_gettime_cb, ptp_sync_register_report_diff_cb,
      ptp_sync_register_delay_req_cb, assign. mexec. fold s0. rewrite E0. cbn. rewrite E1. cbn.
    rewrite E2. reflexivity. }
  split; [by split|]. cbn. split; [done|]. split; [done|]. split; [done|].
  change (same_sync (p_client (env h)) t0) in Hs0.
  etrans; [exact Hs0|]. etrans; [exact Hs1|exact Hs2].
Qed.

Lemma init_gptp_same `{!Link N} freq : keeps (λ h h', same_sync (p_client (env h)) (p_client (env h')))
  (init_gptp_task (T := timesync D) (N := N) freq).
Proof.
  assert (PreOrder (λ h h' : world (ptp (timesync D) N),
    same_sync (p_client (env h)) (p_client (env h')))) as HQ.
  { split; [intros h; apply same_sync_preorder|]. intros h1 h2 h3 Ha Hb. by etrans. }
  assert (∀ A (m : M (ptp (timesync D) N) A), keeps same_sync_ptp m →
    keeps (λ h h', same_sync (p_client (env h)) (p_client (env h'))) (on_ptp m)) as Hon.
  { intros A m Hm. by apply (keeps_zoom _ same_sync_ptp). }
  assert (∀ f, keeps (λ h h', same_sync (p_client (env h)) (p_client (env h')))
    (assign (W := ptp (timesync D) N) f)) as Has.
  { intros f. apply keeps_modify. intros h. cbn. apply same_sync_preorder. }
  unfold init_gptp_task, ptp_sync_register_gettime_cb, ptp_sync_register_report_diff_cb,
    ptp_sync_register_delay_req_cb.
  repeat first [apply Has | apply Hon; first [apply on_tsu_same | apply start_sync_same | apply modify_same; done]
    | apply keeps_bind; [exact HQ| |intros _]].
Qed.
End Initialisation.

Section InitTheorem.
Context {N D G : Type} `{Xil D} `{Board} `{GemOptions} `{LwipLaws N} `{EmacPsLaws G}.
Implicit Types s : program N D G.

Definition sync_state s : timesync D := p_client (env s).

(** The controller and the variables of the driver are left alone. *)
Definition same_gem (s s' : ptp (timesync D) (nic N G)) : Prop :=
  nic_gem (p_net s') = nic_gem (p_net s) ∧ nic_vars (p_net s') = nic_vars (p_net s).

#[local] Instance same_gem_preorder : PreOrder same_gem.
Proof. split; [done|]. intros s1 s2 s3 [] []. split; congruence. Qed.

Lemma on_tsu_same_gem {A} (m : M (tsu D) A) : keeps same_gem (on_tsu (T := timesync D) (N := nic N G) m).
Proof. apply (keeps_zoom _ (λ _ _, True)); done. Qed.
Lemma on_net_same_gem {A} (f : nic N G → A * nic N G) :
  (∀ d, nic_gem (f d).2 = nic_gem d ∧ nic_vars (f d).2 = nic_vars d) →
  keeps same_gem (on_net (T := timesync D) (call f)).
Proof. intros Hf s a s' [= _ <-]. apply Hf. Qed.
Lemma on_net_modify_gem (f : nic N G → nic N G) :
  (∀ d, nic_gem (f d) = nic_gem d ∧ nic_vars (f d) = nic_vars d) →
  keeps same_gem (on_net (T := timesync D) (modify f)).
Proof. intros Hf s a s' [= _ <-]. apply Hf. Qed.
#[local] Hint Resolve on_tsu_same_gem : keeps.
#[local] Hint Extern 1 (keeps same_gem (on_net (call _))) => apply on_net_same_gem; by split : keeps.
#[local] Hint Extern 1 (keeps same_gem (on_net (modify _))) => apply on_net_modify_gem; by split : keeps.

Lemma bind_same_gem : keeps same_gem (bind_udp_receiver (T := timesync D) (N := nic N G)).
Proof. unfold bind_udp_receiver, listen, print. keeps_tac. Qed.
Lemma start_sync_same_gem : keeps same_gem (ptp_start_sync (T := timesync D) (N := nic N G)).
Proof. unfold ptp_start_sync, print. keeps_tac. Qed.

(** What the parts of [ptp_init] keep, the whole keeps. *)
Lemma ptp_init_keeps (Q : relation (ptp (timesync D) (nic N G))) `{!PreOrder Q} freq p :
  (∀ A (m : M (tsu D) A), keeps Q (on_tsu m)) → keeps Q bind_udp_receiver → keeps Q ptp_start_sync →
  (∀ f, (∀ s : ptp (timesync D) (nic N G), p_net (f s) = p_net s) → keeps Q (modify f)) →
  keeps (λ h h', Q (env h) (env h')) (ptp_init freq p).
Proof.
  intros Htsu Hbind Hstart Hmod.
  assert (PreOrder (λ h h' : program N D G, Q (env h) (env h'))) as HQ.
  { split; [intros h; reflexivity|]. intros h1 h2 h3 Ha Hb. by etrans. }
  assert (∀ A (m : M (ptp (timesync D) (nic N G)) A), keeps Q m →
    keeps (λ h h', Q (env h) (env h')) (on_ptp m)) as Hon.
  { intros A m Hm. by apply (keeps_zoom _ Q). }
  assert (∀ f, keeps (λ h h', Q (env h) (env h')) (assign (W := ptp (timesync D) (nic N G)) f)) as Has
    by (intros f; by apply keeps_modify).
  unfold ptp_init, init_ptp_task, ptp_sync_register_gettime_cb, ptp_sync_register_report_diff_cb,
    ptp_sync_register_delay_req_cb.
  repeat first [apply Has | apply Hon; first [apply Htsu | exact Hbind | exact Hstart | by apply Hmod]
    | apply keeps_bind; [exact HQ| |intros _] | apply keeps_ret; exact HQ].
Qed.

Lemma ptp_init_same_gem freq p : keeps (λ h h', same_gem (env h) (env h'))
  (ptp_init (T := timesync D) (N := nic N G) freq p).
Proof.
  apply ptp_init_keeps; [apply _|intros; apply on_tsu_same_gem|apply bind_same_gem|apply start_sync_same_gem|].
  intros f Hf. apply keeps_modify. intros t. unfold same_gem. by rewrite Hf.
Qed.

(** What the program holds stays as it is. *)
Lemma driver_stable ti ri {A} (m : M (nic N G) A) : (∀ B q, stable (holds ti ri B q) m) →
  keeps (driver_kept ti ri) (on_net (T := timesync D) m).
Proof. intros Hm s a s' (d & E & ->)%zoom_Ok B q Hs. by eapply Hm. Qed.

Lemma on_tsu_kept ti ri {A} (m : M (tsu D) A) :
  keeps (driver_kept ti ri) (on_tsu (T := timesync D) (N := nic N G) m).
Proof. intros s a s' (t & _ & ->)%zoom_Ok B q Hs. exact Hs. Qed.

Lemma request_kept ti ri (f : N → N) : (∀ n, refs (view_of_stack (f n)) = refs (view_of_stack n)) →
  keeps (driver_kept ti ri) (on_net (T := timesync D) (modify (over stack_l f))).
Proof. intros Hf. apply driver_stable. intros B q. by apply over_stable. Qed.

Lemma listen_kept ti ri port : keeps (driver_kept ti ri) (listen (T := timesync D) (N := nic N G) port).
Proof.
  unfold listen, print. apply keeps_bind; [apply _|apply driver_stable; intros; apply udp_new_stable|].
  intros pcb. apply keeps_when; [apply _|].
  apply keeps_bind; [apply _|apply (request_kept ti ri (udp_bind pcb port)); intros n; by rewrite bind_view|intros _].
  apply keeps_bind; [apply _|apply (request_kept ti ri (udp_recv pcb)); intros n; by rewrite recv_view|intros _].
  apply on_tsu_kept.
Qed.

Lemma start_sync_kept ti ri : keeps (driver_kept ti ri) (ptp_start_sync (T := timesync D) (N := nic N G)).
Proof.
  unfold ptp_start_sync, print. apply keeps_bind; [apply _|apply keeps_gets, _|intros g].
  apply keeps_bind; [apply _|apply (request_kept ti ri (igmp_joingroup_netif g)); intros n; by rewrite join_view|intros _].
  apply keeps_bind; [apply _|apply on_tsu_kept|intros _]. apply on_tsu_kept.
Qed.

Lemma env_modify_kept ti ri (f : ptp (timesync D) (nic N G) → ptp (timesync D) (nic N G)) :
  (∀ t, p_net (f t) = p_net t) → keeps (driver_kept ti ri) (modify f).
Proof. intros Hf. apply keeps_modify. intros t B q. by rewrite Hf. Qed.

Lemma bind_kept ti ri : keeps (driver_kept ti ri) (bind_udp_receiver (T := timesync D) (N := nic N G)).
Proof.
  unfold bind_udp_receiver. apply keeps_bind; [apply _|apply keeps_gets, _|intros []]; [apply keeps_ret, _|].
  apply keeps_bind; [apply _|by apply env_modify_kept|intros _].
  apply keeps_bind; [apply _|apply listen_kept|intros _; apply listen_kept].
Qed.

Lemma ptp_init_kept ti ri freq p : keeps (λ h h', driver_kept ti ri (env h) (env h'))
  (ptp_init (T := timesync D) (N := nic N G) freq p).
Proof.
  apply ptp_init_keeps; [apply _|intros; apply on_tsu_kept|apply bind_kept|apply start_sync_kept|].
  apply env_modify_kept.
Qed.

Lemma kept_conserved ti ri s s' : driver_kept ti ri (env s) (env s') → nic_inv ti ri (net_of s) →
  conserved ti ri (net_of s) (net_of s').
Proof. intros Hk Hi. destruct (Hk _ _ (holds_now ti ri _ Hi)) as [Hi' Ha _]. by split. Qed.

Lemma gptp_started_conserved ti ri q n g (d : nic N G) c : nic_inv ti ri d → at_rest d →
  gem_view g = multicast_enabled q (gem_view (nic_gem d)) →
  view_of_stack n = request_made c (net_view d) → conserved ti ri d (Nic n g (nic_vars d)).
Proof.
  intros Hi Hrest Hg Hn.
  assert (conserved ti ri d (Nic (nic_net d) g (nic_vars d))) as Hc.
  { pose proof (rings_reset_conserved ti ri (v_mask (nic_vars d)) g d Hi Hrest) as Hc.
    replace (with_v_mask (v_mask (nic_vars d)) (nic_vars d)) with (nic_vars d) in Hc
      by by destruct (nic_vars d). apply Hc; by rewrite Hg. }
  eapply conserved_trans; [exact Hc|].
  destruct (holds_same ti ri _ _ n _ (holds_now ti ri _ (proj1 Hc))) as [Hi' Ha _]; [by rewrite Hn|].
  by split.
Qed.

(** Power-up, as far as the initialisation relies on it. *)
Record fresh s : Prop := {
  fresh_init : isInitialized (sync_state s) = false;
  fresh_bound : udp_bound (env s) = false;
  fresh_buf : delay_req_buf (delay_req_msg (own s));
  fresh_rest : at_rest (net_of s)
}.

(** Which transport's callbacks are installed. *)
Definition transport_installed (type : clock_type) s0 s : Prop :=
  match type with
  | CLOCK_TYPE_PTP => ptp_registered s ∧ init_params (env s) = Some init_param ∧
      udp_bound (env s) = true ∧ same_gem (env s0) (env s)
  | CLOCK_TYPE_GPTP => gptp_registered s ∧ init_params (env s) = Some init_param ∧
      ∃ q, gem_view (nic_gem (net_of s)) = multicast_enabled q (gem_view (nic_gem (net_of s0)))
  | _ => own s = own s0 ∧ init_params (env s) = init_params (env s0) ∧
      same_gem (env s0) (env s)
  end.

Definition with_sync (t : timesync D) s : program N D G :=
  World (own s) (with_client t (env s)).

Lemma on_timesync_gets {A B} (f : timesync D → A) (k : A → M (program N D G) B) s :
  (on_timesync (gets f) ≫= k) s = k (f (sync_state s)) s.
Proof. rewrite run_bind. unfold on_timesync, on_ptp. mexec. by destruct s as [? []]. Qed.

Lemma on_timesync_modify {B} f (k : unit → M (program N D G) B) s :
  (on_timesync (modify f) ≫= k) s = k tt (with_sync (f (sync_state s)) s).
Proof. by rewrite run_bind. Qed.

Lemma start_run mhz s : 1 ≤ mhz ≤ 1000 → udp_bound (env s) = false →
  delay_req_buf (delay_req_msg (own s)) → at_rest (net_of s) →
  ∃ s', start_timesync (mhz * 1000000) s = Ok (tt, s') ∧
    transport_installed (clock_source (sync_state s)) s s' ∧
    isInitialized (sync_state s') = isInitialized (sync_state s) ∧
    clock_source (sync_state s') = clock_source (sync_state s) ∧
    status (sync_state s') = status (sync_state s) ∧ cleanup_registered (sync_state s') = true ∧
    ∀ ti ri, nic_inv ti ri (net_of s) → conserved ti ri (net_of s) (net_of s').
Proof.
  intros Hmhz Hb Hbuf Hrest. destruct (tsu_increments_run mhz Hmhz) as (ns & sub & Hinc & _).
  unfold start_timesync. rewrite on_timesync_gets.
  assert (∀ s1, same_sync (sync_state s) (sync_state s1) →
    isInitialized (sync_state s1) = isInitialized (sync_state s) ∧
    clock_source (sync_state s1) = clock_source (sync_state s) ∧
    status (sync_state s1) = status (sync_state s)) as Hsame.
  { intros s1 Hs1. unfold same_sync in Hs1. by rewrite Hs1. }
  destruct (clock_source (sync_state s)) eqn:Esrc.
  - rewrite run_bind, run_ret, bind_Ok_l. eexists. split; [reflexivity|]. by destruct s as [? []].
  - rewrite run_bind, run_ret, bind_Ok_l. eexists. split; [reflexivity|]. by destruct s as [? []].
  - destruct (init_ptp_run (mhz * 1000000) ns sub init_param s Hinc Hbuf Hb)
      as (h' & E & Hreg & Hp & Hg & Hub & Hss).
    pose proof (ptp_init_same_gem _ _ _ _ _ E) as Hgem.
    rewrite run_bind, E, bind_Ok_l. eexists. split; [reflexivity|].
    destruct (Hsame h' Hss) as (Hi & Hc & Hst).
    split; [split; [by destruct Hreg|done]|].
    split; [exact Hi|]. split; [exact Hc|]. split; [exact Hst|]. split; [done|].
    intros ti ri. apply kept_conserved. exact (ptp_init_kept ti ri _ _ _ _ _ E).
  - destruct (gptp_init_run mhz ns sub init_param s Hinc Hrest Hbuf)
      as (g & q & n & h' & E & E' & Hg & Hd & Hv & Hreg & Hp & _).
    pose proof (init_gptp_same _ _ _ _ E') as Hss.
    rewrite run_bind, E, bind_Ok_l. eexists. split; [reflexivity|].
    destruct (Hsame h' Hss) as (Hi & Hc & Hst).
    split; [split; [by destruct Hreg|split; [exact Hp|exists q]]|].
    { unfold net_of. cbn. by rewrite Hd. }
    split; [exact Hi|]. split; [exact Hc|]. split; [exact Hst|]. split; [done|].
    intros ti ri Hinv. change (conserved ti ri (net_of s) (p_net (env h'))). rewrite Hd.
    by eapply gptp_started_conserved.
Qed.

Lemma init_run mhz type s : 1 ≤ mhz ≤ 1000 → fresh s →
  ∃ s', timesync_init (mhz * 1000000) type s = Ok (tt, s') ∧
    transport_installed type s s' ∧
    isInitialized (sync_state s') = true ∧ clock_source (sync_state s') = type ∧
    status (sync_state s') = status (sync_state s) ∧
    ∀ ti ri, nic_inv ti ri (net_of s) → conserved ti ri (net_of s) (net_of s').
Proof.
  intros Hmhz [Hi Hb Hbuf Hrest]. unfold timesync_init at 1.
  rewrite on_timesync_gets, Hi, run_bind. cbn [c_assert negb]. rewrite run_ret, bind_Ok_l.
  rewrite on_timesync_modify. set (s1 := with_sync _ s).
  destruct (start_run mhz s1) as (s2 & E & Htr & Hi2 & Hc2 & Hst2 & _ & Hcons); [done|done|done| |].
  { destruct Hrest. by split. }
  rewrite run_bind, E, bind_Ok_l.
  change (clock_source (sync_state s1)) with type in *.
  exists (with_sync (with_initialized true (sync_state s2)) s2). split; [done|].
  split.
  { destruct type; cbn in Htr |- *; [exact Htr|exact Htr| |].
    - destruct Htr as ([] & ? & ? & ?). split; [by split|done].
    - destruct Htr as ([] & ? & ?). split; [by split|done]. }
  split; [done|]. split; [exact Hc2|]. split; [exact Hst2|]. exact Hcons.
Qed.

(** C8. Initialisation.  From power-up with the interface at rest, for every
    timer clock of 1 to 1000 MHz and every type of clock: [timesync_init]
    returns, exactly the transport of the type is installed, with the
    callbacks of [timesync.c], and the synchronisation state is untouched.
    Any later call fails its assertion, whatever type it asks for. *)
Theorem timesync_init_once mhz type s : 1 ≤ mhz ≤ 1000 → fresh s →
  ∃ s', timesync_init (mhz * 1000000) type s = Ok (tt, s') ∧
    transport_installed type s s' ∧
    isInitialized (sync_state s') = true ∧ clock_source (sync_state s') = type ∧
    status (sync_state s') = status (sync_state s) ∧
    ∀ freq type', timesync_init freq type' s' = Fault (AssertFailed "!isInitialized").
Proof.
  intros Hmhz Hf. destruct (init_run mhz type s Hmhz Hf) as (s' & E & Htr & Hi & Hc & Hst & _).
  exists s'. split_and!; [done..|]. intros freq type'. unfold timesync_init.
  by rewrite on_timesync_gets, Hi.
Qed.
End InitTheorem.

(** ** Concrete runs *)

(** The program with the interface initialised, and a servo in fine
    synchronisation. *)
Definition program_boot : program net sim gemsim :=
  World (ptp_sync_boot _) (ptp_boot (timesync_boot (Sim 0 [])) nic_ready).

Definition servo_fine (integral : Z) : ptp (timesync sim) net :=
  with_integrated_ns integral (with_params (Some init_param)
    (ptp_boot (sync_at 5000000000 TS_FINE true) (net_with [] 2 2))).

Lemma program_boot_fresh : fresh program_boot.
Proof. split; [done|done|apply delay_req_init_buf|split; vm_compute; reflexivity]. Qed.

Lemma timesync_init_once_witness :
  ∃ s', timesync_init (333 * 1000000) CLOCK_TYPE_GPTP program_boot = Ok (tt, s') ∧
    ∀ freq type', timesync_init freq type' s' = Fault (AssertFailed "!isInitialized").
Proof.
  destruct (timesync_init_once 333 CLOCK_TYPE_GPTP program_boot ltac:(by_computation) program_boot_fresh)
    as (s' & E & _ & _ & _ & _ & Hn).
  exists s'. split; [exact E|exact Hn].
Defined.

Lemma servo_moves_timer_witness :
  ∃ s', ptp_process_time_diff 0 ts_zero (Ts 0 (-3000) None) (servo_fine 1000) = Ok (tt, s') ∧
    moved (-3100) (servo_fine 1000) s'.
Proof.
  destruct (servo_moves_timer ts_zero (Ts 0 (-3000) None) (servo_fine 1000) eq_refl eq_refl
    ltac:(by_computation) ltac:(by_computation) ltac:(by_computation)) as (s' & E & _ & _ & _ & Hm & _).
  exists s'. split; [exact E|exact Hm].
Defined.


(** Forty reports of 50 ms, and the forty-third overflows. *)
Lemma integral_overflows_witness :
  ∃ s', servo_all (replicate 42 (ns_report 50000000)) (servo_fine 0) = Ok (tt, s') ∧
    integrated_ns s' = 2100000000 ∧
    servo_all (replicate 43 (ns_report 50000000)) (servo_fine 0) = Fault SignedOverflow.
Proof.
  destruct (integral_overflows 50000000 42 (servo_fine 0) eq_refl eq_refl
    ltac:(by_computation) ltac:(by_computation)) as (s' & E & Hi & Hov).
  exists s'. split; [exact E|]. split; [exact Hi|]. apply Hov. by_computation.
Defined.

(** A server an hour ahead, three reports. *)
Lemma fine_is_final_witness :
  let r := (Ts 3605 0 None, Ts 3600 0 None) in
  ∃ s' log, servo_all (Report <$> [r; r; r]) (servo_fine 0) = Ok (tt, s') ∧ length log = 3%nat ∧
    timer s' = with_dev (foldl (λ d args, xil_printf report_fmt args d) (dev (timer (servo_fine 0))) log)
      (timer (servo_fine 0)).
Proof.
  intros r. refine (proj2 (fine_is_final (Report <$> [r; r; r]) (servo_fine 0) _) [r; r; r] eq_refl _).
  - split; reflexivity.
  - repeat (apply Forall_cons_2; [discriminate|]). apply Forall_nil_2.
Defined.

(** *** A whole run

    Initialisation for gPTP, and frames from the receive descriptors to the
    transmit descriptors: two exchanges with a server that is ahead by many
    years. *)

(** A frame arrives: the hardware fills a descriptor, and the interrupt puts its
    buffer into the queue. *)
Definition hw_fills (g : gemsim) : gemsim :=
  GemSim (s_tx g) (s_rx g) (s_queue g) (s_bds g) (s_macs g) (s_regs g) (s_done_tx g) 1 (s_len g) (s_room g).

Definition arrive (bytes : list Z) : M (program net sim gemsim) Z :=
  on_driver (
    modify (λ d, Nic (nic_net d) (hw_fills (nic_gem d)) (nic_vars d)) ;;
    emacps_recv_handler 2 ;;
    modify (λ d, pbuf_put (hd NULL (rx_queue d)) (frame_buf (gptp_eth_header ++ bytes)) d)) ;;
  receive false.

Definition exchange (sec : Z) : M (program net sim gemsim) unit :=
  arrive (m_bytes sync_message) ;;
  arrive (m_bytes (follow_up_message sec 0)) ;;
  arrive (m_bytes (delay_resp_message sec 1000)) ;;
  mret tt.

(** The state of the synchronisation, the seconds of the timer, the types of the
    messages in the queue of transmission, and how many buffers there are
    besides those of the driver. *)
Definition queued_types (d : nic net gemsim) : list (option Z) :=
  (λ p, b ← pbuf_get p (nic_net d); p_payload b !! 14%nat) <$> queued_tx 0 d.

Definition summary (s : program net sim gemsim) :=
  let d := net_of s in
  (status (sync_state s), sim_clock (dev (tsu_of (sync_state s))) / TSU_NS_IN_SEC,
   queued_types d, (size (n_bufs (nic_net d)) - length (queued_tx 0 d) - length (owned 0 d))%nat).

(** The first exchange sets the timer, the second finds it within the second:
    coarse, then fine.  A delay request waits for the hardware each time; the
    first one has been sent and freed when the second one goes out.  The
    only other buffers are the two of the program. *)
Example two_exchanges :
  match (timesync_init (333 * 1000000) CLOCK_TYPE_GPTP ;; exchange 1700000000) program_boot with
  | Ok (_, s1) => summary s1 = (TS_COARSE, 1700000000, [Some DelayRequest_e], 2%nat) ∧
      match exchange 1700000000 s1 with
      | Ok (_, s2) => summary s2 = (TS_FINE, 1700000000, [Some DelayRequest_e], 2%nat)
      | Fault _ => False
      end
  | Fault _ => False
  end.
Proof. vm_compute. done. Qed.
