(* ===== verification/Exchange.v ===== *)
(** * A whole exchange, from the frames to the timer

    Three frames reach the queue of the driver, one after the other: Sync,
    follow-up and delay response.  Each is received by the main loop of the
    whole program; between two receptions anything may happen that leaves the
    variables of the interpreter alone: interrupts, ticks of the timer, other
    frames, housekeeping. *)

From S2P Require Export System.
From stdpp Require Import list gmap.

#[local] Open Scope Z_scope.

(** The synchronised time is a timestamp again: the rounding never leaves the
    second. *)
Lemma synced_time_sane t1 t2 t3 t4 sys sy d : ts_sane t3 → ts_sane t4 →
  delay_resp_calc t1 t2 t3 t4 sys = Ok (sy, d) → ts_sane sy.
Proof.
  unfold delay_resp_calc, ts_sane, NS_SEC_PERIOD. intros H3 H4 H. minv.
  repeat match goal with
  | H : ptp_time_sub _ _ = Ok _ |- _ => apply ptp_time_sub_fields in H as (_ & ? & ?)
  | H : ptp_time_add _ _ = Ok _ |- _ => apply ptp_time_add_fields in H as (_ & ? & ?)
  | H : ptp_time_except_2 _ = Ok _ |- _ => apply except_2_fields in H as (? & ?)
  end. lia.
Qed.

Section Exchange.
Context {N D G : Type} `{TsuHwLaws D} `{EthConfig} `{Board} `{GemOptions} `{LwipLaws N}
  `{EmacPsLaws G}.
Implicit Types h : program N D G.

(** ** Reading the time *)

Definition clock h : Z := tsu_clock (dev (timer (env h))).

(** A reading of a timer with the clock [c]. *)
Definition read_at (c : Z) (t : ptp_timestamp_t) (u : tsu D) : Prop :=
  c ≤ PtpTime.total t ≤ tsu_clock (dev u) ∧ tsu_clock (dev u) ≤ c + 3 * access_ns.

Lemma systime_read (s : ptp (timesync D) (nic N G)) : ∃ t u,
  get_systime s = Ok (t, with_client (with_tsu u (p_client s)) s) ∧ ts_sane t ∧
  fine_tune_register u = fine_tune_register (timer s) ∧
  (in_era (dev (timer s)) → read_at (tsu_clock (dev (timer s))) t u).
Proof.
  unfold get_systime, on_tsu. mexec. do 2 eexists. split; [reflexivity|].
  unfold read_at, PtpTime.total, timer. cbn -[tsu_clock access_ns].
  set (d := dev (tsu_of (p_client s))).
  pose proof (in32_range TSU_TIMER_SEC_GEM0 d) as R1.
  destruct (in32_ns (Xil_In32 TSU_TIMER_SEC_GEM0 d).2) as (c & _ & E2).
  pose proof (in32_range TSU_TIMER_SEC_GEM0
    (Xil_In32 TSU_TIMER_NS_GEM0 (Xil_In32 TSU_TIMER_SEC_GEM0 d).2).2) as R3.
  pose proof (three_reads d) as H3r. cbn zeta in H3r. rewrite E2 in *.
  unfold in_u32, TSU_NS_IN_SEC in *.
  split; [|split; [reflexivity|intros Hera; specialize (H3r Hera)]].
  - unfold ts_sane, NS_SEC_PERIOD. cbn. case_match; int_lia.
  - unfold NS_SEC_PERIOD in *. case_match; int_lia.
Qed.

(** ** The three receptions *)

(** The frame [f] is the oldest one in the queue. *)
Definition waits (ti ri : nat) (f : pbuf) h : Prop := ∃ p q, message_waits ti ri p q f h.

(** The timestamp that a message carries after its header. *)
Definition stamp_of (f : pbuf) : ptp_timestamp_t := wire_ts (m_bytes (ptp_of_frame f)) None.

(** A message has been received: no buffer was lost or gained. *)
Definition received (ti ri : nat) (h h' : program N D G) : Prop :=
  gptp_registered h' ∧ conserved ti ri (net_of h) (net_of h') ∧
  rx_queue (net_of h') = tail (rx_queue (net_of h)).

Lemma waits_received ipv6 ti ri f h r h' : (1 ≤ max_chain)%nat → waits ti ri f h →
  receive ipv6 h = Ok (r, h') → gptp_registered h' → received ti ri h h'.
Proof.
  intros Hm (p & q & Hw) E Hreg. split; [done|].
  destruct (receive_conserves ipv6 ti ri h r h') as (_ & ?); [left|..]; by destruct Hw.
Qed.

Lemma receive_sync ipv6 ti ri f h : (1 ≤ max_chain)%nat → waits ti ri f h →
  messageType (m_bytes (ptp_of_frame f)) = Ok SyncMsg_e →
  ∃ t h', receive ipv6 h = Ok (1, h') ∧ received ti ri h h' ∧ ts_sane t ∧
    own h' = with_t2 t (with_pSync (m_addr (ptp_of_frame f)) (own h)).
Proof.
  intros Hm Hf Hty. pose proof Hf as (p & q & Hw).
  destruct (receive_message ipv6 ti ri p q f h Hw) as (d & _ & _ & _ & _ & Hrec).
  pose proof (waits_transport _ _ _ _ _ _ Hw) as Hreg.
  destruct (systime_read (env (at_net h d))) as (t & u & Et & Ht & _).
  assert (∃ h', ptp_sync_interpreter (ptp_of_frame f) (at_net h d) = Ok (PTP_MSG_OK, h') ∧
    own h' = with_t2 t (with_pSync (m_addr (ptp_of_frame f)) (own h))) as (h' & E & Hown).
  { rewrite interpreter_sync by done. erewrite handle_sync_run by apply Hreg.
    rewrite Et, !bind_Ok_l. eexists. split; [reflexivity|done]. }
  exists t. eexists. split; [by apply Hrec|]. split; [|split; [done|exact Hown]].
  eapply waits_received; [done..|by apply Hrec|].
  eapply registered_kept; [|exact Hreg]. exact (interpreter_kept _ _ _ _ E).
Qed.

(** What the follow-up adds to the variables: sane timestamps stay sane. *)
Lemma receive_follow_up ipv6 ti ri f b0 b1 h : (1 ≤ max_chain)%nat → waits ti ri f h →
  timed_message (ptp_of_frame f) FollowUpMsg_e b0 b1 → ts_sane (stamp_of f) →
  ∃ h' n, receive ipv6 h = Ok (1, h') ∧ received ti ri h h' ∧
    ts_sane (t1 (own h')) ∧ t2 (own h') = t2 (own h) ∧ ts_sane (t3 (own h')) ∧
    touched (hd NULL (rx_queue (net_of h))) (nic_net (net_of h)) n ∧
    ((frame_pbuf 44 n).1 ≠ NULL → r_free (tx_ring (net_of h)) ≠ [] →
      frame_queued ti (gptp_eth_header ++ delay_req_bytes b0 b1 (t3 (own h'))) (net_of h) (net_of h')).
Proof.
  intros Hm Hf Hmsg H1s. pose proof Hf as (p & q & Hw).
  destruct (follow_up_received ipv6 ti ri p q f b0 b1 h Hm Hw Hmsg)
    as (h' & n & t & c & E & Hk & Hc & Hq & Ht & [d Et] & E1 & E2 & E3 & _ & Hroom).
  exists h', n. split; [done|]. split.
  { eapply waits_received; [done..|]. eapply registered_kept; [exact Hk|by destruct Hw]. }
  rewrite E1, E3. split; [exact H1s|]. split; [done|]. split.
  { destruct (systime_read (env (at_net h d))) as (t' & u & Et' & Ht' & _).
    rewrite Et in Et'. by injection Et' as -> _. }
  rewrite (waits_queue _ _ _ _ _ _ Hw). split; [exact Ht|exact Hroom].
Qed.

(** The delay response runs the calculation and the report.  [u] is the timer
    after the reading, and [s] what the report works on. *)
Lemma receive_delay_resp ipv6 ti ri f b0 b1 h : (1 ≤ max_chain)%nat → waits ti ri f h →
  timed_message (ptp_of_frame f) DelayResponse_e b0 b1 → ts_sane (stamp_of f) →
  ts_sane (t1 (own h)) → ts_sane (t2 (own h)) → ts_sane (t3 (own h)) →
  ∃ tc u n sy d e, let s := with_net n (with_client (with_tsu u (p_client (env h))) (env h)) in
    ts_sane tc ∧ fine_tune_register u = fine_tune_register (timer (env h)) ∧
    (in_era (dev (timer (env h))) → read_at (clock h) tc u) ∧
    - 1 ≤ e ≤ 1 ∧ ts_sane sy ∧
    seconds sy = seconds (stamp_of f) ∧ nanosec sy = nanosec (stamp_of f) + e ∧
    seconds d = seconds (stamp_of f) - seconds tc ∧
    nanosec d = nanosec (stamp_of f) - nanosec tc + e ∧
    ∀ s', ptp_process_time_diff 0 sy d s = Ok (tt, s') →
      ∃ h' n', receive ipv6 h = Ok (1, h') ∧ received ti ri h h' ∧ env h' = with_net n' s'.
Proof.
  intros Hm Hf [Hty _ Hlen Hb] H4s H1s H2s H3s. pose proof Hf as (p & q & Hw).
  destruct (receive_message ipv6 ti ri p q f h Hw) as (d2 & _ & _ & _ & _ & Hrec).
  pose proof (waits_transport _ _ _ _ _ _ Hw) as Hreg.
  destruct (systime_read (env (at_net h d2))) as (tc & u & Et & Ht & Hreg' & Hera).
  destruct (delay_resp_calc_run (t1 (own h)) (t2 (own h)) (t3 (own h))
    (wire_ts (m_bytes (ptp_of_frame f)) (dts (t4 (own h)))) tc) as (sy & d & E); [done..|].
  pose proof (synced_time_sane _ _ _ _ _ _ _ H3s H4s E) as Hsy.
  destruct (delay_resp_calc_fields _ _ _ _ _ _ _ E) as (e & He & ? & ? & ? & ?).
  exists tc, u, d2, sy, d, e. cbn zeta. do 9 (split; [done|]). intros s' Hrep.
  assert (∃ h', ptp_sync_interpreter (ptp_of_frame f) (at_net h d2) = Ok (PTP_MSG_OK, h') ∧ env h' = s')
    as (h' & Ei & <-).
  { rewrite interpreter_delay_resp by done.
    erewrite handle_delay_resp_run by (done || apply Hreg).
    rewrite Et, bind_Ok_l. cbn zeta. cbn [own at_net]. rewrite E, bind_Ok_l.
    change (with_client _ _) with (with_net d2 (with_client (with_tsu u (p_client (env h))) (env h))).
    rewrite Hrep, !bind_Ok_l. eexists. split; [reflexivity|done]. }
  specialize (Hrec h' Ei). eexists _, _. split; [exact Hrec|]. split; [|reflexivity].
  eapply waits_received; [done..|]. eapply registered_kept; [|exact Hreg].
  exact (interpreter_kept _ _ _ _ Ei).
Qed.

(** ** What the report does to the timer *)

(** The timer showed [target] to within a nanosecond and the time of four
    accesses, and the report was printed after that. *)
Definition shows (target : Z) (s : ptp (timesync D) (nic N G)) : Prop :=
  ∃ d args, target - 1 ≤ tsu_clock d ≤ target + 1 + 4 * access_ns ∧
    dev (timer s) = xil_printf report_fmt args d.

Lemma fine_report_shows c x tc r (s : ptp (timesync D) (nic N G)) :
  let e := nanosec x - nanosec tc + r in let i := integrated_ns s + e in
  read_at c tc (timer s) → in_u32 (fine_tune_register (timer s)) → - 1 ≤ r ≤ 1 →
  seconds x = seconds tc → - 2 ^ 30 < e + i ÷ 20 < 2 ^ 30 →
  ¬ in_dead_band (e + i ÷ 20) e PTP_MAX_ERR_NS →
  shows (PtpTime.total x + i ÷ 20) (fine_reported e i s).
Proof.
  intros e i [Hlo Hhi] Hw Hr Hsec Hf Hdb.
  destruct (fine_reported_moves e i s Hw Hf) as (d & args & Hd & E).
  exists d, args. split; [|exact E]. unfold takes, servo_move in Hd. rewrite decide_False in Hd by done.
  unfold PtpTime.total in *. lia.
Qed.

Lemma coarse_report_shows x sy d r (s : ptp (timesync D) (nic N G)) :
  ts_sane sy → - 1 ≤ r ≤ 1 → seconds sy = seconds x → nanosec sy = nanosec x + r →
  status (p_client s) = TS_NEVER ∨ status (p_client s) = TS_LOST →
  0 < seconds x < 2 ^ 32 → 1 < nanosec x → nanosec x + 1 + 2 * access_ns < NS_SEC_PERIOD →
  status (p_client (coarse_reported sy d s)) = TS_COARSE ∧
  shows (PtpTime.total x) (coarse_reported sy d s).
Proof.
  intros [_ Hns] Hr Hs Hn Hst Hsec Hlo Hhi. pose proof access_ns_nonneg.
  unfold NS_SEC_PERIOD in Hns, Hhi.
  assert (to_u32 (nanosec sy) = nanosec sy) as Hu by (apply to_u32_small; int_lia).
  destruct (coarse_sets_timer (seconds sy) (nanosec sy) (p_client s)) as (t & E & Et & _ & _ & Hc).
  - done.
  - lia.
  - case_match; [lia|int_lia].
  - unfold TSU_NS_IN_SEC. case_match eqn:E0; [lia|]. apply Z.ltb_ge in E0. lia.
  - rewrite coarse_time_received_run in E by naive_solver congruence. injection E as <-.
    rewrite (proj2 (Z.ltb_lt 0 (nanosec sy))) in Hc by lia.
    unfold coarse_reported. rewrite Hu. split; [exact Et|].
    eexists _, _. split; [|reflexivity]. unfold PtpTime.total, NS_SEC_PERIOD, TSU_NS_IN_SEC in *. lia.
Qed.

(** ** The exchange *)

(** A message is received, and leaves the program in a state with [Q]. *)
Definition received_with (ipv6 : bool) (ti ri : nat) h (Q : program N D G → Prop) : Prop :=
  ∃ h', receive ipv6 h = Ok (1, h') ∧ received ti ri h h' ∧ Q h'.

(** The client of the transport when a delay response arrives. *)
Record servo_ready h : Prop := {
  ready_params : init_params (env h) = Some init_param;
  ready_register : in_u32 (fine_tune_register (timer (env h)));
  ready_era : in_era (dev (timer (env h)))
}.

(** What a delay response with the receive time [x] does when the timer is read
    as [tc]. *)
Record disciplined (ipv6 : bool) (ti ri : nat) (x tc : ptp_timestamp_t) (r : Z) h : Prop := {
  same_second : seconds x = seconds tc →
    let e := nanosec x - nanosec tc + r in let i := integrated_ns (env h) + e in
    in_i32 i → - 2 ^ 30 < e + i ÷ 20 < 2 ^ 30 →
    received_with ipv6 ti ri h (λ h', status (sync_state h') = TS_FINE ∧
      integrated_ns (env h') = i ∧ sync_diff_ns (sync_state h') = e ∧
      (¬ in_dead_band (e + i ÷ 20) e PTP_MAX_ERR_NS → shows (PtpTime.total x + i ÷ 20) (env h')));
  never_set : seconds x ≠ seconds tc →
    status (sync_state h) = TS_NEVER ∨ status (sync_state h) = TS_LOST →
    0 < seconds x < 2 ^ 32 → 1 < nanosec x → nanosec x + 1 + 2 * access_ns < NS_SEC_PERIOD →
    received_with ipv6 ti ri h (λ h', status (sync_state h') = TS_COARSE ∧
      integrated_ns (env h') = 0 ∧ shows (PtpTime.total x) (env h'));
  other_second : seconds x ≠ seconds tc → status (sync_state h) = TS_FINE →
    received_with ipv6 ti ri h (λ h', status (sync_state h') = TS_FINE ∧
      integrated_ns (env h') = 0 ∧
      ∃ u args, fine_tune_register u = fine_tune_register (timer (env h)) ∧
        read_at (clock h) tc u ∧ timer (env h') = with_dev (xil_printf report_fmt args (dev u)) u)
}.

Lemma delay_resp_disciplines ipv6 ti ri f b0 b1 h : (1 ≤ max_chain)%nat → waits ti ri f h →
  timed_message (ptp_of_frame f) DelayResponse_e b0 b1 → ts_sane (stamp_of f) → servo_ready h →
  ts_sane (t1 (own h)) → ts_sane (t2 (own h)) → ts_sane (t3 (own h)) →
  ∃ tc r, ts_sane tc ∧ clock h ≤ PtpTime.total tc ≤ clock h + 3 * access_ns ∧ - 1 ≤ r ≤ 1 ∧
    disciplined ipv6 ti ri (stamp_of f) tc r h.
Proof.
  intros Hm Hf Hmsg H4s [Hp Hw Hera] H1s H2s H3s.
  destruct (receive_delay_resp ipv6 ti ri f b0 b1 h Hm Hf Hmsg H4s H1s H2s H3s)
    as (tc & u & n & sy & d & r & Htc & Hu & Hread & Hr & Hsy & Esy & Ensy & Esd & End & Hrep).
  specialize (Hread Hera). set (s := with_net n _) in *.
  assert (init_params s = Some init_param) as Hps by exact Hp.
  exists tc, r. split; [done|]. split; [destruct Hread as [[??] ?]; lia|]. split; [done|]. split.
  - intros Hsec e i Hi Hfr. assert (seconds d = 0) as Hd by lia.
    pose proof (report_fine_run 0 sy d s Hps Hd) as E. cbn zeta in E.
    rewrite End in E. change (integrated_ns s) with (integrated_ns (env h)) in E. fold e i in E.
    destruct (Hrep _ (E Hi ltac:(lia))) as (h' & n' & E' & Hrec & Eh).
    exists h'. split; [exact E'|]. split; [exact Hrec|].
    unfold sync_state. rewrite Eh. do 3 (split; [done|]). intros Hdb.
    eapply (fine_report_shows (clock h) _ tc r s); [exact Hread| |done..].
    change (in_u32 (fine_tune_register u)). by rewrite Hu.
  - intros Hsec Hst Hx Hlo Hhi. assert (seconds d ≠ 0) as Hd by lia.
    pose proof (report_coarse_run 0 sy d s Hps Hd) as E.
    destruct (Hrep _ (E ltac:(intros Hc; change (status (sync_state h) = TS_COARSE) in Hc; naive_solver congruence)))
      as (h' & n' & E' & Hrec & Eh).
    destruct (coarse_report_shows (stamp_of f) sy d r s) as [Hs Hshows]; [done..|].
    exists h'. split; [exact E'|]. split; [exact Hrec|]. unfold sync_state. rewrite Eh.
    split; [exact Hs|]. split; [done|exact Hshows].
  - intros Hsec Hst. assert (seconds d ≠ 0) as Hd by lia.
    assert (status (p_client s) = TS_FINE) as Hst' by exact Hst.
    destruct (Hrep _ (report_coarse_run 0 sy d s Hps Hd ltac:(congruence))) as (h' & n' & E' & Hrec & Eh).
    exists h'. split; [exact E'|]. split; [exact Hrec|]. unfold sync_state. rewrite Eh.
    change (p_client (with_net n' (coarse_reported sy d s))) with (p_client (coarse_reported sy d s)).
    rewrite coarse_reported_fine by done. split; [exact Hst|]. split; [done|].
    eexists u, _. split; [done|]. split; [exact Hread|].
    unfold timer. change (p_client (with_net n' (coarse_reported sy d s))) with (p_client (coarse_reported sy d s)).
    by rewrite coarse_reported_fine.
Qed.

(** The times that the interpreter has saved. *)
Definition same_times h h' : Prop :=
  t1 (own h') = t1 (own h) ∧ t2 (own h') = t2 (own h) ∧ t3 (own h') = t3 (own h).

(** C1. An exchange disciplines the timer, from the frames in the queue of the
    driver to the registers.  Sync, follow-up and delay response are received
    one after the other, with anything in between that keeps the saved times;
    the nanoseconds that the messages carry are below a second.  Each
    reception returns, releases its frame and conserves the buffers; the
    follow-up queues the delay request if there is memory and a descriptor.
    When the delay response arrives the timer is read as [tc].  In the second of the
    receive time that the response carries, the synchronisation becomes fine, and
    outside the dead band the timer then shows that receive time plus a twentieth of
    the integral: whatever the Sync exchange measured, and however long the
    response has travelled.  In another second, a timer that was never set or has lost the
    synchronisation is set to the receive time; in fine synchronisation the
    timer is left alone. *)
Theorem exchange_disciplines_timer ipv6 ti ri f1 f2 f3 b0 b1 c0 c1 h1 :
  (1 ≤ max_chain)%nat →
  waits ti ri f1 h1 → messageType (m_bytes (ptp_of_frame f1)) = Ok SyncMsg_e →
  timed_message (ptp_of_frame f2) FollowUpMsg_e b0 b1 → ts_sane (stamp_of f2) →
  timed_message (ptp_of_frame f3) DelayResponse_e c0 c1 → ts_sane (stamp_of f3) →
  received_with ipv6 ti ri h1 (λ h1', ∀ h2, waits ti ri f2 h2 → same_times h1' h2 →
    received_with ipv6 ti ri h2 (λ h2',
      (∃ n, touched (hd NULL (rx_queue (net_of h2))) (nic_net (net_of h2)) n ∧
        ((frame_pbuf 44 n).1 ≠ NULL → r_free (tx_ring (net_of h2)) ≠ [] →
          frame_queued ti (gptp_eth_header ++ delay_req_bytes b0 b1 (t3 (own h2')))
            (net_of h2) (net_of h2'))) ∧
      ∀ h3, waits ti ri f3 h3 → same_times h2' h3 → servo_ready h3 →
        ∃ tc r, ts_sane tc ∧ clock h3 ≤ PtpTime.total tc ≤ clock h3 + 3 * access_ns ∧
          - 1 ≤ r ≤ 1 ∧ disciplined ipv6 ti ri (stamp_of f3) tc r h3)).
Proof.
  intros Hm Hf1 Hty Hmsg2 Hs2 Hmsg3 Hs3.
  destruct (receive_sync ipv6 ti ri f1 h1 Hm Hf1 Hty) as (ta & h1' & E1 & Hr1 & Hta & Eo1).
  exists h1'. split; [done|]. split; [done|]. intros h2 Hf2 (_ & E2 & _).
  destruct (receive_follow_up ipv6 ti ri f2 b0 b1 h2 Hm Hf2 Hmsg2 Hs2)
    as (h2' & n & E & Hr2 & H1s & E2' & H3s & Ht & Hroom).
  exists h2'. split; [done|]. split; [done|]. split; [by exists n|].
  intros h3 Hf3 (E31 & E32 & E33) Hready.
  apply (delay_resp_disciplines ipv6 ti ri f3 c0 c1); rewrite ?E31, ?E32, ?E33; try done.
  rewrite E2', E2, Eo1. exact Hta.
Qed.
End Exchange.

(** ** A concrete exchange

    The server received the delay request at the second 5 and 7000 ns; the
    timer shows 5 s and 10000 ns, after an integral of 1000. *)

Definition frame_of (m : message) : list Z := gptp_eth_header ++ m_bytes m.

(** A program with the interpreter's variables [o] and the frame received. *)
Definition exchange_host (o : ptp_sync (ptp (timesync sim) (nic net gemsim))) (bytes : list Z) :
    program net sim gemsim :=
  World o (with_integrated_ns 1000 (with_params (Some init_param)
    (ptp_boot (sync_at 5000010000 TS_COARSE true) (frame_nic bytes)))).

Lemma exchange_waits o m : frame_type (frame_of m) = Ok ETHTYPE_PTP →
  (14 < length (frame_of m))%nat →
  (∀ e : ptp (timesync sim) (nic net gemsim), gptp_registered (World o e)) →
  waits 0 0 (frame_buf (frame_of m)) (exchange_host o (frame_of m)).
Proof.
  intros Hty Hlen Hreg. exists 3, [4]. split; [apply Hreg|apply frame_nic_inv
    |exact (frame_host_queue (frame_of m))|exact (frame_host_buf (frame_of m))|exact Hty|exact Hlen].
Qed.

Lemma registered_env (o : ptp_sync (ptp (timesync sim) (nic net gemsim))) e :
  gptp_registered (World o e) → ∀ e', gptp_registered (World o e').
Proof. intros [] e'. by split. Qed.

Lemma exchange_disciplines_timer_witness :
  let o := registered_boot get_systime ptp_process_time_diff gptp_send_delay_request in
  ∃ h1 h2 h3, receive false (exchange_host o (frame_of sync_message)) = Ok (1, h1) ∧
    receive false (exchange_host (own h1) (frame_of (follow_up_message 4 0))) = Ok (1, h2) ∧
    receive false (exchange_host (own h2) (frame_of (delay_resp_message 5 7000))) = Ok (1, h3) ∧
    status (sync_state h3) = TS_FINE ∧
    shows (5000007000 + integrated_ns (env h3) ÷ 20) (env h3).
Proof.
  intros o.
  assert (∀ e, gptp_registered (World o e)) as Hreg by (intros e; split; [done..|apply delay_req_init_buf]).
  destruct (exchange_disciplines_timer false 0 0 (frame_buf (frame_of sync_message))
    (frame_buf (frame_of (follow_up_message 4 0))) (frame_buf (frame_of (delay_resp_message 5 7000)))
    8 2 9 2 (exchange_host o (frame_of sync_message))) as (h1 & E1 & [R1 _] & Hnext);
    [by_computation|apply exchange_waits; [reflexivity|by_computation|exact Hreg]|reflexivity
    |concrete_message|by_computation|concrete_message|by_computation|].
  destruct h1 as [o1 e1]. pose proof (registered_env o1 e1 R1) as Hreg1.
  destruct (Hnext (exchange_host o1 (frame_of (follow_up_message 4 0)))) as (h2 & E2 & [R2 _] & _ & Hlast);
    [apply exchange_waits; [reflexivity|by_computation|exact Hreg1]|split_and!; reflexivity|].
  destruct h2 as [o2 e2]. pose proof (registered_env o2 e2 R2) as Hreg2.
  destruct (Hlast (exchange_host o2 (frame_of (delay_resp_message 5 7000)))) as (tc & r & Htc & Hc & Hr & [Hfine _ _]);
    [apply exchange_waits; [reflexivity|by_computation|exact Hreg2]|split_and!; reflexivity
    |split; [reflexivity|by_computation|by_computation]|].
  change (clock _) with 5000010000 in Hc. change (access_ns (D := sim)) with 8 in Hc.
  change (integrated_ns (env (exchange_host o2 _))) with 1000 in Hfine.
  set (x := stamp_of _) in Hfine. assert (PtpTime.total x = 5000007000) as Hx by (vm_compute; reflexivity).
  assert (seconds x = 5) as Hxs by (vm_compute; reflexivity).
  assert (nanosec x = 7000) as Hxn by (vm_compute; reflexivity). clearbody x.
  unfold ts_sane, NS_SEC_PERIOD in Htc. unfold PtpTime.total, NS_SEC_PERIOD in Hc.
  rewrite Hx, Hxs, Hxn in Hfine.
  destruct Hfine as (h3 & E3 & _ & Hst & Hi & _ & Hsh); [lia|unfold in_i32; lia|lia|].
  exists (World o1 e1), (World o2 e2), h3. split_and!; [exact E1|exact E2|exact E3|exact Hst|].
  rewrite Hi. apply Hsh. unfold in_dead_band, PTP_MAX_ERR_NS. lia.
Defined.
