(* ===== verification/ServoLoop.v ===== *)
(** * The closed loop of servo and timer

    The servo of [ptp.c] fed with its own effect: every report is exactly the
    offset of the timer, with the sign that a delay response reports it, every
    correction moves the offset by what the tick writes, and in between both
    clocks run alike.  Even in this ideal loop the offset never settles; with
    responses that take a constant time the same happens around an offset of
    that time. *)

From S2P Require Export System.
From stdpp Require Import list gmap.

#[local] Open Scope Z_scope.

(** ** The loop over the code, and over numbers *)

Section Loop.
Context {N D : Type} `{TsuHwLaws D} `{Lwip N}.
Implicit Types s : ptp (timesync D) N.

(** [n] reports, from an offset of [x] nanoseconds of the timer. *)
Fixpoint closed_loop (n : nat) (x : Z) : M (ptp (timesync D) N) Z :=
  match n with
  | O => mret x
  | S n' =>
      servo (ns_report (- x)) ;;
      moved_by ← gets (λ s, adjust_amount (fine_tune_register (timer s)));
      closed_loop n' (x + moved_by)
  end.

(** The same with responses that take time: the time of each is reported in
    addition ([delay_resp_bias]). *)
Fixpoint delayed_loop (delays : list Z) (x : Z) : M (ptp (timesync D) N) Z :=
  match delays with
  | [] => mret x
  | r :: delays' =>
      servo (ns_report (- (x + r))) ;;
      moved_by ← gets (λ s, adjust_amount (fine_tune_register (timer s)));
      delayed_loop delays' (x + moved_by)
  end.

(** A latency that does not change shifts the offset that the loop works on. *)
Lemma delayed_loop_shift r n x s :
  delayed_loop (replicate n r) x s = '(y, s') ← closed_loop n (x + r) s; Ok (y - r, s').
Proof.
  revert x s. induction n as [|n IH]; intros x s.
  { cbn. by rewrite Z.add_simpl_r. }
  cbn [replicate delayed_loop closed_loop]. rewrite !run_bind.
  destruct (servo (ns_report (- (x + r))) s) as [[[] s1]|]; [|done].
  rewrite !bind_Ok_l, !run_bind, !run_gets, !bind_Ok_l, IH.
  set (w := adjust_amount _). by replace (x + w + r) with (x + r + w) by lia.
Qed.

(** The offset, the integral and the amount in the correction register. *)
Record loop_state := LoopState { l_offset : Z; l_integral : Z; l_amount : Z }.

Definition next_integral (l : loop_state) : Z := l_integral l - l_offset l.
Definition next_freq (l : loop_state) : Z := - l_offset l + next_integral l ÷ 20.
Definition next_amount (l : loop_state) : Z :=
  if decide (in_dead_band (next_freq l) (- l_offset l) PTP_MAX_ERR_NS) then l_amount l else next_freq l.
Definition loop_step (l : loop_state) : loop_state :=
  LoopState (l_offset l + next_amount l) (next_integral l) (next_amount l).

(** No overflow in the next report. *)
Definition in_range (l : loop_state) : Prop :=
  in_i32 (next_integral l) ∧ - 2 ^ 30 < next_freq l < 2 ^ 30.

Record matches (l : loop_state) s : Prop := {
  m_params : init_params s = Some init_param;
  m_register : in_u32 (fine_tune_register (timer s));
  m_integral : integrated_ns s = l_integral l;
  m_amount : adjust_amount (fine_tune_register (timer s)) = l_amount l
}.

Definition loop_of (x : Z) s : loop_state :=
  LoopState x (integrated_ns s) (adjust_amount (fine_tune_register (timer s))).

Lemma matches_loop_of x s : init_params s = Some init_param →
  in_u32 (fine_tune_register (timer s)) → matches (loop_of x s) s.
Proof. by split. Qed.

Lemma closed_loop_step l s : matches l s → in_range l →
  ∃ s', servo (ns_report (- l_offset l)) s = Ok (tt, s') ∧ matches (loop_step l) s'.
Proof.
  intros [Hp Hw Hi Ha] [Hri Hrf]. unfold next_integral, next_freq in *.
  assert (integrated_ns s + - l_offset l = l_integral l - l_offset l) as Hn by lia.
  exists (fine_reported (- l_offset l) (l_integral l - l_offset l) s). split.
  - cbn [servo ns_report]. rewrite (report_fine_run 0 ts_zero (Ts 0 (- l_offset l) None) s Hp eq_refl);
      cbn [nanosec]; rewrite Hn; [done|done|]. unfold next_integral in Hrf. lia.
  - split; [done|by apply servo_word_range|done|].
    change (fine_tune_register (timer (fine_reported (- l_offset l) (l_integral l - l_offset l) s)))
      with (servo_word (- l_offset l) (l_integral l - l_offset l) (fine_tune_register (timer s))).
    rewrite servo_word_amount by done. unfold servo_move, loop_step, next_amount, next_freq, next_integral.
    cbn. by rewrite Ha.
Qed.

(** The code does what the numbers do, as long as nothing overflows. *)
Lemma closed_loop_run n l s : matches l s →
  (∀ k, (k < n)%nat → in_range (Nat.iter k loop_step l)) →
  ∃ s', closed_loop n (l_offset l) s = Ok (l_offset (Nat.iter n loop_step l), s') ∧
    matches (Nat.iter n loop_step l) s'.
Proof.
  revert l s. induction n as [|n IH]; intros l s Hm Hr; [by exists s|].
  destruct (closed_loop_step l s) as (s1 & E & Hm1); [done|apply (Hr 0%nat); lia|].
  destruct (IH (loop_step l) s1) as (s' & E' & Hm'); [done| |].
  { intros k Hk. rewrite <-Nat.iter_succ_r. apply Hr. lia. }
  exists s'. cbn [closed_loop]. rewrite run_bind, E, bind_Ok_l, run_bind, run_gets, bind_Ok_l.
  rewrite (m_amount _ _ Hm1). rewrite Nat.iter_succ_r. split; [exact E'|done].
Qed.

(** What a report can do at all. *)
Lemma closed_loop_cases x s : init_params s = Some init_param →
  servo (ns_report (- x)) s = Fault SignedOverflow ∨
  servo (ns_report (- x)) s = Ok (tt, fine_reported (- x) (integrated_ns s - x) s) ∧
    in_i32 (integrated_ns s - x).
Proof.
  intros Hp. cbn [servo ns_report].
  destruct (decide (in_i32 (integrated_ns s + - x))) as [Hi|Hi].
  - destruct (decide (- 2 ^ 31 < - x + (integrated_ns s + - x) ÷ 20 < 2 ^ 31)) as [Hf|Hf].
    + right. split; [|by rewrite <-Z.add_opp_r].
      by rewrite (report_fine_run 0 ts_zero (Ts 0 (- x) None) s Hp eq_refl Hi Hf).
    + left. by apply (fine_tune_fails 0 ts_zero (Ts 0 (- x) None) s Hp eq_refl).
  - left. by apply (report_overflow 0 ts_zero (Ts 0 (- x) None) s Hp eq_refl).
Qed.

(** ** Never settling *)

(** The one state of rest: no offset and nothing in the correction register. *)
Definition restless (l : loop_state) : Prop := ¬ (l_offset l = 0 ∧ l_amount l = 0).

Definition swings (n : nat) (x : Z) s : Prop :=
  closed_loop n x s = Fault SignedOverflow ∨
  ∃ y s', closed_loop n x s = Ok (y, s') ∧ 250 ≤ Z.abs y.

Lemma swings_later n x s s' : servo (ns_report (- x)) s = Ok (tt, s') →
  swings n (x + adjust_amount (fine_tune_register (timer s'))) s' → swings (S n) x s.
Proof.
  intros E Hs. unfold swings. cbn [closed_loop].
  by rewrite run_bind, E, bind_Ok_l, run_bind, run_gets, bind_Ok_l.
Qed.

(** A report near zero is one that overflows, one after which the offset is
    large, or one within the dead band. *)
Lemma small_step l s : matches l s → Z.abs (l_offset l) < 250 →
  swings 1 (l_offset l) s ∨
  ∃ s', servo (ns_report (- l_offset l)) s = Ok (tt, s') ∧ matches (loop_step l) s' ∧
    Z.abs (l_offset (loop_step l)) < 250 ∧
    in_dead_band (next_freq l) (- l_offset l) PTP_MAX_ERR_NS ∧ next_amount l = l_amount l.
Proof.
  intros Hm Hx. destruct (closed_loop_cases (l_offset l) s (m_params _ _ Hm)) as [E|[E Hi]].
  { left. left. cbn [closed_loop]. by rewrite run_bind, E. }
  rewrite (m_integral _ _ Hm) in E, Hi.
  destruct (closed_loop_step l s Hm) as (s' & E' & Hm').
  { unfold in_range, next_freq, next_integral, in_i32 in *. lia. }
  destruct (decide (250 ≤ Z.abs (l_offset (loop_step l)))) as [Hbig|Hsmall].
  { left. eapply (swings_later 0); [exact E'|]. right. rewrite (m_amount _ _ Hm').
    eexists _, s'. split; [done|exact Hbig]. }
  right. exists s'. split_and!; [done..|lia| |].
  - destruct (decide (in_dead_band (next_freq l) (- l_offset l) PTP_MAX_ERR_NS)) as [|Hb]; [done|].
    destruct Hsmall. unfold loop_step, next_amount. rewrite decide_False by done. cbn.
    unfold in_dead_band, PTP_MAX_ERR_NS in Hb. lia.
  - unfold next_amount. destruct (decide _) as [|Hb]; [done|]. destruct Hsmall.
    unfold loop_step, next_amount. rewrite decide_False by done. cbn.
    unfold in_dead_band, PTP_MAX_ERR_NS in Hb. lia.
Qed.

(** A correction that is repeated carries the offset away. *)
Lemma leaves_moving m l s : matches l s → Z.abs (l_offset l) < 250 → l_amount l ≠ 0 →
  (Z.to_nat (250 - Z.sgn (l_amount l) * l_offset l) ≤ m)%nat → ∃ k, swings k (l_offset l) s.
Proof.
  revert l s. induction m as [|m IH]; intros l s Hm Hx Hw Hmeas; [lia|].
  destruct (small_step l s Hm Hx) as [?|(s' & E & Hm' & Hx' & _ & Ha)]; [by exists 1%nat|].
  destruct (IH (loop_step l) s') as [k Hk]; [done|done|cbn; by rewrite Ha| |].
  { cbn. rewrite Ha. lia. }
  exists (S k). eapply swings_later; [exact E|]. by rewrite (m_amount _ _ Hm').
Qed.

(** Without a correction the integral grows until there is one. *)
Lemma leaves_resting m l s : matches l s → Z.abs (l_offset l) < 250 → l_amount l = 0 → l_offset l ≠ 0 →
  (Z.to_nat (Z.sgn (l_offset l) * l_integral l + 20000) ≤ m)%nat → ∃ k, swings k (l_offset l) s.
Proof.
  revert l s. induction m as [|m IH]; intros l s Hm Hx Hw Hx0 Hmeas;
    (destruct (small_step l s Hm Hx) as [?|(s' & E & Hm' & Hx' & [Hb _] & Ha)]; [by exists 1%nat|];
     unfold next_freq, next_integral, PTP_MAX_ERR_NS in Hb); [lia|].
  assert (l_offset (loop_step l) = l_offset l) as Hoff by (cbn; lia).
  destruct (IH (loop_step l) s') as [k Hk]; [done|done|cbn; congruence|congruence| |].
  { rewrite Hoff. cbn. unfold next_integral. lia. }
  exists (S k). eapply swings_later; [exact E|]. by rewrite (m_amount _ _ Hm').
Qed.

Lemma leaves x s : init_params s = Some init_param → in_u32 (fine_tune_register (timer s)) →
  restless (loop_of x s) → ∃ k, swings k x s.
Proof.
  intros Hp Hw Hr. pose proof (matches_loop_of x s Hp Hw) as Hm.
  destruct (decide (Z.abs x < 250)) as [Hx|Hx].
  2: { exists 0%nat. right. exists x, s. split; [done|lia]. }
  destruct (decide (adjust_amount (fine_tune_register (timer s)) = 0)) as [Ha|Ha].
  - refine (leaves_resting _ (loop_of x s) s Hm Hx Ha _ (le_n _)). intros Hx0. by apply Hr.
  - exact (leaves_moving _ (loop_of x s) s Hm Hx Ha (le_n _)).
Qed.

(** The state of rest is reached only from itself. *)
Lemma restless_step x s s' : init_params s = Some init_param → in_u32 (fine_tune_register (timer s)) →
  restless (loop_of x s) → servo (ns_report (- x)) s = Ok (tt, s') →
  init_params s' = Some init_param ∧ in_u32 (fine_tune_register (timer s')) ∧
  restless (loop_of (x + adjust_amount (fine_tune_register (timer s'))) s').
Proof.
  intros Hp Hw Hr E. destruct (closed_loop_cases x s Hp) as [E'|[E' Hi]]; [congruence|].
  rewrite E in E'. injection E' as ->. set (i := integrated_ns s - x) in *.
  split; [done|]. split; [by apply servo_word_range|].
  change (fine_tune_register (timer (fine_reported (- x) i s)))
    with (servo_word (- x) i (fine_tune_register (timer s))).
  unfold restless, loop_of. cbn [l_offset l_amount]. intros [Hx Ha].
  change (fine_tune_register (timer (fine_reported (- x) i s)))
    with (servo_word (- x) i (fine_tune_register (timer s))) in Ha.
  assert (x = 0) as -> by lia. unfold servo_word in Ha. cbn [Z.opp] in Ha.
  destruct (decide _) as [Hb|Hb] in Ha; [by apply Hr|].
  rewrite correction_amount in Ha by done. unfold in_dead_band, PTP_MAX_ERR_NS in Hb.
  unfold in_i32 in Hi. rewrite Z.mod_small in Ha by lia. lia.
Qed.

Lemma closed_loop_add n k x s : closed_loop (n + k) x s =
  '(y, s') ← closed_loop n x s; closed_loop k y s'.
Proof.
  revert x s. induction n as [|n IH]; intros x s; [done|]. cbn [Nat.add closed_loop].
  rewrite !run_bind. destruct (servo (ns_report (- x)) s) as [[[] s1]|]; [|done].
  rewrite !bind_Ok_l, !run_bind, !run_gets, !bind_Ok_l. apply IH.
Qed.

Lemma closed_loop_restless n x s : init_params s = Some init_param →
  in_u32 (fine_tune_register (timer s)) → restless (loop_of x s) →
  closed_loop n x s = Fault SignedOverflow ∨
  ∃ y s', closed_loop n x s = Ok (y, s') ∧ init_params s' = Some init_param ∧
    in_u32 (fine_tune_register (timer s')) ∧ restless (loop_of y s').
Proof.
  revert x s. induction n as [|n IH]; intros x s Hp Hw Hr; [right; by exists x, s|].
  cbn [closed_loop]. rewrite run_bind.
  destruct (closed_loop_cases x s Hp) as [E|[E _]]; [by left; rewrite E|].
  destruct (restless_step _ _ _ Hp Hw Hr E) as (Hp' & Hw' & Hr').
  rewrite E, bind_Ok_l, run_bind, run_gets, bind_Ok_l. by apply IH.
Qed.

(** C13. No rest.  Unless the offset is exactly the latency of the responses and
    nothing was ever corrected, the offset of the timer differs from that
    latency by at least 250 ns again after any number of reports, however exact
    they are, or the integral has overflowed: within the dead band the last
    correction is repeated, and outside it the integral overshoots. *)
Theorem servo_never_settles r x s : init_params s = Some init_param →
  in_u32 (fine_tune_register (timer s)) →
  ¬ (x + r = 0 ∧ adjust_amount (fine_tune_register (timer s)) = 0) →
  ∀ m, ∃ n, (m ≤ n)%nat ∧
    (delayed_loop (replicate n r) x s = Fault SignedOverflow ∨
     ∃ y s', delayed_loop (replicate n r) x s = Ok (y, s') ∧ 250 ≤ Z.abs (y + r)).
Proof.
  intros Hp Hw Hr m.
  destruct (closed_loop_restless m (x + r) s Hp Hw Hr) as [E|(y & s1 & E & Hp1 & Hw1 & Hr1)].
  - exists m. split; [done|]. left. by rewrite delayed_loop_shift, E.
  - destruct (leaves y s1 Hp1 Hw1 Hr1) as [k Hk]. exists (m + k)%nat. split; [lia|].
    rewrite delayed_loop_shift, closed_loop_add, E, bind_Ok_l.
    destruct Hk as [->|(z & s' & -> & Hz)]; [by left|right].
    exists (z - r), s'. split; [done|]. by rewrite Z.sub_add.
Qed.
End Loop.

(** ** A concrete loop *)

Definition loop_result (n : nat) (x : Z) (s : ptp (timesync sim) net) : option Z :=
  match closed_loop n x s with Ok (y, _) => Some y | Fault _ => None end.

(** Exact reports: from 499 ns, which is within the dead band, to 15 us in 134
    reports.  The same 50 us behind the master, with responses that take 50 us. *)
Lemma servo_never_settles_witness :
  loop_result 134 499 (servo_fine 0) = Some (- 15287) ∧
  ∀ m, ∃ n, (m ≤ n)%nat ∧
    (delayed_loop (replicate n 50000) (- 49501) (servo_fine 0) = Fault SignedOverflow ∨
     ∃ y s', delayed_loop (replicate n 50000) (- 49501) (servo_fine 0) = Ok (y, s') ∧ 250 ≤ Z.abs (y + 50000)).
Proof.
  split; [vm_compute; reflexivity|].
  apply (servo_never_settles 50000 (- 49501) (servo_fine 0)); [reflexivity|by_computation|by_computation].
Defined.
