(* ===== verification/ServoBound.v ===== *)
(** * The closed loop is bounded

    The loop of [ServoLoop] from an offset of less than a second: it is caught
    up, and then stays in an oscillation of at most 135 microseconds, also when
    the reports are disturbed.  The argument is about the three numbers of
    [loop_state]. *)

From S2P Require Export ServoLoop.
From stdpp Require Import list gmap.

#[local] Open Scope Z_scope.

(** ** One step *)

Lemma repeated_step l : in_dead_band (next_freq l) (- l_offset l) PTP_MAX_ERR_NS →
  loop_step l = LoopState (l_offset l + l_amount l) (next_integral l) (l_amount l).
Proof. intros Hb. unfold loop_step, next_amount. by rewrite decide_True. Qed.

(** Outside the dead band the offset becomes a twentieth of the integral. *)
Lemma corrected_step l : ¬ in_dead_band (next_freq l) (- l_offset l) PTP_MAX_ERR_NS →
  loop_step l = LoopState (next_integral l ÷ 20) (next_integral l) (next_freq l).
Proof.
  intros Hb. unfold loop_step, next_amount. rewrite decide_False by done. f_equal. unfold next_freq. lia.
Qed.

(** ** Bounded states

    From here on the reports may be disturbed: the timer is compared with an
    instant that is wrong by up to [max_jitter]. *)
Definition max_jitter : Z := 50.

Definition shifted (j : Z) (l : loop_state) : loop_state :=
  LoopState (l_offset l + j) (l_integral l) (l_amount l).

Definition disturbed_step (j : Z) (l : loop_state) : loop_state :=
  shifted (- j) (loop_step (shifted j l)).

(** After a correction the integral bounds the amount in the register from
    above where the correction was forward: with the timer ahead by 500 ns or
    more there is always a new correction, so that the repetitions, each of
    which is followed by a correction a twentieth larger in the other
    direction, do not grow further. *)
Definition turned (i w : Z) : Prop :=
  (0 ≤ w → w ≤ 2 * i + 92000) ∧ (w < 0 → 55 * w ≤ 100 * i + 4600000) ∧
  - 127000 ≤ w ≤ 135000 ∧ i ≤ 141000.

Inductive bounded : loop_state → Prop :=
  (* near the set point *)
  | b_near x i w : Z.abs x < 500 → Z.abs i ≤ 42000 → Z.abs w ≤ 2000 → bounded (LoopState x i w)
  (* after a correction *)
  | b_corrected x i w : turned i w → Z.abs (x - i ÷ 20) ≤ max_jitter → bounded (LoopState x i w)
  (* after a correction that was repeated once *)
  | b_repeated x i w i0 : turned i0 w → i0 ÷ 20 < 500 + 2 * max_jitter →
      Z.abs (x - (i0 ÷ 20 + w)) ≤ max_jitter → Z.abs (i - (i0 - i0 ÷ 20)) ≤ 2 * max_jitter →
      bounded (LoopState x i w)
  (* after small corrections that were repeated *)
  | b_drift x i w : Z.abs w ≤ 2000 → - 44000 ≤ i → x < 500 + max_jitter →
      Z.abs (i ÷ 20 - x) < 500 + max_jitter → bounded (LoopState (x + w) i w).

Lemma bounded_offset l : bounded l → Z.abs (l_offset l) < 135000.
Proof. intros []; unfold turned, max_jitter in *; cbn; lia. Qed.

(** The numbers are far from the limits of an [int]. *)
Lemma bounded_small l : bounded l → Z.abs (l_integral l) ≤ 200000.
Proof. intros []; unfold turned, max_jitter in *; cbn; lia. Qed.

Lemma bounded_range j l : bounded l → Z.abs j ≤ max_jitter → in_range (shifted j l).
Proof.
  intros Hl Hj. pose proof (bounded_offset l Hl). pose proof (bounded_small l Hl).
  unfold max_jitter, in_range, in_i32, next_freq, next_integral in *. cbn. lia.
Qed.

(** A correction from any of them. *)
Lemma bounded_corrected j l : bounded l → Z.abs j ≤ max_jitter →
  ¬ in_dead_band (next_freq (shifted j l)) (- l_offset (shifted j l)) PTP_MAX_ERR_NS →
  turned (next_integral (shifted j l)) (next_freq (shifted j l)).
Proof.
  unfold in_dead_band, PTP_MAX_ERR_NS, next_freq, next_integral, max_jitter.
  intros [x i w|x i w|x i w i0|x i w Hw Hi Hx Hix]; unfold turned, max_jitter in *; cbn; intros Hj Hd.
  1-3: repeat split; intros; lia.
  assert (- 3000 ≤ x) by lia. assert (i ≤ 25000) by lia. repeat split; intros; lia.
Qed.

Lemma bounded_repeated j l : bounded l → Z.abs j ≤ max_jitter →
  in_dead_band (next_freq (shifted j l)) (- l_offset (shifted j l)) PTP_MAX_ERR_NS →
  bounded (LoopState (l_offset l + l_amount l) (next_integral (shifted j l)) (l_amount l)).
Proof.
  unfold in_dead_band, PTP_MAX_ERR_NS, next_freq, next_integral, max_jitter.
  intros [x i w|x i w Ht|x i w i0 Ht|x i w]; cbn; intros Hj [Hb Hb'].
  - apply b_drift; unfold max_jitter in *; lia.
  - apply (b_repeated _ _ _ i); unfold max_jitter, turned in *; lia.
  - apply b_drift; unfold max_jitter, turned in *; lia.
  - apply b_drift; unfold max_jitter in *; lia.
Qed.

Lemma bounded_step j l : bounded l → Z.abs j ≤ max_jitter →
  in_range (shifted j l) ∧ bounded (disturbed_step j l).
Proof.
  intros Hl Hj. split; [by apply bounded_range|]. unfold disturbed_step.
  destruct (decide (in_dead_band (next_freq (shifted j l)) (- l_offset (shifted j l)) PTP_MAX_ERR_NS))
    as [Hb|Hb].
  - rewrite repeated_step by done. pose proof (bounded_repeated j l Hl Hj Hb) as Hr.
    unfold shifted at 1. cbn [l_offset l_integral l_amount shifted].
    by replace (l_offset l + j + l_amount l + - j) with (l_offset l + l_amount l) by lia.
  - rewrite corrected_step by done. apply b_corrected; [by apply bounded_corrected|].
    cbn [l_offset l_integral l_amount]. lia.
Qed.

(** ** Catching up *)

(** A timer that is ahead by [i / 20] with [i] in the integral. *)
Definition decay (i : Z) : Z := i - i ÷ 20.

Definition ahead (i : Z) (l : loop_state) : Prop :=
  l_offset l = i ÷ 20 ∧ l_integral l = i ∧ (i < 10000 → Z.abs (l_amount l) ≤ 80000).

Lemma ahead_step i l : ahead i l → 10000 ≤ i < 2 ^ 30 →
  in_range l ∧ ahead (decay i) (loop_step l).
Proof.
  intros (Hx & Hi & _) Hlo. unfold decay.
  assert (¬ in_dead_band (next_freq l) (- l_offset l) PTP_MAX_ERR_NS) as Hb
    by (unfold in_dead_band, PTP_MAX_ERR_NS; rewrite Hx; lia).
  rewrite corrected_step by done. unfold ahead, in_range, in_i32, next_freq, next_integral. cbn.
  rewrite Hx, Hi. lia.
Qed.

Lemma decay_mono i j : 0 ≤ i ≤ j → 0 ≤ decay i ≤ decay j.
Proof. unfold decay. lia. Qed.

Lemma decay_iter_mono n i j : 0 ≤ i ≤ j → 0 ≤ Nat.iter n decay i ≤ Nat.iter n decay j.
Proof.
  intros Hij. induction n as [|n IH]; [done|]. by apply decay_mono.
Qed.

(** From any integral below a second the band is reached in 230 steps. *)
Lemma decay_reaches : Nat.iter 230 decay 1000000000 < 10000.
Proof. vm_compute. reflexivity. Qed.

(** Within [k] reports, without overflow, the loop is in a bounded state with
    the offset within the dead band. *)
Definition landed (l : loop_state) : Prop := Z.abs (l_offset l) < PTP_MAX_ERR_NS ∧ bounded l.

Definition catches (k : nat) (l : loop_state) : Prop :=
  ∃ j, (j ≤ k)%nat ∧ (∀ i, (i < j)%nat → in_range (Nat.iter i loop_step l)) ∧
    landed (Nat.iter j loop_step l).

Lemma catches_now k l : landed l → catches k l.
Proof. intros Hx. exists 0%nat. split_and!; [lia|lia|done]. Qed.

Lemma corrected_landed i w : Z.abs i < 10000 → - 80000 ≤ w ≤ 80000 + 2 * i → landed (LoopState (i ÷ 20) i w).
Proof.
  intros Hi Hw. split; [unfold PTP_MAX_ERR_NS; cbn; lia|]. apply b_corrected; [|unfold max_jitter; lia].
  unfold turned. repeat split; intros; lia.
Qed.

Lemma catches_step k l : in_range l → catches k (loop_step l) → catches (S k) l.
Proof.
  intros Hr (j & Hj & Hrs & Hx). exists (S j). rewrite Nat.iter_succ_r. split_and!; [lia| |done].
  intros [|i] Hi; [done|]. rewrite Nat.iter_succ_r. apply Hrs. lia.
Qed.

Lemma catches_mono k k' l : (k ≤ k')%nat → catches k l → catches k' l.
Proof. intros Hk (j & Hj & ?). exists j. split; [lia|done]. Qed.

Lemma ahead_reaches n i l : ahead i l → 0 ≤ i < 2 ^ 30 → Nat.iter n decay i < 10000 → catches n l.
Proof.
  revert i l. induction n as [|n IH]; intros i l Ha Hi Hn;
    (destruct (decide (i < 10000)) as [Hs|Hs];
     [apply catches_now; destruct l, Ha as (? & ? & ?); cbn in *; subst; apply corrected_landed; lia|]);
    [cbn in Hn; lia|].
  destruct (ahead_step i l Ha) as [Hr Ha']; [lia|]. apply catches_step; [done|].
  apply (IH (decay i)); [done|unfold decay; lia|by rewrite <-Nat.iter_succ_r].
Qed.

(** The first report of a timer that is late by less than a second. *)
Lemma late_first x w : - 1000000000 < x ≤ - PTP_MAX_ERR_NS → let l := LoopState x 0 w in
  in_range l ∧ ahead (- x) (loop_step l).
Proof.
  intros Hx l. unfold PTP_MAX_ERR_NS in Hx.
  assert (¬ in_dead_band (next_freq l) (- l_offset l) PTP_MAX_ERR_NS) as Hb
    by (unfold in_dead_band, PTP_MAX_ERR_NS, next_freq, next_integral; cbn; lia).
  rewrite corrected_step by done. unfold ahead, in_range, in_i32, next_freq, next_integral. cbn. lia.
Qed.

Lemma late_catches x w : - 1000000000 < x ≤ - PTP_MAX_ERR_NS → catches 231 (LoopState x 0 w).
Proof.
  intros Hx. destruct (late_first x w Hx) as [Hr Ha]. unfold PTP_MAX_ERR_NS in Hx.
  apply catches_step; [done|]. apply (ahead_reaches 230 (- x)); [done|lia|].
  pose proof decay_reaches. pose proof (decay_iter_mono 230 (- x) 1000000000). lia.
Qed.

(** *** From ahead

    The first correction throws a timer that is ahead back by a twentieth more
    than that, so that it is late, by [i / 20] with [- i] in the integral. *)
Definition late_state (i w : Z) : loop_state := LoopState (- (i ÷ 20)) (- i) w.

Definition late_freq (i : Z) : Z := i ÷ 20 - decay i ÷ 20.

Lemma late_next i w : 0 ≤ i < 2 ^ 30 → in_range (late_state i w) ∧
  next_integral (late_state i w) = - decay i ∧ next_freq (late_state i w) = late_freq i ∧
  0 ≤ late_freq i.
Proof.
  intros Hi. assert (next_integral (late_state i w) = - decay i) as E
    by (unfold next_integral, decay; cbn; lia).
  assert (next_freq (late_state i w) = late_freq i) as Ef
    by (unfold next_freq; rewrite E; unfold late_freq; cbn; lia).
  unfold in_range. rewrite E, Ef. unfold in_i32, late_freq, decay. lia.
Qed.

(** Large corrections: the offset follows the integral. *)
Lemma late_corrected i w : 0 ≤ i < 2 ^ 30 → PTP_MAX_ERR_NS ≤ late_freq i →
  loop_step (late_state i w) = late_state (decay i) (late_freq i).
Proof.
  intros Hi Hf. destruct (late_next i w Hi) as (_ & E & Ef & _). unfold loop_step, next_amount.
  rewrite decide_False by (rewrite Ef; unfold in_dead_band; lia). rewrite E, Ef.
  unfold late_state, late_freq. cbn. f_equal. lia.
Qed.

(** Small ones: the last correction is repeated although the timer is late. *)
Lemma late_repeated i w : 10000 ≤ i < 2 ^ 30 → late_freq i < PTP_MAX_ERR_NS →
  loop_step (late_state i w) = LoopState (- (i ÷ 20) + w) (- decay i) w.
Proof.
  intros Hi Hf. destruct (late_next i w) as (_ & E & Ef & Hnn); [lia|]. unfold loop_step, next_amount.
  rewrite decide_True by (rewrite Ef; unfold in_dead_band, PTP_MAX_ERR_NS in *; cbn; lia). by rewrite E.
Qed.

(** Where the repetition begins there are only some ten thousand states, and
    from each of them the band is reached: by evaluation. *)
Fixpoint catches_b (k : nat) (x i w : Z) : bool :=
  (Z.abs x <? 500) && (Z.abs i <? 42000) && (Z.abs w <? 2000) ||
  match k with
  | O => false
  | S k' =>
      let i' := i - x in
      let f := i' ÷ 20 - x in
      let w' := if (Z.abs f <? 500) && (x <? 500) then w else f in
      (Z.abs i' <? 1073741824) && (Z.abs f <? 1073741824) && catches_b k' (x + w') i' w'
  end.

Lemma catches_b_true k x i w : catches_b k x i w = true → catches k (LoopState x i w).
Proof.
  assert (∀ k x i w, (Z.abs x <? 500) && (Z.abs i <? 42000) && (Z.abs w <? 2000) = true →
    catches k (LoopState x i w)) as Hnear.
  { intros k' x' i' w' Hn. apply catches_now. split; [unfold PTP_MAX_ERR_NS; cbn; lia|].
    apply b_near; lia. }
  revert x i w. induction k as [|k IH]; intros x i w; cbn [catches_b]; rewrite orb_true_iff.
  - intros [Hx|Hx]; [by apply Hnear|done].
  - intros [Hx|[[Hi Hf]%andb_true_iff Hk]%andb_true_iff]; [by apply Hnear|].
    apply Z.ltb_lt in Hi, Hf. set (l := LoopState x i w).
    assert (next_integral l = i - x ∧ next_freq l = (i - x) ÷ 20 - x) as [Ei Ef]
      by (unfold next_freq, next_integral, l; cbn; lia).
    apply catches_step; [unfold in_range, in_i32; rewrite Ei, Ef; lia|].
    apply IH in Hk. unfold loop_step, next_amount. rewrite Ei, Ef.
    destruct ((Z.abs ((i - x) ÷ 20 - x) <? 500) && (x <? 500)) eqn:Hb.
    + rewrite decide_True by (unfold in_dead_band, PTP_MAX_ERR_NS, l; cbn; lia). exact Hk.
    + rewrite decide_False by (unfold in_dead_band, PTP_MAX_ERR_NS, l; cbn; lia). exact Hk.
Qed.

Fixpoint all_from (n : nat) (i : Z) (f : Z → bool) : bool :=
  match n with O => true | S n' => f i && all_from n' (i + 1) f end.

Lemma all_from_true n i f : all_from n i f = true → ∀ j, i ≤ j < i + Z.of_nat n → f j = true.
Proof.
  revert i. induction n as [|n IH]; intros i; cbn [all_from]; [lia|].
  intros [Hi Hn]%andb_true_iff j Hj. destruct (decide (j = i)) as [->|]; [done|].
  apply (IH (i + 1)); [done|lia].
Qed.

Lemma repetition_ends : all_from (Z.to_nat 10960) 199600
  (λ i, catches_b 33 (- (decay i ÷ 20)) (- decay i) (late_freq i)) = true.
Proof. vm_cast_no_check (eq_refl true). Qed.

Lemma repetition_catches i : PTP_MAX_ERR_NS ≤ late_freq i → late_freq (decay i) < PTP_MAX_ERR_NS →
  0 ≤ i → catches 34 (late_state (decay i) (late_freq i)).
Proof.
  unfold PTP_MAX_ERR_NS. intros Hf Hf' Hi. apply (catches_mono 33); [lia|].
  assert (199600 ≤ i < 199600 + Z.of_nat (Z.to_nat 10960)) as Hr by (unfold late_freq, decay in *; lia).
  exact (catches_b_true _ _ _ _ (all_from_true _ _ _ repetition_ends i Hr)).
Qed.

Lemma late_decays n i : 0 ≤ i < 2 ^ 30 → PTP_MAX_ERR_NS ≤ late_freq i → Nat.iter n decay i < 199000 →
  catches (n + 34) (late_state (decay i) (late_freq i)).
Proof.
  revert i. induction n as [|n IH]; intros i Hi Hf Hn.
  { cbn in Hn. unfold PTP_MAX_ERR_NS, late_freq, decay in Hf. lia. }
  assert (0 ≤ decay i < 2 ^ 30) as Hd by (unfold decay; lia).
  destruct (decide (PTP_MAX_ERR_NS ≤ late_freq (decay i))) as [Hf'|Hf'].
  - apply catches_step; [by apply late_next|]. rewrite late_corrected by done.
    apply IH; [done..|]. by rewrite <-Nat.iter_succ_r.
  - apply (catches_mono 34); [lia|]. apply repetition_catches; lia.
Qed.

(** The correction that is repeated may be the first one. *)
Lemma first_repeated x : 10000 ≤ x → late_freq x < PTP_MAX_ERR_NS →
  catches 52 (late_state x (- x - x ÷ 20)).
Proof.
  intros Hx Hf. assert (x < 211000) as Hx' by (unfold PTP_MAX_ERR_NS, late_freq, decay in Hf; lia).
  apply catches_step; [apply late_next; lia|]. rewrite late_repeated by (done || lia).
  set (l := LoopState _ _ _).
  assert (next_integral l = 3 * (x ÷ 20)) as E by (unfold next_integral, decay, l; cbn; unfold decay; lia).
  assert (in_range l ∧ ¬ in_dead_band (next_freq l) (- l_offset l) PTP_MAX_ERR_NS) as [Hr Hb].
  { unfold in_range, in_dead_band, next_freq. rewrite E. unfold in_i32, PTP_MAX_ERR_NS, l. cbn. lia. }
  apply catches_step; [done|]. rewrite corrected_step by done.
  apply (ahead_reaches 50 (3 * (x ÷ 20))); [|lia|].
  { unfold ahead, next_freq. rewrite E. unfold l. cbn. lia. }
  assert (Nat.iter 50 decay 40000 < 10000) by (vm_compute; reflexivity).
  pose proof (decay_iter_mono 50 (3 * (x ÷ 20)) 40000). lia.
Qed.

Lemma late_reaches : Nat.iter 180 decay 1000000000 < 199000.
Proof. vm_compute. reflexivity. Qed.

Lemma ahead_catches x w : PTP_MAX_ERR_NS ≤ x < 1000000000 → catches 231 (LoopState x 0 w).
Proof.
  intros Hx. set (l := LoopState x 0 w). unfold PTP_MAX_ERR_NS in Hx.
  assert (in_range l) as Hr by (unfold in_range, in_i32, next_freq, next_integral, l; cbn; lia).
  assert (loop_step l = late_state x (- x - x ÷ 20)) as E.
  { unfold loop_step, next_amount. rewrite decide_False by (unfold in_dead_band, PTP_MAX_ERR_NS, l; cbn; lia).
    unfold next_freq, next_integral, late_state, l. cbn. f_equal; lia. }
  apply catches_step; [done|]. rewrite E.
  destruct (decide (x < 10000)).
  { apply catches_now. unfold late_state. replace (- (x ÷ 20)) with (- x ÷ 20) by lia.
    apply corrected_landed; lia. }
  destruct (decide (late_freq x < PTP_MAX_ERR_NS)) as [Hf|Hf].
  - apply (catches_mono 52); [lia|]. apply first_repeated; [lia|done].
  - apply (catches_mono 215); [lia|]. apply catches_step; [apply late_next; lia|].
    rewrite late_corrected by lia. apply (late_decays 180); [lia..|].
    pose proof late_reaches. pose proof (decay_iter_mono 180 x 1000000000). lia.
Qed.

(** ** The loop over the code *)

Section Loop.
Context {N D : Type} `{TsuHwLaws D} `{Lwip N}.
Implicit Types s : ptp (timesync D) N.

(** The disturbed loop is a sequence of disturbed steps around [- r]. *)
Lemma delayed_loop_run r delays l s : matches l s → bounded l →
  Forall (λ d, Z.abs (d - r) ≤ max_jitter) delays →
  ∃ l' s', delayed_loop delays (l_offset l - r) s = Ok (l_offset l' - r, s') ∧
    matches l' s' ∧ bounded l'.
Proof.
  revert l s. induction delays as [|d delays IH]; intros l s Hm Hb Hd; [by exists l, s|].
  apply Forall_cons_iff in Hd as [Hj Hd].
  destruct (bounded_step (d - r) l Hb Hj) as [Hr Hb'].
  destruct (closed_loop_step (shifted (d - r) l) s) as (s1 & E & Hm1); [by destruct Hm; split|done|].
  assert (matches (disturbed_step (d - r) l) s1) as Hm1' by (by destruct Hm1; split).
  destruct (IH (disturbed_step (d - r) l) s1 Hm1' Hb' Hd) as (l' & s' & E' & Hm' & Hl').
  exists l', s'. split; [|done]. cbn [delayed_loop].
  replace (- (l_offset l - r + d)) with (- l_offset (shifted (d - r) l)) by (cbn; lia).
  rewrite run_bind, E, bind_Ok_l, run_bind, run_gets, bind_Ok_l, (m_amount _ _ Hm1).
  replace (l_offset l - r + l_amount (loop_step (shifted (d - r) l)))
    with (l_offset (disturbed_step (d - r) l) - r) by (cbn; lia). exact E'.
Qed.

(** C14. Catching up, and what follows.  Let the delay responses take [r]
    nanoseconds.  From an offset within a second of [- r], with an empty
    integral and no large correction in the register, at most 231 reports bring
    the timer to within the dead band of 500 ns around [- r].  From then on
    each response may be disturbed, by up to 50 ns in either direction and in
    any sequence: the timer stays within 135 us of [- r] for ever, and
    nothing ever overflows.  The timer ends up behind the master by the
    latency of the responses. *)
Theorem servo_catches_up r x s : init_params s = Some init_param →
  in_u32 (fine_tune_register (timer s)) → integrated_ns s = 0 →
  Z.abs (adjust_amount (fine_tune_register (timer s))) ≤ 2000 → Z.abs (x + r) < 1000000000 →
  ∃ n y s', (n ≤ 231)%nat ∧ delayed_loop (replicate n r) x s = Ok (y, s') ∧
    Z.abs (y + r) < PTP_MAX_ERR_NS ∧
    ∀ delays, Forall (λ d, Z.abs (d - r) ≤ max_jitter) delays →
      ∃ z s'', delayed_loop delays y s' = Ok (z, s'') ∧ Z.abs (z + r) < 135000.
Proof.
  intros Hp Hw Hi Ha Hx. pose proof (matches_loop_of (x + r) s Hp Hw) as Hm.
  unfold loop_of in Hm. rewrite Hi in Hm. set (l := LoopState (x + r) 0 _) in *.
  assert (catches 231 l) as (n & Hn & Hrs & Hy & Hb).
  { destruct (decide (Z.abs (x + r) < PTP_MAX_ERR_NS)) as [|Hx']; unfold PTP_MAX_ERR_NS in *.
    - apply catches_now. split; [done|]. apply b_near; lia.
    - destruct (decide (x + r < 0)); [apply late_catches|apply ahead_catches]; unfold PTP_MAX_ERR_NS; lia. }
  destruct (closed_loop_run n l s Hm Hrs) as (s' & E & Hm').
  exists n, (l_offset (Nat.iter n loop_step l) - r), s'. rewrite delayed_loop_shift.
  change (l_offset l) with (x + r) in E. rewrite E, bind_Ok_l, Z.sub_add. split_and!; [done..|].
  intros delays Hd. destruct (delayed_loop_run r delays _ s' Hm' Hb Hd) as (l' & s'' & E' & _ & Hb').
  exists (l_offset l' - r), s''. rewrite Z.sub_add. split; [exact E'|by apply bounded_offset].
Qed.
End Loop.

(** Half a second ahead, with responses that take 50 us. *)
Lemma servo_catches_up_witness :
  ∃ n y s', (n ≤ 231)%nat ∧ delayed_loop (replicate n 50000) 500000000 (servo_fine 0) = Ok (y, s') ∧
    Z.abs (y + 50000) < PTP_MAX_ERR_NS ∧
    ∀ delays, Forall (λ d, Z.abs (d - 50000) ≤ max_jitter) delays →
      ∃ z s'', delayed_loop delays y s' = Ok (z, s'') ∧ Z.abs (z + 50000) < 135000.
Proof.
  exact (servo_catches_up 50000 500000000 (servo_fine 0) eq_refl ltac:(by_computation) eq_refl
    ltac:(by_computation) ltac:(by_computation)).
Defined.
