(* ===== verification/ServoDrift.v ===== *)
(** * The loop between clocks that drift apart

    The loop of [ServoLoop] where the clocks do not run alike: between two
    reports they drift apart, by an amount that wanders around [D], and the
    responses take a time that wanders around [r].  With a drift of more than
    about half a microsecond a report, the correction never falls into the dead
    band, the integral takes over the drift, and the loop locks. *)

From S2P Require Export ServoBound.
From stdpp Require Import list gmap.

#[local] Open Scope Z_scope.

(** ** The loop over the code *)

Section Loop.
Context {N D : Type} `{TsuHwLaws D} `{Lwip N}.
Implicit Types s : ptp (timesync D) N.

(** For each report the latency of its response, and by how much the clocks
    drift apart until the next one. *)
Fixpoint drifting_loop (l : list (Z * Z)) (x : Z) : M (ptp (timesync D) N) Z :=
  match l with
  | [] => mret x
  | (r, d) :: l' =>
      servo (ns_report (- (x + r))) ;;
      moved_by ← gets (λ s, adjust_amount (fine_tune_register (timer s)));
      drifting_loop l' (x + moved_by + d)
  end.

(** Without drift this is the loop of before. *)
Lemma delayed_loop_drifting delays x s :
  delayed_loop delays x s = drifting_loop ((λ r, (r, 0)) <$> delays) x s.
Proof.
  revert x s. induction delays as [|r delays IH]; intros x s; [done|].
  cbn [delayed_loop drifting_loop fmap list_fmap]. rewrite !run_bind.
  destruct (servo (ns_report (- (x + r))) s) as [[[] s1]|]; [|done].
  by rewrite !bind_Ok_l, !run_bind, !run_gets, !bind_Ok_l, IH, Z.add_0_r.
Qed.
End Loop.

(** ** One step, over numbers *)

(** A report that is wrong by [j], and the drift [d] after it. *)
Definition drifted_step (j d : Z) (l : loop_state) : loop_state :=
  shifted (d - j) (loop_step (shifted j l)).

(** The bounds on the way to the lock: [J] for the responses, [E] for the drift
    around [D]. *)
Record drift_bounds (D J E : Z) : Prop := {
  db_J : 0 ≤ J;
  db_E : 0 ≤ E;
  db_large : 600 + 3 * J + 2 * E ≤ Z.abs D;
  db_small : Z.abs D ≤ 1000000
}.

Section Numbers.
Context (D J E : Z) (HD : drift_bounds D J E).

(** After a correction the offset is the twentieth of the integral that the
    drift does not need, up to the last disturbances [j] and [d].  [i + 20 D +
    j] is what the loop contracts: down to [J + 20 E], but for the rounding on
    one side. *)
Definition within (b u : Z) : Prop :=
  - (J + 20 * E) - b - (if 0 <? D then 19 else 0) ≤ u ≤
    J + 20 * E + b + (if 0 <? D then 0 else 19).

Inductive locking (b : Z) : loop_state → Prop :=
  locking_intro i w j d : Z.abs j ≤ J → Z.abs d ≤ E → within b (i + 20 * D + j) →
    (0 < D → - (J + 20 * E) - 19 ≤ i + 20 * D + j) →
    locking b (LoopState (i ÷ 20 + D + d - j) i w).

Definition descend (b : Z) : Z := if b <? 20 then Z.max 0 (b - 1) else b - b ÷ 20.

Lemma locking_not_dead b j l : locking b l → 0 ≤ b → Z.abs j ≤ J →
  ¬ in_dead_band (next_freq (shifted j l)) (- l_offset (shifted j l)) PTP_MAX_ERR_NS.
Proof.
  destruct HD. intros [i w j0 d Hj0 Hd Hw Hlo] Hb Hj.
  unfold in_dead_band, PTP_MAX_ERR_NS, next_freq, next_integral, shifted. cbn.
  unfold within in *. destruct (Z.ltb_spec 0 D); lia.
Qed.

(** Either way the rounding goes, the contraction is at least this. *)
Lemma within_step b i j j' d : 0 ≤ b → Z.abs j ≤ J → Z.abs j' ≤ J → Z.abs d ≤ E →
  within b (i + 20 * D + j) → within (descend b) (i - (i ÷ 20 + D + d - j + j') + 20 * D + j').
Proof.
  destruct HD. unfold within, descend. intros Hb Hj Hj' Hd.
  destruct (Z.ltb_spec 0 D), (Z.ltb_spec b 20); lia.
Qed.

Lemma locking_step b j d l : locking b l → 0 ≤ b ≤ 2 ^ 30 → Z.abs j ≤ J → Z.abs d ≤ E →
  in_range (shifted j l) ∧ locking (descend b) (drifted_step j (D + d) l).
Proof.
  intros Hl Hb Hj Hd. pose proof (locking_not_dead b j l Hl (proj1 Hb) Hj) as Hnd.
  unfold drifted_step. rewrite corrected_step by done.
  destruct HD as [HJ HE Hlarge Hsmall]. destruct Hl as [i w j0 d0 Hj0 Hd0 Hw Hlo].
  split.
  - unfold in_range, next_freq, next_integral, shifted, in_i32. cbn. unfold within in Hw. clear Hnd.
    destruct (Z.ltb_spec 0 D); lia.
  - unfold next_freq, next_integral, shifted. cbn.
    replace ((i - (i ÷ 20 + D + d0 - j0 + j)) ÷ 20 + (D + d - j))
      with ((i - (i ÷ 20 + D + d0 - j0 + j)) ÷ 20 + D + d - j) by lia.
    constructor; [done..|by apply within_step; [lia|done..]|]. intros HDp. specialize (Hlo HDp). lia.
Qed.

(** The first correction. *)
Lemma first_correction x w j d : 500 + J ≤ Z.abs x → Z.abs x < 1000000000 → (0 < D → x ≤ 20 * D) →
  Z.abs j ≤ J → Z.abs d ≤ E → let l := LoopState x 0 w in
  in_range (shifted j l) ∧ locking (2 ^ 30) (drifted_step j (D + d) l).
Proof.
  intros Hx Hx' Hs Hj Hd l. destruct HD as [HJ HE Hlarge Hsmall].
  assert (¬ in_dead_band (next_freq (shifted j l)) (- l_offset (shifted j l)) PTP_MAX_ERR_NS) as Hnd.
  { unfold in_dead_band, PTP_MAX_ERR_NS, next_freq, next_integral, shifted, l. cbn. lia. }
  unfold drifted_step. rewrite corrected_step by done.
  unfold in_range, next_freq, next_integral, shifted, in_i32, l. cbn. split; [lia|].
  replace ((0 - (x + j)) ÷ 20 + (D + d - j)) with ((0 - (x + j)) ÷ 20 + D + d - j) by lia.
  constructor; [done..| |lia]. unfold within. destruct (Z.ltb_spec 0 D); lia.
Qed.

Lemma locked_offset l : locking 0 l → 10 * Z.abs (l_offset l) ≤ 11 * J + 20 * E + 9.
Proof.
  destruct HD. intros [i w j d Hj Hd Hw _]. unfold within in Hw. cbn.
  destruct (Z.ltb_spec 0 D); lia.
Qed.
End Numbers.

(** ** The lock *)

Lemma descend_range b : 0 ≤ b → 0 ≤ descend b ≤ b.
Proof. unfold descend. intros. destruct (Z.ltb_spec b 20); lia. Qed.

Definition lock_reports : nat := 399.

Lemma descend_reaches : Nat.iter lock_reports descend (2 ^ 30) = 0.
Proof. vm_compute. reflexivity. Qed.

Lemma descended n : (lock_reports ≤ n)%nat → Nat.iter n descend (2 ^ 30) = 0.
Proof.
  intros Hn. replace n with (lock_reports + (n - lock_reports))%nat by lia.
  induction (n - lock_reports)%nat as [|k IH]; [rewrite Nat.add_0_r; apply descend_reaches|].
  by rewrite Nat.add_succ_r, Nat.iter_succ, IH.
Qed.

Section Lock.
Context {N D : Type} `{TsuHwLaws D} `{Lwip N}.
Implicit Types s : ptp (timesync D) N.

(** The latencies are within [J] of [r], the drifts within [E] of [dr]. *)
Definition disturbed (r J dr E : Z) (l : list (Z * Z)) : Prop :=
  Forall (λ p, Z.abs (p.1 - r) ≤ J ∧ Z.abs (p.2 - dr) ≤ E) l.

Lemma drifting_step r d0 d j l s : matches l s → in_range (shifted j l) → ∀ rest,
  d0 = r + j → ∃ s', matches (drifted_step j d l) s' ∧
    drifting_loop ((d0, d) :: rest) (l_offset l - r) s =
    drifting_loop rest (l_offset (drifted_step j d l) - r) s'.
Proof.
  intros Hm Hr rest ->. destruct (closed_loop_step (shifted j l) s) as (s1 & E & Hm1);
    [by destruct Hm; split|done|].
  exists s1. split; [by destruct Hm1; split|]. cbn [drifting_loop].
  replace (- (l_offset l - r + (r + j))) with (- l_offset (shifted j l)) by (cbn; lia).
  rewrite run_bind, E, bind_Ok_l, run_bind, run_gets, bind_Ok_l, (m_amount _ _ Hm1).
  f_equal. cbn. lia.
Qed.

Lemma drifting_run dr J E (HB : drift_bounds dr J E) r b l ls s : matches l s → locking dr J E b l →
  0 ≤ b ≤ 2 ^ 30 → disturbed r J dr E ls →
  ∃ l' s', drifting_loop ls (l_offset l - r) s = Ok (l_offset l' - r, s') ∧
    locking dr J E (Nat.iter (length ls) descend b) l'.
Proof.
  revert b l s. induction ls as [|[d0 d1] ls IH]; intros b l s Hm Hl Hb Hd; [by exists l, s|].
  apply Forall_cons_iff in Hd as [[Hj Hd1] Hd]. cbn [fst snd] in *.
  destruct (locking_step dr J E HB b (d0 - r) (d1 - dr) l Hl Hb Hj Hd1) as [Hr Hl'].
  replace (dr + (d1 - dr)) with d1 in Hl' by lia.
  destruct (drifting_step r d0 d1 (d0 - r) l s Hm Hr ls) as (s1 & Hm1 & ->); [lia|].
  cbn [length]. rewrite Nat.iter_succ_r. apply IH; [done..| |done].
  pose proof (descend_range b). lia.
Qed.

(** C15. The servo locks.  Let the clocks drift apart by [dr] nanoseconds a
    report, within [E], and the responses take [r] nanoseconds, within [J],
    with a drift of at least 600 ns more than three [J] and two [E] and at
    most a millisecond.  From an offset from [- r] of less than a second but
    outside the dead band, not ahead by more than twenty drifts if the timer
    runs fast, with an empty integral: whatever the sequence of latencies and
    drifts, nothing ever overflows, and after 400 reports the timer stays within
    [1.1 J + 2 E] (and a nanosecond of rounding) of [- r] for ever.  With constant
    drift and latency it is exactly at [- r]. *)
Theorem servo_locks_under_drift dr J E r x s : drift_bounds dr J E →
  init_params s = Some init_param → in_u32 (fine_tune_register (timer s)) → integrated_ns s = 0 →
  500 + J ≤ Z.abs (x + r) → Z.abs (x + r) < 1000000000 → (0 < dr → x + r ≤ 20 * dr) →
  ∀ l, disturbed r J dr E l → ∃ y s', drifting_loop l x s = Ok (y, s') ∧
    ((lock_reports < length l)%nat →
      10 * Z.abs (y + r) ≤ 11 * J + 20 * E + 9 ∧ (J = 0 → E = 0 → y = - r)).
Proof.
  intros HB Hp Hw Hi Hx Hx' Hs l Hd. pose proof (matches_loop_of (x + r) s Hp Hw) as Hm.
  unfold loop_of in Hm. rewrite Hi in Hm. set (l0 := LoopState (x + r) 0 _) in *.
  destruct l as [|[d0 d1] l]; [exists x, s; split; [done|cbn; lia]|].
  apply Forall_cons_iff in Hd as [[Hj Hd1] Hd]. cbn [fst snd] in *.
  destruct (first_correction dr J E HB (x + r) (l_amount l0) (d0 - r) (d1 - dr)) as [Hr Hl]; [done..|].
  replace (dr + (d1 - dr)) with d1 in Hl by lia. change (LoopState _ _ _) with l0 in Hr, Hl.
  destruct (drifting_step r d0 d1 (d0 - r) l0 s Hm Hr l) as (s1 & Hm1 & E1); [lia|].
  change (l_offset l0) with (x + r) in E1. rewrite Z.add_simpl_r in E1. rewrite E1.
  destruct (drifting_run dr J E HB r (2 ^ 30) _ l s1 Hm1 Hl ltac:(lia) Hd) as (l' & s' & E' & Hl').
  exists (l_offset l' - r), s'. split; [done|]. intros Hn. cbn [length] in Hn.
  rewrite descended in Hl' by lia. apply locked_offset in Hl'; [|done].
  split; [by rewrite Z.sub_add|]. intros -> ->. lia.
Qed.
End Lock.

(** A timer that runs fast by 10 us a report, half a second behind, with
    responses that take 50 us: after 400 reports it is 50 us behind, exactly. *)
Lemma servo_locks_under_drift_witness :
  ∃ s', drifting_loop (replicate 400 (50000, 10000)) (- 500000000) (servo_fine 0) = Ok (- 50000, s').
Proof.
  destruct (servo_locks_under_drift 10000 0 0 50000 (- 500000000) (servo_fine 0)) with
    (l := replicate 400 (50000, 10000)) as (y & s' & E & Hy);
    [split; lia|reflexivity|by_computation|reflexivity|lia..| |].
  - apply Forall_replicate. cbn. lia.
  - destruct Hy as [_ Hy]; [by_computation|]. rewrite Hy in E by done. exists s'. exact E.
Defined.
