(* ===== verification/Types.v ===== *)
(** * Every variable keeps its C type

    The integers of the model are unbounded; the type invariant says that each
    variable holds a value of the type that the sources give it, and that
    every entry of the program keeps it so, whatever bytes arrive. *)

From S2P Require Export System.
From stdpp Require Import list gmap.

#[local] Open Scope Z_scope.

(** ** The types of the variables *)

Section Types.
Context {D : Type} `{Xil D}.

Record typed_tsu (s : tsu D) : Prop := {
  ty_register : in_u32 (fine_tune_register s);
  ty_uptime : in_u32 (sUptime_mS s)
}.

Record typed_timesync (s : timesync D) : Prop := {
  ty_tsu : typed_tsu (tsu_of s);
  ty_coarse_value : in_i64 (last_coarse_time_value s);
  ty_coarse_stamp : in_u32 (last_coarse_time_stamp s);
  ty_pps_stamp : in_u32 (last_pps_time_stamp s);
  ty_diff : in_i32 (sync_diff_ns s);
  ty_integrated : in_i32 (sync_diff_integrated_ns s);
  ty_counter : in_i32 (receive_counter s)
}.

(** Arguments of the types of the handlers. *)
Definition typed_event (e : event) : Prop :=
  match e with
  | Coarse ts ns | Fine ts ns => in_i64 ts ∧ in_u32 ns
  | UpdateError e a => in_i32 e ∧ in_i32 a
  | _ => True
  end.

(** *** The timer driver *)

Lemma dev_stable {A} (m : M D A) : stable typed_tsu (zoom dev_l m).
Proof.
  apply (stable_zoom _ (λ _, True)); [done| |done]. intros s t [Hr Hu] _. by split.
Qed.
#[local] Hint Resolve dev_stable : stable.

Lemma tsu_get_time_stable : stable typed_tsu tsu_get_time.
Proof. unfold tsu_get_time. stable_tac. Qed.

Lemma tsu_set_time_stable ts : stable typed_tsu (tsu_set_time ts).
Proof. unfold tsu_set_time. stable_tac. Qed.

Lemma tsu_clock_fine_tune_stable e i b : stable typed_tsu (tsu_clock_fine_tune e i b).
Proof.
  intros s [] s' [Hr Hu] E.
  destruct (decide (- 2 ^ 31 < e + i ÷ 20 < 2 ^ 31)) as [Hf|Hf].
  - rewrite tsu_clock_fine_tune_run in E by done. injection E as <-. case_decide; [done|].
    split; [by apply correction_range|done].
  - by rewrite tsu_clock_fine_tune_overflow in E.
Qed.

Lemma tsu_systick_cb_stable : stable typed_tsu tsu_systick_cb.
Proof.
  unfold tsu_systick_cb, tsu_driver_adjust_time. apply stable_bind; [|intros; stable_tac].
  apply stable_modify. intros s [Hr Hu]. split; [done|apply to_u32_range].
Qed.

(** *** The synchronisation *)

Lemma zoom_tsu_stable {A} (m : M (tsu D) A) : stable typed_tsu m → stable typed_timesync (zoom tsu_l m).
Proof. apply stable_zoom; [by intros s []|]. intros s t [] Ht. by split. Qed.
#[local] Hint Resolve zoom_tsu_stable tsu_get_time_stable tsu_set_time_stable tsu_clock_fine_tune_stable : stable.
#[local] Hint Extern 1 (stable typed_timesync (modify _)) =>
  apply stable_modify; intros [] []; split; done : stable.

(** The time stamps are readings of the uptime. *)
Lemma uptime_bind {A} (k : Z → M (timesync D) A) : (∀ u, in_u32 u → stable typed_timesync (k u)) →
  stable typed_timesync (zoom tsu_l tsu_get_uptime_ms ≫= k).
Proof.
  intros Hk. apply (triple_bind _ _ _ (λ u s, in_u32 u ∧ typed_timesync s)).
  - intros s u s' Hs E. unfold zoom, tsu_get_uptime_ms in E. cbn in E. injection E as <- <-.
    destruct Hs. split; [apply ty_tsu0|]. by split.
  - intros u s a s' [Hu Hs] E. by eapply Hk.
Qed.

Lemma i32_range z r : i32 z = Ok r → in_i32 r.
Proof. by intros [-> ?]%i32_inv. Qed.

Lemma resync_due_stable : stable typed_timesync resync_due.
Proof.
  unfold resync_due. apply stable_bind; [apply stable_gets|]. intros st.
  destruct st; [apply stable_ret| |apply stable_ret..].
  apply stable_bind; [apply stable_gets|]. intros c.
  apply (stable_lift_bind _ _ in_i32); [by intros; eapply i32_range|]. intros c' Hc. stable_tac.
Qed.

Lemma coarse_time_received_stable ts ns : in_i64 ts → stable typed_timesync (coarse_time_received ts ns).
Proof.
  intros Hts. unfold coarse_time_received, set_coarse_time.
  apply stable_bind; [stable_tac|]. intros _. apply stable_bind; [stable_tac|]. intros _.
  apply uptime_bind. intros u Hu. apply stable_bind; [stable_tac|]. intros _.
  apply stable_bind; [apply resync_due_stable|]. intros due. stable_tac.
Qed.

Lemma fine_time_received_stable ts ns : stable typed_timesync (fine_time_received ts ns).
Proof. unfold fine_time_received. stable_tac. Qed.

Lemma pps_diff_range t d : pps_diff t = Ok d → in_i32 d.
Proof.
  unfold pps_diff. intros E. case_match; [by eapply i32_range|]. injection E as <-. apply to_i32_range.
Qed.

Lemma pps_fine_tune_stable : stable typed_timesync pps_fine_tune.
Proof.
  unfold pps_fine_tune. apply stable_bind; [apply stable_gets|]. intros s.
  apply stable_bind; [apply stable_lift|]. intros d.
  apply (stable_lift_bind _ _ in_i32); [by intros; eapply i32_range|]. intros i Hi. stable_tac.
Qed.

Lemma pps_hard_set_stable u : stable typed_timesync (pps_hard_set u).
Proof. unfold pps_hard_set. stable_tac. Qed.

Lemma pps_received_stable : stable typed_timesync pps_received.
Proof.
  unfold pps_received, pps_in_fine. apply uptime_bind. intros u Hu.
  apply stable_bind; [apply stable_gets|]. intros last.
  apply stable_bind; [stable_tac|]. intros _. case_match; [apply stable_ret|].
  apply stable_bind; [apply stable_gets|]. intros st.
  apply stable_bind; [|intros; stable_tac].
  case_match; [|apply stable_ret]. apply stable_bind; [stable_tac|]. intros t.
  apply (stable_lift_bind _ _ in_i32); [by intros; eapply pps_diff_range|]. intros d Hd.
  apply stable_bind; [stable_tac|]. intros _. case_match; [apply pps_hard_set_stable|].
  apply stable_bind; [apply pps_fine_tune_stable|]. intros _. apply stable_ret.
Qed.

Lemma housekeeping_stable : stable typed_timesync housekeeping.
Proof. unfold housekeeping, log_state. stable_tac. Qed.

Lemma handle_stable e : typed_event e → stable typed_timesync (handle e).
Proof.
  destruct e; cbn [typed_event handle]; intros Hty.
  - apply coarse_time_received_stable, Hty.
  - apply fine_time_received_stable.
  - apply pps_received_stable.
  - unfold coarse_timeout. stable_tac.
  - unfold fine_timeout. stable_tac.
  - apply housekeeping_stable.
  - destruct Hty. unfold update_error. stable_tac.
Qed.
End Types.

#[export] Hint Resolve tsu_clock_fine_tune_stable tsu_systick_cb_stable tsu_get_time_stable
  fine_time_received_stable housekeeping_stable : stable.

(** ** The transports and the interpreter *)

Section World.
Context {N D : Type} `{Xil D} `{Lwip N} `{!Link N}.

Record typed_ptp (s : ptp (timesync D) N) : Prop := {
  ty_client : typed_timesync (p_client s);
  ty_sum : in_i32 (integrated_ns s);
  ty_params : init_params s = None ∨ init_params s = Some init_param
}.

(** The callbacks are those that the transports register. *)
Record typed_world (w : world (ptp (timesync D) N)) : Prop := {
  ty_env : typed_ptp (env w);
  ty_t1 : ts_wf (t1 (own w));
  ty_t2 : ts_wf (t2 (own w));
  ty_t3 : ts_wf (t3 (own w));
  ty_t4 : ts_wf (t4 (own w));
  ty_sys : ts_wf (sys_ts (own w));
  ty_msg : delay_req_buf (delay_req_msg (own w));
  ty_gettime : sSyscTimeCb (own w) = None ∨ sSyscTimeCb (own w) = Some get_systime;
  ty_report : sReportDiffCb (own w) = None ∨ sReportDiffCb (own w) = Some ptp_process_time_diff;
  ty_send : sSendDlyReqCb (own w) = None ∨ sSendDlyReqCb (own w) = Some ptp_send_delay_request ∨
    sSendDlyReqCb (own w) = Some gptp_send_delay_request
}.

Lemma client_stable {A} (m : M (timesync D) A) : stable typed_timesync m → stable typed_ptp (zoom client_l m).
Proof. apply stable_zoom; [by intros s []|]. intros s t [] Ht. by split. Qed.

Lemma on_tsu_stable {A} (m : M (tsu D) A) : stable typed_tsu m →
  stable typed_ptp (on_tsu m : M (ptp (timesync D) N) A).
Proof. intros Hm. unfold on_tsu. apply client_stable, zoom_tsu_stable, Hm. Qed.

Lemma on_net_stable {A} (m : M N A) : stable typed_ptp (on_net m : M (ptp (timesync D) N) A).
Proof. apply (stable_zoom _ (λ _, True)); [done| |done]. intros s n [] _. by split. Qed.

Lemma print_stable fmt args : stable typed_ptp (print fmt args : M (ptp (timesync D) N) unit).
Proof. unfold print. apply on_tsu_stable, dev_stable. Qed.
#[local] Hint Resolve client_stable on_tsu_stable on_net_stable print_stable : stable.

Lemma get_systime_wf : triple typed_ptp (get_systime : M (ptp (timesync D) N) ptp_timestamp_t)
  (λ t s, ts_wf t ∧ typed_ptp s).
Proof.
  unfold get_systime. eapply triple_bind; [apply on_tsu_stable, tsu_get_time_stable|].
  intros t s a s' Hs [= <- <-]. split; [|done]. split; [apply to_i64_range|apply to_i32_range].
Qed.

Lemma process_time_diff_stable o sy d : ts_wf sy → ts_wf d →
  stable typed_ptp (ptp_process_time_diff o sy d : M (ptp (timesync D) N) unit).
Proof.
  intros [Hsy _] [_ Hd]. unfold ptp_process_time_diff. apply stable_bind; [|intros; stable_tac].
  assert (∀ A (k : timesync_init_param (timesync D) → M (ptp (timesync D) N) A),
    stable typed_ptp (k init_param) → stable typed_ptp (params ≫= k)) as Hparams.
  { intros A k Hk s a s' Hs E. pose proof (ty_params _ Hs) as [Hp|Hp]; unfold params in E;
      rewrite run_bind, run_bind, run_gets, bind_Ok_l, Hp in E; [done|]. by eapply Hk. }
  case_match.
  - apply Hparams. cbn [init_param ip_coarse_time_received].
    apply stable_bind; [by apply client_stable, coarse_time_received_stable|]. intros _.
    apply stable_modify. intros s []. by split.
  - apply stable_bind; [apply stable_gets|]. intros i.
    apply (stable_lift_bind _ _ in_i32); [by intros; eapply i32_range|]. intros i' Hi.
    apply stable_bind; [apply stable_modify; intros s []; by split|]. intros _.
    apply stable_bind; [auto with stable|]. intros _. apply stable_bind; [auto with stable|]. intros _.
    apply Hparams. cbn [init_param ip_fine_time_received ip_error_report fmap option_fmap option_map call_client].
    apply stable_bind; [auto with stable|]. intros _.
    apply client_stable. apply (handle_stable (UpdateError (nanosec d) i')). by split.
Qed.

Lemma send_delay_request_stable m :
  stable typed_ptp (ptp_send_delay_request m : M (ptp (timesync D) N) unit).
Proof. unfold ptp_send_delay_request. stable_tac. Qed.

Lemma gptp_send_delay_request_stable m :
  stable typed_ptp (gptp_send_delay_request m : M (ptp (timesync D) N) unit).
Proof. unfold gptp_send_delay_request. stable_tac. Qed.

(** *** The interpreter *)

Lemma env_stable {A} (m : M (ptp (timesync D) N) A) : stable typed_ptp m → stable typed_world (zoom env_l m).
Proof. apply stable_zoom; [by intros s []|]. intros s t [] Ht. by split. Qed.

Lemma assign_stable f : (∀ w, typed_world w → typed_world (World (f (own w)) (env w))) →
  stable typed_world (assign f).
Proof. intros Hf. apply stable_modify, Hf. Qed.

Lemma read_systime_bind {A} (k : ptp_timestamp_t → M (world (ptp (timesync D) N)) A) :
  (∀ t, ts_wf t → stable typed_world (k t)) → stable typed_world (ptp_sync_read_systime ≫= k).
Proof.
  intros Hk. apply (triple_bind _ _ _ (λ t w, ts_wf t ∧ typed_world w)).
  - intros w t w' Hw E. unfold ptp_sync_read_systime in E. rewrite run_bind, run_gets, bind_Ok_l in E.
    destruct (ty_gettime _ Hw) as [Hc|Hc]; rewrite Hc in E; [done|].
    apply zoom_Ok in E as (p & E & ->). apply get_systime_wf in E as [Ht Hp]; [|apply Hw].
    split; [done|]. destruct Hw. by split.
  - intros t w a w' [Ht Hw] E. by eapply Hk.
Qed.

Lemma store_timestamp_wf m off t r : ptp_store_timestamp m off t = Ok r → ts_wf r.
Proof.
  unfold ptp_store_timestamp. intros E. minv. split; [apply to_i64_range|apply to_i32_range].
Qed.

Lemma delay_resp_calc_wf a b c d e sy df : delay_resp_calc a b c d e = Ok (sy, df) → ts_wf sy ∧ ts_wf df.
Proof.
  unfold delay_resp_calc. intros E. minv.
  repeat match goal with
  | E : ptp_time_add _ _ = Ok _ |- _ => apply ptp_time_add_fields in E as [? _]
  | E : ptp_time_sub _ _ = Ok _ |- _ => apply ptp_time_sub_fields in E as [? _]
  end. done.
Qed.

Lemma handle_sync_stable msg : stable typed_world (handle_sync msg : M (world (ptp (timesync D) N)) unit).
Proof.
  unfold handle_sync. apply stable_bind; [apply assign_stable; intros w []; by split|]. intros _.
  apply read_systime_bind. intros t Ht. apply assign_stable. intros w []. by split.
Qed.

Lemma send_event_stable hdr ts :
  stable typed_world (ptp_sync_send_delay_req_event hdr ts : M (world (ptp (timesync D) N)) unit).
Proof.
  intros w [] w' Hw E. unfold ptp_sync_send_delay_req_event in E.
  rewrite run_bind, run_gets, bind_Ok_l in E. 
  destruct (sSendDlyReqCb (own w)) as [cb|] eqn:Hc; [|done].
  assert (∀ m, stable typed_ptp (cb m)) as Hcb.
  { pose proof (ty_send _ Hw) as [Hs|[Hs|Hs]]; rewrite Hc in Hs; [done| |];
      injection Hs as ->; intros m; [apply send_delay_request_stable|apply gptp_send_delay_request_stable]. }
  rewrite run_bind, run_gets, bind_Ok_l in E. apply run_bind_Ok in E as ([u m] & w1 & E1 & E).
  apply run_lift_inv in E1 as [Ef ->]. apply fill_delay_req_keeps in Ef; [|apply Hw].
  rewrite run_bind in E. cbn in E. eapply (env_stable (cb m)); [apply Hcb| |exact E].
  destruct Hw. by split.
Qed.

Lemma handle_follow_up_stable msg : stable typed_world (handle_follow_up msg : M (world (ptp (timesync D) N)) unit).
Proof.
  unfold handle_follow_up. apply stable_bind; [apply assign_stable; intros w []; by split|]. intros _.
  apply stable_bind; [apply stable_gets|]. intros t0.
  apply (stable_lift_bind _ _ ts_wf); [by intros; eapply store_timestamp_wf|]. intros t Ht.
  apply stable_bind; [apply assign_stable; intros w []; by split|]. intros _.
  apply read_systime_bind. intros t' Ht'.
  apply stable_bind; [apply assign_stable; intros w []; by split|]. intros _. apply send_event_stable.
Qed.

Lemma report_diff_stable o sy d : ts_wf sy → ts_wf d →
  stable typed_world (ptp_sycn_report_diff o sy d : M (world (ptp (timesync D) N)) unit).
Proof.
  intros Hsy Hd w u w' Hw E. unfold ptp_sycn_report_diff in E. rewrite run_bind, run_gets, bind_Ok_l in E.
  destruct (ty_report _ Hw) as [Hc|Hc]; rewrite Hc in E; [done|].
  exact (env_stable _ (process_time_diff_stable o sy d Hsy Hd) _ _ _ Hw E).
Qed.

Lemma handle_delay_resp_stable msg :
  stable typed_world (handle_delay_resp msg : M (world (ptp (timesync D) N)) unit).
Proof.
  unfold handle_delay_resp. apply stable_bind; [apply assign_stable; intros w []; by split|]. intros _.
  apply read_systime_bind. intros t Ht.
  apply stable_bind; [apply assign_stable; intros w []; by split|]. intros _.
  apply stable_bind; [apply stable_gets|]. intros t0.
  apply (stable_lift_bind _ _ ts_wf); [by intros; eapply store_timestamp_wf|]. intros t' Ht'.
  apply stable_bind; [apply assign_stable; intros w []; by split|]. intros _.
  apply stable_bind; [apply stable_gets|]. intros s.
  apply (stable_lift_bind _ _ (λ r, ts_wf r.1 ∧ ts_wf r.2)).
  { intros [sy d] E. by eapply delay_resp_calc_wf. }
  intros [sy d] [Hsy Hd]. by apply report_diff_stable.
Qed.

Lemma interpreter_stable msg : stable typed_world (ptp_sync_interpreter msg : M (world (ptp (timesync D) N)) Z).
Proof.
  unfold ptp_sync_interpreter. apply stable_bind; [apply stable_lift|]. intros ty.
  repeat case_match; try apply stable_ret;
    (apply stable_bind; [|intros; apply stable_ret]);
    first [apply handle_sync_stable | apply handle_follow_up_stable | apply handle_delay_resp_stable
      | apply assign_stable; intros w []; by split].
Qed.

(** ** The theorem *)

(** Where the program is entered after its initialisation: a message for the
    interpreter, a call of a time service, the periodic call of the main loop. *)
Inductive entry :=
  | Message (msg : message)
  | Service (e : event)
  | MainLoop.

Definition enter (e : entry) : M (world (ptp (timesync D) N)) unit :=
  match e with
  | Message msg => ptp_sync_interpreter msg ;; mret tt
  | Service e => on_ptp (zoom client_l (handle e))
  | MainLoop => on_ptp handle_ptp
  end.

Definition typed_entry (e : entry) : Prop :=
  match e with Service e => typed_event e | _ => True end.

Fixpoint enter_all (l : list entry) : M (world (ptp (timesync D) N)) unit :=
  match l with
  | [] => mret tt
  | e :: l' => enter e ;; enter_all l'
  end.

Lemma handle_ptp_stable : stable typed_ptp (handle_ptp : M (ptp (timesync D) N) unit).
Proof.
  intros s u s' Hs E. unfold handle_ptp, params in E.
  rewrite run_bind, run_bind, run_gets, bind_Ok_l in E.
  destruct (ty_params _ Hs) as [Hp|Hp]; rewrite Hp in E; [done|].
  rewrite run_ret, bind_Ok_l in E. cbn [init_param ip_housekeeping call_client] in E.
  eapply client_stable; [apply housekeeping_stable|done|exact E].
Qed.

Lemma enter_stable e : typed_entry e → stable typed_world (enter e).
Proof.
  destruct e as [msg|e|]; cbn [typed_entry enter]; intros Hty.
  - apply stable_bind; [apply interpreter_stable|]. intros _. apply stable_ret.
  - apply env_stable, client_stable. by apply handle_stable.
  - apply env_stable, handle_ptp_stable.
Qed.

(** A check of the model against the types of C: whatever messages arrive, of any length and contents, whatever
    the time services report within the types of their arguments, and
    however the calls are interleaved: as long as no fault ends the program,
    every static variable holds a value of its C type, no callback but those
    of the transports is installed, and the message buffer keeps its size. *)
Lemma variables_keep_types l w w' : Forall typed_entry l → typed_world w →
  enter_all l w = Ok (tt, w') → typed_world w'.
Proof.
  intros Hl. revert w. induction Hl as [|e l He Hl IH]; intros w Hw E; cbn [enter_all] in E.
  - by injection E as <-.
  - apply run_bind_Ok in E as ([] & w1 & E1 & E). eapply IH; [|done]. by eapply enter_stable.
Qed.
End World.

(** A delay request that is answered and a coarse time, at the boot state with
    the callbacks of PTP over UDP. *)
Definition typed_boot : world (ptp (timesync sim) (nic net gemsim)) :=
  World (with_gettime_cb (Some get_systime) (with_report_cb (Some ptp_process_time_diff)
      (with_send_cb (Some ptp_send_delay_request) (ptp_sync_boot _))))
    (with_params (Some init_param) (ptp_boot (sync_at 5000000000 TS_FINE true) nic_ready)).

Lemma typed_boot_typed : typed_world typed_boot.
Proof.
  split; try by_computation; try (by right); [|right; by left].
  split; [|by_computation|by right]. split; try by_computation. split; by_computation.
Qed.

Lemma variables_keep_types_witness :
  match enter_all [Message (follow_up_message 1000 5); Service (Coarse 1700000000 0);
    Message (Msg 7 [0x0d; 2]); MainLoop] typed_boot with
  | Ok (_, w') => typed_world w'
  | Fault _ => False
  end.
Proof.
  assert (is_Ok (enter_all [Message (follow_up_message 1000 5); Service (Coarse 1700000000 0);
    Message (Msg 7 [0x0d; 2]); MainLoop] typed_boot) = true) as Hok by (vm_compute; reflexivity).
  destruct (enter_all _ typed_boot) as [[[] w']|] eqn:E; [|discriminate Hok].
  refine (variables_keep_types _ typed_boot w' _ typed_boot_typed E).
  repeat constructor; by_computation.
Defined.
