(* ===== verification/Program.v ===== *)
(** * The program as a whole: any order of activities

    After the initialisation for either transport, the reception of frames by
    the main loop, messages of the UDP receivers, the time services, the
    interrupts and recoveries of the driver, and the progress of the hardware,
    in any order in which each of them is possible. *)

From S2P Require Export Types.
From stdpp Require Import list gmap relations.

#[local] Open Scope Z_scope.

Section Program.
Context {N D G : Type} `{EthConfig} `{Xil D} `{Board} `{GemOptions} `{LwipLaws N} `{EmacPsLaws G}.
Context `{!RingsCreated G, !Arrivals G, !ArrivalsLaws G}.
Implicit Types s : program N D G.

(** ** Activities *)

Inductive activity :=
  | Receive (ipv6 : bool)               (* [xemacpsif_input] *)
  | Driver (e : Interleave.event)       (* interrupts, recoveries, filters *)
  | Enter (e : entry).                  (* the other entries of the program *)

Definition perform (a : activity) : M (program N D G) unit :=
  match a with
  | Receive ipv6 => receive ipv6 ;; mret tt
  | Driver e => zoom driver_l (run e) ;; mret tt
  | Enter e => enter e
  end.

(** What the driver does on its own account. *)
Definition own_account (e : Interleave.event) : Prop :=
  match e with
  | SendIrq | RecvIrq _ | TxErrors | EmacError | Interleave.Filter _ _ _ _ _ => True
  | _ => False
  end.

(** The driver's activities where they are allowed; the others always. *)
Definition possible (ti ri : nat) (a : activity) s : Prop :=
  match a with
  | Driver e => own_account e ∧ allowed ti ri e (net_of s)
  | _ => True
  end.

(** An activity of the program; progress of the hardware, which may complete
    descriptors and write to the buffers it has. *)
Inductive step (ti ri : nat) : relation (program N D G) :=
  | step_activity a s s' : possible ti ri a s → perform a s = Ok (tt, s') → step ti ri s s'
  | step_hardware n g s : view_of_stack n = net_view (net_of s) →
      no_log (gem_view g) = no_log (gem_view (nic_gem (net_of s))) →
      step ti ri s (at_net s (Nic n g (nic_vars (net_of s)))).

(** ** What every step keeps *)

Record sound (ti ri : nat) (A : Z → Z) s : Prop := {
  sound_transport : transport_registered s;
  sound_inv : nic_inv ti ri (net_of s);
  sound_refs p : app_refs ti ri p (net_of s) = A p
}.

Lemma sound_conserved ti ri A s s' : sound ti ri A s → transport_registered s' →
  conserved ti ri (net_of s) (net_of s') → sound ti ri A s'.
Proof. intros [Ht Hi Ha] Ht' [Hi' Ha']. split; [done..|]. intros p. by rewrite Ha'. Qed.

Lemma sound_driver ti ri A s d : sound ti ri A s → conserved ti ri (net_of s) d →
  sound ti ri A (at_net s d).
Proof.
  intros Hs Hc. apply (sound_conserved ti ri A s); [done| |exact Hc].
  eapply transport_kept, Hs. by apply same_own.
Qed.

(** An event of the driver on its own account never faults. *)
Lemma driver_runs ti ri A e s : sound ti ri A s → possible ti ri (Driver e) s →
  ∃ s', perform (Driver e) s = Ok (tt, s') ∧ sound ti ri A s'.
Proof.
  intros Hs [Hown Hal]. destruct (event_run ti ri e (net_of s) (sound_inv _ _ _ _ Hs) Hal)
    as (r & d & E & [Hi Ha] & _).
  exists (at_net s d). split.
  { cbn [perform]. rewrite run_bind, run_zoom. cbn [lget driver_l]. by rewrite E. }
  apply sound_driver; [done|]. split; [done|]. intros p. rewrite Ha.
  destruct e; cbn in Hown |- *; (done || lia).
Qed.

(** The other entries do not touch the driver but through the callbacks. *)
Lemma interpreter_conserves ti ri msg s r s' : (1 ≤ max_chain)%nat → transport_registered s →
  nic_inv ti ri (net_of s) → ptp_sync_interpreter msg s = Ok (r, s') →
  transport_registered s' ∧ conserved ti ri (net_of s) (net_of s').
Proof.
  intros Hm Ht Hi E.
  destruct (interpreter_running ti ri transport_registered (λ h, transport_keeps ti ri h Hm)
    transport_kept (rx_queue (net_of s)) (λ p, app_refs ti ri p (net_of s)) msg s r s')
    as [Ht' [Hi' Ha _]]; [split; [done|by apply holds_now]|done|done].
Qed.

Lemma enter_conserves ti ri e s u s' : (1 ≤ max_chain)%nat → transport_registered s →
  nic_inv ti ri (net_of s) → enter e s = Ok (u, s') →
  transport_registered s' ∧ conserved ti ri (net_of s) (net_of s').
Proof.
  intros Hm Ht Hi E. destruct e as [msg|e|]; cbn [enter] in E.
  - apply run_bind_Ok in E as (r & s1 & E & E'). rewrite run_ret in E'. injection E' as _ <-.
    by eapply interpreter_conserves.
  - apply zoom_Ok in E as (p & E & ->). apply zoom_Ok in E as (t & E & ->).
    split; [eapply transport_kept, Ht; by apply same_own|]. by split.
  - apply zoom_Ok in E as (p & E & ->). split; [eapply transport_kept, Ht; by apply same_own|].
    assert (keeps same_net (handle_ptp (T := timesync D) (N := nic N G))) as K
      by (apply keeps_bind; [apply _|apply params_same_net|intros; apply call_client_same_net]).
    pose proof (K _ _ _ E) as Hn. unfold same_net in Hn.
    change (conserved ti ri (p_net (env s)) (p_net p)). rewrite Hn. by split.
Qed.

Lemma step_sound ti ri A s s' : (1 ≤ max_chain)%nat → sound ti ri A s → step ti ri s s' →
  sound ti ri A s'.
Proof.
  intros Hm Hs Hstep. pose proof Hs as [Ht Hi _]. destruct Hstep as [[ipv6|e|e] s s' Hp E|n g s Hn Hg].
  - cbn [perform] in E. apply run_bind_Ok in E as (r & s1 & E & E'). rewrite run_ret in E'.
    injection E' as <-. destruct (receive_conserves ipv6 ti ri s r s1) as (Ht' & Hc & _); [done..|].
    by eapply sound_conserved.
  - destruct (driver_runs ti ri A e s Hs Hp) as (s1 & E1 & Hs1). rewrite E in E1. by injection E1 as ->.
  - destruct (enter_conserves ti ri e s tt s' Hm Ht Hi E) as [Ht' Hc]. by eapply sound_conserved.
  - apply sound_driver; [done|].
    eapply conserved_trans; [apply (same_conserved ti ri _ (Nic (nic_net (net_of s)) g (nic_vars (net_of s)))); [done|by apply rx_same_gem]|].
    apply same_conserved; [|by split].
    apply (same_conserved ti ri (net_of s)); [done|]. by apply rx_same_gem.
Qed.

Lemma steps_sound ti ri A s s' : (1 ≤ max_chain)%nat → rtc (step ti ri) s s' → sound ti ri A s →
  sound ti ri A s'.
Proof. intros Hm. induction 1 as [|s1 s2 s3 Hstep _ IH]; [done|]. intros Hs. apply IH. by eapply step_sound. Qed.

(** The initialisation for one of the two transports. *)
Lemma started_sound mhz type ti ri s u s' : 1 ≤ mhz ≤ 1000 →
  type = CLOCK_TYPE_PTP ∨ type = CLOCK_TYPE_GPTP → System.fresh s → nic_inv ti ri (net_of s) →
  timesync_init (mhz * 1000000) type s = Ok (u, s') →
  sound ti ri (λ p, app_refs ti ri p (net_of s)) s'.
Proof.
  intros Hmhz Hty Hf Hi E. destruct (init_run mhz type s Hmhz Hf) as (s1 & E1 & Htr & _ & _ & _ & Hc).
  rewrite E in E1. injection E1 as _ <-. destruct (Hc ti ri Hi) as [Hi' Ha]. split; [|done..].
  destruct Hty as [-> | ->]; [right|left]; apply Htr.
Qed.

(** C10. The whole program.  After the initialisation for one of the two
    transports, with frames received by the main loop, messages from the UDP
    receivers, time services, interrupts and any progress of the hardware in any
    order, and in between recoveries where all receive descriptors are armed and
    256 KiB are left in [bd_space], and changes of the filter at rest: the
    invariants of both rings hold in every state, and every reference of the
    program to a buffer is one that it had before the initialisation.  So no such
    order of activities leaks a buffer, frees one twice, or frees one that a
    descriptor still names; the callbacks stay those of a transport, and no
    activity of the driver itself that is possible faults.  Recoveries elsewhere
    are excluded, and must be: see [recovery_frees_queued] and
    [recoveries_bounded]. *)
Theorem program_conserves_buffers mhz type ti ri s0 s1 s :
  1 ≤ mhz ≤ 1000 → type = CLOCK_TYPE_PTP ∨ type = CLOCK_TYPE_GPTP →
  System.fresh s0 → nic_inv ti ri (net_of s0) → (1 ≤ max_chain)%nat →
  timesync_init (mhz * 1000000) type s0 = Ok (tt, s1) → rtc (step ti ri) s1 s →
  nic_inv ti ri (net_of s) ∧
  (∀ p, app_refs ti ri p (net_of s) = app_refs ti ri p (net_of s0)) ∧
  transport_registered s ∧
  ∀ e, possible ti ri (Driver e) s → is_Ok (perform (Driver e) s) = true.
Proof.
  intros Hmhz Hty Hf Hi Hm E Hsteps.
  pose proof (started_sound mhz type ti ri s0 tt s1 Hmhz Hty Hf Hi E) as Hs1.
  pose proof (steps_sound ti ri _ s1 s Hm Hsteps Hs1) as Hs.
  split; [apply Hs|]. split; [apply Hs|]. split; [apply Hs|]. intros e He.
  by destruct (driver_runs ti ri _ e s Hs He) as (s' & -> & _).
Qed.
End Program.
(** ** A run of the program *)

(** Activities that are possible where they happen. *)
Definition due (a : activity) (s : program net sim gemsim) : bool :=
  match a with
  | Driver (RecvIrq fuel) => bool_decide (arrivals (nic_gem (net_of s)) < fuel)%nat
  | Driver SendIrq | Receive _ | Enter _ => true
  | _ => false
  end.

Fixpoint performs (l : list activity) (s : program net sim gemsim) : outcome (program net sim gemsim) :=
  match l with
  | [] => Ok s
  | a :: l' => if due a s then '(_, s') ← perform a s; performs l' s' else Fault (Hang "not possible")
  end.

Lemma due_possible a s : due a s = true → possible 0 0 a s.
Proof.
  destruct a as [|e|]; cbn; [done| |done]. destruct e; try done.
  intros Hf. apply bool_decide_eq_true in Hf. by split.
Qed.

Lemma performs_steps l s s' : performs l s = Ok s' → rtc (step 0 0) s s'.
Proof.
  revert s. induction l as [|a l IH]; intros s E; cbn in E; [injection E as <-; constructor|].
  destruct (due a s) eqn:Ed; [|done]. apply bind_Ok in E as ([[] s1] & E1 & E).
  eapply rtc_l; [|by apply IH]. eapply step_activity; [by apply due_possible|exact E1].
Qed.

(** Two frames arrive and are received one after the other; the main loop runs
    and the controller reports sent frames. *)
Definition activities : list activity :=
  [Driver (RecvIrq 3); Receive false; Receive false; Enter MainLoop; Driver SendIrq].

Lemma program_boot_inv : nic_inv 0 0 (net_of program_boot).
Proof. apply driver_inv, nic_ready_reachable. Qed.

Lemma activities_run : is_Ok ('(_, s1) ← timesync_init (333 * 1000000) CLOCK_TYPE_GPTP program_boot; performs activities s1) = true.
Proof. vm_compute. reflexivity. Qed.

Lemma program_conserves_buffers_witness :
  match timesync_init (333 * 1000000) CLOCK_TYPE_GPTP program_boot with
  | Ok (_, s1) => match performs activities s1 with
    | Ok s => nic_inv 0 0 (net_of s) ∧
        ∀ p, app_refs 0 0 p (net_of s) = app_refs 0 0 p (net_of program_boot)
    | Fault _ => False
    end
  | Fault _ => False
  end.
Proof.
  pose proof activities_run as Hok. revert Hok.
  destruct (timesync_init (333 * 1000000) CLOCK_TYPE_GPTP program_boot) as [[[] s1]|] eqn:E1; intros Hok; [|discriminate Hok].
  rewrite bind_Ok_l in Hok. destruct (performs activities s1) as [s|] eqn:E2; [|discriminate Hok].
  destruct (program_conserves_buffers 333 CLOCK_TYPE_GPTP 0 0 program_boot s1 s) as (Hi & Ha & _).
  - by_computation.
  - by right.
  - exact program_boot_fresh.
  - exact program_boot_inv.
  - by_computation.
  - exact E1.
  - by apply (performs_steps activities).
  - split; [exact Hi|exact Ha].
Defined.
